(* ===== verification/_CoqProject ===== *)
-Q . S2P
Prelude.v
ListHead.v
SlobBlocks.v
Kernel.v
Slob.v
SlobFuel.v
SlobFlags.v
SlobPage.v
SlobSearch.v
SlobInv.v
SlobAlloc.v
SlobFree.v
SlobAcct.v
SlobRuns.v
SlobBoot.v
SlobProps.v
SlobThreads.v
SlobCounter.v
SlobThreadsInv.v
SlobThreadsRuns.v
SlobThreadsBoot.v
SlobThreadsProps.v
Kmalloc.v
KmallocRuns.v
KmallocOps.v
KmallocSteps.v
KmallocReach.v
KmallocBoot.v
KmallocProps.v
KmallocThreads.v
KmallocThreadsInv.v
KmallocThreadsSteps.v
KmallocThreadsReach.v
KmallocThreadsProps.v
Sstf.v
SstfQueue.v
SstfProps.v
Ramdisk.v
RamdiskXfer.v
RamdiskProps.v
SbdProps.v
BlockStack.v
Threads.v
Philosopher.v
Producer.v
SearchList.v
ListThreads.v
Barber.v
Smokers.v
Bits.v
Mt19937.v
Mt19937Seq.v
