(* ===== verification/Prelude.v ===== *)
(** * Operating-systems coursework: a verification development

    The repository collects the kernel and user programs of an operating
    systems course. The development models the C programs that carry logic of
    their own, one group of files per program, and proves what makes each of
    them work, or, where it does not, what it does instead. The programs
    are independent of each other, but for the elevator, which hands its requests
    to the RAM disk; they share this prelude, the kernel's circular lists
    ([ListHead]) and the small machinery for threads ([Threads]).

    ** The programs and the files that model them

    *** 1. The SLOB allocator, src/assignments/a4/slob.c

    Small allocations are cut from 4096-byte pages. Free blocks of a page form
    an address-ordered list threaded through the free memory itself (their
    "headers" are one or two slobidx_t); partially free pages hang on one of
    three list_heads by request size; slob_alloc searches a list, takes a block
    with slob_page_alloc or gets a new page; slob_free puts the block back,
    merging neighbours, and gives a completely free page back. The assignment
    added a best-fit scan to the search and two system calls that count units.

    - [Kernel]: the macros and functions of the rest of the kernel, as a class
      [Kernel] of parameters and a class [KernelLaws] of their documented
      behaviour; [I386] is a concrete instance on which the laws hold.
    - [ListHead]: struct list_head. [ListOps] is the interface (list_add,
      list_del, list_move_tail, the next and prev fields), [ListLaws] what
      its operations promise about the cycles they maintain ([ring]); [Links] is
      the implementation by explicit next/prev pointers and discharges the laws.
      Everything about slob and the elevator is proved against the interface.
    - [Slob]: the program itself, one definition per C function (loops and long
      branches are definitions of their own), under the C names: set_slob,
      slob_units, slob_next, slob_last, set/clear_slob_page_free,
      slob_page_alloc (page_alloc_loop, take_block), slob_new_pages,
      slob_free_pages, slob_alloc (search_pages, best_fit_loop,
      alloc_from_new_page with its critical section fill_page, memset_zero),
      slob_free (its critical section free_section, insert_block, find_gap,
      return_page), free_units, sys_slob_units_used, sys_slob_units_free. The [state] is the
      memory by address, the page descriptors, the list nodes, the counter
      [pages], current->reclaim_state and the list of pages given back.
    - [SlobBlocks]: the abstract free list of a page, a list of (offset,
      length) blocks, with the reference operations [alloc_blocks] (first fit with
      alignment) and [free_blocks] (address-ordered insertion with merging).
    - [SlobFuel]: more fuel never changes an answer. [SlobPage]: the header
      round trip and the refinements of slob_page_alloc and of slob_free's
      insertion to [SlobBlocks]. [SlobSearch]: the best-fit scan, the pages
      that the search tries, in their order, and the rotation of the list.
      [SlobInv]: the invariant [Inv] of a whole state against a ledger of held
      blocks. [SlobAlloc], [SlobFree], [SlobAcct]: slob_alloc, slob_free and the
      counters preserve it and do what they should.
    - [SlobRuns]: a configuration is a state and the ledger of blocks callers
      hold; [step] allocates or frees, [reachable] is closure from the boot
      state. [SlobBoot]: concrete runs on [I386] and [Links], which serve as
      witnesses. [SlobProps]: the properties.
    - [SlobThreads]: any number of threads inside the allocator. A call is a
      program counter that goes through the critical sections of slob_lock and
      what happens outside of the lock (the new page, the return of a page,
      memset, pages++ and pages-- as one instruction or as a load and a store),
      [thread_step] being one such section and [wstep] a step of any thread.
      [SlobCounter]: the critical sections do not touch the counter.
      [SlobThreadsInv], [SlobThreadsRuns]: the invariant between sections, one
      lemma per section, and all interleavings. [SlobThreadsBoot]: a scheduler
      and concrete interleavings. [SlobThreadsProps]: safety of every
      interleaving, the abstract heap it refines, the sections as the parts of
      slob_alloc and slob_free, when the counter is exact, what a system call
      answers while threads run between its two reads, and the update that is lost.
    - [Kmalloc]: the front end above the allocator: __do_kmalloc_node, kfree,
      ksize, __kmem_cache_create, slob_alloc_node, kmem_cache_free,
      kmem_rcu_free and the boot cache. Class [Mm] holds the constants of the
      architecture, [MmLaws] what is known of them. A kmalloc size and the RCU
      footer are stored in the allocator's own memory, as little-endian 32-bit
      words in slobidx_t cells. [SlobFlags]: which pages carry PageSlab.
    - [KmallocRuns]: the objects clients hold ([kblock]: small, whole pages, from
      a cache, waiting for RCU) over the ledger of slob blocks, and the invariant
      of both. [KmallocOps], [KmallocSteps]: each operation keeps it.
      [KmallocReach]: runs of clients that allocate, write and free, and of
      callbacks that run at any later time. [KmallocBoot]: concrete runs.
      [KmallocProps]: the properties, on every reachable state: when an allocation
      fails and what a successful one returns, what is given back to whom, and that
      the objects that remain are all that is held and counted.
    - [KmallocThreads]: any number of threads inside the front end. A call is the
      part before slob_alloc or slob_free, the sections of [SlobThreads], and the
      part after, which together are the operations of [Kmalloc].
      [KmallocThreadsInv]: every run is a run of the allocator below ([abs]), the
      sizes stored next to the objects stay intact, and objects too large for a slab
      page have pages of their own, apart from each other and from the slab pages.
      [KmallocThreadsSteps]: one lemma per section. [KmallocThreadsReach]: all interleavings.
      [KmallocThreadsProps]: safety, and that what is freed is what was allocated.

    *** 2. The SSTF elevator, src/assignments/a2/sstf-iosched.c

    [Sstf]: the handlers of the elevator, the queue being a list_head of
    requests. [SstfQueue]: the abstract queue (a list and the head position) and
    the refinement of each handler. [SstfProps]: the elevator refines an abstract
    one and loses no request, unless an insertion never ends; where the insertion
    loop inserts and exactly when it does not end; dispatch, draining, neighbours,
    initialisation, and a run that shows the result is neither sorted
    nor nearest first.

    *** 3. The RAM disks, src/assignments/a3/ramdisk.c and sbd.c

    [Ramdisk]: the encrypted driver (sbd_transfer, sbd_request, sbd_getgeo,
    sbd_init, sbd_exit); the block cipher is a parameter. Its Module [Sbd] is the
    plain driver (sbd_transfer, sbd_request on the older block layer, sbd_ioctl,
    sbd_init, sbd_exit). [RamdiskXfer]: the transfer on byte lists.
    [RamdiskProps]: write/read round trip, frame, the bounds check and how it
    wraps, the request loop, which serves file system requests and hangs at the first
    other one, initialisation with its error paths and with a cipher that could not
    be had, equivalence with the plain driver under the identity cipher.
    [SbdProps]: the plain driver's request loop returns and serves every segment
    once; it can only be loaded with a dynamic major number.
    [BlockStack] puts the elevator on top of the encrypted driver, as the block
    layer does: whatever order the elevator chooses, unless it hangs in an insertion,
    writes to different sectors are all stored and can be read back.

    *** 4. Threaded programs

    [Threads]: a program is a function from an action and a state to the next
    state, None where the thread blocks; [tstep] is any action, [reach_inv] the
    rule of invariants, [halted] a deadlock, [run_bound] turns a decreasing
    measure into termination of every schedule, [ends_in] runs a schedule.
    Each program has its program counters as an inductive type and one step
    function per thread function of the C file, under its name.

    - [Philosopher]: src/recitations/philosopher.c: mutual exclusion, absence of
      deadlock, termination of every schedule.
    - [Producer]: src/assignments/a1/producer.c: consumer, producer and main, from
      while (1) to pthread_exit. No thread gets to pthread_exit, so main never gets
      past its first pair, which is safe; more consumers, or the
      read before the lock, are not.
    - [SearchList]: src/recitations/concurrency3.c, the list operations as
      functions on a heap, functional correctness when they do not overlap.
      [ListThreads]: the same operations step by step under the semaphores:
      mutual exclusion and absence of deadlock for all threads, safety of
      searchers with inserters, and the use after free once there are deleters.
    - [Barber]: src/recitations/concurrency4.c: mutual exclusion, and three ways
      in which it goes wrong: a lost wake-up, a mutex that stays locked, an index
      beyond the array.
    - [Smokers]: src/recitations/concurrency5.cpp, for any clock: mutual exclusion
      at the table, and no more items used than were put down; as long as the
      deadline of sem_timedwait lies ahead, no item is lost and nothing deadlocks;
      with the program's deadline of ten seconds after 1970 nobody waits. Semaphores are unbounded; a run shorter than SEM_VALUE_MAX steps
      cannot overflow one.

    *** 5. Random numbers, src/assignments/a1/mt19937ar.c

    [Bits]: bit facts. [Mt19937]: init_genrand, init_by_array, genrand_int32 and
    the functions on top of it, and producer.c's random_gen: ranges,
    well-formedness, invertible tempering, independence of the width of unsigned
    long. A double is a fraction with a power of two below; only genrand_real1
    rounds: to 53 bits, to the nearest fraction with ties to even
    ([genrand_real1_rounds]), and as the Standard Library's binary64 on samples.
    [Mt19937Seq]: the array renewed in place yields the linear recurrence that
    defines the Mersenne twister, checked against the reference output.

    ** Conventions

    A pointer is its address in Z and NULL is 0. Integers are Z, kept at their C
    width by [wrapu] and [wraps] wherever the value can leave it. Kernel code
    answers a [res]: a result, a BUG_ON ([Bug]), or [Fuel] when the bound given to
    an unbounded C loop was too small. A property never assumes enough fuel:
    [returns f a] says that from some bound on the answer is [Ret a], so it
    contains termination; [fuel_mono] transfers a computed run to it. The bounds
    that suffice are the number of blocks of a page (at most 2048), the number
    of pages of a list and the number of requests in a queue; the 50 of
    [best_fit_loop] is not fuel but the bound the C code itself has. A loop that
    can run for ever is shown to by proving [Fuel] for every bound. Code of other
    projects (the block cipher, the page allocator, the free choice of
    a scheduler, malloc) is a parameter, with the laws relied upon as
    hypotheses or classes and a concrete instance for the witnesses.

    ** Not modelled

    - what the page allocator does between two sections of a thread: a page is
      taken and marked, or unmarked and given back, in one step;
    - the tracing, lockdep and kmemleak hooks, module and system call
      registration (syscalls.h, syscall_32.tbl), the patches (which hold the same
      code as the files), test drivers, scripts and write-ups. *)
From Stdlib Require Export ZArith Lia.
From stdpp Require Export functions numbers prelude list.
#[global] Open Scope Z_scope.

(** ** Outcome of a piece of kernel code

    [Ret a]: it returned [a]; [Bug]: a BUG_ON fired; [Fuel]: the loop bound
    given to the model was used up before the code left its loop. *)
Inductive res (A : Type) : Type :=
| Ret (a : A)
| Bug
| Fuel.
Arguments Ret {A} _.
Arguments Bug {A}.
Arguments Fuel {A}.

#[export] Instance res_ret : MRet res := fun A a => Ret a.
#[export] Instance res_bind : MBind res :=
  fun A B f c => match c with Ret a => f a | Bug => Bug | Fuel => Fuel end.

(** [f] returns [a]: with any sufficient loop bound, the result is [Ret a]. *)
Definition returns {A} (f : nat -> res A) (a : A) : Prop :=
  exists n, forall fuel, (n <= fuel)%nat -> f fuel = Ret a.

Lemma returns_unique {A} (f : nat -> res A) a b : returns f a -> returns f b -> a = b.
Proof.
  intros [n Hn] [k Hk]. specialize (Hn (n + k)%nat ltac:(lia)). specialize (Hk (n + k)%nat ltac:(lia)).
  congruence.
Qed.

(** More fuel never changes an answer. *)
Definition fuel_mono {A} (f : nat -> res A) : Prop :=
  forall n n' a, f n = Ret a -> (n <= n')%nat -> f n' = Ret a.

Lemma returns_at {A} (f : nat -> res A) a n : fuel_mono f -> f n = Ret a -> returns f a.
Proof. intros M E. exists n. intros fuel. by apply M. Qed.

Lemma returns_from {A} (f : nat -> res A) a n :
  (forall fuel, (n < fuel)%nat -> f fuel = Ret a) -> returns f a.
Proof. intros Hf. exists (S n). intros fuel ?. by apply Hf. Qed.

(** ** Notations of the development *)
Declare Scope kernel_scope.
Delimit Scope kernel_scope with K.
#[global] Open Scope kernel_scope.
Notation "x '.&' y" := (Z.land x y) (at level 40, left associativity) : kernel_scope.
Notation "x '.^' y" := (Z.lxor x y) (at level 45, left associativity) : kernel_scope.
Notation "x '.|' y" := (Z.lor x y) (at level 50, left associativity) : kernel_scope.
Abbreviation NULL := 0.

(** ** Machine integers *)

(** Conversion to an unsigned [w]-bit integer. *)
Definition wrapu (w x : Z) : Z := x mod 2 ^ w.

(** Conversion to a signed (two's complement) [w]-bit integer. *)
Definition wraps (w x : Z) : Z := (x + 2 ^ (w - 1)) mod 2 ^ w - 2 ^ (w - 1).

Lemma wrapu_small w x : 0 <= x < 2 ^ w -> wrapu w x = x.
Proof. apply Z.mod_small. Qed.

Lemma wrapu_bounds w x : 0 <= w -> 0 <= wrapu w x < 2 ^ w.
Proof. intros Hw. apply Z.mod_pos_bound. lia. Qed.

Lemma wraps_small w x : 0 < w -> - 2 ^ (w - 1) <= x < 2 ^ (w - 1) -> wraps w x = x.
Proof.
  intros Hw Hx. unfold wraps.
  assert (2 ^ w = 2 * 2 ^ (w - 1)) as E.
  { rewrite <- Z.pow_succ_r by lia. f_equal. lia. }
  rewrite Z.mod_small by lia. lia.
Qed.

(** Clearing the low [k] bits of a number. *)
Lemma land_lnot_low x k :
  0 <= k -> x .& Z.lnot (2 ^ k - 1) = x - x mod 2 ^ k.
Proof.
  intros Hk.
  replace (2 ^ k - 1) with (Z.ones k) by (rewrite Z.ones_equiv; lia).
  rewrite <- Z.ldiff_land, Z.ldiff_ones_r by lia.
  rewrite Z.shiftl_mul_pow2, Z.shiftr_div_pow2 by lia.
  pose proof (Z.div_mod x (2 ^ k)). lia.
Qed.

(** ** Tactics *)

(** Case analysis on the first integer comparison in sight. *)
Ltac zcase :=
  match goal with
  | |- context [?a <? ?b] => destruct (Z.ltb_spec a b)
  | |- context [?a <=? ?b] => destruct (Z.leb_spec a b)
  | |- context [?a =? ?b] => destruct (Z.eqb_spec a b)
  | |- context [?a >? ?b] => rewrite (Z.gtb_ltb a b)
  | |- context [?a >=? ?b] => rewrite (Z.geb_leb a b)
  end.

Ltac zcase_in H :=
  match type of H with
  | context [?a <? ?b] => destruct (Z.ltb_spec a b)
  | context [?a <=? ?b] => destruct (Z.leb_spec a b)
  | context [?a =? ?b] => destruct (Z.eqb_spec a b)
  | context [?a >? ?b] => rewrite (Z.gtb_ltb a b) in H
  | context [?a >=? ?b] => rewrite (Z.geb_leb a b) in H
  end.

(** Decide a comparison the context settles. *)
Ltac zdec :=
  match goal with
  | |- context [?a <? ?b] =>
      first [ rewrite (proj2 (Z.ltb_lt a b)) by lia | rewrite (proj2 (Z.ltb_ge a b)) by lia ]
  | |- context [?a <=? ?b] =>
      first [ rewrite (proj2 (Z.leb_le a b)) by lia | rewrite (proj2 (Z.leb_gt a b)) by lia ]
  | |- context [?a =? ?b] =>
      first [ rewrite (proj2 (Z.eqb_eq a b)) by lia | rewrite (proj2 (Z.eqb_neq a b)) by lia ]
  end.

(** Side conditions: trivial or linear. *)
Ltac side := first [done | lia].

(** ** Lists *)
Lemma omap_split {A B} (f : A -> option B) l1 x l2 :
  omap f (l1 ++ x :: l2) ≡ₚ option_list (f x) ++ omap f (l1 ++ l2).
Proof.
  rewrite !omap_app. simpl. destruct (f x); simpl; [|done]. by rewrite <- Permutation_middle.
Qed.

Lemma filter_ne (x : Z) (l : list Z) : x ∉ l -> filter (fun y => y ≠ x) l = l.
Proof.
  induction l as [|y l IH]; intros Hx; [done|]. apply not_elem_of_cons in Hx as [Hxy Hx].
  rewrite filter_cons, decide_True by congruence. by rewrite IH.
Qed.

(** ** Sums over lists *)
Section sums.
Context {A : Type} (f : A -> Z).

Fixpoint sumZ (l : list A) : Z :=
  match l with
  | [] => 0
  | x :: l => f x + sumZ l
  end.

Lemma sumZ_app l1 l2 : sumZ (l1 ++ l2) = sumZ l1 + sumZ l2.
Proof. induction l1 as [|x l1 IH]; simpl; lia. Qed.

Lemma sumZ_perm l1 l2 : l1 ≡ₚ l2 -> sumZ l1 = sumZ l2.
Proof. induction 1; simpl; lia. Qed.

Lemma sumZ_nonneg l : (forall x, x ∈ l -> 0 <= f x) -> 0 <= sumZ l.
Proof.
  induction l as [|x l IH]; simpl; intros Hf; [lia|].
  pose proof (Hf x ltac:(set_solver)).
  assert (0 <= sumZ l) by (apply IH; set_solver). lia.
Qed.
End sums.

Lemma sumZ_ext {A} (f g : A -> Z) l :
  (forall x, x ∈ l -> f x = g x) -> sumZ f l = sumZ g l.
Proof.
  induction l as [|x l IH]; simpl; intros E; [done|].
  rewrite (E x) by set_solver. rewrite IH; [done|set_solver].
Qed.

#[export] Instance sumZ_proper {A} (f : A -> Z) : Proper ((≡ₚ) ==> eq) (sumZ f).
Proof. intros l1 l2. apply sumZ_perm. Qed.
