(* ===== verification/ListHead.v ===== *)
(** The kernel's circular doubly linked lists (struct list_head).

    include/linux/list.h is not part of the repository: its operations are the
    class [ListOps] and what their documentation promises is the class
    [ListLaws], stated over an abstraction [ring h l] that says the nodes [l],
    in this cyclic order, are linked into one circular list in the heap [h].
    Clients (the elevator and the slob allocator) are proved against the laws.
    [Links] is an implementation that satisfies them, so the interface is
    inhabited and concrete runs evaluate. *)
From S2P Require Import Prelude.

(** A node is named by the address of its struct list_head. *)
Class ListOps (H : Type) : Type := {
  lnext : H -> Z -> Z;                       (* the field ->next *)
  lprev : H -> Z -> Z;                       (* the field ->prev *)
  INIT_LIST_HEAD : Z -> H -> H;
  list_add : Z -> Z -> H -> H;               (* list_add(new, head) *)
  list_del : Z -> H -> H;
  list_del_init : Z -> H -> H;
  list_move_tail : Z -> Z -> H -> H;         (* list_move_tail(list, head) *)
  list_empty : Z -> H -> bool;
}.

Class ListLaws (H : Type) `{ListOps H} : Type := {
  ring : H -> list Z -> Prop;
  ring_nodup h l : ring h l -> NoDup l;
  ring_rotate h x l : ring h (x :: l) -> ring h (l ++ [x]);
  ring_next h x y l : ring h (x :: y :: l) -> lnext h x = y;
  ring_prev h x y l : ring h (x :: y :: l) -> lprev h y = x;
  ring_single h x : ring h [x] -> lnext h x = x /\ lprev h x = x;
  ring_init h x : ring (INIT_LIST_HEAD x h) [x];
  ring_init_frame h x r : ring h r -> x ∉ r -> ring (INIT_LIST_HEAD x h) r;
  (* list_add: insert a new entry after the specified head *)
  ring_add h n x l : ring h (x :: l) -> n ∉ x :: l -> ring (list_add n x h) (x :: n :: l);
  ring_add_frame h n x l r :
    ring h (x :: l) -> ring h r -> n ∉ r -> r ## (x :: l) -> ring (list_add n x h) r;
  (* list_del: deletes entry from list *)
  ring_del h x y l : ring h (x :: y :: l) -> ring (list_del x h) (y :: l);
  ring_del_frame h x l r :
    ring h (x :: l) -> ring h r -> r ## (x :: l) -> ring (list_del x h) r;
  (* list_del_init: deletes entry from list and reinitialises it *)
  ring_del_init h x y l : ring h (x :: y :: l) -> ring (list_del_init x h) (y :: l);
  ring_del_init_self h x l : ring h (x :: l) -> ring (list_del_init x h) [x];
  ring_del_init_frame h x l r :
    ring h (x :: l) -> ring h r -> r ## (x :: l) -> ring (list_del_init x h) r;
  (* list_move_tail: delete from one list and add as the other's tail, that is
     just before [y] *)
  ring_move_tail h x l1 y l2 :
    ring h (x :: l1 ++ y :: l2) -> ring (list_move_tail x y h) (x :: y :: l2 ++ l1);
  ring_move_tail_frame h x y l r :
    ring h (x :: l) -> y ∈ l -> ring h r -> r ## (x :: l) -> ring (list_move_tail x y h) r;
  list_empty_spec h x l : ring h (x :: l) -> list_empty x h = true <-> l = [];
}.

(** ** Consequences of the laws *)
Section ring_facts.
Context {H : Type} `{ListLaws H}.
Implicit Types (h : H) (x y : Z) (l : list Z).

Lemma ring_rotate_app h l1 l2 : ring h (l1 ++ l2) -> ring h (l2 ++ l1).
Proof.
  revert l2. induction l1 as [|x l1 IH]; intros l2; simpl.
  - by rewrite app_nil_r.
  - intros R%ring_rotate. rewrite <- app_assoc in R.
    apply IH in R. by rewrite <- app_assoc in R.
Qed.

Lemma ring_last h x l y : ring h (x :: l ++ [y]) -> lprev h x = y.
Proof.
  intros R. apply (ring_rotate_app h (x :: l) [y]) in R. exact (ring_prev _ _ _ _ R).
Qed.

Lemma ring_prev_mid h l1 x y l2 : ring h (l1 ++ x :: y :: l2) -> lprev h y = x.
Proof. intros R%ring_rotate_app. exact (ring_prev _ _ _ _ R). Qed.

Lemma ring_next_mid h l1 x y l2 : ring h (l1 ++ x :: y :: l2) -> lnext h x = y.
Proof. intros R%ring_rotate_app. exact (ring_next _ _ _ _ R). Qed.

Lemma ring_next_last h x l y : ring h (x :: l ++ [y]) -> lnext h y = x.
Proof.
  intros R. apply (ring_rotate_app h (x :: l) [y]) in R. exact (ring_next _ _ _ _ R).
Qed.

(** Deleting a node of the tail of a ring. *)
Lemma ring_del_mid h l1 x l2 :
  l1 ≠ [] -> ring h (l1 ++ x :: l2) -> ring (list_del x h) (l1 ++ l2).
Proof.
  intros Hl R. destruct l1 as [|y l1]; [done|].
  apply ring_rotate_app in R. simpl in R.
  apply (ring_rotate_app _ l2 (y :: l1)).
  destruct l2 as [|z l2]; simpl in *.
  - by apply ring_del.
  - by apply ring_del in R.
Qed.

Lemma ring_del_init_mid h l1 x l2 :
  l1 ≠ [] -> ring h (l1 ++ x :: l2) -> ring (list_del_init x h) (l1 ++ l2).
Proof.
  intros Hl R. destruct l1 as [|y l1]; [done|].
  apply ring_rotate_app in R. simpl in R.
  apply (ring_rotate_app _ l2 (y :: l1)).
  destruct l2 as [|z l2]; simpl in *.
  - by apply ring_del_init.
  - by apply ring_del_init in R.
Qed.

(** Adding after a node in the middle of a ring. *)
Lemma ring_add_mid h n l1 x l2 :
  ring h (l1 ++ x :: l2) -> n ∉ l1 ++ x :: l2 -> ring (list_add n x h) (l1 ++ x :: n :: l2).
Proof.
  intros R Hn. apply ring_rotate_app in R. simpl in R.
  apply (ring_add _ n) in R; [|set_solver].
  by apply (ring_rotate_app _ (x :: n :: l2) l1) in R.
Qed.
End ring_facts.

(** ** An implementation of the interface *)
Module Links.
Record links := mk_links { nx : Z -> Z; pv : Z -> Z }.

(** Make [y] the successor of [x]. *)
Definition link (x y : Z) (h : links) : links :=
  {| nx := <[x := y]> (nx h); pv := <[y := x]> (pv h) |}.

Definition unlink (x : Z) (h : links) : links := link (pv h x) (nx h x) h.
Definition self_link (x : Z) (h : links) : links := link x x h.
Definition insert_after (n x : Z) (h : links) : links := link x n (link n (nx h x) h).

#[export] Instance links_ops : ListOps links := {
  lnext := nx;
  lprev := pv;
  INIT_LIST_HEAD := self_link;
  list_add := insert_after;
  list_del := unlink;
  list_del_init := fun x h => self_link x (unlink x h);
  list_move_tail := fun x y h =>
    let h1 := unlink x h in insert_after x (pv h1 y) h1;
  list_empty := fun x h => nx h x =? x;
}.

Definition linked (h : links) (x y : Z) : Prop := nx h x = y /\ pv h y = x.

(** From [x] through [l] to [y]. *)
Fixpoint path (h : links) (x : Z) (l : list Z) (y : Z) : Prop :=
  match l with
  | [] => linked h x y
  | z :: l => linked h x z /\ path h z l y
  end.

Definition links_ring (h : links) (l : list Z) : Prop :=
  match l with
  | [] => False
  | x :: t => NoDup (x :: t) /\ path h x t x
  end.

Lemma path_app h x l1 z l2 y :
  path h x (l1 ++ z :: l2) y <-> path h x l1 z /\ path h z l2 y.
Proof.
  revert x. induction l1 as [|w l1 IH]; intros x; simpl; [done|].
  rewrite IH. tauto.
Qed.

Lemma link_linked h x y : linked (link x y h) x y.
Proof. split; simpl; by rewrite fn_lookup_insert. Qed.

Lemma link_linked_ne h x y a b : a ≠ x -> b ≠ y -> linked h a b -> linked (link x y h) a b.
Proof. intros Ha Hb [E1 E2]. split; simpl; by rewrite fn_lookup_insert_ne. Qed.

Lemma path_link h x y a l b :
  x ∉ a :: l -> y ∉ l ++ [b] -> path h a l b -> path (link x y h) a l b.
Proof.
  revert a. induction l as [|z l IH]; intros a Hx Hy; simpl.
  - apply link_linked_ne; set_solver.
  - intros [L P]. split; [apply link_linked_ne; set_solver|].
    apply IH; set_solver.
Qed.

Lemma last_cons (l : list Z) z x : List.last (z :: l) x = List.last l z.
Proof.
  revert z x. induction l as [|a l IH]; intros z x; [done|].
  change (List.last (a :: l) x = List.last (a :: l) z). by rewrite !IH.
Qed.

Lemma path_ends h x l y : path h x l y ->
  nx h x = List.hd y l /\ pv h y = List.last l x.
Proof.
  revert x. induction l as [|z l IH]; intros x; [done|].
  intros [[E1 E2] P%IH]. split; [done|]. rewrite last_cons. by destruct P.
Qed.

Lemma last_elem (l : list Z) x : l = [] \/ List.last l x ∈ l.
Proof.
  revert x. induction l as [|a l IH]; intros x; [by left|right].
  rewrite last_cons. destruct (IH a) as [->|]; set_solver.
Qed.

Lemma hd_elem (l : list Z) x : l = [] \/ List.hd x l ∈ l.
Proof. destruct l; set_solver. Qed.

(** Splitting a path at its last step. *)
Lemma path_snoc h x l z y : path h x (l ++ [z]) y <-> path h x l z /\ linked h z y.
Proof. by rewrite path_app. Qed.

Lemma links_rotate h x l : links_ring h (x :: l) -> links_ring h (l ++ [x]).
Proof.
  intros [N P]. destruct l as [|y l]; [done|]. split.
  - by rewrite <- (Permutation_cons_append (y :: l) x).
  - destruct P as [L P]. by apply path_snoc.
Qed.

Lemma links_unlink h x y l : links_ring h (x :: y :: l) -> links_ring (unlink x h) (y :: l).
Proof.
  intros [N P]. apply NoDup_cons in N as [Nx N]. split; [done|].
  unfold unlink. destruct (path_ends _ _ _ _ P) as [-> ->].
  destruct P as [L P]. simpl List.hd. rewrite last_cons.
  destruct (decide (l = [])) as [->|Hl]; [apply link_linked|].
  destruct (exists_last Hl) as (l' & z & ->). apply path_snoc in P as [P1 P2].
  rewrite List.last_last. apply path_snoc. split; [|apply link_linked].
  apply NoDup_cons in N as [Ny N]. apply NoDup_app in N as (_ & N & _).
  apply path_link; [set_solver|set_solver|done].
Qed.

(** Links that avoid the nodes of a ring leave it as it is. *)
Lemma ring_frame h x y r :
  links_ring h r -> x ∉ r -> y ∉ r -> links_ring (link x y h) r.
Proof.
  destruct r as [|a r]; [done|]. intros [N P] Hx Hy. split; [done|].
  apply path_link; set_solver.
Qed.

Lemma links_unlink_frame h x l r :
  links_ring h (x :: l) -> links_ring h r -> r ## x :: l -> links_ring (unlink x h) r.
Proof.
  intros [N P] R D. unfold unlink. destruct (path_ends _ _ _ _ P) as [-> ->].
  apply ring_frame; [done| |].
  - destruct (last_elem l x) as [->|]; set_solver.
  - destruct (hd_elem l x) as [->|]; set_solver.
Qed.

Lemma links_insert h n x l :
  links_ring h (x :: l) -> n ∉ x :: l -> links_ring (insert_after n x h) (x :: n :: l).
Proof.
  intros [N P] Hn. split.
  { apply NoDup_cons in N as [Nx N]. repeat constructor; set_solver. }
  unfold insert_after. destruct (path_ends _ _ _ _ P) as [-> _].
  split; [apply link_linked|]. destruct l as [|y l]; simpl.
  - apply link_linked_ne; [set_solver..|apply link_linked].
  - destruct P as [L P]. apply NoDup_cons in N as [Nx N].
    split; [apply link_linked_ne; [set_solver..|apply link_linked]|].
    apply path_link; [set_solver..|]. apply path_link; [set_solver| |done].
    apply NoDup_cons in N as [Ny N]. set_solver.
Qed.

Lemma links_insert_frame h n x l r :
  links_ring h (x :: l) -> links_ring h r -> n ∉ r -> r ## x :: l ->
  links_ring (insert_after n x h) r.
Proof.
  intros [N P] R Hn D. unfold insert_after. destruct (path_ends _ _ _ _ P) as [-> _].
  apply ring_frame; [apply ring_frame; [done..|]|set_solver|done].
  destruct (hd_elem l x) as [->|]; set_solver.
Qed.

Lemma links_self h x : links_ring (self_link x h) [x].
Proof. split; [repeat constructor; set_solver|apply link_linked]. Qed.

Lemma links_rotate_app h l1 l2 : links_ring h (l1 ++ l2) -> links_ring h (l2 ++ l1).
Proof.
  revert l2. induction l1 as [|x l1 IH]; intros l2; simpl; [by rewrite app_nil_r|].
  intros R%links_rotate. rewrite <- app_assoc in R. apply IH in R.
  by rewrite <- app_assoc in R.
Qed.

Lemma links_pv_last h y l z : links_ring h (y :: l ++ [z]) -> pv h y = z.
Proof.
  intros [_ P]. apply path_snoc in P as [_ [_ ?]]. done.
Qed.

Lemma links_move_tail h x l1 y l2 :
  links_ring h (x :: l1 ++ y :: l2) ->
  links_ring (list_move_tail x y h) (x :: y :: l2 ++ l1).
Proof.
  intros R. assert (R0 := R). destruct R0 as [N _].
  change (list_move_tail x y h) with (insert_after x (pv (unlink x h) y) (unlink x h)).
  assert (links_ring (unlink x h) (y :: l2 ++ l1)) as R1.
  { apply (links_rotate_app _ l1 (y :: l2)).
    destruct l1 as [|z l1]; simpl in *; by apply links_unlink. }
  destruct (decide (l2 ++ l1 = [])) as [E|Hl].
  - rewrite E in R1 |- *. assert (pv (unlink x h) y = y) as -> by apply R1.
    apply (links_rotate _ y [x]). apply links_insert; [done|].
    apply app_eq_nil in E as [-> ->]. by apply NoDup_cons_1_1 in N.
  - destruct (exists_last Hl) as (l & z & E). rewrite E in R1 |- *.
    rewrite (links_pv_last _ _ _ _ R1).
    apply (links_rotate_app _ (y :: l) [z]) in R1. cbn [app] in R1.
    apply (links_insert _ x) in R1.
    + by apply (links_rotate_app _ [z] (x :: y :: l)) in R1.
    + assert (z :: y :: l ≡ₚ l1 ++ y :: l2) as ->; [|by apply NoDup_cons_1_1 in N].
      rewrite <- Permutation_middle, (Permutation_app_comm l1 l2), E. solve_Permutation.
Qed.

Lemma links_move_tail_frame h x y l r :
  links_ring h (x :: l) -> y ∈ l -> links_ring h r -> r ## x :: l ->
  links_ring (list_move_tail x y h) r.
Proof.
  intros R Hy Rr D.
  change (list_move_tail x y h) with (insert_after x (pv (unlink x h) y) (unlink x h)).
  apply list_elem_of_split in Hy as (l1 & l2 & ->).
  assert (links_ring (unlink x h) (y :: l2 ++ l1)) as R1.
  { apply (links_rotate_app _ l1 (y :: l2)).
    destruct l1 as [|z l1]; simpl in *; by apply links_unlink. }
  assert (exists z t, links_ring (unlink x h) (z :: t) /\ pv (unlink x h) y = z
    /\ (forall a, a ∈ z :: t -> a ∈ y :: l2 ++ l1)) as (z & t & R2 & -> & Hs).
  { destruct (decide (l2 ++ l1 = [])) as [E|Hl].
    - exists y, []. rewrite E in R1. split; [done|]. split; [apply R1|set_solver].
    - destruct (exists_last Hl) as (t & z & E). exists z, (y :: t).
      rewrite E in R1 |- *. split; [by apply (links_rotate_app _ (y :: t) [z])|].
      split; [by eapply links_pv_last|set_solver]. }
  eapply links_insert_frame; [done|by eapply links_unlink_frame|set_solver|set_solver].
Qed.

#[export] Program Instance links_laws : ListLaws links := {
  ring := links_ring;
}.
Next Obligation. intros h [|x l]; [done|by intros []]. Qed.
Next Obligation. apply links_rotate. Qed.
Next Obligation. intros h x y l [_ [[? ?] _]]. done. Qed.
Next Obligation. intros h x y l [_ [[? ?] _]]. done. Qed.
Next Obligation. intros h x [_ [? ?]]. done. Qed.
Next Obligation. apply links_self. Qed.
Next Obligation. intros. by apply ring_frame. Qed.
Next Obligation. apply links_insert. Qed.
Next Obligation. intros. by eapply links_insert_frame. Qed.
Next Obligation. apply links_unlink. Qed.
Next Obligation. intros. by eapply links_unlink_frame. Qed.
Next Obligation.
  intros h x y l R. assert (R0 := R). apply links_unlink in R.
  apply ring_frame; [done|destruct R0 as [N _]; by apply NoDup_cons_1_1 in N..].
Qed.
Next Obligation. intros. apply links_self. Qed.
Next Obligation.
  intros. apply ring_frame; [by eapply links_unlink_frame|set_solver..].
Qed.
Next Obligation. apply links_move_tail. Qed.
Next Obligation. intros. by eapply links_move_tail_frame. Qed.
Next Obligation.
  intros h x l [N P]. simpl. rewrite Z.eqb_eq. destruct (path_ends _ _ _ _ P) as [-> _].
  apply NoDup_cons in N as [Nx _]. destruct l as [|y l]; [done|simpl; set_solver].
Qed.
End Links.
