(* ===== verification/SlobBlocks.v ===== *)
(** The abstract free list of one slob page.

    assignments/a4/slob.c keeps, inside each page, a singly linked list of free
    blocks. Its abstraction is the list of pairs (offset, size), in slob units,
    ordered by address. This file defines what allocation and release mean on
    that list (first fit with alignment padding; address-ordered insertion that
    coalesces with both neighbours) and proves the specification the page level
    (SlobPage.v) is refined to. *)
From S2P Require Import Prelude.

Abbreviation blocks := (list (Z * Z)).

Section Blocks.
(** Number of units of a page. *)
Variable U : Z.
(** Ordered, non-empty, inside the page, and never adjacent (fully coalesced). *)
Fixpoint wf_blocks (lo : Z) (bs : blocks) : Prop :=
  match bs with
  | [] => True
  | (o, n) :: t => lo <= o /\ 1 <= n /\ o + n <= U /\ wf_blocks (o + n + 1) t
  end.

(** Unit [c] of the page is free. *)
Fixpoint in_free (bs : blocks) (c : Z) : Prop :=
  match bs with
  | [] => False
  | (o, n) :: t => o <= c < o + n \/ in_free t c
  end.

Definition sum_free (bs : blocks) : Z := sumZ snd bs.

(** Allocation is relative to [delta]: the alignment padding, in units, in front
    of an object placed in a free block at the given offset. *)
Definition fits (delta : Z -> Z) (u : Z) (b : Z * Z) : bool := u + delta b.1 <=? b.2.

(** What is left of block [(o, n)] once [u] units at [o + d] are taken. *)
Definition carve (o n d u : Z) : blocks :=
  (if d =? 0 then [] else [(o, d)]) ++
  (if n - d =? u then [] else [(o + d + u, n - d - u)]).

Fixpoint alloc_blocks (delta : Z -> Z) (u : Z) (bs : blocks) : option (Z * blocks) :=
  match bs with
  | [] => None
  | (o, n) :: t =>
      if fits delta u (o, n) then Some (o + delta o, carve o n (delta o) u ++ t)
      else match alloc_blocks delta u t with
           | Some (r, t') => Some (r, (o, n) :: t')
           | None => None
           end
  end.

Fixpoint free_blocks (b u : Z) (bs : blocks) : blocks :=
  match bs with
  | [] => [(b, u)]
  | (o, n) :: t =>
      if b <? o then
        if b + u =? o then (b, u + n) :: t else (b, u) :: (o, n) :: t
      else if o + n =? b then
        match t with
        | (o', n') :: t' => if b + u =? o' then (o, n + u + n') :: t' else (o, n + u) :: t
        | [] => [(o, n + u)]
        end
      else (o, n) :: free_blocks b u t
  end.

(** Coalescing of [u] units at [b] with the block that follows them, if any:
    the size of the result and the blocks left. *)
Definition merge_right (b u : Z) (t : blocks) : Z * blocks :=
  match t with
  | (o, n) :: t' => if b + u =? o then (u + n, t') else (u, t)
  | [] => (u, [])
  end.

Lemma wf_blocks_weaken lo lo' bs : lo' <= lo -> wf_blocks lo bs -> wf_blocks lo' bs.
Proof. destruct bs as [|[o n] t]; simpl; [done|]. intros ? (?&?&?&?). repeat split; [lia..|done]. Qed.

Lemma in_free_bounds lo bs c : wf_blocks lo bs -> in_free bs c -> lo <= c < U.
Proof.
  revert lo. induction bs as [|[o n] t IH]; intros lo; simpl; [done|].
  intros (?&?&?&W) [?|F]; [lia|]. specialize (IH _ W F). lia.
Qed.

Lemma in_free_app bs1 bs2 c : in_free (bs1 ++ bs2) c <-> in_free bs1 c \/ in_free bs2 c.
Proof. induction bs1 as [|[o n] t IH]; simpl; [tauto|]. rewrite IH. tauto. Qed.

Lemma in_free_elem bs c : in_free bs c <-> exists o n, (o, n) ∈ bs /\ o <= c < o + n.
Proof.
  induction bs as [|[o n] t IH]; simpl.
  - split; [done|]. intros (?&?&?&_). set_solver.
  - rewrite IH. split.
    + intros [?|(o'&n'&?&?)]; [exists o, n|exists o', n']; set_solver.
    + intros (o'&n'&E&?). apply elem_of_cons in E as [[= -> ->]|?]; [by left|right; eauto].
Qed.

Lemma wf_blocks_elem lo bs o n :
  wf_blocks lo bs -> (o, n) ∈ bs -> lo <= o /\ 1 <= n /\ o + n <= U.
Proof.
  revert lo. induction bs as [|[o' n'] t IH]; intros lo; simpl; [set_solver|].
  intros (?&?&?&W) E. apply elem_of_cons in E as [[= -> ->]|E]; [lia|].
  specialize (IH _ W E). lia.
Qed.

Lemma sum_free_nonneg lo bs : wf_blocks lo bs -> 0 <= sum_free bs.
Proof.
  intros W. apply sumZ_nonneg. intros [o n] E. simpl.
  pose proof (wf_blocks_elem _ _ _ _ W E). lia.
Qed.

(** A page with no free unit is one with an empty list. *)
Lemma sum_free_zero lo bs : wf_blocks lo bs -> sum_free bs = 0 <-> bs = [].
Proof.
  destruct bs as [|[o n] t]; [done|]. simpl. intros (?&?&?&W).
  split; [|done]. apply sum_free_nonneg in W. unfold sum_free in *. simpl. lia.
Qed.

Lemma carve_spec o n d u t :
  0 <= d -> 1 <= u -> u + d <= n -> o + n <= U -> wf_blocks (o + n + 1) t ->
  wf_blocks o (carve o n d u ++ t) /\
  sum_free (carve o n d u ++ t) = n - u + sum_free t /\
  (forall c, in_free (carve o n d u) c <-> o <= c < o + n /\ ~ (o + d <= c < o + d + u)).
Proof.
  intros. unfold carve, sum_free. rewrite sumZ_app.
  destruct (Z.eqb_spec d 0), (Z.eqb_spec (n - d) u); simpl;
    (split; [repeat split; try lia; eapply wf_blocks_weaken; [|done]; lia|split; [lia|intros c; lia]]).
Qed.

Lemma in_free_disjoint lo o n t c :
  wf_blocks lo ((o, n) :: t) -> in_free t c -> o + n < c.
Proof. simpl. intros (?&?&?&W) F. apply (in_free_bounds _ _ _ W) in F. lia. Qed.

(** *** Allocation *)
Section alloc.
Variable delta : Z -> Z.
Hypothesis delta_nonneg : forall o, 0 <= o -> 0 <= delta o.

(** The object is placed in the first block it fits in. *)
Lemma alloc_blocks_first u bs r bs' :
  alloc_blocks delta u bs = Some (r, bs') ->
  exists pre o n post, bs = pre ++ (o, n) :: post /\
    Forall (fun b => fits delta u b = false) pre /\ fits delta u (o, n) = true /\
    r = o + delta o /\ bs' = pre ++ carve o n (delta o) u ++ post.
Proof.
  revert r bs'. induction bs as [|[o n] t IH]; intros r bs'; simpl; [done|].
  destruct (fits delta u (o, n)) eqn:F.
  - intros [= <- <-]. by exists [], o, n, t.
  - destruct (alloc_blocks delta u t) as [[r' t']|]; [|done]. intros [= <- <-].
    destruct (IH _ _ eq_refl) as (pre&o'&n'&post&->&?&?&->&->).
    exists ((o, n) :: pre), o', n', post. repeat split; [by constructor|done].
Qed.

Lemma alloc_blocks_none u bs :
  alloc_blocks delta u bs = None <-> Forall (fun b => fits delta u b = false) bs.
Proof.
  induction bs as [|[o n] t IH]; simpl; [by split|].
  rewrite Forall_cons. destruct (fits delta u (o, n)) eqn:F.
  - by split; [|intros []].
  - rewrite <- IH. destruct (alloc_blocks delta u t) as [[]|]; naive_solver.
Qed.

Lemma alloc_blocks_spec u lo bs r bs' :
  1 <= u -> 0 <= lo -> wf_blocks lo bs -> alloc_blocks delta u bs = Some (r, bs') ->
  wf_blocks lo bs' /\ sum_free bs' = sum_free bs - u /\
  lo <= r /\ r + u <= U /\
  (forall c, r <= c < r + u -> in_free bs c) /\
  (forall c, in_free bs' c <-> in_free bs c /\ ~ (r <= c < r + u)).
Proof.
  intros Hu. revert lo r bs'. induction bs as [|[o n] t IH]; intros lo r bs' Hlo W; simpl; [done|].
  assert (W0 := W). destruct W as (?&?&?&W). specialize (delta_nonneg o ltac:(lia)).
  destruct (fits delta u (o, n)) eqn:F; unfold fits in F; simpl in F.
  - intros [= <- <-].
    destruct (carve_spec o n (delta o) u t) as (C1&C2&C3); try done; [lia|].
    split; [by eapply wf_blocks_weaken|].
    unfold sum_free in *. simpl. split; [lia|]. split; [lia|]. split; [lia|].
    split; [intros c ?; left; lia|]. intros c. rewrite in_free_app, C3.
    split; [|tauto]. intros [?|Ft]; [tauto|].
    pose proof (in_free_disjoint _ _ _ _ _ W0 Ft). split; [tauto|lia].
  - destruct (alloc_blocks delta u t) as [[r' t']|]; [|done]. intros [= <- <-].
    destruct (IH (o + n + 1) _ _ ltac:(lia) W eq_refl) as (I1&I2&?&?&I5&I6).
    unfold sum_free in *. simpl. split; [done|]. split; [lia|]. split; [lia|]. split; [lia|].
    split; [intros; right; by apply I5|]. intros c. rewrite I6.
    split; [|tauto]. intros [?|[]]; [|tauto]. split; [tauto|lia].
Qed.
End alloc.

(** *** Release *)
Lemma free_blocks_spec b u lo bs :
  1 <= u -> lo <= b -> b + u <= U -> wf_blocks lo bs ->
  (forall c, b <= c < b + u -> ~ in_free bs c) ->
  wf_blocks lo (free_blocks b u bs) /\
  sum_free (free_blocks b u bs) = sum_free bs + u /\
  (forall c, in_free (free_blocks b u bs) c <-> in_free bs c \/ b <= c < b + u).
Proof.
  intros Hu. unfold sum_free. revert lo. induction bs as [|[o n] t IH]; intros lo Hlo HU W D; simpl.
  { repeat split; try lia; tauto. }
  assert (W0 := W). destruct W as (?&?&?&W). destruct (Z.ltb_spec b o) as [Hbo|Hbo].
  - assert (b + u <= o). { pose proof (D o). simpl in *. lia. }
    destruct (Z.eqb_spec (b + u) o) as [E|E]; simpl.
    + replace (b + (u + n)) with (o + n) by lia.
      repeat split; try lia; try done; intros; [|]; intuition lia.
    + repeat split; try lia; try done; intros; [|]; intuition lia.
  - assert (o + n <= b). { pose proof (D b). simpl in *. lia. }
    destruct (Z.eqb_spec (o + n) b) as [E|E].
    + destruct t as [|[o' n'] t'].
      { simpl. repeat split; try lia; intros; intuition lia. }
      simpl in W. destruct W as (?&?&?&W).
      assert (b + u <= o'). { pose proof (D o'). simpl in *. lia. }
      destruct (Z.eqb_spec (b + u) o') as [E'|E']; simpl.
      * replace (o + (n + u + n')) with (o' + n') by lia.
        repeat split; try lia; try done; intros; intuition lia.
      * repeat split; try lia; try done; intros; intuition lia.
    + destruct (IH (o + n + 1)) as (I1&I2&I3); [lia|done|done|intros c ? ?; apply (D c); simpl; tauto|].
      simpl. rewrite I2. repeat split; try lia; try done; intros; rewrite I3 in *; tauto.
Qed.

Lemma free_blocks_front b u o n t :
  b < o -> free_blocks b u ((o, n) :: t) =
    let '(u', t') := merge_right b u ((o, n) :: t) in (b, u') :: t'.
Proof. intros Hb. simpl. zdec. by zcase. Qed.

Lemma free_blocks_gap b u lo pre o n t :
  wf_blocks lo (pre ++ (o, n) :: t) -> o <= b ->
  (forall o' n' t', t = (o', n') :: t' -> b < o') ->
  free_blocks b u (pre ++ (o, n) :: t) =
    pre ++ (let '(u', t') := merge_right b u t in
            if o + n =? b then (o, n + u') :: t' else (o, n) :: (b, u') :: t').
Proof.
  intros W Hob Ht. revert lo W. induction pre as [|[o1 n1] pre IH]; intros lo W; simpl.
  - zdec. destruct (Z.eqb_spec (o + n) b) as [E|E]; destruct t as [|[o' n'] t']; simpl; try done.
    + zcase; [|done]. f_equal. f_equal. lia.
    + specialize (Ht _ _ _ eq_refl). zdec. by zcase.
  - simpl in W. destruct W as (?&?&?&W).
    assert (o1 + n1 + 1 <= o) by (apply (wf_blocks_elem _ _ o n W); set_solver).
    do 2 zdec. f_equal. by eapply IH.
Qed.

(** *** A coalesced free list is determined by its set of free units *)
Lemma in_free_head lo o n t : wf_blocks lo ((o, n) :: t) -> in_free ((o, n) :: t) o.
Proof. simpl. lia. Qed.

Lemma wf_blocks_unique lo1 lo2 bs1 bs2 :
  wf_blocks lo1 bs1 -> wf_blocks lo2 bs2 ->
  (forall c, in_free bs1 c <-> in_free bs2 c) -> bs1 = bs2.
Proof.
  revert lo1 lo2 bs2. induction bs1 as [|[o n] t IH]; intros lo1 lo2 [|[o' n'] t'] W1 W2 E.
  - done.
  - by apply in_free_head, E in W2.
  - by apply in_free_head, E in W1.
  - assert (o = o') as <-.
    { pose proof (proj1 (E _) (in_free_head _ _ _ _ W1)) as F1.
      pose proof (proj2 (E _) (in_free_head _ _ _ _ W2)) as F2.
      assert (W1' := W1). assert (W2' := W2). simpl in F1, F2, W1', W2'. destruct F1 as [?|F1], F2 as [?|F2]; try lia.
      - apply (in_free_disjoint _ _ _ _ _ W1) in F2. lia.
      - apply (in_free_disjoint _ _ _ _ _ W2) in F1. lia.
      - apply (in_free_disjoint _ _ _ _ _ W1) in F2.
        apply (in_free_disjoint _ _ _ _ _ W2) in F1. lia. }
    assert (n = n') as <-.
    { assert (W1' := W1). assert (W2' := W2). simpl in W1', W2'.
      destruct (Z.lt_trichotomy n n') as [L|[L|L]]; [exfalso|done|exfalso].
      - destruct (proj2 (E (o + n))) as [?|F]; [left; lia|lia|].
        apply (in_free_disjoint _ _ _ _ _ W1) in F. lia.
      - destruct (proj1 (E (o + n'))) as [?|F]; [left; lia|lia|].
        apply (in_free_disjoint _ _ _ _ _ W2) in F. lia. }
    f_equal. simpl in W1, W2. eapply IH; [apply W1|apply W2|]. intros c.
    specialize (E c). simpl in E. split; intros F.
    + pose proof (in_free_bounds _ _ _ (proj2 (proj2 (proj2 W1))) F).
      destruct (proj1 E (or_intror F)); [lia|done].
    + pose proof (in_free_bounds _ _ _ (proj2 (proj2 (proj2 W2))) F).
      destruct (proj2 E (or_intror F)); [lia|done].
Qed.

(** Releasing what was just allocated restores the very same list. *)
Lemma free_alloc_blocks delta u lo bs r bs' :
  (forall o, 0 <= o -> 0 <= delta o) -> 1 <= u -> 0 <= lo -> wf_blocks lo bs ->
  alloc_blocks delta u bs = Some (r, bs') -> free_blocks r u bs' = bs.
Proof.
  intros Hd Hu Hlo W A. destruct (alloc_blocks_spec delta Hd u lo bs r bs' Hu Hlo W A) as (A1&_&?&?&A5&A6).
  destruct (free_blocks_spec r u lo bs') as (F1&_&F3); try done.
  { intros c Hc. rewrite A6. tauto. }
  eapply wf_blocks_unique; [done|done|]. intros c. rewrite F3, A6.
  specialize (A5 c). destruct (decide (r <= c < r + u)); tauto.
Qed.
End Blocks.
