(* ===== verification/Kernel.v ===== *)
(** What the slob allocator uses of the rest of the kernel.

    The macros and functions of include/linux and arch/x86 are not part of the
    repository. They are the fields of the class [Kernel]; the documented
    behaviour the allocator relies on is the class [KernelLaws]. [I386] is a
    concrete kernel (the 32-bit x86 configuration the assignment builds) on
    which the laws hold, so theorems that assume them can be instantiated. *)
From S2P Require Import Prelude.

Class Kernel : Type := {
  PAGE_SIZE : Z;
  PAGE_MASK : Z;                             (* ~(PAGE_SIZE-1) *)
  BITS_PER_LONG : Z;
  DIV_ROUND_UP : Z -> Z -> Z;
  ALIGN : Z -> Z -> Z;
  virt_to_page : Z -> Z;                     (* address -> struct page * *)
  page_address : Z -> Z;                     (* struct page * -> address *)
  page_to_nid : Z -> Z;
  CONFIG_NUMA : bool;
  NUMA_NO_NODE : Z;
  __GFP_ZERO : Z;
  ZERO_SIZE_PTR : Z;
  ZERO_OR_NULL_PTR : Z -> bool;
  (* what it leaves in ->units, which shares its word with the count *)
  page_mapcount_reset : Z -> Z;
  (* addresses of the three static list heads *)
  free_slob_small : Z;
  free_slob_medium : Z;
  free_slob_large : Z;
}.

Class KernelLaws `{Kernel} : Prop := {
  page_size_law : PAGE_SIZE = 4096;
  page_mask_law : PAGE_MASK = Z.lnot (PAGE_SIZE - 1);
  bits_per_long_law : 32 <= BITS_PER_LONG;
  (* the least number of multiples of d that covers n *)
  div_round_up_law n d : 0 <= n -> 0 < d ->
    d * (DIV_ROUND_UP n d - 1) < n <= d * DIV_ROUND_UP n d;
  (* the least multiple of a power of two that is not below x *)
  align_law x k : 0 <= x -> 0 <= k ->
    x <= ALIGN x (2 ^ k) < x + 2 ^ k /\ (2 ^ k | ALIGN x (2 ^ k));
  (* one struct page per page frame *)
  virt_to_page_law a b : a .& PAGE_MASK = b .& PAGE_MASK -> virt_to_page a = virt_to_page b;
  page_address_law a : page_address (virt_to_page a) = a .& PAGE_MASK;
  (* NULL and ZERO_SIZE_PTR are the addresses up to ZERO_SIZE_PTR, below the
     first page *)
  zero_or_null_law a : 0 <= a -> ZERO_OR_NULL_PTR a = (a <=? ZERO_SIZE_PTR);
  zero_size_law : 0 <= ZERO_SIZE_PTR < PAGE_SIZE;
  list_heads_law : NoDup [free_slob_small; free_slob_medium; free_slob_large];
}.

Section kernel_facts.
Context `{KernelLaws}.

Lemma page_mask_land x : x .& PAGE_MASK = x - x mod 4096.
Proof.
  rewrite page_mask_law, page_size_law.
  change (4096 - 1) with (2 ^ 12 - 1). by rewrite land_lnot_low.
Qed.

Lemma not_page_mask_land x : x .& Z.lnot PAGE_MASK = x mod 4096.
Proof.
  rewrite page_mask_law, page_size_law, Z.lnot_involutive.
  change (4096 - 1) with (Z.ones 12). by rewrite Z.land_ones by lia.
Qed.
End kernel_facts.

(** ** 32-bit x86 *)
Module I386.
(** struct page descriptors live in an array (mem_map) at 0xc1000000, 32 bytes
    each; the list heads are globals below it. *)
Definition mem_map : Z := 3238002688.

#[export] Instance i386 : Kernel := {
  PAGE_SIZE := 4096;
  PAGE_MASK := -4096;
  BITS_PER_LONG := 32;
  DIV_ROUND_UP n d := (n + d - 1) / d;
  ALIGN x a := Z.land (x + (a - 1)) (Z.lnot (a - 1));
  virt_to_page a := mem_map + 32 * (a / 4096);
  page_address p := 4096 * ((p - mem_map) / 32);
  page_to_nid _ := 0;
  CONFIG_NUMA := false;
  NUMA_NO_NODE := -1;
  __GFP_ZERO := 32768;
  ZERO_SIZE_PTR := 16;
  ZERO_OR_NULL_PTR a := a <=? 16;
  page_mapcount_reset _ := -1;
  free_slob_small := 3237998592;
  free_slob_medium := 3237998600;
  free_slob_large := 3237998608;
}.

Lemma i386_mask x : Z.land x (-4096) = x - x mod 4096.
Proof. change (-4096) with (Z.lnot (2 ^ 12 - 1)). by rewrite land_lnot_low. Qed.

#[export] Instance i386_laws : KernelLaws.
Proof.
  split; cbn -[Z.land Z.lnot Z.pow mem_map].
  - done.
  - done.
  - done.
  - intros n d ? ?. pose proof (Z.div_mod (n + d - 1) d).
    pose proof (Z.mod_pos_bound (n + d - 1) d). nia.
  - intros x k ? ?. rewrite land_lnot_low by done.
    pose proof (Z.pow_pos_nonneg 2 k). pose proof (Z.mod_pos_bound (x + (2 ^ k - 1)) (2 ^ k)).
    split; [lia|]. exists ((x + (2 ^ k - 1)) / 2 ^ k).
    pose proof (Z.div_mod (x + (2 ^ k - 1)) (2 ^ k)). lia.
  - intros a b. rewrite !i386_mask. intros E.
    enough (a / 4096 = b / 4096) as -> by done.
    pose proof (Z.div_mod a 4096). pose proof (Z.div_mod b 4096). lia.
  - intros a. rewrite i386_mask. replace (mem_map + _ - mem_map) with (a / 4096 * 32) by lia.
    rewrite Z.div_mul by done. pose proof (Z.div_mod a 4096). lia.
  - done.
  - done.
  - apply (bool_decide_unpack _). by vm_compute.
Qed.
End I386.
