(* ===== verification/Slob.v ===== *)
(** The slob allocator proper: assignments/a4/slob.c, lines 88-447 and the
    accounting system calls at its end.

    A pointer is a byte address. Memory is read and written through slob_t
    pointers, so it is a map from addresses to slobidx_t values. A struct page
    is named by its address, and so is the list node it embeds (list_entry is
    the identity). spin_lock_irqsave/spin_unlock_irqrestore leave no trace here:
    search_pages, fill_page and free_section are the critical sections of
    slob_lock, and SlobThreads.v interleaves them. *)
From S2P Require Import Prelude ListHead Kernel.

(** struct page, the fields slob uses, with its PageSlobFree and PageSlab bits. *)
Record page : Type := mk_page {
  units : Z;
  freelist : Z;
  PageSlobFree : bool;
  PageSlab : bool;
}.

Record state (L : Type) : Type := mk_state {
  mem : Z -> Z;                (* slobidx_t values, by address *)
  page_at : Z -> page;         (* by struct page pointer *)
  lists : L;                   (* all struct list_head nodes *)
  pages : Z;                   (* the global counter of slob pages *)
  reclaimed_slab : option Z;   (* current->reclaim_state, if it is not NULL *)
  freed : list (Z * Z);        (* calls of free_pages(address, order), last first *)
}.
Arguments mk_state {L}. Arguments mem {L}. Arguments page_at {L}. Arguments lists {L}.
Arguments pages {L}. Arguments reclaimed_slab {L}. Arguments freed {L}.

(** What alloc_pages(gfp, order) and alloc_pages_exact_node(node, gfp, order)
    return when the allocator calls them: a struct page pointer or NULL. *)
Record page_source : Type := mk_source {
  alloc_pages : Z -> Z -> Z;
  alloc_pages_exact_node : Z -> Z -> Z -> Z;
}.

Section Slob.
Context {K : Kernel} {L : Type} {LO : ListOps L}.
Implicit Types (m : Z -> Z) (s : state L).

(** *** Updates of one field *)
Definition with_mem m s : state L :=
  mk_state m (page_at s) (lists s) (pages s) (reclaimed_slab s) (freed s).
Definition with_page (sp : Z) (p : page) s : state L :=
  mk_state (mem s) (<[sp := p]> (page_at s)) (lists s) (pages s) (reclaimed_slab s) (freed s).
Definition with_lists (h : L) s : state L :=
  mk_state (mem s) (page_at s) h (pages s) (reclaimed_slab s) (freed s).
Definition with_pages (n : Z) s : state L :=
  mk_state (mem s) (page_at s) (lists s) n (reclaimed_slab s) (freed s).

Definition set_units (u : Z) (p : page) : page :=
  mk_page u (freelist p) (PageSlobFree p) (PageSlab p).
Definition set_freelist (a : Z) (p : page) : page :=
  mk_page (units p) a (PageSlobFree p) (PageSlab p).
Definition set_slobfree (b : bool) (p : page) : page :=
  mk_page (units p) (freelist p) b (PageSlab p).
Definition set_slab (b : bool) (p : page) : page :=
  mk_page (units p) (freelist p) (PageSlobFree p) b.

(** *** Block headers *)

(** slobidx_t is s16 when offsets in a page fit in it. *)
Definition slobidx_bits : Z := if PAGE_SIZE <=? 32767 * 2 then 16 else 32.
Definition to_slobidx (x : Z) : Z := wraps slobidx_bits x.

Definition SLOB_UNIT : Z := slobidx_bits / 8.
Definition SLOB_UNITS (size : Z) : Z := DIV_ROUND_UP size SLOB_UNIT.
Definition SLOB_BREAK1 : Z := 256.
Definition SLOB_BREAK2 : Z := 1024.

(** Pointer arithmetic on slob_t pointers. *)
Definition ptr_add (p k : Z) : Z := p + SLOB_UNIT * k.
Definition ptr_sub (p q : Z) : Z := (p - q) / SLOB_UNIT.

Definition set_slob m (s size next : Z) : Z -> Z :=
  let size := to_slobidx size in
  let base := s .& PAGE_MASK in
  let offset := to_slobidx (ptr_sub next base) in
  if 1 <? size then <[ptr_add s 1 := offset]> (<[s := size]> m)
  else <[s := to_slobidx (- offset)]> m.

Definition slob_units m (s : Z) : Z := if 0 <? m s then m s else 1.

Definition slob_next m (s : Z) : Z :=
  let base := s .& PAGE_MASK in
  let next := if m s <? 0 then to_slobidx (- m s) else m (ptr_add s 1) in
  ptr_add base next.

Definition slob_last m (s : Z) : bool := slob_next m s .& Z.lnot PAGE_MASK =? 0.

(** *** Pages on the free lists *)
Definition slob_page_free s (sp : Z) : bool := PageSlobFree (page_at s sp).

Definition set_slob_page_free (sp list : Z) s : state L :=
  let s := with_lists (list_add sp list (lists s)) s in
  with_page sp (set_slobfree true (page_at s sp)) s.

Definition clear_slob_page_free (sp : Z) s : state L :=
  let s := with_lists (list_del sp (lists s)) s in
  with_page sp (set_slobfree false (page_at s sp)) s.

Definition slob_list_for (size : Z) : Z :=
  if size <? SLOB_BREAK1 then free_slob_small
  else if size <? SLOB_BREAK2 then free_slob_medium
  else free_slob_large.

(** *** slob_page_alloc *)

(** Fragment the head of the block at [cur] to align the object: memory, the
    block before, the block to use and its size. *)
Definition split_block m (prev cur aligned delta avail : Z) : (Z -> Z) * Z * Z * Z :=
  if delta =? 0 then (m, prev, cur, avail)
  else
    let next := slob_next m cur in
    let m := set_slob m aligned (avail - delta) next in
    let m := set_slob m cur delta aligned in
    (m, cur, aligned, slob_units m aligned).

(** Take [units] units at [cur] out of the list: memory and ->freelist. *)
Definition unlink_block m (prev cur avail units fl : Z) : (Z -> Z) * Z :=
  let next := slob_next m cur in
  if avail =? units then (* exact fit: unlink *)
    if negb (prev =? NULL) then (set_slob m prev (slob_units m prev) next, fl) else (m, next)
  else (* fragment *)
    let '(m, fl) :=
      if negb (prev =? NULL)
      then (set_slob m prev (slob_units m prev) (ptr_add cur units), fl)
      else (m, ptr_add cur units) in
    (set_slob m (ptr_add cur units) (avail - units) next, fl).

(** The block at [cur] has room. *)
Definition take_block (prev cur aligned delta avail units : Z) (sp : Z) s : state L * Z :=
  let '(m, prev, cur, avail) := split_block (mem s) prev cur aligned delta avail in
  let '(m, fl) := unlink_block m prev cur avail units (freelist (page_at s sp)) in
  let s := with_mem m s in
  let s := with_page sp (set_freelist fl (page_at s sp)) s in
  let s := with_page sp (set_units (Slob.units (page_at s sp) - units) (page_at s sp)) s in
  let s := if Slob.units (page_at s sp) =? 0 then clear_slob_page_free sp s else s in
  (s, cur).

Fixpoint page_alloc_loop (fuel : nat) (sp size align prev cur : Z) s : res (state L * Z) :=
  match fuel with
  | O => Fuel
  | S fuel =>
      let units := SLOB_UNITS size in
      let avail := slob_units (mem s) cur in
      let aligned := if align =? 0 then NULL else ALIGN cur align in
      let delta := if align =? 0 then 0 else ptr_sub aligned cur in
      if units + delta <=? avail then Ret (take_block prev cur aligned delta avail units sp s)
      else if slob_last (mem s) cur then Ret (s, NULL)
      else page_alloc_loop fuel sp size align cur (slob_next (mem s) cur) s
  end.

Definition slob_page_alloc (fuel : nat) (sp size align : Z) s : res (state L * Z) :=
  page_alloc_loop fuel sp size align NULL (freelist (page_at s sp)) s.

(** *** slob_new_pages, slob_free_pages *)
Definition slob_new_pages (src : page_source) (gfp order node : Z) : Z :=
  let page :=
    if CONFIG_NUMA && negb (node =? NUMA_NO_NODE)
    then alloc_pages_exact_node src node gfp order
    else alloc_pages src gfp order in
  if page =? NULL then NULL else page_address page.

Definition slob_free_pages (b order : Z) s : state L :=
  mk_state (mem s) (page_at s) (lists s) (pages s)
    (match reclaimed_slab s with
     | Some n => Some (wrapu BITS_PER_LONG (n + Z.shiftl 1 order))
     | None => None
     end)
    ((b, order) :: freed s).

(** *** slob_alloc *)

(** The bounded search for the smallest page with room among those from the
    head of the list up to [cur]. *)
Fixpoint best_fit_loop (n : nat) (h : L) (page_at : Z -> page) (size cur iter best : Z) : Z :=
  match n with
  | O => best
  | S n =>
      let entry := lnext h iter in
      let units := Slob.units (page_at entry) in
      let best :=
        if (SLOB_UNITS size <=? units) && (units <? Slob.units (page_at best))
        then entry else best in
      if entry =? cur then best
      else best_fit_loop n h page_at size cur (lnext h iter) best
  end.

(** list_for_each_entry over the chosen list: [sp] is the current page. *)
Fixpoint search_pages (fuel : nat) (slob_list size align node sp : Z) s : res (state L * Z) :=
  match fuel with
  | O => Fuel
  | S fuel =>
      if sp =? slob_list then Ret (s, NULL)
      else if CONFIG_NUMA && negb (node =? NUMA_NO_NODE) && negb (page_to_nid sp =? node) then
        search_pages fuel slob_list size align node (lnext (lists s) sp) s
      else if Slob.units (page_at s sp) <? SLOB_UNITS size then
        search_pages fuel slob_list size align node (lnext (lists s) sp) s
      else
        let best := best_fit_loop 50 (lists s) (page_at s) size sp slob_list sp in
        let prev := lprev (lists s) best in
        match slob_page_alloc fuel best size align s with
        | Fuel => Fuel
        | Bug => Bug
        | Ret (s, b) =>
            if b =? NULL then
              search_pages fuel slob_list size align node (lnext (lists s) sp) s
            else
              let h := lists s in
              if negb (prev =? lprev h slob_list) && negb (lnext h slob_list =? lnext h prev)
              then Ret (with_lists (list_move_tail slob_list (lnext h prev) h) s, b)
              else Ret (s, b)
        end
  end.

(** __SetPageSlab and __ClearPageSlab. *)
Definition SetPageSlab (sp : Z) s : state L := with_page sp (set_slab true (page_at s sp)) s.
Definition ClearPageSlab (sp : Z) s : state L := with_page sp (set_slab false (page_at s sp)) s.

(** The second critical section of slob_alloc: a page fresh from the page
    allocator joins a list and serves the request. *)
Definition fill_page (fuel : nat) (slob_list size align b : Z) s : res (state L * Z) :=
  let sp := virt_to_page b in
  let s := with_page sp (set_units (SLOB_UNITS PAGE_SIZE) (page_at s sp)) s in
  let s := with_page sp (set_freelist b (page_at s sp)) s in
  let s := with_lists (INIT_LIST_HEAD sp (lists s)) s in
  let s := with_mem (set_slob (mem s) b (SLOB_UNITS PAGE_SIZE) (ptr_add b (SLOB_UNITS PAGE_SIZE))) s in
  let s := set_slob_page_free sp slob_list s in
  match slob_page_alloc fuel sp size align s with
  | Ret (s, b) => if b =? NULL then Bug else Ret (s, b)
  | Bug => Bug
  | Fuel => Fuel
  end.

(** pages++ and pages--, of an unsigned long. *)
Definition pages_inc (n : Z) : Z := wrapu BITS_PER_LONG (n + 1).
Definition pages_dec (n : Z) : Z := wrapu BITS_PER_LONG (n - 1).

(** A page fresh from the page allocator becomes a slob page and serves the request. *)
Definition alloc_from_new_page (fuel : nat) (slob_list size align b : Z) s : res (state L * Z) :=
  let s := SetPageSlab (virt_to_page b) s in
  '(s, b) ← fill_page fuel slob_list size align b s;
  Ret (with_pages (pages_inc (pages s)) s, b).

(** memset(b, 0, size): whole units, then the low byte of the last one. *)
Fixpoint zero_units (n : nat) m (b : Z) : Z -> Z :=
  match n with
  | O => m
  | S n => zero_units n (<[b := 0]> m) (ptr_add b 1)
  end.

Definition memset_zero m (b size : Z) : Z -> Z :=
  let whole := size / SLOB_UNIT in
  let m := zero_units (Z.to_nat whole) m b in
  let rest := size mod SLOB_UNIT in
  if rest =? 0 then m
  else
    let a := ptr_add b whole in
    <[a := to_slobidx (Z.shiftl (Z.shiftr (m a) (8 * rest)) (8 * rest))]> m.

(** A block from a partially free page or, failing that, from a new page. *)
Definition get_block (fuel : nat) (src : page_source) (size gfp align node : Z) s :
    res (state L * Z) :=
  let slob_list := slob_list_for size in
  '(s, b) ← search_pages fuel slob_list size align node (lnext (lists s) slob_list) s;
  if b =? NULL then
    let b := slob_new_pages src (gfp .& Z.lnot __GFP_ZERO) 0 node in
    if b =? NULL then Ret (s, NULL)
    else alloc_from_new_page fuel slob_list size align b s
  else Ret (s, b).

Definition slob_alloc (fuel : nat) (src : page_source) (size gfp align node : Z) s :
    res (state L * Z) :=
  '(s, b) ← get_block fuel src size gfp align node s;
  if negb (gfp .& __GFP_ZERO =? 0) && negb (b =? NULL)
  then Ret (with_mem (memset_zero (mem s) b size) s, b)
  else Ret (s, b).

(** *** slob_free *)

(** while (b > next): the pair (prev, next) around [b]. *)
Fixpoint find_gap (fuel : nat) m (b prev next : Z) : res (Z * Z) :=
  match fuel with
  | O => Fuel
  | S fuel => if next <? b then find_gap fuel m b next (slob_next m next) else Ret (prev, next)
  end.

(** Insertion of [b] into the free list of a page that already has one: the new
    memory and the new head of the list. *)
Definition insert_block (fuel : nat) m (fl b units : Z) : res ((Z -> Z) * Z) :=
  if b <? fl then
    let '(units, fl) :=
      if ptr_add b units =? fl then (to_slobidx (units + slob_units m fl), slob_next m fl)
      else (units, fl) in
    Ret (set_slob m b units fl, b)
  else
    '(prev, next) ← find_gap fuel m b fl (slob_next m fl);
    let m :=
      if negb (slob_last m prev) && (ptr_add b units =? next)
      then set_slob m b (to_slobidx (units + slob_units m next)) (slob_next m next)
      else set_slob m b units next in
    let m :=
      if ptr_add prev (slob_units m prev) =? b
      then set_slob m prev (to_slobidx (slob_units m b + slob_units m prev)) (slob_next m b)
      else set_slob m prev (slob_units m prev) b in
    Ret (m, fl).

(** The critical section of slob_free; true: the page is empty and is to be given
    back. *)
Definition free_section (fuel : nat) (block size : Z) s : res (state L * bool) :=
  let b := block in
  let sp := virt_to_page block in
  let units := to_slobidx (SLOB_UNITS size) in
  if Slob.units (page_at s sp) + units =? SLOB_UNITS PAGE_SIZE then
    (* go directly to the page allocator *)
    Ret (if slob_page_free s sp then clear_slob_page_free sp s else s, true)
  else if negb (slob_page_free s sp) then
    (* this page is about to become partially free *)
    let s := with_page sp (set_units units (page_at s sp)) s in
    let s := with_page sp (set_freelist b (page_at s sp)) s in
    let s := with_mem (set_slob (mem s) b units
               (ptr_add b (SLOB_UNITS PAGE_SIZE) .& PAGE_MASK)) s in
    Ret (set_slob_page_free sp (slob_list_for size) s, false)
  else
    let s := with_page sp (set_units (Slob.units (page_at s sp) + units) (page_at s sp)) s in
    '(m, fl) ← insert_block fuel (mem s) (freelist (page_at s sp)) b units;
    let s := with_mem m s in
    Ret (with_page sp (set_freelist fl (page_at s sp)) s, false).

(** The empty page at [b], which is on no list, goes to the page allocator. *)
Definition return_page (b : Z) s : state L :=
  let sp := virt_to_page b in
  let s := ClearPageSlab sp s in
  let s := with_page sp (set_units (page_mapcount_reset (Slob.units (page_at s sp))) (page_at s sp)) s in
  slob_free_pages b 0 s.

Definition slob_free (fuel : nat) (block size : Z) s : res (state L * unit) :=
  if ZERO_OR_NULL_PTR block then Ret (s, tt)
  else if size =? 0 then Bug
  else
    '(s, empty) ← free_section fuel block size s;
    if (empty : bool) then
      let s := return_page block s in
      Ret (with_pages (pages_dec (pages s)) s, tt)
    else Ret (s, tt).

(** *** Accounting *)

(** Sum of ->units over one list. *)
Fixpoint sum_units_loop (fuel : nat) (h : L) (page_at : Z -> page) (head sp total : Z) : res Z :=
  match fuel with
  | O => Fuel
  | S fuel =>
      if sp =? head then Ret total
      else sum_units_loop fuel h page_at head (lnext h sp)
             (wrapu BITS_PER_LONG (total + Slob.units (page_at sp)))
  end.

Definition free_units (fuel : nat) s : res Z :=
  let loop head total :=
    sum_units_loop fuel (lists s) (page_at s) head (lnext (lists s) head) total in
  total ← loop free_slob_small 0;
  total ← loop free_slob_medium total;
  loop free_slob_large total.

(** The answer when the read of [pages] found [v]; the order of the read and the
    call of free_units is the compiler's. *)
Definition units_used_at (v : Z) (fuel : nat) s : res Z :=
  f ← free_units fuel s;
  Ret (wraps BITS_PER_LONG (wrapu BITS_PER_LONG (SLOB_UNITS PAGE_SIZE * v) - f)).

Definition sys_slob_units_used (fuel : nat) s : res Z := units_used_at (pages s) fuel s.

Definition sys_slob_units_free (fuel : nat) s : res Z :=
  f ← free_units fuel s;
  Ret (wraps BITS_PER_LONG f).
End Slob.
