(* ===== verification/SlobFuel.v ===== *)
(** More fuel never changes an answer of the allocator's loops, so "returns with
    some fuel" and "returns with any larger fuel" are the same thing. *)
From S2P Require Import Prelude ListHead Kernel Slob.

Section SlobFuel.
Context {K : Kernel} {L : Type} {LO : ListOps L}.
Implicit Types (m : Z -> Z) (s : state L).

Lemma page_alloc_loop_mono n n' sp size align prev cur s x :
  page_alloc_loop n sp size align prev cur s = Ret x -> (n <= n')%nat ->
  page_alloc_loop n' sp size align prev cur s = Ret x.
Proof.
  revert n' prev cur. induction n as [|n IH]; intros [|n'] prev cur; simpl; intros E Hn; try done; [lia|].
  destruct (_ <=? _); [done|]. destruct (slob_last _ _); [done|]. apply IH; [done|lia].
Qed.

Lemma slob_page_alloc_mono n n' sp size align s x :
  slob_page_alloc n sp size align s = Ret x -> (n <= n')%nat ->
  slob_page_alloc n' sp size align s = Ret x.
Proof. apply page_alloc_loop_mono. Qed.

#[local] Arguments best_fit_loop : simpl never.

Lemma search_pages_mono n n' hd size align node sp s x :
  search_pages n hd size align node sp s = Ret x -> (n <= n')%nat ->
  search_pages n' hd size align node sp s = Ret x.
Proof.
  revert n' sp s. induction n as [|n IH]; intros [|n'] sp s; simpl; intros E Hn; try done; [lia|].
  destruct (sp =? hd); [done|]. destruct (_ && _ && _); [apply IH; [done|lia]|].
  destruct (_ <? _); [apply IH; [done|lia]|].
  destruct (slob_page_alloc n _ size align s) as [[s1 b]| |] eqn:P; [|done..].
  rewrite (slob_page_alloc_mono _ n' _ _ _ _ _ P) by lia.
  destruct (b =? NULL); [apply IH; [done|lia]|done].
Qed.

Lemma fill_page_mono n n' hd size align b s x :
  fill_page n hd size align b s = Ret x -> (n <= n')%nat -> fill_page n' hd size align b s = Ret x.
Proof.
  unfold fill_page. intros E Hn. destruct (slob_page_alloc n _ _ _ _) as [p| |] eqn:P; [|done..].
  by rewrite (slob_page_alloc_mono _ _ _ _ _ _ _ P Hn).
Qed.

Lemma alloc_from_new_page_mono n n' hd size align b s x :
  alloc_from_new_page n hd size align b s = Ret x -> (n <= n')%nat ->
  alloc_from_new_page n' hd size align b s = Ret x.
Proof.
  unfold alloc_from_new_page. intros E Hn.
  destruct (fill_page n _ _ _ _ _) as [p| |] eqn:P; [|done..].
  by rewrite (fill_page_mono _ _ _ _ _ _ _ _ P Hn).
Qed.

Lemma get_block_mono n n' src size gfp align node s x :
  get_block n src size gfp align node s = Ret x -> (n <= n')%nat ->
  get_block n' src size gfp align node s = Ret x.
Proof.
  unfold get_block. intros E Hn. destruct (search_pages n _ _ _ _ _ _) as [[s1 b]| |] eqn:P; [|done..].
  rewrite (search_pages_mono _ _ _ _ _ _ _ _ _ P Hn). simpl in *.
  destruct (b =? NULL); [|done]. destruct (_ =? NULL); [done|]. by eapply alloc_from_new_page_mono.
Qed.

Lemma slob_alloc_mono n n' src size gfp align node s x :
  slob_alloc n src size gfp align node s = Ret x -> (n <= n')%nat ->
  slob_alloc n' src size gfp align node s = Ret x.
Proof.
  unfold slob_alloc. intros E Hn. destruct (get_block n _ _ _ _ _ _) as [[s1 b]| |] eqn:P; [|done..].
  by rewrite (get_block_mono _ _ _ _ _ _ _ _ _ P Hn).
Qed.

Lemma find_gap_mono n n' m b prev next x :
  find_gap n m b prev next = Ret x -> (n <= n')%nat -> find_gap n' m b prev next = Ret x.
Proof.
  revert n' prev next. induction n as [|n IH]; intros [|n'] prev next; simpl; intros E Hn; try done; [lia|].
  destruct (_ <? _); [|done]. apply IH; [done|lia].
Qed.

Lemma insert_block_mono n n' m fl b u x :
  insert_block n m fl b u = Ret x -> (n <= n')%nat -> insert_block n' m fl b u = Ret x.
Proof.
  unfold insert_block. intros E Hn. destruct (b <? fl); [done|].
  destruct (find_gap n _ _ _ _) as [p| |] eqn:P; [|done..]. by rewrite (find_gap_mono _ _ _ _ _ _ _ P Hn).
Qed.

Lemma free_section_mono n n' b size s x :
  free_section n b size s = Ret x -> (n <= n')%nat -> free_section n' b size s = Ret x.
Proof.
  unfold free_section. intros E Hn. destruct (_ =? _); [done|]. destruct (negb _); [done|].
  destruct (insert_block n _ _ _ _) as [p| |] eqn:P; [|done..].
  by rewrite (insert_block_mono _ _ _ _ _ _ _ P Hn).
Qed.

Lemma slob_free_mono n n' b size s x :
  slob_free n b size s = Ret x -> (n <= n')%nat -> slob_free n' b size s = Ret x.
Proof.
  unfold slob_free. intros E Hn. destruct (ZERO_OR_NULL_PTR b); [done|].
  destruct (size =? 0); [done|]. destruct (free_section n _ _ _) as [p| |] eqn:P; [|done..].
  by rewrite (free_section_mono _ _ _ _ _ _ P Hn).
Qed.
Lemma sum_units_loop_mono n n' h pa hd sp total x :
  sum_units_loop (L := L) n h pa hd sp total = Ret x -> (n <= n')%nat ->
  sum_units_loop n' h pa hd sp total = Ret x.
Proof.
  revert n' sp total. induction n as [|n IH]; intros [|n'] sp total; simpl; intros E Hn; try done; [lia|].
  destruct (sp =? hd); [done|]. apply IH; [done|lia].
Qed.

Lemma free_units_mono n n' s x : free_units n s = Ret x -> (n <= n')%nat -> free_units n' s = Ret x.
Proof.
  unfold free_units. intros E Hn.
  destruct (sum_units_loop n _ _ free_slob_small _ _) as [a| |] eqn:E1; [|done..]. simpl in E.
  destruct (sum_units_loop n _ _ free_slob_medium _ _) as [b| |] eqn:E2; [|done..]. simpl in E.
  rewrite (sum_units_loop_mono _ _ _ _ _ _ _ _ E1 Hn). simpl.
  rewrite (sum_units_loop_mono _ _ _ _ _ _ _ _ E2 Hn). simpl. by eapply sum_units_loop_mono.
Qed.

Lemma sys_slob_units_used_mono s : fuel_mono (fun fuel => sys_slob_units_used fuel s).
Proof.
  unfold sys_slob_units_used, units_used_at. intros n n' x E Hn.
  destruct (free_units n s) as [a| |] eqn:F; [|done..]. by rewrite (free_units_mono _ _ _ _ F Hn).
Qed.
End SlobFuel.
