(* ===== verification/SlobFlags.v ===== *)
(** Which pages carry PageSlab: slob_alloc marks at most the page it takes from
    the page allocator, slob_free marks none. *)
From S2P Require Import Prelude ListHead Kernel Slob.

Section SlobFlags.
Context {K : Kernel} {L : Type} {LO : ListOps L}.
Implicit Types (s : state L).

Definition slab_of (s : state L) (sp : Z) : bool := PageSlab (page_at s sp).

Lemma slab_of_page_ne s sp p sp' : sp' ≠ sp -> slab_of (with_page sp p s) sp' = slab_of s sp'.
Proof. intros Hne. unfold slab_of. simpl. by rewrite fn_lookup_insert_ne. Qed.

Lemma slab_of_page s sp p sp' :
  PageSlab p = slab_of s sp -> slab_of (with_page sp p s) sp' = slab_of s sp'.
Proof.
  intros E. destruct (decide (sp = sp')) as [<-|]; [|by apply slab_of_page_ne].
  unfold slab_of. simpl. by rewrite fn_lookup_insert.
Qed.

Lemma slab_of_lists s h sp' : slab_of (with_lists h s) sp' = slab_of s sp'.
Proof. done. Qed.

Lemma slab_of_mem s m sp' : slab_of (with_mem m s) sp' = slab_of s sp'.
Proof. done. Qed.

(** Nothing but ->units, ->freelist and PageSlobFree changes. *)
Ltac same_slab := repeat first [rewrite slab_of_page by done | rewrite slab_of_lists | rewrite slab_of_mem].

Lemma slab_of_take prev cur al d av u sp s sp' :
  slab_of (take_block prev cur al d av u sp s).1 sp' = slab_of s sp'.
Proof.
  unfold take_block. destruct (split_block _ _ _ _ _ _) as [[[m p] c] a].
  destruct (unlink_block _ _ _ _ _ _) as [m' fl]. cbv zeta. simpl fst.
  assert (forall s0, slab_of (clear_slob_page_free sp s0) sp' = slab_of s0 sp') as C.
  { intros s0. unfold clear_slob_page_free. rewrite slab_of_page; done. }
  destruct (_ =? 0); rewrite ?C, !slab_of_page; done.
Qed.

Lemma slab_of_page_alloc fuel sp size align s s' b sp' :
  slob_page_alloc fuel sp size align s = Ret (s', b) -> slab_of s' sp' = slab_of s sp'.
Proof.
  unfold slob_page_alloc. generalize NULL at 1 as prev. generalize (freelist (page_at s sp)) as cur.
  induction fuel as [|fuel IH]; intros cur prev; simpl; [done|]. destruct (_ <=? _).
  - intros [= E]. apply (f_equal fst) in E. simpl in E. by rewrite <- E, slab_of_take.
  - destruct (slob_last _ _); [by intros [= -> _]|]. apply IH.
Qed.

#[local] Arguments best_fit_loop : simpl never.

Lemma slab_of_search fuel hd size align node sp s s' b sp' :
  search_pages fuel hd size align node sp s = Ret (s', b) -> slab_of s' sp' = slab_of s sp'.
Proof.
  revert sp s. induction fuel as [|fuel IH]; intros sp s; simpl; [done|].
  destruct (sp =? hd); [by intros [= -> _]|]. destruct (_ && _ && _); [apply IH|].
  destruct (_ <? _); [apply IH|].
  destruct (slob_page_alloc fuel _ _ _ _) as [[s1 b1]| |] eqn:P; [|done..].
  apply slab_of_page_alloc with (sp' := sp') in P. rewrite <- P.
  destruct (b1 =? NULL); [apply IH|]. by destruct (_ && _); intros [= <- _].
Qed.

Lemma slab_of_fill fuel hd size align b s s' b' sp' :
  fill_page fuel hd size align b s = Ret (s', b') -> slab_of s' sp' = slab_of s sp'.
Proof.
  unfold fill_page. destruct (slob_page_alloc _ _ _ _ _) as [[s3 b3]| |] eqn:A; [|done..].
  apply slab_of_page_alloc with (sp' := sp') in A. destruct (b3 =? NULL); [done|].
  intros [= <- _]. rewrite A. unfold set_slob_page_free. by same_slab.
Qed.

(** The critical section of slob_free changes none. *)
Lemma slab_of_free_section fuel b size s s' e sp' :
  free_section fuel b size s = Ret (s', e) -> slab_of s' sp' = slab_of s sp'.
Proof.
  unfold free_section. destruct (_ =? _).
  - intros [= <- _]. destruct (slob_page_free _ _); [|done]. unfold clear_slob_page_free. by rewrite slab_of_page.
  - destruct (negb _).
    + intros [= <- _]. unfold set_slob_page_free. by same_slab.
    + destruct (insert_block _ _ _ _ _) as [[m fl]| |]; [|done..]. intros [= <- _]. by same_slab.
Qed.

Lemma slab_of_return b s sp' :
  slab_of (return_page b s) sp' = if decide (sp' = virt_to_page b) then false else slab_of s sp'.
Proof.
  unfold slab_of, return_page. simpl. destruct (decide _) as [->|Hne]; [by rewrite !fn_lookup_insert|].
  by rewrite !fn_lookup_insert_ne.
Qed.

(** The page a request may add to the slab pages. *)
Definition new_page_addr (src : page_source) (gfp node : Z) : Z :=
  slob_new_pages src (gfp .& Z.lnot __GFP_ZERO) 0 node.

Lemma slab_of_alloc fuel src size gfp align node s s' b sp' :
  slob_alloc fuel src size gfp align node s = Ret (s', b) ->
  new_page_addr src gfp node = NULL \/ sp' ≠ virt_to_page (new_page_addr src gfp node) ->
  slab_of s' sp' = slab_of s sp'.
Proof.
  unfold slob_alloc. destruct (get_block _ _ _ _ _ _ _) as [[s1 b1]| |] eqn:G; [|done..].
  intros E Hn. assert (slab_of s' sp' = slab_of s1 sp') as ->.
  { simpl in E. by destruct (_ && _); injection E as <- _. }
  clear E. revert G. unfold get_block.
  destruct (search_pages _ _ _ _ _ _ _) as [[s2 b2]| |] eqn:P; [|done..].
  apply slab_of_search with (sp' := sp') in P. rewrite <- P. simpl.
  destruct (b2 =? NULL); [|by intros [= <- _]]. fold (new_page_addr src gfp node).
  destruct (Z.eqb_spec (new_page_addr src gfp node) NULL) as [Ez|Ez]; [by intros [= <- _]|].
  destruct Hn as [?|Hn]; [done|]. unfold alloc_from_new_page.
  destruct (fill_page _ _ _ _ _ _) as [[s3 b3]| |] eqn:A; [|done..].
  apply slab_of_fill with (sp' := sp') in A. simpl. intros [= <- _].
  change (slab_of (with_pages _ s3) sp') with (slab_of s3 sp'). rewrite A. by apply slab_of_page_ne.
Qed.

Lemma slab_of_free fuel b size s s' sp' :
  slob_free fuel b size s = Ret (s', tt) -> slab_of s sp' = false -> slab_of s' sp' = false.
Proof.
  unfold slob_free. intros E Hs. destruct (ZERO_OR_NULL_PTR b); [by injection E as <-|].
  destruct (size =? 0); [done|]. destruct (free_section _ _ _ _) as [[s1 e]| |] eqn:F; [|done..].
  apply slab_of_free_section with (sp' := sp') in F. simpl in E. destruct e; injection E as <-; [|by rewrite F].
  change (slab_of (with_pages _ ?s0) sp') with (slab_of s0 sp'). rewrite slab_of_return, F. by case_decide.
Qed.
End SlobFlags.
