(* ===== verification/SlobPage.v ===== *)
(** One slob page: slob_page_alloc and the list insertion of slob_free refine
    the abstract block lists of SlobBlocks.v. *)
From S2P Require Import Prelude ListHead Kernel SlobBlocks Slob.

(** Number of slob units of a page. *)
Abbreviation PU := 2048.

Section SlobPage.
Context {K : Kernel} {KL : KernelLaws}.
Implicit Types (m : Z -> Z) (bs : blocks).

(** *** Sizes and pointers *)
Lemma slobidx_bits_16 : slobidx_bits = 16.
Proof. unfold slobidx_bits. by rewrite page_size_law. Qed.

Lemma SLOB_UNIT_2 : SLOB_UNIT = 2.
Proof. unfold SLOB_UNIT. by rewrite slobidx_bits_16. Qed.

Lemma to_slobidx_small x : -32768 <= x < 32768 -> to_slobidx x = x.
Proof. intros Hx. unfold to_slobidx. rewrite slobidx_bits_16. by apply wraps_small. Qed.

Lemma ptr_add_eq p k : ptr_add p k = p + 2 * k.
Proof. unfold ptr_add. by rewrite SLOB_UNIT_2. Qed.

Lemma ptr_sub_eq p q k : p = q + 2 * k -> ptr_sub p q = k.
Proof.
  intros ->. unfold ptr_sub. rewrite SLOB_UNIT_2.
  replace (q + 2 * k - q) with (k * 2) by lia. by apply Z.div_mul.
Qed.

Lemma SLOB_UNITS_spec size : 0 <= size -> 2 * (SLOB_UNITS size - 1) < size <= 2 * SLOB_UNITS size.
Proof. intros Hs. unfold SLOB_UNITS. rewrite SLOB_UNIT_2. by apply div_round_up_law. Qed.

Lemma SLOB_UNITS_PAGE : SLOB_UNITS PAGE_SIZE = PU.
Proof. pose proof (SLOB_UNITS_spec PAGE_SIZE) as E. rewrite page_size_law in *. lia. Qed.

(** [base] is the address of a page frame. *)
Definition is_base (base : Z) : Prop := 0 < base /\ base mod 4096 = 0.

Lemma page_mask_cell base o : is_base base -> 0 <= o < PU -> (base + 2 * o) .& PAGE_MASK = base.
Proof.
  intros [_ Hb] Ho. rewrite page_mask_land.
  pose proof (Z.div_mod base 4096). pose proof (Z.div_mod (base + 2 * o) 4096).
  pose proof (Z.mod_pos_bound (base + 2 * o) 4096). nia.
Qed.

Lemma not_page_mask_cell base o :
  is_base base -> 0 <= o <= PU -> (base + 2 * o) .& Z.lnot PAGE_MASK = if o =? PU then 0 else 2 * o.
Proof.
  intros [_ Hb] Ho. rewrite not_page_mask_land.
  rewrite Z.add_mod, Hb, Z.add_0_l, Z.mod_mod by done.
  destruct (Z.eqb_spec o PU) as [->|]; [done|]. apply Z.mod_small. lia.
Qed.

(** *** Block headers *)

(** The header stored at offset [o] says: size [n], next free block at [x]. *)
Definition encodes m (base o n x : Z) : Prop :=
  if 1 <? n then m (base + 2 * o) = n /\ m (base + 2 * o + 2) = x
  else m (base + 2 * o) = - x.

Section header.
Variables (base o n x : Z).
Hypothesis Hbase : is_base base.
Hypothesis Ho : 0 <= o < PU.
Hypothesis Hn : 1 <= n <= PU.
Hypothesis Hx : 0 < x <= PU.

Lemma encodes_units m : encodes m base o n x -> slob_units m (base + 2 * o) = n.
Proof.
  unfold encodes, slob_units. destruct (Z.ltb_spec 1 n).
  - intros [-> _]. by zdec.
  - intros ->. zdec. lia.
Qed.

Lemma encodes_next m : encodes m base o n x -> slob_next m (base + 2 * o) = base + 2 * x.
Proof.
  unfold encodes, slob_next. rewrite page_mask_cell by done. rewrite !ptr_add_eq.
  destruct (Z.ltb_spec 1 n).
  - intros [-> E2]. zdec. replace (2 * 1) with 2 by lia. by rewrite E2.
  - intros ->. zdec. rewrite to_slobidx_small by lia. lia.
Qed.

Lemma encodes_last m : encodes m base o n x -> slob_last m (base + 2 * o) = (x =? PU).
Proof.
  intros E. unfold slob_last. rewrite (encodes_next _ E), not_page_mask_cell by side.
  destruct (Z.eqb_spec x PU); [done|]. by zdec.
Qed.

Lemma set_slob_eq m :
  set_slob m (base + 2 * o) n (base + 2 * x) =
  if 1 <? n then <[base + 2 * o + 2 := x]> (<[base + 2 * o := n]> m)
  else <[base + 2 * o := - x]> m.
Proof.
  unfold set_slob. rewrite page_mask_cell by done.
  rewrite (ptr_sub_eq _ _ x) by done. rewrite !to_slobidx_small, ptr_add_eq by lia.
  by replace (2 * 1) with 2 by lia.
Qed.

Lemma set_slob_encodes m : encodes (set_slob m (base + 2 * o) n (base + 2 * x)) base o n x.
Proof.
  rewrite set_slob_eq. unfold encodes. destruct (Z.ltb_spec 1 n).
  - rewrite fn_lookup_insert_ne, !fn_lookup_insert by lia. done.
  - by rewrite fn_lookup_insert.
Qed.

(** Only cells of the block itself are written. *)
Lemma set_slob_frame m a :
  (forall c, o <= c < o + n -> a <> base + 2 * c) ->
  set_slob m (base + 2 * o) n (base + 2 * x) a = m a.
Proof.
  intros Ha. rewrite set_slob_eq. pose proof (Ha o). destruct (Z.ltb_spec 1 n).
  - pose proof (Ha (o + 1)). rewrite !fn_lookup_insert_ne by lia. done.
  - rewrite fn_lookup_insert_ne by lia. done.
Qed.
End header.

Lemma encodes_ext m m' base o n x :
  1 <= n -> (forall c, o <= c < o + n -> m' (base + 2 * c) = m (base + 2 * c)) ->
  encodes m base o n x -> encodes m' base o n x.
Proof.
  intros Hn E. unfold encodes. destruct (Z.ltb_spec 1 n).
  - replace (base + 2 * o + 2) with (base + 2 * (o + 1)) by lia. by rewrite !E by lia.
  - by rewrite E by lia.
Qed.

(** *** Linked segments of blocks *)

(** Offset of the first block of [bs], or [y] if there is none. *)
Definition hd_off bs (y : Z) : Z := match bs with (o, _) :: _ => o | [] => y end.

(** The blocks [bs] are encoded in memory, each pointing to the following one
    and the last one to offset [y]. *)
Fixpoint seg m (base : Z) bs (y : Z) : Prop :=
  match bs with
  | [] => True
  | (o, n) :: t => encodes m base o n (hd_off t y) /\ seg m base t y
  end.

(** Ordered, disjoint blocks inside the page; adjacency is allowed. *)
Fixpoint ordered (lo : Z) bs : Prop :=
  match bs with
  | [] => True
  | (o, n) :: t => lo <= o /\ 1 <= n /\ o + n <= PU /\ ordered (o + n) t
  end.

Lemma hd_off_app bs1 bs2 y : hd_off (bs1 ++ bs2) y = hd_off bs1 (hd_off bs2 y).
Proof. by destruct bs1 as [|[]]. Qed.

Lemma seg_app m base bs1 bs2 y :
  seg m base (bs1 ++ bs2) y <-> seg m base bs1 (hd_off bs2 y) /\ seg m base bs2 y.
Proof.
  induction bs1 as [|[o n] t IH]; simpl; [tauto|]. rewrite hd_off_app, IH. tauto.
Qed.

Lemma ordered_weaken lo lo' bs : lo' <= lo -> ordered lo bs -> ordered lo' bs.
Proof. destruct bs as [|[o n] t]; simpl; [done|]. intuition lia. Qed.

Lemma wf_ordered lo bs : wf_blocks PU lo bs -> ordered lo bs.
Proof.
  revert lo. induction bs as [|[o n] t IH]; intros lo; simpl; [done|].
  intros (?&?&?&W). repeat split; [lia..|]. eapply ordered_weaken; [|by apply IH]. lia.
Qed.

Lemma ordered_elem lo bs o n : ordered lo bs -> (o, n) ∈ bs -> lo <= o /\ 1 <= n /\ o + n <= PU.
Proof.
  revert lo. induction bs as [|[o' n'] t IH]; intros lo; simpl; [set_solver|].
  intros (?&?&?&W) E. apply elem_of_cons in E as [[= -> ->]|E]; [lia|].
  specialize (IH _ W E). lia.
Qed.

Lemma ordered_app lo bs1 bs2 :
  ordered lo (bs1 ++ bs2) <->
  ordered lo bs1 /\ ordered lo bs2 /\
  (forall o n, (o, n) ∈ bs1 -> ordered (o + n) bs2).
Proof.
  revert lo. induction bs1 as [|[o n] t IH]; intros lo; simpl.
  - split; [|tauto]. intros W. repeat split; [done|set_solver].
  - rewrite IH. split.
    + intros (?&?&?&?&?&F). repeat split; try done; [eapply ordered_weaken; [|done]; lia|].
      intros o' n' E. apply elem_of_cons in E as [[= -> ->]|E]; [done|by apply F].
    + intros ((?&?&?&?)&?&F). repeat split; try done; [apply F; set_solver|].
      intros o' n' E. apply F. set_solver.
Qed.

Lemma seg_ext m m' base lo bs y :
  ordered lo bs ->
  (forall c, in_free bs c -> m' (base + 2 * c) = m (base + 2 * c)) ->
  seg m base bs y -> seg m' base bs y.
Proof.
  revert lo. induction bs as [|[o n] t IH]; intros lo; simpl; [done|].
  intros (?&?&?&W) E [E1 S]. split.
  - eapply encodes_ext; [done| |done]. intros c Hc. apply E. by left.
  - eapply IH; [done| |done]. intros c Hc. apply E. by right.
Qed.

Lemma ordered_bounds lo bs c : ordered lo bs -> in_free bs c -> lo <= c < PU.
Proof.
  revert lo. induction bs as [|[o n] t IH]; intros lo; simpl; [done|].
  intros (?&?&?&W) [?|F]; [lia|]. specialize (IH _ W F). lia.
Qed.

(** Rewriting one header leaves the segments that do not contain it. *)
Lemma seg_set_slob m base lo bs y o n x :
  is_base base -> ordered lo bs -> 0 <= o -> 1 <= n -> o + n <= PU -> 0 < x <= PU ->
  (forall c, in_free bs c -> ~ (o <= c < o + n)) ->
  seg m base bs y -> seg (set_slob m (base + 2 * o) n (base + 2 * x)) base bs y.
Proof.
  intros ? W ? ? ? ? D. eapply seg_ext; [done|]. intros c F.
  rewrite set_slob_frame; try done; try lia. intros c' Hc' E.
  apply (D c F). lia.
Qed.

Lemma seg_head m base o n t y :
  seg m base ((o, n) :: t) y -> encodes m base o n (hd_off t y).
Proof. by intros []. Qed.

(** The next offset of a block of an ordered list is past it. *)
Lemma hd_off_ordered lo bs y : ordered lo bs -> lo <= y <= PU -> lo <= hd_off bs y <= PU.
Proof. destruct bs as [|[o n] t]; simpl; [done|]. intros (?&?&?&_). lia. Qed.

(** *** A page's free list *)
Definition page_list m (base fl : Z) bs : Prop :=
  is_base base /\ wf_blocks PU 0 bs /\ fl = base + 2 * hd_off bs PU /\ seg m base bs PU.

(** Memory outside the cells [P] of the page is the same. *)
Definition same_outside (base : Z) (P : Z -> Prop) m m' : Prop :=
  forall a, (forall c, P c -> a <> base + 2 * c) -> m' a = m a.

Lemma same_outside_trans base P m1 m2 m3 :
  same_outside base P m1 m2 -> same_outside base P m2 m3 -> same_outside base P m1 m3.
Proof. intros E1 E2 a Ha. by rewrite E2, E1. Qed.

Lemma same_outside_mono base (P Q : Z -> Prop) m1 m2 :
  (forall c, P c -> Q c) -> same_outside base P m1 m2 -> same_outside base Q m1 m2.
Proof. intros PQ E a Ha. apply E. auto. Qed.

Lemma same_outside_set_slob base (P : Z -> Prop) m o n x :
  is_base base -> 0 <= o -> 1 <= n -> o + n <= PU -> 0 < x <= PU ->
  (forall c, o <= c < o + n -> P c) ->
  same_outside base P m (set_slob m (base + 2 * o) n (base + 2 * x)).
Proof.
  intros ? ? ? ? ? HP a Ha. rewrite set_slob_frame; try done; [lia..|]. auto.
Qed.

(** *** slob_page_alloc: the block at hand *)

(** The pointer the loop of slob_page_alloc holds in [prev]. *)
Definition prev_ptr (base : Z) (pre : blocks) : Z :=
  match last pre with Some (o, _) => base + 2 * o | None => NULL end.

Lemma prev_ptr_snoc base pre o n : prev_ptr base (pre ++ [(o, n)]) = base + 2 * o.
Proof. unfold prev_ptr. by rewrite last_snoc. Qed.

Lemma in_free_single o n c : in_free [(o, n)] c <-> o <= c < o + n.
Proof. simpl. tauto. Qed.

(** Disjointness facts of the three parts of an ordered list. *)
Lemma ordered_mid lo pre o n post :
  ordered lo (pre ++ (o, n) :: post) ->
  lo <= o /\ 1 <= n /\ o + n <= PU /\ ordered (o + n) post /\ ordered lo pre /\
  (forall c, in_free pre c -> lo <= c < o) /\ (forall c, in_free post c -> o + n <= c < PU).
Proof.
  intros W. apply ordered_app in W as (W1 & (?&?&?&W2) & D).
  do 5 (split; [done|]). split; intros c F.
  - pose proof (ordered_bounds _ _ _ W1 F). apply in_free_elem in F as (o'&n'&E&?).
    specialize (D _ _ E). simpl in D. lia.
  - by eapply ordered_bounds.
Qed.

Section take.
Variables (base : Z) (pre post : blocks) (o n : Z).
Hypothesis Hbase : is_base base.
Hypothesis Hord : ordered 0 (pre ++ (o, n) :: post).

(** What the split leaves of the block in front of the object. *)
Definition split_pre (d : Z) : blocks := pre ++ (if d =? 0 then [] else [(o, d)]).

Lemma split_block_spec m al d :
  seg m base (pre ++ (o, n) :: post) PU -> 0 <= d < n ->
  (d ≠ 0 -> al = base + 2 * (o + d)) ->
  exists m', split_block m (prev_ptr base pre) (base + 2 * o) al d n =
      (m', prev_ptr base (split_pre d), base + 2 * (o + d), n - d) /\
    seg m' base (split_pre d ++ (o + d, n - d) :: post) PU /\
    ordered 0 (split_pre d ++ (o + d, n - d) :: post) /\
    same_outside base (fun c => o <= c < o + n) m m'.
Proof.
  intros S Hd Hal. unfold split_block, split_pre. destruct (Z.eqb_spec d 0) as [->|Hd0].
  { exists m. rewrite app_nil_r, Z.add_0_r, Z.sub_0_r. by repeat split. }
  rewrite (Hal Hd0). clear Hal.
  destruct (ordered_mid _ _ _ _ _ Hord) as (?&?&?&Wpost&Wpre&Dpre&Dpost).
  apply seg_app in S as [Spre [E Spost]].
  pose proof (hd_off_ordered _ _ PU Wpost ltac:(lia)) as Hx. set (x := hd_off post PU) in *.
  rewrite (encodes_next base o n x) by side.
  set (m1 := set_slob m (base + 2 * (o + d)) (n - d) (base + 2 * x)).
  set (m2 := set_slob m1 (base + 2 * o) d (base + 2 * (o + d))).
  assert (encodes m2 base (o + d) (n - d) x) as E2.
  { eapply (encodes_ext m1); [lia| |apply set_slob_encodes; side].
    intros c Hc. apply set_slob_frame; try done; lia. }
  exists m2. rewrite prev_ptr_snoc, (encodes_units base (o + d) (n - d) x) by side.
  split; [done|]. rewrite <- app_assoc. simpl app. split; [|split].
  - apply seg_app. simpl. repeat split.
    + apply (seg_set_slob _ _ 0); try done; [lia..| |].
      { intros c ?%Dpre. lia. }
      apply (seg_set_slob _ _ 0); try done; [lia..|]. intros c ?%Dpre. lia.
    + apply set_slob_encodes; side.
    + done.
    + apply (seg_set_slob _ _ (o + n)); try done; [lia..| |].
      { intros c ?%Dpost. lia. }
      apply (seg_set_slob _ _ (o + n)); try done; [lia..|]. intros c ?%Dpost. lia.
  - apply ordered_app in Hord as (W1&W2&W3). apply ordered_app. split; [done|]. split.
    + simpl. repeat split; try lia. by replace (o + d + (n - d)) with (o + n) by lia.
    + intros o' n' F. specialize (W3 _ _ F). simpl in W3 |- *. repeat split; try lia.
      by replace (o + d + (n - d)) with (o + n) by lia.
  - eapply same_outside_trans; apply same_outside_set_slob; try done; lia.
Qed.

(** What remains of the block once [u] units are taken from its start. *)
Definition unlink_rest (u : Z) : blocks := if n =? u then [] else [(o + u, n - u)].

Lemma unlink_rest_hd u : hd_off (unlink_rest u ++ post) PU = if n =? u then hd_off post PU else o + u.
Proof. unfold unlink_rest. by destruct (n =? u). Qed.

(** Rewriting the link of the last block of [pre], or ->freelist if there is none. *)
Lemma relink_pre m y fl x :
  seg m base pre y -> y <= PU -> (forall c, in_free pre c -> c < y) ->
  0 < x <= PU -> (forall c, in_free pre c -> c < x) ->
  exists m', (if negb (prev_ptr base pre =? NULL)
      then (set_slob m (prev_ptr base pre) (slob_units m (prev_ptr base pre)) (base + 2 * x), fl)
      else (m, base + 2 * x)) = (m', if pre is [] then base + 2 * x else fl) /\
    seg m' base pre x /\ same_outside base (in_free pre) m m'.
Proof.
  intros S Hy Hlt' Hx Hlt. destruct (ordered_mid _ _ _ _ _ Hord) as (_&_&_&_&Wpre&_&_). clear Hord.
  destruct (decide (pre = [])) as [->|Hne]; [exists m; by repeat split|].
  destruct (exists_last Hne) as (p0 & [op np] & ->). rewrite prev_ptr_snoc.
  destruct (ordered_mid _ _ _ _ [] Wpre) as (?&?&?&_&Wp0&Dp0&_).
  apply seg_app in S as [S0 [E _]]. simpl in E. pose proof Hbase as [Hpos _].
  assert (op + np <= x).
  { specialize (Hlt (op + np - 1)). rewrite in_free_app, in_free_single in Hlt. lia. }
  assert (0 < y).
  { specialize (Hlt' op). rewrite in_free_app, in_free_single in Hlt'. lia. }
  rewrite (encodes_units base op np y) by side.
  zdec. simpl negb. eexists. split; [by destruct p0|]. split.
  - apply seg_app. split; [|split; [|done]].
    + apply (seg_set_slob _ _ 0); try done; [lia..|]. intros c ?%Dp0. lia.
    + apply set_slob_encodes; side.
  - apply same_outside_set_slob; try done; [lia..|]. intros c Hc.
    rewrite in_free_app, in_free_single. by right.
Qed.

Lemma hd_off_cons_app y1 y2 : pre ≠ [] -> hd_off pre y1 = hd_off pre y2.
Proof. by destruct pre as [|[]]. Qed.

Lemma unlink_block_spec m u fl :
  seg m base (pre ++ (o, n) :: post) PU -> 1 <= u <= n ->
  fl = base + 2 * hd_off (pre ++ (o, n) :: post) PU ->
  exists m', unlink_block m (prev_ptr base pre) (base + 2 * o) n u fl =
      (m', base + 2 * hd_off (pre ++ unlink_rest u ++ post) PU) /\
    seg m' base (pre ++ unlink_rest u ++ post) PU /\
    same_outside base (in_free (pre ++ (o, n) :: post)) m m'.
Proof.
  intros S Hu Hfl. unfold unlink_block.
  destruct (ordered_mid _ _ _ _ _ Hord) as (?&?&?&Wpost&Wpre&Dpre&Dpost).
  apply seg_app in S as [Spre [E Spost]]. simpl in Spre.
  pose proof (hd_off_ordered _ _ PU Wpost ltac:(lia)) as Hx.
  pose proof (unlink_rest_hd u) as Hhd.
  assert (forall m', same_outside base (in_free pre) m m' ->
    same_outside base (in_free (pre ++ (o, n) :: post)) m m') as Hsub.
  { intros m'. apply same_outside_mono. intros c. rewrite in_free_app. by left. }
  assert (forall fl' x, fl' = (if pre is [] then base + 2 * x else fl) ->
    x = hd_off (unlink_rest u ++ post) PU ->
    fl' = base + 2 * hd_off (pre ++ unlink_rest u ++ post) PU) as Hfl'.
  { intros fl' x -> ->. rewrite (hd_off_app pre). destruct pre as [|[]]; [done|]. by rewrite Hfl. }
  rewrite (encodes_next base o n (hd_off post PU)) by side.
  unfold unlink_rest in *. destruct (Z.eqb_spec n u) as [Enu|].
  - destruct (relink_pre m o fl (hd_off post PU) Spre) as (m'&->&S'&F');
      [lia|intros c ?%Dpre; lia|lia|intros c ?%Dpre; lia|].
    exists m'. split; [by rewrite (Hfl' _ (hd_off post PU) eq_refl (eq_sym Hhd))|].
    split; [|by apply Hsub].
    apply seg_app. split; [done|]. eapply seg_ext; [done| |done].
    intros c F. apply F'. intros c' ?%Dpre. apply Dpost in F. lia.
  - rewrite ptr_add_eq. replace (base + 2 * o + 2 * u) with (base + 2 * (o + u)) by lia.
    destruct (relink_pre m o fl (o + u) Spre) as (m'&->&S'&F');
      [lia|intros c ?%Dpre; lia|lia|intros c ?%Dpre; lia|].
    eexists. split; [by rewrite (Hfl' _ (o + u) eq_refl (eq_sym Hhd))|]. split.
    + apply seg_app. split; [|split].
      * apply (seg_set_slob _ _ 0); try done; [lia..|]. intros c ?%Dpre. lia.
      * apply (set_slob_encodes _ _ _ (hd_off post PU)); side.
      * apply (seg_set_slob _ _ (o + n)); try done; [lia..| |].
        { intros c ?%Dpost. lia. }
        eapply seg_ext; [done| |done].
        intros c F. apply F'. intros c' ?%Dpre. apply Dpost in F. lia.
    + eapply same_outside_trans; [by apply Hsub|]. apply same_outside_set_slob; try done; [lia..|].
      intros c Hc. rewrite in_free_app. right. left. lia.
Qed.
End take.

(** *** Alignment *)
Definition align_ok (align : Z) : Prop := align = 0 \/ exists k, 1 <= k /\ align = 2 ^ k.

(** Units of padding in front of an object placed in a block at offset [o]. *)
Definition pad (align base o : Z) : Z :=
  if align =? 0 then 0 else ptr_sub (ALIGN (base + 2 * o) align) (base + 2 * o).

Definition aligned_to (align a : Z) : Prop := align = 0 \/ (align | a).

Lemma even_base base : is_base base -> (2 | base).
Proof.
  intros [_ E]. apply Z.mod_divide in E; [|done]. etrans; [|exact E]. by exists 2048.
Qed.

Lemma pad_spec align base o :
  align_ok align -> is_base base -> 0 <= o ->
  0 <= pad align base o /\
  (align ≠ 0 -> ALIGN (base + 2 * o) align = base + 2 * (o + pad align base o)) /\
  aligned_to align (base + 2 * (o + pad align base o)).
Proof.
  intros Ha Hb Ho. unfold pad, aligned_to. pose proof (even_base _ Hb) as [b Eb].
  destruct Ha as [->|(k&Hk&->)]; [split; [done|]; split; [done|by left]|].
  pose proof (Z.pow_pos_nonneg 2 k). destruct (Z.eqb_spec (2 ^ k) 0); [lia|].
  destruct Hb as [Hb0 _].
  destruct (align_law (base + 2 * o) k) as [A1 A2]; [lia..|].
  assert (2 | ALIGN (base + 2 * o) (2 ^ k)) as [a Ea].
  { etrans; [|exact A2]. exists (2 ^ (k - 1)). rewrite Z.mul_comm, <- Z.pow_succ_r by lia.
    f_equal. lia. }
  rewrite (ptr_sub_eq _ _ (a - b - o)) by lia.
  split; [lia|]. split; [lia|]. right. by replace (base + 2 * (o + (a - b - o)))
    with (ALIGN (base + 2 * o) (2 ^ k)) by lia.
Qed.

(** *** slob_page_alloc *)
Section page_alloc.
Context {L : Type} {LO : ListOps L}.
Implicit Types (s : state L).

(** The updates of struct page and of the page lists after a block was taken. *)
Definition took m (fl u sp : Z) s : state L :=
  let s := with_mem m s in
  let s := with_page sp (set_freelist fl (page_at s sp)) s in
  let s := with_page sp (set_units (Slob.units (page_at s sp) - u) (page_at s sp)) s in
  if Slob.units (page_at s sp) =? 0 then clear_slob_page_free sp s else s.

Lemma carve_split pre o n d u post :
  split_pre pre o d ++ unlink_rest (o + d) (n - d) u ++ post = pre ++ carve o n d u ++ post.
Proof. unfold split_pre, unlink_rest, carve. by rewrite <- !app_assoc. Qed.

Lemma take_block_spec s sp base pre o n post al d u :
  let bs := pre ++ (o, n) :: post in
  page_list (mem s) base (freelist (page_at s sp)) bs ->
  1 <= u -> 0 <= d -> u + d <= n -> (d ≠ 0 -> al = base + 2 * (o + d)) ->
  exists m fl,
    take_block (prev_ptr base pre) (base + 2 * o) al d n u sp s =
      (took m fl u sp s, base + 2 * (o + d)) /\
    fl = base + 2 * hd_off (pre ++ carve o n d u ++ post) PU /\
    seg m base (pre ++ carve o n d u ++ post) PU /\
    same_outside base (in_free bs) (mem s) m.
Proof.
  intros bs (Hb&W&Hfl&S) Hu Hd Hn Hal. apply wf_ordered in W as O. unfold take_block.
  destruct (split_block_spec base pre post o n Hb O (mem s) al d) as (m1&->&S1&O1&F1); [done|lia|done|].
  destruct (unlink_block_spec base _ _ _ _ Hb O1 m1 u (freelist (page_at s sp)))
    as (m2&->&S2&F2); [done|lia| |].
  { rewrite Hfl. unfold bs, split_pre. f_equal. f_equal. rewrite <- app_assoc, !hd_off_app.
    destruct pre as [|[]]; [|done]. simpl. destruct (Z.eqb_spec d 0); simpl; [lia|done]. }
  rewrite carve_split in *.
  exists m2, (base + 2 * hd_off (pre ++ carve o n d u ++ post) PU).
  split; [done|]. split; [done|]. split; [done|].
  destruct (ordered_mid _ _ _ _ _ O) as (?&_&_&_&_&Dpre&Dpost).
  apply (same_outside_trans _ _ _ m1);
    [eapply same_outside_mono; [|exact F1]|eapply same_outside_mono; [|exact F2]];
    intros c; unfold bs.
  - intros Hc. rewrite in_free_app. right. by left.
  - unfold split_pre. rewrite <- app_assoc, !in_free_app. simpl.
    destruct (Z.eqb_spec d 0); simpl; intuition lia.
Qed.

(** The result of the scan of [bs] when [pre] was scanned before. *)
Definition scan_result (base u sp : Z) pre bs (o : option (Z * blocks)) s (x : res (state L * Z)) :
    Prop :=
  match o with
  | Some (r, bs') => exists m fl, x = Ret (took m fl u sp s, base + 2 * r) /\
      fl = base + 2 * hd_off (pre ++ bs') PU /\ seg m base (pre ++ bs') PU /\
      same_outside base (in_free (pre ++ bs)) (mem s) m
  | None => x = Ret (s, NULL)
  end.

Lemma page_alloc_loop_spec fuel s sp size align base pre bs :
  page_list (mem s) base (freelist (page_at s sp)) (pre ++ bs) ->
  bs ≠ [] -> (length bs <= fuel)%nat -> 0 < size -> align_ok align ->
  scan_result base (SLOB_UNITS size) sp pre bs
    (alloc_blocks (pad align base) (SLOB_UNITS size) bs) s
    (page_alloc_loop fuel sp size align (prev_ptr base pre) (base + 2 * hd_off bs PU) s).
Proof.
  intros P Hne Hf Hs Ha. pose proof (SLOB_UNITS_spec size ltac:(lia)) as Hu.
  revert pre fuel P Hne Hf. induction bs as [|[o n] t IH]; intros pre fuel P Hne Hf; [done|].
  destruct fuel as [|fuel]; [simpl in Hf; lia|]. assert (P0 := P).
  destruct P as (Hb&W&Hfl&S). apply wf_ordered in W as O.
  destruct (ordered_mid _ _ _ _ _ O) as (?&?&?&Ot&_&_&_).
  apply seg_app in S as [_ [E _]].
  pose proof (hd_off_ordered _ _ PU Ot ltac:(lia)) as Hx.
  destruct (pad_spec align base o Ha Hb ltac:(lia)) as (Hd&Hal&_).
  change (hd_off ((o, n) :: t) PU) with o. simpl page_alloc_loop. simpl alloc_blocks. unfold fits. simpl fst. simpl snd.
  rewrite (encodes_units base o n (hd_off t PU)) by side.
  replace (if align =? 0 then 0 else ptr_sub (if align =? 0 then NULL else ALIGN (base + 2 * o) align)
    (base + 2 * o)) with (pad align base o) by (unfold pad; by destruct (align =? 0)).
  destruct (Z.leb_spec (SLOB_UNITS size + pad align base o) n).
  - destruct (take_block_spec s sp base pre o n t
      (if align =? 0 then NULL else ALIGN (base + 2 * o) align) (pad align base o) (SLOB_UNITS size))
      as (m&fl&->&?&?&?); try done; [lia| |by exists m, fl].
    intros Hd0. unfold pad in *. destruct (Z.eqb_spec align 0); [done|by apply Hal].
  - rewrite (encodes_last base o n (hd_off t PU)) by side.
    destruct t as [|[o' n'] t]; [done|]. simpl in Hx. simpl hd_off.
    assert (o' < PU) by (simpl in Ot; lia). zdec.
    rewrite (encodes_next base o n o') by side.
    specialize (IH (pre ++ [(o, n)]) fuel). rewrite <- !app_assoc, prev_ptr_snoc in IH.
    specialize (IH P0 ltac:(done) ltac:(simpl in *; lia)). simpl hd_off in IH.
    destruct (alloc_blocks _ _ ((o', n') :: t)) as [[r t']|]; [|done].
    destruct IH as (m&fl&->&?&?&?). exists m, fl. rewrite <- !app_assoc in *. done.
Qed.

Lemma slob_page_alloc_spec fuel s sp size align base bs :
  page_list (mem s) base (freelist (page_at s sp)) bs ->
  bs ≠ [] -> (length bs <= fuel)%nat -> 0 < size -> align_ok align ->
  scan_result base (SLOB_UNITS size) sp [] bs
    (alloc_blocks (pad align base) (SLOB_UNITS size) bs) s
    (slob_page_alloc fuel sp size align s).
Proof.
  intros P. intros. unfold slob_page_alloc. assert (P0 := P). destruct P as (_&_&->&_).
  by apply (page_alloc_loop_spec _ _ _ _ _ _ []).
Qed.
End page_alloc.

(** *** Insertion into the free list *)
Section insert.
Variables (base x u : Z).
Hypothesis Hbase : is_base base.
Hypothesis Hx : 0 <= x.
Hypothesis Hu : 1 <= u.
Hypothesis Hxu : x + u <= PU.

(** Writing the block at [x], merged with the block that follows it or not. *)
Definition write_right (m : Z -> Z) (t : blocks) : Z -> Z :=
  let '(u', t') := merge_right x u t in
  set_slob m (base + 2 * x) u' (base + 2 * hd_off t' PU).

Lemma write_right_spec m t :
  ordered (x + u) t -> seg m base t PU ->
  let '(u', t') := merge_right x u t in
  let m' := write_right m t in
  1 <= u' /\ x + u' <= PU /\ ordered (x + u') t' /\
  encodes m' base x u' (hd_off t' PU) /\ seg m' base t' PU /\
  (forall c, x <= c < x + u' -> x <= c < x + u \/ in_free t c) /\
  (forall c, in_free t' c -> in_free t c) /\
  same_outside base (fun c => x <= c < x + u') m m'.
Proof.
  intros O S. unfold write_right.
  destruct (merge_right x u t) as [u' t'] eqn:M.
  assert (1 <= u' /\ x + u' <= PU /\ ordered (x + u') t' /\ seg m base t' PU /\
    (forall c, x <= c < x + u' -> x <= c < x + u \/ in_free t c) /\
    (forall c, in_free t' c -> in_free t c)) as (?&?&O'&S'&C1&C2).
  { destruct t as [|[o n] t]; simpl in M.
    - injection M as <- <-. repeat split; try done; intros; lia.
    - simpl in O, S. destruct O as (?&?&?&O), S as [? S].
      destruct (Z.eqb_spec (x + u) o); injection M as <- <-.
      + do 2 (split; [lia|]). split; [eapply ordered_weaken; [|done]; lia|].
        split; [done|]. simpl. split; intros c Hc; [lia|by right].
      + do 2 (split; [lia|]). split; [by simpl|]. split; [by simpl|].
        split; intros c Hc; [lia|done]. }
  assert (0 < hd_off t' PU <= PU).
  { pose proof (hd_off_ordered _ _ PU O' ltac:(lia)). lia. }
  do 3 (split; [done|]). split; [apply set_slob_encodes; side|]. split.
  { apply (seg_set_slob _ _ (x + u')); try done. intros c F.
    pose proof (ordered_bounds _ _ _ O' F). lia. }
  do 2 (split; [done|]). by apply same_outside_set_slob.
Qed.

(** The pair (prev, next) found by the while loop encloses [x]. *)
Lemma find_gap_spec fuel m pre o n t :
  ordered 0 (pre ++ (o, n) :: t) -> seg m base (pre ++ (o, n) :: t) PU -> o <= x ->
  (length t < fuel)%nat ->
  exists pre' o' n' t', pre ++ (o, n) :: t = pre' ++ (o', n') :: t' /\
    o' <= x <= hd_off t' PU /\
    find_gap fuel m (base + 2 * x) (base + 2 * o) (base + 2 * hd_off t PU) =
      Ret (base + 2 * o', base + 2 * hd_off t' PU).
Proof.
  revert fuel pre o n. induction t as [|[o2 n2] t IH]; intros fuel pre o n O S Hox Hf;
    (destruct fuel as [|fuel]; [simpl in Hf; lia|]); simpl find_gap.
  - exists pre, o, n, []. simpl. split; [done|]. split; [lia|]. by zdec.
  - destruct (ordered_mid _ _ _ _ _ O) as (?&?&?&Ot&_).
    destruct (Z.ltb_spec (base + 2 * o2) (base + 2 * x)).
    + destruct (IH fuel (pre ++ [(o, n)]) o2 n2) as (pre'&o'&n'&t'&E&?&G);
        rewrite <- ?app_assoc; try done; [lia|simpl in Hf; lia|].
      rewrite <- app_assoc in E. exists pre', o', n', t'. split; [done|]. split; [done|].
      apply seg_app in S as [_ [_ [E2 _]]]. simpl in Ot.
      pose proof (hd_off_ordered _ _ PU (proj2 (proj2 (proj2 Ot))) ltac:(lia)).
      by rewrite (encodes_next base o2 n2 (hd_off t PU)) by side.
    + exists pre, o, n, ((o2, n2) :: t). simpl. split; [done|]. split; [lia|done].
Qed.

(** Writing the block after its predecessor was found: the memory slob_free
    leaves. *)
Definition write_left (m : Z -> Z) (o : Z) : Z -> Z :=
  let b := base + 2 * x in
  let prev := base + 2 * o in
  if ptr_add prev (slob_units m prev) =? b
  then set_slob m prev (to_slobidx (slob_units m b + slob_units m prev)) (slob_next m b)
  else set_slob m prev (slob_units m prev) b.

Lemma write_left_spec m pre o n u' t' y :
  ordered 0 pre -> (forall c, in_free pre c -> c < o) ->
  0 <= o -> 1 <= n -> o + n <= x -> 1 <= u' -> x + u' <= PU -> ordered (x + u') t' ->
  seg m base pre o -> encodes m base o n y -> 0 < y <= PU ->
  encodes m base x u' (hd_off t' PU) -> seg m base t' PU ->
  let bs' := if o + n =? x then (o, n + u') :: t' else (o, n) :: (x, u') :: t' in
  seg (write_left m o) base (pre ++ bs') PU /\
  same_outside base (fun c => o <= c < o + n + (if o + n =? x then u' else 0)) m (write_left m o).
Proof.
  intros Op Dp ? ? ? ? ? Ot Sp E ? E' St. unfold write_left.
  pose proof (hd_off_ordered _ _ PU Ot ltac:(lia)).
  rewrite (encodes_units base o n y), (encodes_units base x u' (hd_off t' PU)) by side.
  rewrite (encodes_next base x u' (hd_off t' PU)), ptr_add_eq by side.
  assert (forall sz nx, 0 < nx <= PU -> 1 <= sz -> o + sz <= PU -> (forall c, in_free t' c -> o + sz <= c) ->
    seg (set_slob m (base + 2 * o) sz (base + 2 * nx)) base t' PU) as F1.
  { intros sz nx ? ? ? D. apply (seg_set_slob _ _ (x + u')); try done. intros c F.
    specialize (D c F). lia. }
  assert (forall sz nx, 0 < nx <= PU -> 1 <= sz -> o + sz <= PU ->
    seg (set_slob m (base + 2 * o) sz (base + 2 * nx)) base pre o) as F2.
  { intros sz nx ? ? ?. apply (seg_set_slob _ _ 0); try done. intros c F%Dp. lia. }
  destruct (Z.eqb_spec (o + n) x) as [Ex|].
  - zdec. rewrite to_slobidx_small by lia. replace (u' + n) with (n + u') by lia. split.
    + apply seg_app. split; [apply F2; lia|]. split; [apply set_slob_encodes; side|].
      apply F1; try lia. intros c F. pose proof (ordered_bounds _ _ _ Ot F). lia.
    + apply same_outside_set_slob; try done; lia.
  - zdec. split.
    + apply seg_app. split; [apply F2; lia|]. split; [apply (set_slob_encodes _ _ _ x); side|].
      split.
      * eapply encodes_ext; [done| |done]. intros c Hc. apply set_slob_frame; side.
      * apply F1; try lia. intros c F. pose proof (ordered_bounds _ _ _ Ot F). lia.
    + apply same_outside_set_slob; try done; lia.
Qed.

(** The memory after the right neighbour was dealt with, as the code computes it. *)
Lemma code_write_right m prev t :
  ordered (x + u) t -> seg m base t PU -> slob_last m prev = (hd_off t PU =? PU) ->
  (if negb (slob_last m prev) && (ptr_add (base + 2 * x) u =? base + 2 * hd_off t PU)
   then set_slob m (base + 2 * x) (to_slobidx (u + slob_units m (base + 2 * hd_off t PU)))
          (slob_next m (base + 2 * hd_off t PU))
   else set_slob m (base + 2 * x) u (base + 2 * hd_off t PU)) = write_right m t.
Proof.
  intros O S ->. unfold write_right, merge_right. rewrite ptr_add_eq.
  destruct t as [|[o n] t]; [done|]. simpl in O, S |- *. destruct O as (?&?&?&O), S as [E S].
  pose proof (hd_off_ordered _ _ PU O ltac:(lia)).
  rewrite (encodes_units base o n (hd_off t PU)) by side.
  rewrite (encodes_next base o n (hd_off t PU)) by side.
  replace (o =? PU) with false by (symmetry; apply Z.eqb_neq; lia). simpl.
  destruct (Z.eqb_spec (x + u) o); zdec; [|done]. by rewrite to_slobidx_small by lia.
Qed.

(** The same for a block before all free blocks. *)
Lemma code_write_front m o n t :
  ordered (x + u) ((o, n) :: t) -> seg m base ((o, n) :: t) PU ->
  (let '(units, fl) := if ptr_add (base + 2 * x) u =? base + 2 * o
     then (to_slobidx (u + slob_units m (base + 2 * o)), slob_next m (base + 2 * o))
     else (u, base + 2 * o) in Ret (set_slob m (base + 2 * x) units fl, base + 2 * x)) =
  Ret (write_right m ((o, n) :: t), base + 2 * x).
Proof.
  intros O S. unfold write_right, merge_right. rewrite ptr_add_eq. simpl in O, S.
  destruct O as (?&?&?&O), S as [E S].
  pose proof (hd_off_ordered _ _ PU O ltac:(lia)).
  rewrite (encodes_units base o n (hd_off t PU)) by side.
  rewrite (encodes_next base o n (hd_off t PU)) by side.
  destruct (Z.eqb_spec (x + u) o); zdec; [|done]. by rewrite to_slobidx_small by lia.
Qed.

(** The block between its neighbours, once they are found: [x + u] is before [t]
    and [x] after ([o], [n]). *)
Lemma insert_gap_spec m pre o n t :
  ordered 0 (pre ++ (o, n) :: t) -> seg m base (pre ++ (o, n) :: t) PU -> o + n <= x -> ordered (x + u) t ->
  let bs' := let '(u', t') := merge_right x u t in
    if o + n =? x then (o, n + u') :: t' else (o, n) :: (x, u') :: t' in
  seg (write_left (write_right m t) o) base (pre ++ bs') PU /\
  same_outside base (fun c => in_free (pre ++ (o, n) :: t) c \/ x <= c < x + u) m (write_left (write_right m t) o).
Proof.
  intros O S Hox Oxu. destruct (ordered_mid _ _ _ _ _ O) as (?&?&?&Ot&Op&Dpre&Dpost).
  apply seg_app in S as [Sp [Eo St]]. simpl in Sp.
  pose proof (hd_off_ordered _ _ PU Ot ltac:(lia)) as Ht.
  pose proof (write_right_spec m _ Oxu St) as R. destruct (merge_right x u t) as [u' t'] eqn:M.
  destruct R as (?&?&?&E'&S'&C1&_&F).
  destruct (write_left_spec (write_right m t) pre o n u' t' (hd_off t PU)) as [S2 F2]; try done.
  { intros c ?%Dpre. lia. }
  { eapply seg_ext; [done| |done]. intros c Hc. apply F. intros c' Hc'. apply Dpre in Hc. lia. }
  { eapply encodes_ext; [done| |done]. intros c Hc. apply F. intros c' Hc'. lia. }
  { lia. }
  split; [done|]. apply (same_outside_trans _ _ _ (write_right m t)).
  - eapply same_outside_mono; [|exact F]. intros c Hc. rewrite in_free_app. simpl. destruct (C1 c Hc); tauto.
  - eapply same_outside_mono; [|exact F2]. intros c Hc. rewrite in_free_app. simpl.
    destruct (Z.eqb_spec (o + n) x); [|left; right; left; lia].
    destruct (decide (c < o + n)); [left; right; left; lia|]. destruct (C1 c ltac:(lia)); tauto.
Qed.

Lemma insert_block_spec fuel m fl bs :
  page_list m base fl bs -> bs ≠ [] -> (length bs <= fuel)%nat ->
  (forall c, x <= c < x + u -> ~ in_free bs c) ->
  exists m' fl', insert_block fuel m fl (base + 2 * x) u = Ret (m', fl') /\
    page_list m' base fl' (free_blocks x u bs) /\
    same_outside base (fun c => in_free bs c \/ x <= c < x + u) m m'.
Proof.
  intros (_&W&->&S) Hne Hf D. destruct (free_blocks_spec PU x u 0 bs) as (W'&_&_); try done.
  assert (O := wf_ordered _ _ W). unfold insert_block. destruct bs as [|[o0 n0] t0]; [done|]. simpl hd_off.
  destruct (Z.ltb_spec (base + 2 * x) (base + 2 * o0)) as [Hlt|Hge].
  - rewrite (free_blocks_front x u o0 n0 t0) in * by lia.
    assert (ordered (x + u) ((o0, n0) :: t0)) as Oxu.
    { pose proof (D o0). simpl in *. intuition lia. }
    rewrite (code_write_front m o0 n0 t0 Oxu S). pose proof (write_right_spec m _ Oxu S) as R.
    destruct (merge_right x u ((o0, n0) :: t0)) as [u' t'] eqn:M. destruct R as (?&?&?&E'&S'&C1&_&F).
    eexists _, _. split; [done|]. split; [done|].
    eapply same_outside_mono; [|exact F]. intros c Hc. destruct (C1 c Hc); tauto.
  - pose proof (hd_off_ordered _ _ PU (proj2 (proj2 (proj2 O))) ltac:(simpl in O; lia)) as Hx0.
    rewrite (encodes_next base o0 n0 (hd_off t0 PU)) by (simpl in O; side || apply S).
    destruct (find_gap_spec fuel m [] o0 n0 t0) as (pre&o&n&t&E&Hgap&G); [done..|lia|simpl in Hf; lia|].
    simpl app in E. rewrite G. simpl mbind. cbv beta iota.
    assert (hd_off ((o0, n0) :: t0) PU = hd_off (pre ++ (o, n) :: t) PU) as Eh by by rewrite E.
    rewrite E in O, S, D, W, W' |- *. clear G Hx0 Hge.
    destruct (ordered_mid _ _ _ _ _ O) as (?&?&?&Ot&Op&Dpre&Dpost).
    assert (o + n <= x) by (pose proof (D x); rewrite in_free_app in *; simpl in *; lia).
    assert (ordered (x + u) t) as Oxu.
    { destruct t as [|[o2 n2] t2]; [done|]. simpl in Ot, Hgap |- *.
      pose proof (D o2) as D2. rewrite in_free_app in D2. simpl in D2. intuition lia. }
    destruct (insert_gap_spec m pre o n t O S) as [S2 F2]; [done..|]. apply seg_app in S as [_ [Eo St]].
    pose proof (hd_off_ordered _ _ PU Ot ltac:(lia)).
    rewrite code_write_right; [|done|done|apply (encodes_last base o n); side].
    rewrite (free_blocks_gap PU x u 0) in * by (done || lia || (intros o2 n2 t2 ->; simpl in Oxu; lia)).
    eexists _, _. split; [done|]. split; [|done]. split; [done|]. split; [done|]. split; [|done].
    f_equal. f_equal. simpl in Eh. rewrite Eh, !hd_off_app. destruct pre as [|[]]; [|done]. simpl.
    destruct (merge_right x u t). by destruct (o + n =? x).
Qed.
End insert.
End SlobPage.
