(* ===== verification/SlobSearch.v ===== *)
(** The page search of slob_alloc: the bounded best-fit scan and the rotation of
    the list of partially free pages after a successful allocation. *)
From S2P Require Import Prelude ListHead Kernel SlobBlocks Slob SlobPage.

Section SlobSearch.
Context {K : Kernel} {L : Type} {LO : ListOps L} {LL : ListLaws L}.
Implicit Types (h : L) (l : list Z).

(** *** The best-fit scan *)

(** One comparison of the scan: [e] replaces [best] if it has room and fewer
    free units. *)
Definition choose (pt : Z -> page) (size best e : Z) : Z :=
  if (SLOB_UNITS size <=? Slob.units (pt e)) && (Slob.units (pt e) <? Slob.units (pt best))
  then e else best.

(** The pages the scan looks at: at most 50, from the head of the list to [sp]. *)
Lemma best_fit_loop_fold n h pt size head pre1 pre2 sp rest best :
  ring h (head :: (pre1 ++ pre2) ++ sp :: rest) ->
  best_fit_loop n h pt size sp (List.last pre1 head) best =
    fold_left (choose pt size) (take n (pre2 ++ [sp])) best.
Proof.
  revert pre1 pre2 best. induction n as [|n IH]; intros pre1 pre2 best R; [done|].
  simpl best_fit_loop.
  assert (forall y t, pre2 ++ sp :: rest = y :: t -> lnext h (List.last pre1 head) = y) as Hn.
  { intros y t E. rewrite <- app_assoc, E in R.
    destruct (decide (pre1 = [])) as [->|Hne]; [exact (ring_next h _ _ _ R)|].
    destruct (exists_last Hne) as (p & z & ->). rewrite List.last_last.
    rewrite <- app_assoc in R. exact (ring_next_mid h (head :: p) _ _ _ R). }
  destruct pre2 as [|y pre2].
  - rewrite (Hn _ _ eq_refl), Z.eqb_refl. simpl. rewrite firstn_nil. done.
  - rewrite (Hn _ _ eq_refl).
    assert (y ≠ sp) as Hy.
    { apply ring_nodup in R. intros ->. apply NoDup_cons in R as [_ R].
      apply NoDup_app in R as (_&D&_). apply (D sp); set_solver. }
    zdec. specialize (IH (pre1 ++ [y]) pre2 (choose pt size best y)).
    rewrite List.last_last in IH. simpl. apply IH. by rewrite <- (app_assoc pre1).
Qed.

Lemma best_fit_scan n h pt size head pre sp rest :
  ring h (head :: pre ++ sp :: rest) ->
  best_fit_loop n h pt size sp head sp = fold_left (choose pt size) (take n (pre ++ [sp])) sp.
Proof. apply (best_fit_loop_fold n h pt size head [] pre sp rest). Qed.

Lemma choose_cases pt size best e :
  choose pt size best e = e /\ SLOB_UNITS size <= Slob.units (pt e) < Slob.units (pt best) \/
  choose pt size best e = best /\
    (SLOB_UNITS size <= Slob.units (pt e) -> Slob.units (pt best) <= Slob.units (pt e)).
Proof. unfold choose. repeat zcase; simpl; [left|right..]; (split; [done|lia]). Qed.

Lemma fold_choose_spec pt size l best :
  let r := fold_left (choose pt size) l best in
  (r = best \/ r ∈ l /\ SLOB_UNITS size <= Slob.units (pt r) < Slob.units (pt best)) /\
  (forall e, e ∈ l -> SLOB_UNITS size <= Slob.units (pt e) -> Slob.units (pt r) <= Slob.units (pt e)).
Proof.
  revert best. induction l as [|e l IH]; intros best; simpl.
  { split; [by left|]. set_solver. }
  specialize (IH (choose pt size best e)). simpl in IH.
  set (r := fold_left (choose pt size) l (choose pt size best e)) in *.
  destruct IH as (I1&I3).
  assert (Slob.units (pt r) <= Slob.units (pt (choose pt size best e))) by (destruct I1 as [->|]; lia).
  destruct (choose_cases pt size best e) as [[E ?]|[E ?]]; rewrite E in *.
  - split.
    + right. destruct I1 as [->|[? ?]]; rewrite elem_of_cons; [auto|]. split; [by right|lia].
    + intros e' He' Hu. apply elem_of_cons in He' as [->|He']; [lia|by apply I3].
  - split.
    + destruct I1 as [->|[? ?]]; [by left|right]. rewrite elem_of_cons. split; [by right|lia].
    + intros e' He' Hu. apply elem_of_cons in He' as [->|He']; [lia|by apply I3].
Qed.

(** If no page before [sp] has room, the scan answers [sp]. *)
Lemma fold_choose_first pt size l best :
  Forall (fun e => Slob.units (pt e) < SLOB_UNITS size) l ->
  fold_left (choose pt size) l best = best.
Proof.
  induction 1 as [|e l He _ IH]; simpl; [done|].
  unfold choose at 2. by zdec.
Qed.

(** *** The search as a list of attempts *)

(** A page that the loop does not skip: on the node asked for, with enough units. *)
Definition eligible (pt : Z -> page) (size node sp : Z) : bool :=
  negb (CONFIG_NUMA && negb (node =? NUMA_NO_NODE) && negb (page_to_nid sp =? node)) &&
  (SLOB_UNITS size <=? Slob.units (pt sp)).

(** The pages that are handed to slob_page_alloc, one after the other as long as it
    fails: for every eligible page of the list, that page, or the first one with the
    fewest units among those before it, within the first 50 of the list, that have
    enough units but fewer than it has. *)
Fixpoint candidates (pt : Z -> page) (size node : Z) (visited todo : list Z) : list Z :=
  match todo with
  | [] => []
  | sp :: todo =>
      let rest := candidates pt size node (visited ++ [sp]) todo in
      if eligible pt size node sp
      then fold_left (choose pt size) (take 50 (visited ++ [sp])) sp :: rest
      else rest
  end.

(** The first of these pages that can serve the request. *)
Fixpoint first_serving {A} (serves : Z -> option A) (l : list Z) : option (Z * A) :=
  match l with
  | [] => None
  | sp :: l => match serves sp with Some a => Some (sp, a) | None => first_serving serves l end
  end.

(** The first page with enough units is the first one that is tried. *)
Lemma candidates_first pt size node visited p sp q :
  Forall (fun e => Slob.units (pt e) < SLOB_UNITS size) (visited ++ p) -> eligible pt size node sp = true ->
  head (candidates pt size node visited (p ++ sp :: q)) = Some sp.
Proof.
  intros F E. revert visited F. induction p as [|x p IH]; intros visited F.
  - rewrite app_nil_r in F. simpl. rewrite E. simpl. f_equal.
    destruct (decide (length visited < 50)%nat) as [Hl|Hl].
    + rewrite firstn_all2 by (rewrite length_app; simpl; lia).
      rewrite fold_left_app, (fold_choose_first _ _ visited) by done. simpl. unfold choose.
      rewrite (proj2 (Z.ltb_ge _ _) (Z.le_refl _)). by rewrite andb_false_r.
    + rewrite take_app_le by lia. apply fold_choose_first. by apply Forall_take.
  - simpl. assert (eligible pt size node x = false) as ->.
    { assert (Slob.units (pt x) < SLOB_UNITS size) by (rewrite Forall_forall in F; apply F; set_solver).
      unfold eligible. rewrite (proj2 (Z.leb_gt _ _)) by done. apply andb_false_r. }
    apply IH. by rewrite <- (app_assoc visited).
Qed.

(** *** The rotation *)

(** slob_alloc's statement "Improve fragment distribution": the list head moves
    in front of the page that follows [prev]. *)
Definition rotate (head prev : Z) (h : L) : L :=
  if negb (prev =? lprev h head) && negb (lnext h head =? lnext h prev)
  then list_move_tail head (lnext h prev) h else h.

(** If [prev] is the last node of [head :: p], the next search starts at [q]. *)
Lemma rotate_spec h head p q :
  ring h (head :: p ++ q) -> ring (rotate head (List.last p head) h) (head :: q ++ p).
Proof.
  intros R. unfold rotate. assert (N := ring_nodup _ _ R).
  destruct (decide (p = [])) as [->|Hp].
  { simpl. rewrite Z.eqb_refl, andb_false_r, app_nil_r. done. }
  destruct (exists_last Hp) as (p' & z & ->). rewrite List.last_last.
  destruct q as [|y q].
  { rewrite app_nil_r in R. rewrite (ring_last h head p' z R), Z.eqb_refl. done. }
  assert (lnext h z = y) as ->.
  { rewrite <- app_assoc in R. exact (ring_next_mid h (head :: p') _ _ _ R). }
  apply NoDup_cons in N as [Nh N]. apply NoDup_app in N as (N1&D&N2).
  assert (lprev h head ∈ y :: q) as Hl.
  { destruct (exists_last (l := y :: q)) as (q' & w & E); [done|].
    rewrite E in R |- *. rewrite app_assoc in R. rewrite (ring_last h _ _ _ R). set_solver. }
  assert (lnext h head ∈ p' ++ [z]) as Hn.
  { destruct (p' ++ [z]) as [|a t] eqn:E; [by destruct p'|].
    simpl in R. rewrite (ring_next h _ _ _ R). set_solver. }
  assert (z ≠ lprev h head) by (intros ->; apply (D (lprev h head)); set_solver).
  assert (lnext h head ≠ y) by (intros E; rewrite E in Hn; apply (D y); set_solver).
  do 2 zdec. simpl. by apply ring_move_tail.
Qed.

Lemma rotate_frame h head p q r :
  ring h (head :: p ++ q) -> ring h r -> r ## head :: p ++ q ->
  ring (rotate head (List.last p head) h) r.
Proof.
  intros R Rr D. unfold rotate.
  destruct (negb _ && negb _) eqn:G; [|done].
  apply andb_true_iff in G as [G1 G2].
  apply negb_true_iff, Z.eqb_neq in G1. apply negb_true_iff, Z.eqb_neq in G2.
  eapply (ring_move_tail_frame h _ _ (p ++ q)); try done.
  destruct (decide (p = [])) as [->|Hp]; [done|].
  destruct (exists_last Hp) as (p' & z & ->). rewrite List.last_last in *.
  destruct q as [|y q].
  { rewrite app_nil_r in R. by rewrite (ring_last h head p' z R) in G1. }
  assert (lnext h z = y) as ->; [|set_solver].
  rewrite <- app_assoc in R. exact (ring_next_mid h (head :: p') _ _ _ R).
Qed.

(** The node before a page of the list. *)
Lemma lprev_spec h head p x q : ring h (head :: p ++ x :: q) -> lprev h x = List.last p head.
Proof.
  intros R. destruct (decide (p = [])) as [->|Hp]; [exact (ring_prev h _ _ _ R)|].
  destruct (exists_last Hp) as (p' & z & ->). rewrite List.last_last.
  rewrite <- app_assoc in R. exact (ring_prev_mid h (head :: p') _ _ _ R).
Qed.
End SlobSearch.
