(* ===== verification/SlobInv.v ===== *)
(** The invariant of the slob allocator.

    The ghost state lists the slab pages, the free blocks of each page, the live
    objects and the pages on each of the three lists. [Inv] relates it to the
    machine state: every unit of every slab page is either free or belongs to
    exactly one live object, the free blocks are encoded in memory, a page is on
    one of the lists exactly when it has a free unit, and [pages] counts the slab
    pages. *)
From S2P Require Import Prelude ListHead Kernel SlobBlocks Slob SlobPage SlobSearch.

(** An allocated object: its page, its offset and size in units. *)
Record obj : Type := mk_obj { o_page : Z; o_off : Z; o_units : Z }.

Record ghost : Type := mk_ghost {
  slabs : list Z;
  blocks_of : Z -> blocks;
  live : list obj;
  on_list : Z -> list Z;       (* by list head *)
}.

(** Units of page [sp] (resp. objects covering its unit [c]) among [l]. *)
Definition covers (sp c : Z) (o : obj) : Z :=
  if (o_page o =? sp) && (o_off o <=? c) && (c <? o_off o + o_units o) then 1 else 0.
Definition units_in (sp : Z) (o : obj) : Z := if o_page o =? sp then o_units o else 0.

Section SlobInv.
Context {K : Kernel} {KL : KernelLaws} {L : Type} {LO : ListOps L} {LL : ListLaws L}.
Implicit Types (s : state L) (g : ghost) (h : L) (on : Z -> list Z).

Definition obj_addr (o : obj) : Z := page_address (o_page o) + 2 * o_off o.

Definition heads : list Z := [free_slob_small; free_slob_medium; free_slob_large].

(** All pages on the lists. *)
Definition partial on : list Z :=
  on free_slob_small ++ on free_slob_medium ++ on free_slob_large.

Record page_inv s (sp : Z) (bs : blocks) : Prop := {
  pi_list : page_list (mem s) (page_address sp) (freelist (page_at s sp)) bs;
  pi_units : Slob.units (page_at s sp) = sum_free bs;
  pi_free : PageSlobFree (page_at s sp) = negb (sum_free bs =? 0);
  pi_slab : PageSlab (page_at s sp) = true;
  pi_virt : virt_to_page (page_address sp) = sp;
}.

Record lists_inv h (sl : list Z) on (P : Z -> Prop) : Prop := {
  li_nodup : NoDup (heads ++ sl);
  li_rings hd : hd ∈ heads -> ring h (hd :: on hd);
  li_partial_nodup : NoDup (partial on);
  li_partial sp : sp ∈ partial on <-> sp ∈ sl /\ P sp;
}.

Record objs_inv (sl : list Z) (bo : Z -> blocks) (lv : list obj) : Prop := {
  oi_range o : o ∈ lv ->
    o_page o ∈ sl /\ 0 <= o_off o /\ 1 <= o_units o /\ o_off o + o_units o <= PU;
  oi_free sp c : sp ∈ sl -> in_free (bo sp) c -> sumZ (covers sp c) lv = 0;
  oi_used sp c : sp ∈ sl -> 0 <= c < PU -> ~ in_free (bo sp) c -> sumZ (covers sp c) lv = 1;
  oi_count sp : sp ∈ sl -> sum_free (bo sp) + sumZ (units_in sp) lv = PU;
}.

Record Inv s g : Prop := {
  inv_pages sp : sp ∈ slabs g -> page_inv s sp (blocks_of g sp);
  inv_lists : lists_inv (lists s) (slabs g) (on_list g) (fun sp => blocks_of g sp ≠ []);
  inv_objs : objs_inv (slabs g) (blocks_of g) (live g);
  inv_pages_count : pages s = wrapu BITS_PER_LONG (Z.of_nat (length (slabs g)));
}.

(** *** Addresses *)
Lemma heads_nodup : NoDup heads.
Proof. apply list_heads_law. Qed.

(** [sp] describes the page frame at its address. *)
Definition is_frame (sp : Z) : Prop :=
  is_base (page_address sp) /\ virt_to_page (page_address sp) = sp.

Lemma page_inv_frame_of s sp bs : page_inv s sp bs -> is_frame sp.
Proof. intros [[B _] _ _ _ V]. done. Qed.

Lemma cell_inj sp1 sp2 c1 c2 :
  is_frame sp1 -> is_frame sp2 -> 0 <= c1 < PU -> 0 <= c2 < PU ->
  page_address sp1 + 2 * c1 = page_address sp2 + 2 * c2 -> sp1 = sp2 /\ c1 = c2.
Proof.
  intros [B1 V1] [B2 V2] H1 H2 E. assert (page_address sp1 = page_address sp2) as Eb.
  { rewrite <- (page_mask_cell _ c1 B1 H1), <- (page_mask_cell _ c2 B2 H2). by rewrite E. }
  split; [|lia]. rewrite <- V1, <- V2. by rewrite Eb.
Qed.

(** The struct page of an object. *)
Lemma virt_to_page_cell sp c :
  is_frame sp -> 0 <= c < PU -> virt_to_page (page_address sp + 2 * c) = sp.
Proof.
  intros [B V] Hc. rewrite <- V at 2.
  apply virt_to_page_law. rewrite page_mask_cell by done.
  rewrite <- (page_mask_cell _ 0 B) at 1 by lia. by rewrite Z.mul_0_r, Z.add_0_r.
Qed.

Lemma page_list_bounds m base fl bs c : page_list m base fl bs -> in_free bs c -> 0 <= c < PU.
Proof. intros (_&W&_). by apply in_free_bounds. Qed.

Lemma wf_blocks_length U lo bs : wf_blocks U lo bs -> lo <= U -> Z.of_nat (length bs) <= U - lo.
Proof.
  revert lo. induction bs as [|[o n] t IH]; intros lo W HU; simpl; [lia|].
  destruct W as (?&?&?&W). destruct t as [|[o' n'] t]; [simpl; lia|].
  assert (o + n + 1 <= U) by (simpl in W; lia). specialize (IH _ W ltac:(lia)). lia.
Qed.

(** *** Frames *)
Lemma page_list_ext m m' base fl bs :
  page_list m base fl bs -> (forall c, in_free bs c -> m' (base + 2 * c) = m (base + 2 * c)) ->
  page_list m' base fl bs.
Proof.
  intros (B&W&E&S) Hm. repeat split; try done; try apply B.
  eapply seg_ext; [by eapply wf_ordered| |done]. done.
Qed.

Lemma page_inv_frame s s' sp bs :
  page_inv s sp bs -> page_at s' sp = page_at s sp ->
  (forall c, in_free bs c -> mem s' (page_address sp + 2 * c) = mem s (page_address sp + 2 * c)) ->
  page_inv s' sp bs.
Proof.
  intros [P1 P2 P3 P4 P5] E Hm. split; rewrite ?E; try done. by eapply page_list_ext.
Qed.

(** Descriptors of other pages, reclaim_state and the list of pages given back do
    not matter. *)
Lemma inv_ext s s' g :
  Inv s g -> mem s' = mem s -> lists s' = lists s -> pages s' = pages s ->
  (forall sp, sp ∈ slabs g -> page_at s' sp = page_at s sp) -> Inv s' g.
Proof.
  intros [I1 I2 I3 I4] Em El Ep Ea. split; rewrite ?El, ?Ep; try done.
  intros sp Hsp. eapply page_inv_frame; [by apply I1|by apply Ea|by rewrite Em].
Qed.

(** Writes that avoid the free units, in particular those of the owners of live
    objects, preserve the invariant. *)
Lemma inv_write s g m' :
  Inv s g ->
  (forall sp c, sp ∈ slabs g -> in_free (blocks_of g sp) c ->
    m' (page_address sp + 2 * c) = mem s (page_address sp + 2 * c)) ->
  Inv (with_mem m' s) g.
Proof.
  intros [I1 I2 I3 I4] Hm. split; try done.
  intros sp Hsp. eapply page_inv_frame; [by apply I1|done|]. intros c. by apply Hm.
Qed.

(** *** Updating one of the three lists *)
Definition others on (hd : Z) : list Z := mjoin (on <$> filter (fun x => x ≠ hd) heads).

Lemma partial_split on hd : hd ∈ heads -> partial on ≡ₚ on hd ++ others on hd.
Proof.
  intros Hh. pose proof heads_nodup as N. unfold heads in *.
  rewrite !NoDup_cons, !elem_of_cons in N. rewrite !elem_of_cons in Hh.
  assert (free_slob_small ≠ free_slob_medium) by tauto.
  assert (free_slob_small ≠ free_slob_large) by tauto.
  assert (free_slob_medium ≠ free_slob_large) by tauto. clear N.
  unfold partial, others, heads. rewrite !filter_cons, filter_nil.
  destruct Hh as [->|[->|[->|Hh]]]; [| | |by apply elem_of_nil in Hh];
    repeat case_decide; try congruence; simpl; rewrite ?app_nil_r; solve_Permutation.
Qed.

Lemma others_insert on hd l : others (<[hd := l]> on) hd = others on hd.
Proof.
  unfold others. f_equal. apply list_fmap_ext. intros i x E.
  apply list_elem_of_lookup_2, list_elem_of_filter in E as [? _].
  by rewrite fn_lookup_insert_ne.
Qed.

Lemma partial_insert on hd l :
  hd ∈ heads -> partial (<[hd := l]> on) ≡ₚ l ++ others on hd.
Proof. intros Hh. by rewrite (partial_split _ hd Hh), fn_lookup_insert, others_insert. Qed.

Lemma lists_disjoint h sl on P hd hd' :
  lists_inv h sl on P -> hd ∈ heads -> hd' ∈ heads -> hd' ≠ hd -> hd' :: on hd' ## hd :: on hd.
Proof.
  intros [L1 L2 L3 L4] Hh Hh' Hne.
  assert (forall x y, x ∈ heads -> y ∈ partial on -> x ≠ y) as D1.
  { intros x y Hx Hy ->. apply L4 in Hy as [Hy _]. apply NoDup_app in L1 as (_&D&_). by apply (D y). }
  assert (forall x, x ∈ on hd -> x ∈ partial on) as D2.
  { intros x Hx. rewrite (partial_split _ hd Hh), elem_of_app. by left. }
  assert (forall x, x ∈ on hd' -> x ∈ partial on) as D2'.
  { intros x Hx. rewrite (partial_split _ hd' Hh'), elem_of_app. by left. }
  rewrite (partial_split _ hd Hh) in L3. apply NoDup_app in L3 as (_&D3&_).
  intros x Hx Hx'. apply elem_of_cons in Hx as [->|Hx]; apply elem_of_cons in Hx' as [->|Hx'].
  - done.
  - by apply (D1 hd' hd'); [|apply D2|].
  - by apply (D1 hd hd); [|apply D2'|].
  - apply (D3 x Hx'). unfold others. apply list_elem_of_join.
    exists (on hd'). split; [done|]. apply list_elem_of_fmap. exists hd'. split; [done|].
    by apply list_elem_of_filter.
Qed.

Section lists_update.
Variables (h : L) (sl : list Z) (on : Z -> list Z) (P : Z -> Prop) (hd : Z).
Hypothesis HL : lists_inv h sl on P.
Hypothesis Hh : hd ∈ heads.

Lemma others_spec x : x ∈ others on hd <-> (x ∈ sl /\ P x) /\ x ∉ on hd.
Proof.
  destruct HL as [L1 L2 L3 L4]. rewrite <- L4. rewrite (partial_split _ hd Hh) in *.
  apply NoDup_app in L3 as (_&D&_). rewrite elem_of_app. split; [|tauto].
  intros Ho. split; [by right|]. intros Hx. by apply (D x).
Qed.

Lemma on_list_spec x : x ∈ on hd -> x ∈ sl /\ P x.
Proof.
  destruct HL as [L1 L2 L3 L4]. rewrite <- L4, (partial_split _ hd Hh), elem_of_app. by left.
Qed.

(** A new ring for [hd]; the other two are untouched. *)
Lemma lists_replace h' P' l' :
  (forall hd', hd' ∈ heads -> hd' ≠ hd -> ring h' (hd' :: on hd')) ->
  ring h' (hd :: l') ->
  (forall x, x ∈ l' <-> x ∈ sl /\ P' x /\ (P x -> x ∈ on hd)) ->
  (forall x, x ∈ sl -> P x -> x ∉ on hd -> P' x) ->
  lists_inv h' sl (<[hd := l']> on) P'.
Proof.
  intros R1 R2 M1 M2. assert (HL' := HL). destruct HL' as [L1 L2 L3 L4].
  assert (partial (<[hd := l']> on) ≡ₚ l' ++ others on hd) as Ep by by apply partial_insert.
  split.
  - done.
  - intros hd' Hh'. destruct (decide (hd = hd')) as [<-|]; [by rewrite fn_lookup_insert|].
    rewrite fn_lookup_insert_ne by done. by apply R1.
  - rewrite Ep. apply NoDup_app. split; [|split].
    + apply ring_nodup in R2. by apply NoDup_cons_1_2 in R2.
    + intros x Hx Ho. apply others_spec in Ho. apply M1 in Hx. tauto.
    + rewrite (partial_split _ hd Hh) in L3. by apply NoDup_app in L3 as (_&_&?).
  - intros x. rewrite Ep, elem_of_app, others_spec, M1.
    pose proof (M2 x). destruct (decide (x ∈ on hd)) as [Hx|Hx].
    + pose proof (on_list_spec x Hx). tauto.
    + split; [tauto|]. intros [? ?]. destruct (decide (x ∈ others on hd)) as [Ho|Ho].
      * apply others_spec in Ho. tauto.
      * left. rewrite others_spec in Ho. tauto.
Qed.

Lemma ring_disjoint hd' : hd' ∈ heads -> hd' ≠ hd -> hd' :: on hd' ## hd :: on hd.
Proof. intros. by eapply lists_disjoint. Qed.

Lemma lists_rotate p q :
  on hd = p ++ q -> lists_inv (rotate hd (List.last p hd) h) sl (<[hd := q ++ p]> on) P.
Proof.
  intros E. assert (R := li_rings _ _ _ _ HL hd Hh). rewrite E in R. apply lists_replace.
  - intros hd' Hh' Hne. eapply rotate_frame; [done|by eapply li_rings|].
    rewrite <- E. by apply ring_disjoint.
  - by apply rotate_spec.
  - intros x. rewrite (Permutation_app_comm q p), <- E. split; [|tauto].
    intros Hx. pose proof (on_list_spec x Hx). tauto.
  - done.
Qed.

Lemma lists_del p sp q :
  on hd = p ++ sp :: q ->
  lists_inv (list_del sp h) sl (<[hd := p ++ q]> on) (fun x => P x /\ x ≠ sp).
Proof.
  intros E. assert (R := li_rings _ _ _ _ HL hd Hh). rewrite E in R.
  assert (NoDup (p ++ sp :: q)) as N by (apply ring_nodup in R; by apply NoDup_cons_1_2 in R).
  assert (forall x, x ∈ p ++ q <-> x ∈ on hd /\ x ≠ sp) as Hpq.
  { intros x. rewrite <- Permutation_middle in N. apply NoDup_cons_1_1 in N. rewrite E.
    set_solver. }
  apply lists_replace.
  - intros hd' Hh' Hne. apply (ring_del_frame h sp (q ++ hd :: p)).
    + by apply (ring_rotate_app h (hd :: p) (sp :: q)).
    + by eapply li_rings.
    + pose proof (ring_disjoint hd' Hh' Hne) as D. rewrite E in D. set_solver.
  - by apply (ring_del_mid h (hd :: p)).
  - intros x. rewrite Hpq. split; [|tauto]. intros [Hx ?]. pose proof (on_list_spec x Hx). tauto.
  - intros x Hx Px Hn. split; [done|]. intros ->. apply Hn. rewrite E. set_solver.
Qed.

Lemma lists_add sp :
  sp ∈ sl -> ~ P sp ->
  lists_inv (list_add sp hd h) sl (<[hd := sp :: on hd]> on) (fun x => P x \/ x = sp).
Proof.
  intros Hsp Np. assert (R := li_rings _ _ _ _ HL hd Hh).
  assert (forall hd', hd' ∈ heads -> sp ∉ hd' :: on hd') as Hn.
  { intros hd' Hh' [->|Hx]%elem_of_cons.
    - pose proof (li_nodup _ _ _ _ HL) as N. apply NoDup_app in N as (_&D&_). by apply (D hd').
    - apply Np. destruct HL as [L1 L2 L3 L4]. apply L4.
      rewrite (partial_split _ hd' Hh'), elem_of_app. by left. }
  apply lists_replace.
  - intros hd' Hh' Hne. eapply ring_add_frame; [done|by eapply li_rings|by apply Hn|].
    by apply ring_disjoint.
  - apply ring_add; [done|by apply Hn].
  - intros x. rewrite elem_of_cons. split.
    + intros [->|Hx]; [tauto|]. pose proof (on_list_spec x Hx). tauto.
    + intros (?&[?|?]&?); tauto.
  - intros; by left.
Qed.
End lists_update.

(** A page that is not on any list joins or leaves the slab pages. *)
Lemma lists_new h sl on P sp :
  lists_inv h sl on P -> sp ∉ heads ++ sl ->
  lists_inv (INIT_LIST_HEAD sp h) (sp :: sl) on (fun x => P x /\ x ≠ sp).
Proof.
  intros HL Hn. assert (HL' := HL). destruct HL' as [L1 L2 L3 L4]. split.
  - rewrite <- Permutation_middle. by constructor.
  - intros hd Hh. apply ring_init_frame; [by apply L2|].
    intros [->|Hx]%elem_of_cons; [set_solver|].
    pose proof (on_list_spec _ _ _ _ _ HL Hh sp Hx). set_solver.
  - done.
  - intros x. rewrite L4. split.
    + intros [Hx ?]. split; [by right|]. split; [done|]. intros ->. set_solver.
    + intros [[->|Hx]%elem_of_cons ?]; tauto.
Qed.

Lemma lists_drop h sl sl' on (P : Z -> Prop) sp :
  lists_inv h sl on P -> ~ P sp -> sl ≡ₚ sp :: sl' -> lists_inv h sl' on P.
Proof.
  intros [L1 L2 L3 L4] Np E. split; try done.
  - rewrite E in L1. rewrite <- Permutation_middle in L1. by apply NoDup_cons_1_2 in L1.
  - intros x. rewrite L4, E, elem_of_cons. split; [|tauto].
    intros [[->|?] ?]; [done|tauto].
Qed.

Lemma lists_ext h sl on (P P' : Z -> Prop) :
  (forall x, x ∈ sl -> P x <-> P' x) -> lists_inv h sl on P -> lists_inv h sl on P'.
Proof.
  intros E [L1 L2 L3 L4]. split; try done. intros x. rewrite L4.
  split; intros [Hx ?]; (split; [done|]); by apply E.
Qed.

(** *** Updating the objects *)
Lemma covers_01 sp c o : covers sp c o = 0 \/ covers sp c o = 1.
Proof. unfold covers. destruct (_ && _ && _); auto. Qed.

Lemma covers_1 sp c o :
  covers sp c o = 1 <-> o_page o = sp /\ o_off o <= c < o_off o + o_units o.
Proof. unfold covers. repeat zcase; simpl; split; intros; (done || lia). Qed.

Lemma covers_sum_nonneg sp c lv : 0 <= sumZ (covers sp c) lv.
Proof. apply sumZ_nonneg. intros o _. destruct (covers_01 sp c o) as [->| ->]; lia. Qed.

Section objs.
Variables (sl : list Z) (bo : Z -> blocks) (lv : list obj).
Hypothesis HO : objs_inv sl bo lv.

Lemma obj_not_free o c :
  o ∈ lv -> o_off o <= c < o_off o + o_units o -> ~ in_free (bo (o_page o)) c.
Proof.
  intros Ho Hc F. destruct (oi_range _ _ _ HO o Ho) as (Hs&_).
  pose proof (oi_free _ _ _ HO _ _ Hs F) as E.
  apply list_elem_of_split in Ho as (l1 & l2 & ->).
  rewrite <- Permutation_middle in E. simpl in E.
  rewrite (proj2 (covers_1 (o_page o) c o)) in E by done.
  pose proof (covers_sum_nonneg (o_page o) c (l1 ++ l2)). lia.
Qed.

Lemma objs_alloc sp d u r bs' :
  sp ∈ sl -> wf_blocks PU 0 (bo sp) -> (forall o, 0 <= o -> 0 <= d o) -> 1 <= u ->
  alloc_blocks d u (bo sp) = Some (r, bs') ->
  objs_inv sl (<[sp := bs']> bo) (mk_obj sp r u :: lv).
Proof.
  intros Hsp W Hd Hu A.
  destruct (alloc_blocks_spec PU d Hd u 0 _ _ _ Hu ltac:(done) W A) as (_&A2&?&?&A5&A6).
  destruct HO as [O1 O2 O3 O4]. split.
  - intros o [->|Ho]%elem_of_cons; [done|by apply O1].
  - intros sp' c Hs F. simpl. destruct (decide (sp = sp')) as [<-|Hne].
    + rewrite fn_lookup_insert in F. apply A6 in F as [F Hr]. rewrite (O2 _ _ Hs F).
      destruct (covers_01 sp c (mk_obj sp r u)) as [->|E]; [done|].
      apply covers_1 in E as [_ ?]. simpl in *. tauto.
    + rewrite fn_lookup_insert_ne in F by done. rewrite (O2 _ _ Hs F).
      destruct (covers_01 sp' c (mk_obj sp r u)) as [->|[E _]%covers_1]; done.
  - intros sp' c Hs Hc F. simpl. destruct (decide (sp = sp')) as [<-|Hne].
    + rewrite fn_lookup_insert, A6 in F. destruct (decide (r <= c < r + u)) as [Hr|Hr].
      * rewrite (O2 _ _ Hs (A5 c Hr)). by rewrite (proj2 (covers_1 _ _ _)).
      * rewrite (O3 _ _ Hs Hc) by tauto.
        destruct (covers_01 sp c (mk_obj sp r u)) as [->|[_ ?]%covers_1]; done.
    + rewrite fn_lookup_insert_ne in F by done. rewrite (O3 _ _ Hs Hc F).
      destruct (covers_01 sp' c (mk_obj sp r u)) as [->|[E _]%covers_1]; done.
  - intros sp' Hs. specialize (O4 _ Hs). simpl. unfold units_in at 1. simpl.
    destruct (Z.eqb_spec sp sp') as [<-|Hne].
    + rewrite fn_lookup_insert. lia.
    + rewrite fn_lookup_insert_ne by done. lia.
Qed.

Lemma objs_free_range o lv' c :
  lv ≡ₚ o :: lv' -> o_off o <= c < o_off o + o_units o -> ~ in_free (bo (o_page o)) c.
Proof. intros E. apply obj_not_free. rewrite E. by left. Qed.

Lemma objs_free o lv' :
  lv ≡ₚ o :: lv' -> wf_blocks PU 0 (bo (o_page o)) ->
  objs_inv sl (<[o_page o := free_blocks (o_off o) (o_units o) (bo (o_page o))]> bo) lv'.
Proof.
  intros E W. assert (o ∈ lv) as Ho by (rewrite E; by left).
  destruct (oi_range _ _ _ HO o Ho) as (Hs&?&?&?).
  destruct (free_blocks_spec PU (o_off o) (o_units o) 0 (bo (o_page o))) as (_&F2&F3); try done.
  { intros c. by apply (objs_free_range o lv'). }
  destruct HO as [O1 O2 O3 O4]. split.
  - intros o' Ho'. apply O1. rewrite E. by right.
  - intros sp c Hsp F. destruct (decide (o_page o = sp)) as [<-|Hne].
    + rewrite fn_lookup_insert, F3 in F. destruct F as [F|Hc].
      * specialize (O2 _ _ Hsp F). rewrite E in O2. simpl in O2.
        pose proof (covers_sum_nonneg (o_page o) c lv').
        destruct (covers_01 (o_page o) c o); lia.
      * specialize (O3 _ c Hsp ltac:(lia) (objs_free_range _ _ _ E Hc)). rewrite E in O3. simpl in O3.
        rewrite (proj2 (covers_1 _ _ _)) in O3 by done. lia.
    + rewrite fn_lookup_insert_ne in F by done. specialize (O2 _ _ Hsp F). rewrite E in O2.
      simpl in O2. destruct (covers_01 sp c o) as [C|[C _]%covers_1]; [lia|done].
  - intros sp c Hsp Hc F. destruct (decide (o_page o = sp)) as [<-|Hne].
    + rewrite fn_lookup_insert, F3 in F. specialize (O3 _ c Hsp Hc ltac:(tauto)).
      rewrite E in O3. simpl in O3. destruct (covers_01 (o_page o) c o) as [C|[_ C]%covers_1]; [lia|tauto].
    + rewrite fn_lookup_insert_ne in F by done. specialize (O3 _ _ Hsp Hc F). rewrite E in O3.
      simpl in O3. destruct (covers_01 sp c o) as [C|[C _]%covers_1]; [lia|done].
  - intros sp Hsp. specialize (O4 _ Hsp). rewrite E in O4. simpl in O4. unfold units_in at 1 in O4.
    destruct (Z.eqb_spec (o_page o) sp) as [Ep|Hne].
    + subst sp. rewrite fn_lookup_insert. lia.
    + rewrite fn_lookup_insert_ne by done. lia.
Qed.

Lemma no_obj_elsewhere sp f :
  sp ∉ sl -> (forall o, o_page o ≠ sp -> f o = 0) -> sumZ f lv = 0.
Proof.
  intros Hn Hf. transitivity (sumZ (fun _ : obj => 0) lv).
  - apply sumZ_ext. intros o Ho. apply Hf. intros <-. apply Hn. by apply (oi_range _ _ _ HO o Ho).
  - clear. induction lv; simpl; lia.
Qed.

Lemma objs_new sp : sp ∉ sl -> objs_inv (sp :: sl) (<[sp := [(0, PU)]]> bo) lv.
Proof.
  intros Hn. destruct HO as [O1 O2 O3 O4]. split.
  - intros o Ho. destruct (O1 o Ho) as (?&?). split; [by right|done].
  - intros sp' c Hs F. destruct (decide (sp = sp')) as [<-|Hne].
    + apply (no_obj_elsewhere sp); [done|]. intros o Ho.
      destruct (covers_01 sp c o) as [->|[C _]%covers_1]; done.
    + rewrite fn_lookup_insert_ne in F by done. apply O2; set_solver.
  - intros sp' c Hs Hc F. destruct (decide (sp = sp')) as [<-|Hne].
    + rewrite fn_lookup_insert in F. simpl in F. lia.
    + rewrite fn_lookup_insert_ne in F by done. apply O3; set_solver.
  - intros sp' Hs. destruct (decide (sp = sp')) as [<-|Hne].
    + rewrite fn_lookup_insert. rewrite (no_obj_elsewhere sp (units_in sp)); [done|done|].
      intros o Ho. unfold units_in. by zdec.
    + rewrite fn_lookup_insert_ne by done. apply O4. set_solver.
Qed.

Lemma objs_drop sl' o lv' :
  sl ≡ₚ o_page o :: sl' -> NoDup sl -> lv ≡ₚ o :: lv' ->
  sum_free (bo (o_page o)) + o_units o = PU -> objs_inv sl' bo lv'.
Proof.
  intros Es N El Hsum. assert (o ∈ lv) as Ho by (rewrite El; by left).
  assert (forall sp, sp ∈ sl' -> sp ∈ sl /\ o_page o ≠ sp) as Hsl'.
  { intros sp Hsp. split; [rewrite Es; by right|]. intros <-.
    rewrite Es in N. by apply NoDup_cons_1_1 in N. }
  destruct (oi_range _ _ _ HO o Ho) as (Hs&_).
  destruct HO as [O1 O2 O3 O4].
  assert (sumZ (units_in (o_page o)) lv' = 0) as Hz.
  { specialize (O4 _ Hs). rewrite El in O4. simpl in O4. unfold units_in at 1 in O4.
    rewrite Z.eqb_refl in O4. lia. }
  split.
  - intros o' Ho'. destruct (O1 o') as (Hs'&?&?&?); [rewrite El; by right|].
    split; [|done]. rewrite Es in Hs'. apply elem_of_cons in Hs' as [Ep|?]; [exfalso|done].
    apply list_elem_of_split in Ho' as (l1 & l2 & ->).
    rewrite <- Permutation_middle in Hz. simpl in Hz. unfold units_in at 1 in Hz.
    rewrite Ep, Z.eqb_refl in Hz.
    assert (0 <= sumZ (units_in (o_page o)) (l1 ++ l2)); [|lia].
    apply sumZ_nonneg. intros o2 Ho2. unfold units_in. zcase; [|done].
    destruct (O1 o2) as (_&_&?&_); [|lia]. rewrite El, <- Permutation_middle. set_solver.
  - intros sp c Hsp F. destruct (Hsl' sp Hsp) as [Hsp' Hne]. specialize (O2 _ _ Hsp' F).
    rewrite El in O2. simpl in O2. destruct (covers_01 sp c o) as [C|[C _]%covers_1]; [lia|done].
  - intros sp c Hsp Hc F. destruct (Hsl' sp Hsp) as [Hsp' Hne]. specialize (O3 _ _ Hsp' Hc F).
    rewrite El in O3. simpl in O3. destruct (covers_01 sp c o) as [C|[C _]%covers_1]; [lia|done].
  - intros sp Hsp. destruct (Hsl' sp Hsp) as [Hsp' Hne]. specialize (O4 _ Hsp').
    rewrite El in O4. simpl in O4. unfold units_in at 1 in O4. revert O4. zdec. lia.
Qed.
End objs.
End SlobInv.
