(* ===== verification/SlobAlloc.v ===== *)
(** slob_alloc preserves the allocator's invariant and returns a fresh object. *)
From S2P Require Import Prelude ListHead Kernel SlobBlocks Slob SlobPage SlobSearch SlobInv.

Section SlobAlloc.
Context {K : Kernel} {KL : KernelLaws} {L : Type} {LO : ListOps L} {LL : ListLaws L}.
Implicit Types (s : state L) (g : ghost).

(** *** What [took] changes *)
Section took.
Variables (m : Z -> Z) (fl u sp : Z) (s : state L).

Lemma took_mem : mem (took m fl u sp s) = m.
Proof. unfold took. by destruct (_ =? _). Qed.

Lemma took_pages : pages (took m fl u sp s) = pages s.
Proof. unfold took. by destruct (_ =? _). Qed.

Lemma took_page_ne sp' : sp' ≠ sp -> page_at (took m fl u sp s) sp' = page_at s sp'.
Proof.
  intros Hne. unfold took. destruct (_ =? _); simpl; by rewrite !fn_lookup_insert_ne.
Qed.

Lemma took_page :
  page_at (took m fl u sp s) sp =
    mk_page (Slob.units (page_at s sp) - u) fl
      (if Slob.units (page_at s sp) - u =? 0 then false else PageSlobFree (page_at s sp))
      (PageSlab (page_at s sp)).
Proof.
  unfold took. simpl. rewrite !fn_lookup_insert. simpl.
  destruct (_ =? _); simpl; by rewrite !fn_lookup_insert.
Qed.

Lemma took_lists :
  lists (took m fl u sp s) =
    if Slob.units (page_at s sp) - u =? 0 then list_del sp (lists s) else lists s.
Proof.
  unfold took. simpl. rewrite !fn_lookup_insert. simpl. by destruct (_ =? _).
Qed.
End took.

(** Memory written inside page [sp] does not disturb another page. *)
Lemma page_inv_other s s' sp sp' bs' :
  is_frame sp -> page_inv s sp' bs' -> sp' ≠ sp ->
  page_at s' sp' = page_at s sp' ->
  (exists P : Z -> Prop, (forall c, P c -> 0 <= c < PU) /\
    same_outside (page_address sp) P (mem s) (mem s')) ->
  page_inv s' sp' bs'.
Proof.
  intros I I' Hne E (P&HP&F). eapply page_inv_frame; [done|done|].
  intros c Hc. apply F. intros c' Hc' Ea.
  pose proof (page_list_bounds _ _ _ _ _ (pi_list _ _ _ I') Hc).
  by destruct (cell_inj _ _ c c' (page_inv_frame_of _ _ _ I') I ltac:(done) (HP c' Hc') Ea).
Qed.

Lemma slob_units_pos size : 0 < size -> 1 <= SLOB_UNITS size.
Proof. intros Hs. pose proof (SLOB_UNITS_spec size). lia. Qed.

(** The ghost state after an object was carved out of page [sp], which is on the
    list of [hd] between [p] and [q]. *)
Definition after_take g (hd : Z) (p : list Z) (sp : Z) (q : list Z) (r u : Z) (bs' : blocks) : ghost :=
  mk_ghost (slabs g) (<[sp := bs']> (blocks_of g)) (mk_obj sp r u :: live g)
    (<[hd := p ++ (if bs' is [] then q else sp :: q)]> (on_list g)).

Section took_inv.
Variables (s : state L) (g : ghost) (hd : Z) (p : list Z) (sp : Z) (q : list Z).
Variables (d : Z -> Z) (u r : Z) (bs' : blocks) (m : Z -> Z) (fl : Z).
Hypothesis I : Inv s g.
Hypothesis Hh : hd ∈ heads.
Hypothesis Hon : on_list g hd = p ++ sp :: q.
Hypothesis Hu : 1 <= u.
Hypothesis Hd : forall o, 0 <= o -> 0 <= d o.
Hypothesis A : alloc_blocks d u (blocks_of g sp) = Some (r, bs').

Lemma took_slab : sp ∈ slabs g.
Proof. apply (on_list_spec _ _ _ _ _ (inv_lists _ _ I) Hh sp). rewrite Hon. set_solver. Qed.

Lemma took_free :
  wf_blocks PU 0 bs' /\ Slob.units (page_at s sp) - u = sum_free bs' /\ 0 < sum_free (blocks_of g sp).
Proof.
  assert (Isp := inv_pages _ _ I sp took_slab). destruct (pi_list _ _ _ Isp) as (_&W&_).
  destruct (alloc_blocks_spec PU d Hd u 0 _ _ _ Hu ltac:(done) W A) as (W'&Hsum&_).
  pose proof (sum_free_nonneg PU 0 bs' W'). rewrite (pi_units _ _ _ Isp). split; [done|]. lia.
Qed.

Lemma took_page_inv sp' :
  fl = page_address sp + 2 * hd_off bs' PU -> seg m (page_address sp) bs' PU ->
  same_outside (page_address sp) (in_free (blocks_of g sp)) (mem s) m ->
  sp' ∈ slabs g -> page_inv (took m fl u sp s) sp' (<[sp := bs']> (blocks_of g) sp').
Proof.
  intros Hfl S F Hsp'. assert (Isp := inv_pages _ _ I sp took_slab). destruct (pi_list _ _ _ Isp) as (B&W&_).
  destruct took_free as (W'&Eu&Hpos). pose proof (sum_free_nonneg PU 0 bs' W') as Hn.
  destruct (decide (sp = sp')) as [<-|Hne].
  - rewrite fn_lookup_insert. split; rewrite ?took_mem, ?took_page, ?Eu; simpl.
    + by repeat split; try apply B.
    + done.
    + rewrite (pi_free _ _ _ Isp). destruct (Z.eqb_spec (sum_free bs') 0); [done|].
      by zdec.
    + apply (pi_slab _ _ _ Isp).
    + apply (pi_virt _ _ _ Isp).
  - rewrite fn_lookup_insert_ne by done.
    eapply (page_inv_other s _ sp);
      [by eapply page_inv_frame_of|by apply (inv_pages _ _ I)|done|by apply took_page_ne|].
    exists (in_free (blocks_of g sp)). rewrite took_mem. split; [|done].
    intros c. by apply in_free_bounds.
Qed.

(** A page without free blocks leaves its list, another one stays. *)
Lemma took_lists_inv :
  let g' := after_take g hd p sp q r u bs' in
  lists_inv (lists (took m fl u sp s)) (slabs g') (on_list g') (fun x => blocks_of g' x ≠ []).
Proof.
  assert (I2 := inv_lists _ _ I). destruct took_free as (W'&Eu&Hpos).
  pose proof (sum_free_zero PU 0 bs' W') as Hz. simpl. rewrite took_lists, Eu. destruct bs' as [|b t].
  - rewrite (proj2 Hz eq_refl). simpl.
    eapply lists_ext; [|by apply (lists_del _ _ _ _ _ I2 Hh)].
    intros x Hx. simpl. destruct (decide (sp = x)) as [<-|].
    + rewrite fn_lookup_insert. tauto.
    + rewrite fn_lookup_insert_ne by done. split; [tauto|auto].
  - destruct (Z.eqb_spec (sum_free (b :: t)) 0) as [E|E]; [by apply Hz in E|].
    assert (lists_inv (lists s) (slabs g) (on_list g) (fun x => <[sp:=b :: t]> (blocks_of g) x ≠ [])) as I2'.
    { eapply lists_ext; [|done]. intros x Hx. simpl.
      destruct (decide (sp = x)) as [<-|]; [rewrite fn_lookup_insert|by rewrite fn_lookup_insert_ne].
      split; [done|]. intros _. apply (on_list_spec _ _ _ _ _ I2 Hh sp). rewrite Hon. set_solver. }
    rewrite <- Hon. destruct I2' as [L1 L2 L3 L4].
    assert (forall x, <[hd:=on_list g hd]> (on_list g) x = on_list g x) as Eid.
    { intros x. destruct (decide (hd = x)) as [<-|];
        [by rewrite fn_lookup_insert|by rewrite fn_lookup_insert_ne]. }
    split; [done|intros hd' ?; rewrite Eid; by apply L2|unfold partial; by rewrite !Eid|].
    intros x. unfold partial. rewrite !Eid. apply L4.
Qed.

Lemma took_inv :
  fl = page_address sp + 2 * hd_off bs' PU -> seg m (page_address sp) bs' PU ->
  same_outside (page_address sp) (in_free (blocks_of g sp)) (mem s) m ->
  Inv (took m fl u sp s) (after_take g hd p sp q r u bs').
Proof.
  intros Hfl S F. split; simpl.
  - intros sp'. by apply took_page_inv.
  - apply took_lists_inv.
  - destruct (pi_list _ _ _ (inv_pages _ _ I sp took_slab)) as (_&W&_).
    apply objs_alloc with (d := d); try done; [apply I|apply took_slab].
  - rewrite took_pages. apply I.
Qed.
End took_inv.

(** *** The page search *)
#[local] Arguments best_fit_loop : simpl never.

Lemma with_lists_id s : with_lists (lists s) s = s.
Proof. by destruct s. Qed.

(** What the search does when it succeeds: an object is carved out of [sp] and
    the list is rotated. *)
Definition found (hd size align : Z) s g (x : res (state L * Z)) : Prop :=
  exists p sp q r bs' m fl,
    let u := SLOB_UNITS size in
    let s1 := took m fl u sp s in
    on_list g hd = p ++ sp :: q /\
    alloc_blocks (pad align (page_address sp)) u (blocks_of g sp) = Some (r, bs') /\
    fl = page_address sp + 2 * hd_off bs' PU /\ seg m (page_address sp) bs' PU /\
    same_outside (page_address sp) (in_free (blocks_of g sp)) (mem s) m /\
    x = Ret (with_lists (rotate hd (List.last p hd) (lists s1)) s1, page_address sp + 2 * r).

Lemma alloc_result_pos sp d u bs r bs' s :
  page_inv s sp bs -> (forall o, 0 <= o -> 0 <= d o) -> 1 <= u -> alloc_blocks d u bs = Some (r, bs') ->
  0 <= r /\ r + u <= PU /\ 0 < page_address sp + 2 * r.
Proof.
  intros I Hd Hu A. destruct (pi_list _ _ _ I) as ([B _]&W&_).
  destruct (alloc_blocks_spec PU d Hd u 0 _ _ _ Hu ltac:(done) W A) as (_&_&?&?&_). lia.
Qed.

Lemma pad_nonneg align base : align_ok align -> is_base base -> forall o, 0 <= o -> 0 <= pad align base o.
Proof. intros. by apply pad_spec. Qed.

(** The search tries the candidates one after the other: what it answers, page by
    page and block by block. *)
Lemma search_pages_run fuel s g size align node pre rest :
  let hd := slob_list_for size in
  let u := SLOB_UNITS size in
  let serves sp := alloc_blocks (pad align (page_address sp)) u (blocks_of g sp) in
  Inv s g -> hd ∈ heads -> on_list g hd = pre ++ rest -> 0 < size -> align_ok align ->
  (length rest + Z.to_nat PU < fuel)%nat ->
  let x := search_pages fuel hd size align node (List.hd hd rest) s in
  match first_serving serves (candidates (page_at s) size node pre rest) with
  | None => x = Ret (s, NULL)
  | Some (sp, (r, bs')) => exists p q m fl, let s1 := took m fl u sp s in
      on_list g hd = p ++ sp :: q /\
      alloc_blocks (pad align (page_address sp)) u (blocks_of g sp) = Some (r, bs') /\
      fl = page_address sp + 2 * hd_off bs' PU /\ seg m (page_address sp) bs' PU /\
      same_outside (page_address sp) (in_free (blocks_of g sp)) (mem s) m /\
      x = Ret (with_lists (rotate hd (List.last p hd) (lists s1)) s1, page_address sp + 2 * r)
  end.
Proof.
  intros hd u serves I Hh. revert fuel pre.
  assert (R := li_rings _ _ _ _ (inv_lists _ _ I) hd Hh).
  induction rest as [|sp rest IH]; intros fuel pre Hon Hs Ha Hf;
    (destruct fuel as [|fuel]; [lia|]); simpl search_pages.
  { by rewrite Z.eqb_refl. }
  rewrite Hon in R. assert (N := ring_nodup _ _ R).
  assert (sp ≠ hd) by (intros ->; apply NoDup_cons_1_1 in N; set_solver).
  assert (lnext (lists s) sp = List.hd hd rest) as Hnext.
  { destruct rest as [|y rest]; [by eapply ring_next_last|].
    exact (ring_next_mid (lists s) (hd :: pre) _ _ _ R). }
  pose proof (IH fuel (pre ++ [sp])) as Hcont. rewrite <- Hnext in Hcont.
  specialize (Hcont ltac:(by rewrite <- app_assoc) Hs Ha ltac:(simpl in Hf; lia)).
  zdec. simpl candidates. unfold eligible. destruct (_ && _ && _); [done|]. simpl negb.
  destruct (Z.leb_spec (SLOB_UNITS size) (Slob.units (page_at s sp))); zdec; [|done]. simpl andb.
  rewrite (best_fit_scan _ _ _ _ _ pre sp rest) by done.
  destruct (fold_choose_spec (page_at s) size (take 50 (pre ++ [sp])) sp) as (Hb&_).
  set (best := fold_left _ _ sp) in *.
  assert (best ∈ on_list g hd) as Hin.
  { rewrite Hon. destruct Hb as [->|[Hb _]]; [set_solver|].
    assert (best ∈ pre ++ [sp]) as Hb' by (rewrite <- (take_drop 50 (pre ++ [sp])), elem_of_app; by left).
    clear -Hb'. set_solver. }
  destruct (on_list_spec _ _ _ _ _ (inv_lists _ _ I) Hh best Hin) as [Hsl Hne].
  assert (Ib := inv_pages _ _ I best Hsl). assert (Pb := pi_list _ _ _ Ib).
  pose proof (slob_units_pos size Hs) as Hu.
  pose proof (slob_page_alloc_spec fuel s best size align (page_address best) (blocks_of g best)
    Pb Hne) as Hspec.
  pose proof (wf_blocks_length PU 0 _ (proj1 (proj2 Pb)) ltac:(lia)).
  specialize (Hspec ltac:(lia) Hs Ha). unfold scan_result in Hspec. cbn [first_serving].
  change (serves best) with (alloc_blocks (pad align (page_address best)) (SLOB_UNITS size) (blocks_of g best)).
  destruct (alloc_blocks _ _ _) as [[r bs']|] eqn:A; [|by rewrite Hspec, Z.eqb_refl].
  destruct Hspec as (m&fl&->&Hfl&S&F).
  apply list_elem_of_split in Hin as (p & q & Hpq).
  rewrite Hon in Hpq. rewrite Hpq in R. rewrite (lprev_spec _ _ _ _ _ R).
  destruct (alloc_result_pos _ _ _ _ _ _ _ Ib (pad_nonneg align _ Ha (proj1 Pb)) Hu A) as (?&?&?).
  exists p, q, m, fl. simpl. rewrite Hon, Hpq. do 5 (split; [done|]).
  zdec. unfold rotate. by destruct (_ && _); rewrite ?with_lists_id.
Qed.

Lemma search_pages_spec fuel s g size align node pre rest :
  let hd := slob_list_for size in
  Inv s g -> hd ∈ heads -> on_list g hd = pre ++ rest -> 0 < size -> align_ok align ->
  (length rest + Z.to_nat PU < fuel)%nat ->
  let x := search_pages fuel hd size align node (List.hd hd rest) s in
  x = Ret (s, NULL) \/ found hd size align s g x.
Proof.
  intros hd I Hh Hon Hs Ha Hf. pose proof (search_pages_run fuel s g size align node pre rest I Hh Hon Hs Ha Hf) as H.
  simpl in H. destruct (first_serving _ _) as [[sp [r bs']]|]; [|by left].
  destruct H as (p&q&m&fl&H). right. by exists p, sp, q, r, bs', m, fl.
Qed.

(** *** A page fresh from the page allocator *)

(** The page allocator returns NULL or the struct page of a frame that is not a
    slab page. *)
Definition fresh_page g (sp : Z) : Prop :=
  is_base (page_address sp) /\ virt_to_page (page_address sp) = sp /\ sp ∉ heads ++ slabs g.

Definition source_ok g (src : page_source) : Prop :=
  forall gfp node,
    (alloc_pages src gfp 0 = NULL \/ fresh_page g (alloc_pages src gfp 0)) /\
    (alloc_pages_exact_node src node gfp 0 = NULL \/
     fresh_page g (alloc_pages_exact_node src node gfp 0)).

Lemma slob_new_pages_spec g src gfp node :
  source_ok g src ->
  slob_new_pages src gfp 0 node = NULL \/
  exists sp, fresh_page g sp /\ slob_new_pages src gfp 0 node = page_address sp.
Proof.
  intros Hs. unfold slob_new_pages. destruct (Hs gfp node) as [H1 H2].
  destruct (CONFIG_NUMA && negb (node =? NUMA_NO_NODE)).
  - destruct H2 as [->|H2]; [by left|]. zcase; [by left|]. right. eauto.
  - destruct H1 as [->|H1]; [by left|]. zcase; [by left|]. right. eauto.
Qed.

(** The state once the fresh page, marked as a slab page, is on the list of [hd]. *)
Definition page_added (hd b : Z) s : state L :=
  let sp := virt_to_page b in
  let s := with_page sp (set_units (SLOB_UNITS PAGE_SIZE) (page_at s sp)) s in
  let s := with_page sp (set_freelist b (page_at s sp)) s in
  let s := with_lists (INIT_LIST_HEAD sp (lists s)) s in
  let s := with_mem (set_slob (mem s) b (SLOB_UNITS PAGE_SIZE) (ptr_add b (SLOB_UNITS PAGE_SIZE))) s in
  set_slob_page_free sp hd s.

Definition ghost_added g (hd sp : Z) : ghost :=
  mk_ghost (sp :: slabs g) (<[sp := [(0, PU)]]> (blocks_of g)) (live g)
    (<[hd := sp :: on_list g hd]> (on_list g)).

Lemma new_page_list m base :
  is_base base -> page_list (set_slob m base PU (base + 2 * PU)) base base [(0, PU)].
Proof.
  intros B. split; [done|]. split; [simpl; lia|]. split; [simpl; lia|]. split; [|done].
  pose proof (set_slob_encodes base 0 PU PU B ltac:(lia) ltac:(lia) ltac:(lia) m) as E.
  by rewrite Z.mul_0_r, Z.add_0_r in E.
Qed.

Lemma page_added_inv s g hd sp :
  Inv s g -> hd ∈ heads -> fresh_page g sp -> PageSlab (page_at s sp) = true ->
  Inv (with_pages (pages_inc (pages s)) (page_added hd (page_address sp) s))
    (ghost_added g hd sp).
Proof.
  intros [I1 I2 I3 I4] Hh (B&V&Hn) Hsl. unfold page_added. rewrite V.
  split; simpl.
  - intros sp' Hsp'. destruct (decide (sp = sp')) as [<-|Hne].
    + rewrite fn_lookup_insert. split; simpl; rewrite ?fn_lookup_insert; simpl; try done.
      * rewrite SLOB_UNITS_PAGE, ptr_add_eq. by apply new_page_list.
      * by rewrite SLOB_UNITS_PAGE.
    + rewrite (fn_lookup_insert_ne (blocks_of g)) by done.
      apply elem_of_cons in Hsp' as [->|Hsp']; [done|].
      eapply (page_inv_other s _ sp); [by split|by apply I1|done| |].
      * simpl. by rewrite !(fn_lookup_insert_ne _ sp sp') by done.
      * exists (fun c => 0 <= c < PU). split; [done|]. simpl.
        rewrite SLOB_UNITS_PAGE, ptr_add_eq.
        replace (page_address sp) with (page_address sp + 2 * 0) at 2 by lia.
        apply same_outside_set_slob; try done.
  - pose proof (lists_new _ _ _ _ sp I2 Hn) as I2'.
    eapply lists_ext; [|apply (lists_add _ _ _ _ hd I2' Hh sp); [by left|tauto]].
    intros x Hx. simpl. destruct (decide (sp = x)) as [<-|].
    + rewrite fn_lookup_insert. split; [done|tauto].
    + rewrite fn_lookup_insert_ne by done. split; [intros [[? ?]|?]; [done|congruence]|auto].
  - apply objs_new; [done|]. intros Hin. apply Hn. rewrite elem_of_app. by right.
  - rewrite I4. unfold pages_inc, wrapu. rewrite Zplus_mod_idemp_l. f_equal. lia.
Qed.

Lemma with_pages_took n m fl u sp s :
  with_pages n (took m fl u sp s) = took m fl u sp (with_pages n s).
Proof. unfold took. simpl. by destruct (_ =? _). Qed.

(** Requests slob_page_alloc can serve from an empty page. *)
Definition request_ok (size align : Z) : Prop :=
  0 < size <= PAGE_SIZE /\ (align = 0 \/ exists k, 1 <= k <= 12 /\ align = 2 ^ k).

Lemma request_align size align : request_ok size align -> align_ok align.
Proof. intros [_ [->|(k&?&->)]]; [by left|]. right. exists k. split; [lia|done]. Qed.

Lemma pad_base align base size : request_ok size align -> is_base base -> pad align base 0 = 0.
Proof.
  intros R B. destruct (pad_spec align base 0 (request_align _ _ R) B ltac:(lia)) as (Hp&Hal&_).
  destruct R as [_ [->|(k&Hk&->)]]; [done|].
  pose proof (Z.pow_pos_nonneg 2 k). specialize (Hal ltac:(lia)).
  destruct B as [B0 B1]. destruct (align_law (base + 2 * 0) k) as [A1 A2]; [lia..|].
  rewrite Hal in A1, A2. destruct A2 as [z Ez].
  assert ((2 ^ k | base)) as [y Ey].
  { apply Z.mod_divide in B1; [|done]. etrans; [|exact B1]. exists (2 ^ (12 - k)).
    rewrite <- Z.pow_add_r by lia. by replace (12 - k + k) with 12 by lia. }
  assert (z = y) by nia. lia.
Qed.

Lemma alloc_empty_page align base size :
  request_ok size align -> is_base base ->
  alloc_blocks (pad align base) (SLOB_UNITS size) [(0, PU)] =
    Some (0, carve 0 PU 0 (SLOB_UNITS size)).
Proof.
  intros R B. simpl. unfold fits. simpl. rewrite (pad_base _ _ size) by done.
  pose proof (SLOB_UNITS_spec size) as Hu. destruct R as [Hs _]. rewrite page_size_law in Hs.
  zdec. by rewrite app_nil_r.
Qed.

(** BUG_ON(!b) does not fire: a fresh page always has room. *)
Lemma fill_page_spec fuel s g size align hd sp :
  Inv s g -> hd ∈ heads -> fresh_page g sp -> PageSlab (page_at s sp) = true -> request_ok size align ->
  (1 <= fuel)%nat ->
  exists m fl,
    let g1 := ghost_added g hd sp in
    let s' := took m fl (SLOB_UNITS size) sp (page_added hd (page_address sp) s) in
    let bs' := carve 0 PU 0 (SLOB_UNITS size) in
    fill_page fuel hd size align (page_address sp) s = Ret (s', page_address sp + 2 * 0) /\
    Inv (with_pages (pages_inc (pages s')) s')
      (after_take g1 hd [] sp (on_list g hd) 0 (SLOB_UNITS size) bs') /\
    same_outside (page_address sp) (fun c => 0 <= c < PU) (mem s) m.
Proof.
  intros I Hh F Hsl R Hf. pose proof (page_added_inv s g hd sp I Hh F Hsl) as I1.
  set (s1 := with_pages _ _) in *.
  assert (Isp := inv_pages _ _ I1 sp ltac:(by left)).
  assert (page_list (mem (page_added hd (page_address sp) s)) (page_address sp)
    (freelist (page_at (page_added hd (page_address sp) s) sp)) [(0, PU)]) as Bsp.
  { pose proof (pi_list _ _ _ Isp) as P. cbn [blocks_of ghost_added] in P.
    by rewrite (fn_lookup_insert (blocks_of g)) in P. }
  destruct F as (B&V&Hn).
  pose proof (slob_page_alloc_spec fuel (page_added hd (page_address sp) s) sp size align
    (page_address sp) [(0, PU)] Bsp ltac:(done) ltac:(simpl; lia) ltac:(apply R)
    (request_align _ _ R)) as Hspec.
  rewrite (alloc_empty_page _ _ _ R B) in Hspec. destruct Hspec as (m&fl&E&Hfl&S&F).
  exists m, fl. simpl. split; [|split].
  - unfold fill_page. rewrite V. unfold page_added in E. rewrite V in E. rewrite E.
    destruct B as [B0 _]. zdec. unfold page_added. by rewrite V.
  - rewrite with_pages_took, took_pages. change (pages (page_added _ _ s)) with (pages s). fold s1.
    eapply (took_inv s1 (ghost_added g hd sp) hd [] sp _ (pad align (page_address sp)));
      try done; simpl; rewrite ?fn_lookup_insert; try done.
    + apply slob_units_pos, R.
    + apply pad_nonneg; [by eapply request_align|done].
    + by apply alloc_empty_page.
  - eapply same_outside_trans; [|eapply same_outside_mono; [|exact F]].
    + simpl. rewrite SLOB_UNITS_PAGE, ptr_add_eq.
      replace (page_address sp) with (page_address sp + 2 * 0) at 2 by lia.
      by apply same_outside_set_slob.
    + simpl. intros c. lia.
Qed.

(** *** memset *)
Lemma zero_units_out n m b a :
  (forall c, 0 <= c < Z.of_nat n -> a ≠ b + 2 * c) -> zero_units n m b a = m a.
Proof.
  revert m b. induction n as [|n IH]; intros m b Ha; simpl; [done|].
  rewrite ptr_add_eq, IH.
  - apply fn_lookup_insert_ne. pose proof (Ha 0). lia.
  - intros c Hc. pose proof (Ha (c + 1)). lia.
Qed.

Lemma zero_units_in n m b c : 0 <= c < Z.of_nat n -> zero_units n m b (b + 2 * c) = 0.
Proof.
  revert m b c. induction n as [|n IH]; intros m b c Hc; [lia|]. simpl.
  rewrite ptr_add_eq. destruct (decide (c = 0)) as [->|].
  - rewrite Z.mul_0_r, Z.add_0_r, zero_units_out by lia. by rewrite fn_lookup_insert.
  - replace (b + 2 * c) with (b + 2 * 1 + 2 * (c - 1)) by lia. apply IH. lia.
Qed.

Lemma memset_zero_out m b size a :
  0 <= size -> (forall c, 0 <= c < SLOB_UNITS size -> a ≠ b + 2 * c) -> memset_zero m b size a = m a.
Proof.
  intros Hs Ha. unfold memset_zero. rewrite SLOB_UNIT_2.
  pose proof (SLOB_UNITS_spec size Hs). pose proof (Z.div_mod size 2).
  pose proof (Z.mod_pos_bound size 2).
  assert (zero_units (Z.to_nat (size / 2)) m b a = m a) as E.
  { apply zero_units_out. intros c Hc. apply Ha. lia. }
  zcase; [done|]. rewrite ptr_add_eq, fn_lookup_insert_ne; [done|].
  pose proof (Ha (size / 2)). lia.
Qed.

Lemma memset_zero_in m b size c :
  0 <= c < size / 2 -> memset_zero m b size (b + 2 * c) = 0.
Proof.
  intros Hc. unfold memset_zero. rewrite SLOB_UNIT_2.
  assert (zero_units (Z.to_nat (size / 2)) m b (b + 2 * c) = 0) as E by (apply zero_units_in; lia).
  zcase; [done|]. rewrite ptr_add_eq, fn_lookup_insert_ne; [done|lia].
Qed.

(** *** slob_alloc *)

(** Live objects keep their contents. *)
Definition preserves_live g s s' : Prop :=
  forall o c, o ∈ live g -> o_off o <= c < o_off o + o_units o ->
    mem s' (page_address (o_page o) + 2 * c) = mem s (page_address (o_page o) + 2 * c).

Lemma preserves_took s g sp m :
  Inv s g -> sp ∈ slabs g -> same_outside (page_address sp) (in_free (blocks_of g sp)) (mem s) m ->
  forall o c, o ∈ live g -> o_off o <= c < o_off o + o_units o ->
    m (page_address (o_page o) + 2 * c) = mem s (page_address (o_page o) + 2 * c).
Proof.
  intros I Hsp F o c Ho Hc. apply F. intros c' Fc E.
  destruct (oi_range _ _ _ (inv_objs _ _ I) o Ho) as (Hs&?&?&?).
  assert (Isp := inv_pages _ _ I sp Hsp). assert (Io := inv_pages _ _ I _ Hs).
  pose proof (page_list_bounds _ _ _ _ _ (pi_list _ _ _ Isp) Fc).
  destruct (cell_inj _ _ c c' (page_inv_frame_of _ _ _ Io) (page_inv_frame_of _ _ _ Isp))
    as [Ep ->]; [lia|done|done|].
  subst sp. by apply (obj_not_free _ _ _ (inv_objs _ _ I) o c' Ho).
Qed.

(** Two live objects do not overlap. *)
Lemma objs_disjoint sl bo lv o1 o2 l c :
  objs_inv sl bo lv -> lv ≡ₚ o1 :: o2 :: l -> o_page o1 = o_page o2 ->
  o_off o1 <= c < o_off o1 + o_units o1 -> o_off o2 <= c < o_off o2 + o_units o2 -> False.
Proof.
  intros HO E Ep H1 H2. assert (o1 ∈ lv) as Ho1 by (rewrite E; by left).
  destruct (oi_range _ _ _ HO o1 Ho1) as (Hs&?&?&?).
  pose proof (obj_not_free _ _ _ HO o1 c Ho1 H1) as Hn.
  pose proof (oi_used _ _ _ HO _ c Hs ltac:(lia) Hn) as E1. rewrite E in E1. simpl in E1.
  rewrite !(proj2 (covers_1 _ _ _)) in E1 by done.
  pose proof (covers_sum_nonneg (o_page o1) c l). lia.
Qed.

Lemma inv_rotate s g hd p q :
  Inv s g -> hd ∈ heads -> on_list g hd = p ++ q ->
  Inv (with_lists (rotate hd (List.last p hd) (lists s)) s)
    (mk_ghost (slabs g) (blocks_of g) (live g) (<[hd := q ++ p]> (on_list g))).
Proof.
  intros [I1 I2 I3 I4] Hh E. split; try done.
  - intros sp Hsp. by eapply page_inv_frame; [apply I1| |].
  - by apply lists_rotate.
Qed.

Lemma alloc_aligned align base u bs r bs' :
  align_ok align -> is_base base -> wf_blocks PU 0 bs ->
  alloc_blocks (pad align base) u bs = Some (r, bs') -> aligned_to align (base + 2 * r).
Proof.
  intros Ha B W A. destruct (alloc_blocks_first _ _ _ _ _ A) as (pre&o&n&post&->&_&_&->&_).
  apply pad_spec; [done|done|]. eapply (wf_blocks_elem PU 0 _ o n W). set_solver.
Qed.

Lemma slob_list_heads size : slob_list_for size ∈ heads.
Proof. unfold slob_list_for, heads. repeat zcase; set_solver. Qed.

(** Nothing is written outside of the page of [sp]. *)
Definition wrote_page (sp : Z) (m m' : Z -> Z) : Prop :=
  same_outside (page_address sp) (fun c => 0 <= c < PU) m m'.

(** A new object of [u] units at [b], disjoint from all the others. *)
Definition allocated s g (u align : Z) s' (b : Z) g' : Prop :=
  exists sp r, Inv s' g' /\ live g' = mk_obj sp r u :: live g /\
    b = obj_addr (mk_obj sp r u) /\ aligned_to align b /\ preserves_live g s s' /\ wrote_page sp (mem s) (mem s').

Lemma found_post hd size align s g x :
  Inv s g -> hd ∈ heads -> 0 < size -> align_ok align -> found hd size align s g x ->
  exists s' b g', x = Ret (s', b) /\ b ≠ NULL /\ allocated s g (SLOB_UNITS size) align s' b g' /\
    slabs g' = slabs g.
Proof.
  intros I Hh Hs Ha (p&sp&q&r&bs'&m&fl&Hon&A&Hfl&S&F&->).
  pose proof (slob_units_pos size Hs) as Hu.
  assert (sp ∈ slabs g) as Hsp.
  { apply (on_list_spec _ _ _ _ _ (inv_lists _ _ I) Hh sp). rewrite Hon. set_solver. }
  assert (Isp := inv_pages _ _ I sp Hsp). destruct (pi_list _ _ _ Isp) as (B&W&_).
  assert (Hd := pad_nonneg align _ Ha B).
  destruct (alloc_result_pos _ _ _ _ _ _ _ Isp Hd Hu A) as (?&?&?).
  pose proof (took_inv s g hd p sp q _ _ r bs' m fl I Hh Hon Hu Hd A Hfl S F) as I'.
  eapply inv_rotate in I'; [|done|simpl; by rewrite fn_lookup_insert].
  eexists _, _, (mk_ghost _ _ _ _). split; [done|]. split; [lia|]. split; [|exact (eq_refl (slabs g))]. exists sp, r.
  split; [exact I'|]. split; [done|]. split; [done|]. split; [by eapply alloc_aligned|]. split.
  - intros o c Ho Hc. simpl. rewrite took_mem. by eapply preserves_took.
  - simpl. rewrite took_mem. eapply same_outside_mono; [|exact F]. intros c. by apply in_free_bounds.
Qed.

Lemma fill_page_post fuel hd size align s g sp :
  Inv s g -> hd ∈ heads -> fresh_page g sp -> PageSlab (page_at s sp) = true -> request_ok size align ->
  (1 <= fuel)%nat ->
  exists s' b g', fill_page fuel hd size align (page_address sp) s = Ret (s', b) /\ b ≠ NULL /\
    allocated s g (SLOB_UNITS size) align (with_pages (pages_inc (pages s')) s') b g' /\
    slabs g' = sp :: slabs g.
Proof.
  intros I Hh Hf Hsl R Hfu.
  destruct (fill_page_spec fuel s g size align hd sp I Hh Hf Hsl R Hfu) as (m&fl&->&I2&F).
  destruct Hf as (B&V&Hn). eexists _, _, (after_take (ghost_added g hd sp) _ _ _ _ _ _ _). split; [done|]. split; [destruct B; lia|]. split; [|done].
  exists sp, 0. split; [exact I2|]. split; [done|]. split; [done|]. split; [|split].
  - eapply alloc_aligned; [by eapply request_align|done| |by apply alloc_empty_page].
    simpl. lia.
  - intros o c Ho Hc. simpl. rewrite took_mem. apply F. intros c' Hc' E.
    destruct (oi_range _ _ _ (inv_objs _ _ I) o Ho) as (Hs&?&?&?).
    assert (Io := inv_pages _ _ I _ Hs).
    destruct (cell_inj _ sp c c' (page_inv_frame_of _ _ _ Io)) as [Ep _]; [by split|lia|done|done|].
    apply Hn. rewrite elem_of_app. right. by rewrite <- Ep.
  - simpl. rewrite took_mem. exact F.
Qed.

(** Marking a page that is no slab page. *)
Lemma inv_mark s g sp : Inv s g -> sp ∉ slabs g -> Inv (SetPageSlab sp s) g.
Proof.
  intros I Hn. eapply inv_ext; [exact I|done..|]. intros sp' Hsp'. simpl. apply fn_lookup_insert_ne. by intros ->.
Qed.

Lemma new_page_post fuel hd size align s g sp :
  Inv s g -> hd ∈ heads -> fresh_page g sp -> request_ok size align -> (1 <= fuel)%nat ->
  exists s' b g', alloc_from_new_page fuel hd size align (page_address sp) s = Ret (s', b) /\
    b ≠ NULL /\ allocated s g (SLOB_UNITS size) align s' b g'.
Proof.
  intros I Hh F R Hfu. assert (F' := F). destruct F' as (B&V&Hn).
  assert (sp ∉ slabs g) as Hsp by (intros ?; apply Hn, elem_of_app; by right).
  destruct (fill_page_post fuel hd size align (SetPageSlab sp s) g sp) as (s'&b&g'&E&Hb&Hal&_);
    [by apply inv_mark|done|done|simpl; by rewrite fn_lookup_insert|done|done|].
  exists (with_pages (pages_inc (pages s')) s'), b, g'. unfold alloc_from_new_page. by rewrite V, E.
Qed.

(** Zeroing the new object. *)
Lemma memset_post s g u align s' b g' size :
  0 <= size -> u = SLOB_UNITS size -> allocated s g u align s' b g' ->
  allocated s g u align (with_mem (memset_zero (mem s') b size) s') b g'.
Proof.
  intros Hs -> (sp&r&I&El&->&Hal&HP&HW). unfold obj_addr in *. simpl in *.
  assert (mk_obj sp r (SLOB_UNITS size) ∈ live g') as Hnew by (rewrite El; by left).
  destruct (oi_range _ _ _ (inv_objs _ _ I) _ Hnew) as (Hsp&?&?&?). simpl in *.
  assert (Isp := page_inv_frame_of _ _ _ (inv_pages _ _ I sp Hsp)).
  assert (forall sp' c, sp' ∈ slabs g' -> 0 <= c < PU -> (sp' = sp -> ~ r <= c < r + SLOB_UNITS size) ->
    memset_zero (mem s') (page_address sp + 2 * r) size (page_address sp' + 2 * c) =
      mem s' (page_address sp' + 2 * c)) as Hout.
  { intros sp' c Hsp' Hc Hne. apply memset_zero_out; [done|]. intros c' Hc' E.
    destruct (cell_inj sp' sp c (r + c')) as [Ep ->]; [|done|done|lia|lia|].
    - eapply page_inv_frame_of. by apply (inv_pages _ _ I).
    - specialize (Hne Ep). lia. }
  exists sp, r. split; [|split; [done|split; [done|split; [done|split]]]].
  - apply inv_write; [done|]. intros sp' c Hsp' F.
    pose proof (page_list_bounds _ _ _ _ _ (pi_list _ _ _ (inv_pages _ _ I _ Hsp')) F).
    apply Hout; [done|done|]. intros -> Hc.
    by apply (obj_not_free _ _ _ (inv_objs _ _ I) _ c Hnew Hc).
  - intros o c Ho Hc. rewrite <- (HP o c Ho Hc). simpl.
    destruct (oi_range _ _ _ (inv_objs _ _ I) o) as (Hs'&?&?&?); [rewrite El; by right|].
    apply Hout; [done|lia|]. intros Ep Hc'.
    apply list_elem_of_split in Ho as (l1 & l2 & Hl).
    eapply (objs_disjoint _ _ _ (mk_obj sp r (SLOB_UNITS size)) o (l1 ++ l2) c (inv_objs _ _ I)); try done.
    rewrite El, Hl. by rewrite <- Permutation_middle.
  - intros a Ha. rewrite <- (HW a Ha). simpl. apply memset_zero_out; [done|]. intros c Hc E.
    apply (Ha (r + c)); lia.
Qed.

(** The first critical section of slob_alloc: the search. *)
Lemma search_section_spec fuel s g size align node :
  let hd := slob_list_for size in
  Inv s g -> request_ok size align -> (length (slabs g) + Z.to_nat PU < fuel)%nat ->
  let x := search_pages fuel hd size align node (lnext (lists s) hd) s in
  x = Ret (s, NULL) \/
  exists s' b g', x = Ret (s', b) /\ b ≠ NULL /\ allocated s g (SLOB_UNITS size) align s' b g' /\
    slabs g' = slabs g.
Proof.
  intros hd I R Hf. assert (Ha := request_align _ _ R). assert (0 < size) as Hs by apply R.
  assert (hd ∈ heads) as Hh by apply slob_list_heads.
  assert (R0 := li_rings _ _ _ _ (inv_lists _ _ I) hd Hh).
  assert (length (on_list g hd) <= length (slabs g))%nat as Hlen.
  { apply submseteq_length. apply NoDup_submseteq.
    - apply ring_nodup in R0. by apply NoDup_cons_1_2 in R0.
    - intros x Hx. by apply (on_list_spec _ _ _ _ _ (inv_lists _ _ I) Hh x Hx). }
  assert (lnext (lists s) hd = List.hd hd (on_list g hd)) as ->.
  { destruct (on_list g hd); [by apply ring_single|exact (ring_next _ _ _ _ R0)]. }
  destruct (search_pages_spec fuel s g size align node [] (on_list g hd)) as [E|Hfound];
    try done; [lia|by left|]. right. by eapply found_post.
Qed.

Lemma get_block_spec fuel src s g size gfp align node :
  Inv s g -> request_ok size align -> source_ok g src ->
  (length (slabs g) + Z.to_nat PU < fuel)%nat ->
  exists s' b, get_block fuel src size gfp align node s = Ret (s', b) /\
    (b = NULL /\ s' = s /\ slob_new_pages src (gfp .& Z.lnot __GFP_ZERO) 0 node = NULL \/
     b ≠ NULL /\ exists g', allocated s g (SLOB_UNITS size) align s' b g').
Proof.
  intros I R Hsrc Hf. pose proof (slob_list_heads size) as Hh. unfold get_block.
  destruct (search_section_spec fuel s g size align node I R Hf) as [->|(s'&b&g'&->&Hb&Hal&_)]; simpl.
  - destruct (slob_new_pages_spec g src (gfp .& Z.lnot __GFP_ZERO) node Hsrc)
      as [->|(sp&Hfr&->)]; [exists s, NULL; by auto|].
    destruct (new_page_post fuel (slob_list_for size) size align s g sp) as (s'&b&g'&E'&Hb&Hal); try done; [lia|].
    assert (page_address sp ≠ 0) by (destruct Hfr as [[? _] _]; lia). zdec.
    exists s', b. split; [done|]. right. eauto.
  - zdec. exists s', b. split; [done|]. right. eauto.
Qed.

Lemma slob_alloc_spec fuel src s g size gfp align node :
  Inv s g -> request_ok size align -> source_ok g src ->
  (length (slabs g) + Z.to_nat PU < fuel)%nat ->
  exists s' b, slob_alloc fuel src size gfp align node s = Ret (s', b) /\
    (b = NULL /\ s' = s /\ slob_new_pages src (gfp .& Z.lnot __GFP_ZERO) 0 node = NULL \/
     b ≠ NULL /\
     (exists g', allocated s g (SLOB_UNITS size) align s' b g') /\
     (gfp .& __GFP_ZERO ≠ 0 -> forall c, 0 <= c < size / 2 -> mem s' (b + 2 * c) = 0)).
Proof.
  intros I R Hsrc Hf. unfold slob_alloc. assert (0 < size) as Hs by apply R.
  destruct (get_block_spec fuel src s g size gfp align node I R Hsrc Hf)
    as (s1&b&->&[(->&->&E)|(Hb&g'&Hal)]); simpl.
  - exists s, NULL. rewrite andb_false_r. by auto.
  - zdec. simpl. rewrite andb_true_r.
    destruct (Z.eqb_spec (gfp .& __GFP_ZERO) 0) as [Ez|Ez]; simpl;
      (eexists _, b; split; [done|]; right; split; [done|]; split).
    + by exists g'.
    + done.
    + exists g'. apply memset_post; [lia|done|done].
    + intros _ c Hc. by apply memset_zero_in.
Qed.
End SlobAlloc.
