(* ===== verification/SlobFree.v ===== *)
(** slob_free preserves the allocator's invariant and gives back exactly the
    units of the object. One lemma per path of the code: the page becomes empty
    and is returned, a full page joins a list again, the block is inserted into
    the page's free list. *)
From S2P Require Import Prelude ListHead Kernel SlobBlocks Slob SlobPage SlobSearch SlobInv SlobAlloc.

Section SlobFree.
Context {K : Kernel} {KL : KernelLaws} {L : Type} {LO : ListOps L} {LL : ListLaws L}.
Implicit Types (s : state L) (g : ghost).

(** [size] is a size that was requested for [o]. *)
Definition free_ok (o : obj) (size : Z) : Prop := 0 < size /\ SLOB_UNITS size = o_units o.

(** Freeing [o] from [g]: its units are free and nothing else changes. *)
Definition ghost_freed g (o : obj) (lv' : list obj) (on' : Z -> list Z) : ghost :=
  mk_ghost (slabs g)
    (<[o_page o := free_blocks (o_off o) (o_units o) (blocks_of g (o_page o))]> (blocks_of g)) lv' on'.

(** The blocks of a page that is not full are all on one list. *)
Lemma on_some_list g sp : sp ∈ partial (on_list g) -> exists hd p q, hd ∈ heads /\ on_list g hd = p ++ sp :: q.
Proof.
  unfold partial. rewrite !elem_of_app.
  intros [H|[H|H]]; apply list_elem_of_split in H as (p&q&E);
    (eexists _, p, q; split; [|exact E]); unfold heads; set_solver.
Qed.

Section free.
Variables (s : state L) (g : ghost) (o : obj) (lv' : list obj) (size : Z).
Hypothesis HI : Inv s g.
Hypothesis Hlv : live g ≡ₚ o :: lv'.
Hypothesis Hok : free_ok o size.

Let sp : Z := o_page o.
Let bs : blocks := blocks_of g sp.

Lemma freed_range : sp ∈ slabs g /\ 0 <= o_off o /\ 1 <= o_units o /\ o_off o + o_units o <= PU.
Proof. apply (oi_range _ _ _ (inv_objs _ _ HI)). rewrite Hlv. by left. Qed.

Lemma freed_page : page_inv s sp bs.
Proof. apply (inv_pages _ _ HI), freed_range. Qed.

Lemma freed_base : is_base (page_address sp).
Proof. apply (pi_list _ _ _ freed_page). Qed.

Lemma freed_wf : wf_blocks PU 0 bs.
Proof. apply (pi_list _ _ _ freed_page). Qed.

Lemma freed_disjoint c : o_off o <= c < o_off o + o_units o -> ~ in_free bs c.
Proof. by apply (objs_free_range _ _ _ (inv_objs _ _ HI) o lv'). Qed.

Lemma freed_virt : virt_to_page (obj_addr o) = sp.
Proof.
  destruct freed_range as (_&?&?&?). apply virt_to_page_cell; [|lia].
  eapply page_inv_frame_of, freed_page.
Qed.

Lemma freed_not_null : ZERO_OR_NULL_PTR (obj_addr o) = false.
Proof.
  destruct freed_range as (_&?&?&?). destruct freed_base as [B0 B1].
  pose proof zero_size_law as Z. rewrite page_size_law in Z.
  pose proof (Z.div_mod (page_address sp) 4096). unfold obj_addr. fold sp.
  rewrite zero_or_null_law by lia. apply Z.leb_gt. nia.
Qed.

Lemma freed_count : sum_free bs + o_units o <= PU.
Proof.
  pose proof (oi_count _ _ _ (inv_objs _ _ HI) sp ltac:(apply freed_range)) as E.
  fold bs in E. rewrite Hlv in E. simpl in E. unfold units_in at 1 in E. fold sp in E.
  rewrite Z.eqb_refl in E.
  assert (0 <= sumZ (units_in sp) lv'); [|lia].
  apply sumZ_nonneg. intros o' Ho'. unfold units_in. zcase; [|done].
  destruct (oi_range _ _ _ (inv_objs _ _ HI) o') as (_&_&?&_); [rewrite Hlv; by right|lia].
Qed.

Lemma freed_size : size =? 0 = false.
Proof. apply Z.eqb_neq. destruct Hok. lia. Qed.

Lemma freed_units : to_slobidx (SLOB_UNITS size) = o_units o.
Proof. destruct Hok as [_ ->]. destruct freed_range as (_&?&?&?). apply to_slobidx_small. lia. Qed.

(** Other live objects are not written. *)
Lemma preserves_freed m' :
  same_outside (page_address sp) (fun c => in_free bs c \/ o_off o <= c < o_off o + o_units o)
    (mem s) m' ->
  forall o' c, o' ∈ lv' -> o_off o' <= c < o_off o' + o_units o' ->
    m' (page_address (o_page o') + 2 * c) = mem s (page_address (o_page o') + 2 * c).
Proof.
  intros F o' c Ho' Hc. apply F. intros c' Hc' E.
  assert (o' ∈ live g) as Hl by (rewrite Hlv; by right).
  destruct (oi_range _ _ _ (inv_objs _ _ HI) o' Hl) as (Hs&?&?&?).
  assert (0 <= c' < PU) as Hb.
  { destruct freed_range as (_&?&?&?). destruct Hc' as [Hc'|Hc']; [|lia].
    by apply (in_free_bounds _ _ _ _ freed_wf). }
  destruct (cell_inj (o_page o') sp c c') as [Ep ->]; try done;
    [by eapply page_inv_frame_of, (inv_pages _ _ HI)|eapply page_inv_frame_of, freed_page|lia|].
  destruct Hc' as [Hc'|Hc'].
  - eapply (obj_not_free _ _ _ (inv_objs _ _ HI) o' c' Hl Hc). by rewrite Ep.
  - apply list_elem_of_split in Ho' as (l1&l2&El).
    eapply (objs_disjoint _ _ _ o o' (l1 ++ l2) c' (inv_objs _ _ HI)); try done.
    rewrite Hlv, El. by rewrite <- Permutation_middle.
Qed.

(** *** The page becomes empty *)
Definition page_emptied : state L := if slob_page_free s sp then clear_slob_page_free sp s else s.

(** The page no longer counts. *)
Definition page_returned : state L := with_pages (pages_dec (pages page_emptied)) page_emptied.

Lemma slabs_nodup : NoDup (slabs g).
Proof. pose proof (li_nodup _ _ _ _ (inv_lists _ _ HI)) as N. by apply NoDup_app in N as (_&_&?). Qed.

Lemma page_at_returned sp' : sp' ≠ sp -> page_at page_returned sp' = page_at s sp'.
Proof.
  intros Hne. unfold page_returned, page_emptied. destruct (slob_page_free s sp); [|done].
  simpl. by rewrite !fn_lookup_insert_ne.
Qed.

Lemma lists_returned sl' :
  slabs g ≡ₚ sp :: sl' ->
  exists on', lists_inv (lists page_returned) sl' on' (fun x => blocks_of g x ≠ []).
Proof.
  intros Es. pose proof freed_page as Isp. pose proof slabs_nodup as N. rewrite Es in N.
  apply NoDup_cons_1_1 in N.
  pose proof (sum_free_zero PU 0 bs freed_wf) as Hz. unfold page_returned, page_emptied, slob_page_free.
  rewrite (pi_free _ _ _ Isp). destruct (Z.eqb_spec (sum_free bs) 0) as [E|E]; simpl.
  - exists (on_list g). apply Hz in E. eapply lists_drop; [exact (inv_lists _ _ HI)| |exact Es].
    intros Hne. by apply Hne.
  - assert (sp ∈ partial (on_list g)) as Hp.
    { apply (li_partial _ _ _ _ (inv_lists _ _ HI)). split; [apply freed_range|].
      fold bs. intros E'. by apply E, Hz. }
    apply on_some_list in Hp as (hd&p&q&Hh&Eon).
    exists (<[hd := p ++ q]> (on_list g)).
    pose proof (lists_del _ _ _ _ _ (inv_lists _ _ HI) Hh p sp q Eon) as L1.
    eapply lists_drop in L1; [|simpl; tauto|exact Es].
    eapply lists_ext; [|exact L1]. intros x Hx. simpl. split; [tauto|].
    intros ?. split; [done|]. by intros ->.
Qed.

Lemma page_returned_inv :
  sum_free bs + o_units o = PU ->
  exists g', Inv page_returned g' /\ live g' = lv' /\ slabs g ≡ₚ sp :: slabs g' /\
    mem page_returned = mem s.
Proof.
  intros Hsum. destruct freed_range as (Hsp&_).
  apply list_elem_of_split in Hsp as (l1&l2&El).
  assert (slabs g ≡ₚ sp :: l1 ++ l2) as Es by (rewrite El; by rewrite <- Permutation_middle).
  assert (forall x, x ∈ l1 ++ l2 -> x ∈ slabs g /\ x ≠ sp) as Hx.
  { intros x Hx. split; [rewrite Es; by right|]. intros ->. pose proof slabs_nodup as N.
    rewrite Es in N. by apply NoDup_cons_1_1 in N. }
  destruct (lists_returned _ Es) as (on'&HL).
  assert (mem page_returned = mem s) as Em.
  { unfold page_returned, page_emptied. by destruct (slob_page_free s sp). }
  exists (mk_ghost (l1 ++ l2) (blocks_of g) lv' on'). split; [split|done]; cbn [slabs blocks_of live on_list].
  - intros sp' Hsp'. destruct (Hx _ Hsp') as [Hin Hne].
    eapply page_inv_frame; [by apply (inv_pages _ _ HI)|by apply page_at_returned|by rewrite Em].
  - done.
  - eapply (objs_drop _ _ _ (inv_objs _ _ HI)); [exact Es|apply slabs_nodup|exact Hlv|done].
  - assert (pages page_returned = wrapu BITS_PER_LONG (pages s - 1)) as ->.
    { unfold page_returned, page_emptied. by destruct (slob_page_free s sp). }
    rewrite (inv_pages_count _ _ HI), Es. simpl length. unfold wrapu.
    rewrite Zminus_mod_idemp_l. f_equal. lia.
Qed.

(** *** A full page *)
Definition page_reopened : state L :=
  let s1 := with_page sp (set_units (o_units o) (page_at s sp)) s in
  let s1 := with_page sp (set_freelist (obj_addr o) (page_at s1 sp)) s1 in
  let s1 := with_mem (set_slob (mem s1) (obj_addr o) (o_units o)
              (ptr_add (obj_addr o) (SLOB_UNITS PAGE_SIZE) .& PAGE_MASK)) s1 in
  set_slob_page_free sp (slob_list_for size) s1.

(** (b + SLOB_UNITS(PAGE_SIZE)) & PAGE_MASK is the end of the page. *)
Lemma page_end : ptr_add (obj_addr o) (SLOB_UNITS PAGE_SIZE) .& PAGE_MASK = page_address sp + 2 * PU.
Proof.
  destruct freed_range as (_&?&?&?). rewrite SLOB_UNITS_PAGE, ptr_add_eq. unfold obj_addr. fold sp.
  destruct freed_base as [B0 B1].
  replace (page_address sp + 2 * o_off o + 2 * PU) with (page_address sp + 2 * PU + 2 * o_off o) by lia.
  apply page_mask_cell; [|lia]. split; [lia|].
  replace (page_address sp + 2 * PU) with (page_address sp + 1 * 4096) by lia.
  by rewrite Z_mod_plus_full.
Qed.

Lemma page_reopened_inv :
  bs = [] ->
  exists g', Inv page_reopened g' /\ live g' = lv' /\ slabs g' = slabs g /\
    same_outside (page_address sp) (fun c => o_off o <= c < o_off o + o_units o)
      (mem s) (mem page_reopened).
Proof.
  intros Ebs. destruct freed_range as (Hsp&?&?&?). pose proof freed_page as Isp.
  pose proof freed_base as B. set (hd := slob_list_for size).
  assert (hd ∈ heads) as Hh by apply slob_list_heads.
  assert (same_outside (page_address sp) (fun c => o_off o <= c < o_off o + o_units o)
    (mem s) (mem page_reopened)) as F.
  { unfold page_reopened. simpl. rewrite page_end. by apply same_outside_set_slob. }
  exists (ghost_freed g o lv' (<[hd := sp :: on_list g hd]> (on_list g))).
  unfold ghost_freed. fold sp bs. rewrite Ebs. split; [split; simpl|done].
  - intros sp' Hsp'. destruct (decide (sp = sp')) as [<-|Hne].
    + rewrite fn_lookup_insert. unfold page_reopened.
      split; simpl; rewrite ?fn_lookup_insert; simpl; rewrite ?fn_lookup_insert; simpl.
      * rewrite page_end. do 2 (split; [done || (simpl; lia)|]). split; [done|]. split; [|done].
        by apply (set_slob_encodes (page_address sp) (o_off o) (o_units o) PU); side.
      * unfold sum_free. simpl. lia.
      * unfold sum_free. simpl. by zdec.
      * apply (pi_slab _ _ _ Isp).
      * apply (pi_virt _ _ _ Isp).
    + rewrite fn_lookup_insert_ne by done.
      eapply (page_inv_other s _ sp); [by eapply page_inv_frame_of|by apply (inv_pages _ _ HI)|done| |].
      * unfold page_reopened. simpl. by rewrite !(fn_lookup_insert_ne _ sp sp') by done.
      * eexists. split; [|exact F]. simpl. lia.
  - eapply lists_ext; [|apply (lists_add _ _ _ _ hd (inv_lists _ _ HI) Hh sp Hsp); intros Hne; by apply Hne].
    intros x Hx. simpl. destruct (decide (sp = x)) as [<-|].
    + rewrite fn_lookup_insert. split; [done|by right].
    + rewrite fn_lookup_insert_ne by done. split; [intros [?|?]; [done|congruence]|by left].
  - pose proof (objs_free _ _ _ (inv_objs _ _ HI) o lv' Hlv freed_wf) as HO.
    fold sp bs in HO. by rewrite Ebs in HO.
  - apply (inv_pages_count _ _ HI).
Qed.

(** *** A page that already has a free list *)
Definition block_inserted (m : Z -> Z) (fl : Z) : state L :=
  let s1 := with_page sp (set_units (Slob.units (page_at s sp) + o_units o) (page_at s sp)) s in
  let s1 := with_mem m s1 in
  with_page sp (set_freelist fl (page_at s1 sp)) s1.

Lemma block_inserted_inv m fl :
  bs ≠ [] ->
  page_list m (page_address sp) fl (free_blocks (o_off o) (o_units o) bs) ->
  same_outside (page_address sp) (fun c => in_free bs c \/ o_off o <= c < o_off o + o_units o)
    (mem s) m ->
  Inv (block_inserted m fl) (ghost_freed g o lv' (on_list g)).
Proof.
  intros Hne P F. destruct freed_range as (Hsp&?&?&?). pose proof freed_page as Isp.
  destruct (free_blocks_spec PU (o_off o) (o_units o) 0 bs) as (W'&Hsum&_);
    try done; [apply freed_wf|apply freed_disjoint|].
  assert (free_blocks (o_off o) (o_units o) bs ≠ []) as Hne'.
  { intros E. rewrite E in Hsum. pose proof (sum_free_nonneg PU 0 bs freed_wf).
    unfold sum_free in *. simpl in *. lia. }
  pose proof (sum_free_zero PU 0 _ freed_wf). pose proof (sum_free_zero PU 0 _ W').
  unfold ghost_freed, block_inserted. fold sp bs. split; simpl.
  - intros sp' Hsp'. destruct (decide (sp = sp')) as [<-|Hn].
    + rewrite fn_lookup_insert. split; simpl; rewrite ?fn_lookup_insert; simpl; try done.
      * rewrite (pi_units _ _ _ Isp). lia.
      * rewrite (pi_free _ _ _ Isp). repeat zcase; simpl; (done || tauto).
      * apply (pi_slab _ _ _ Isp).
      * apply (pi_virt _ _ _ Isp).
    + rewrite (fn_lookup_insert_ne _ sp sp') by done.
      eapply (page_inv_other s _ sp); [by eapply page_inv_frame_of|by apply (inv_pages _ _ HI)|done| |].
      * simpl. by rewrite !(fn_lookup_insert_ne _ sp sp') by done.
      * eexists. split; [|exact F]. intros c [Hc|Hc]; [|lia].
        by apply (in_free_bounds _ _ _ _ freed_wf).
  - eapply lists_ext; [|exact (inv_lists _ _ HI)]. intros x Hx. simpl.
    destruct (decide (sp = x)) as [<-|]; [by rewrite fn_lookup_insert|by rewrite fn_lookup_insert_ne].
  - by apply (objs_free _ _ _ (inv_objs _ _ HI) o lv' Hlv freed_wf).
  - apply (inv_pages_count _ _ HI).
Qed.

(** *** The critical section, and slob_free *)
Definition section_post (x : res (state L * bool)) : Prop :=
  exists s' (e : bool) g', x = Ret (s', e) /\
    Inv (if e then with_pages (pages_dec (pages s')) s' else s') g' /\ live g' = lv' /\
    (if e then slabs g ≡ₚ sp :: slabs g' else slabs g' = slabs g) /\
    (forall o' c, o' ∈ lv' -> o_off o' <= c < o_off o' + o_units o' ->
      mem s' (page_address (o_page o') + 2 * c) = mem s (page_address (o_page o') + 2 * c)) /\
    wrote_page sp (mem s) (mem s').

Lemma free_section_spec fuel : (Z.to_nat PU <= fuel)%nat -> section_post (free_section fuel (obj_addr o) size s).
Proof.
  intros Hf. destruct freed_range as (Hsp&?&?&?). pose proof freed_page as Isp.
  unfold free_section. rewrite freed_virt, freed_units, SLOB_UNITS_PAGE.
  rewrite (pi_units _ _ _ Isp). pose proof freed_count.
  destruct (Z.eqb_spec (sum_free bs + o_units o) PU) as [E|E].
  - destruct (page_returned_inv E) as (g'&I'&Hl&Hs&Em).
    exists page_emptied, true, g'. do 4 (split; [done|]). change (mem page_emptied) with (mem page_returned). rewrite Em. by split.
  - unfold slob_page_free. rewrite (pi_free _ _ _ Isp), negb_involutive.
    pose proof (sum_free_zero PU 0 bs freed_wf) as Hz.
    destruct (Z.eqb_spec (sum_free bs) 0) as [E0|E0].
    + apply Hz in E0. destruct (page_reopened_inv E0) as (g'&I'&Hl&Hs&F).
      exists page_reopened, false, g'. unfold page_reopened at 1. rewrite SLOB_UNITS_PAGE.
      do 4 (split; [done|]). split.
      * apply preserves_freed. eapply same_outside_mono; [|exact F]. simpl. tauto.
      * eapply same_outside_mono; [|exact F]. simpl. lia.
    + assert (bs ≠ []) as Hne by (intros Eb; by apply E0, Hz).
      pose proof (wf_blocks_length PU 0 _ freed_wf ltac:(lia)).
      destruct (insert_block_spec (page_address sp) (o_off o) (o_units o) freed_base
        ltac:(lia) ltac:(lia) ltac:(lia) fuel _ _ _ (pi_list _ _ _ Isp) Hne ltac:(lia)
        freed_disjoint) as (m&fl&Ei&P&F).
      exists (block_inserted m fl), false, (ghost_freed g o lv' (on_list g)).
      simpl. rewrite fn_lookup_insert. simpl. unfold obj_addr. fold sp. rewrite Ei. simpl.
      split; [|split; [by apply block_inserted_inv|split; [done|split; [done|split; [by apply preserves_freed|]]]]].
      * unfold block_inserted. rewrite (pi_units _ _ _ Isp). simpl. by rewrite !fn_lookup_insert.
      * eapply same_outside_mono; [|exact F]. intros c [Hc|Hc]; [by apply (in_free_bounds _ _ _ _ freed_wf)|lia].
Qed.

Definition freed_post (x : res (state L * unit)) : Prop :=
  exists s' g', x = Ret (s', tt) /\ Inv s' g' /\ live g' = lv' /\
    (slabs g' = slabs g \/ slabs g ≡ₚ sp :: slabs g') /\
    (forall o' c, o' ∈ lv' -> o_off o' <= c < o_off o' + o_units o' ->
      mem s' (page_address (o_page o') + 2 * c) = mem s (page_address (o_page o') + 2 * c)) /\
    wrote_page sp (mem s) (mem s').

(** A page that is no slab page can be given back. *)
Lemma inv_return b s1 g1 : Inv s1 g1 -> virt_to_page b ∉ slabs g1 -> Inv (return_page b s1) g1.
Proof.
  intros I Hn. eapply inv_ext; [exact I|done..|]. intros sp1 Hsp1. simpl.
  by rewrite !fn_lookup_insert_ne by (intros E; apply Hn; by rewrite E).
Qed.

Lemma slob_free_spec fuel : (Z.to_nat PU <= fuel)%nat -> freed_post (slob_free fuel (obj_addr o) size s).
Proof.
  intros Hf. unfold slob_free. rewrite freed_not_null, freed_size.
  destruct (free_section_spec fuel Hf) as (s'&e&g'&->&I'&Hl&Hs&HP&HW). simpl. destruct e.
  - assert (virt_to_page (obj_addr o) ∉ slabs g') as Hn.
    { rewrite freed_virt. pose proof slabs_nodup as N. rewrite Hs in N. by apply NoDup_cons_1_1 in N. }
    eexists _, g'. split; [done|]. split; [exact (inv_return _ _ _ I' Hn)|]. split; [done|]. split; [by right|done].
  - exists s', g'. do 3 (split; [done|]). split; [by left|done].
Qed.
End free.
End SlobFree.
