(* ===== verification/SlobAcct.v ===== *)
(** The accounting system calls: what free_units, sys_slob_units_used and
    sys_slob_units_free return in a state that satisfies the invariant. *)
From S2P Require Import Prelude ListHead Kernel SlobBlocks Slob SlobPage SlobSearch SlobInv.

Section SlobAcct.
Context {K : Kernel} {KL : KernelLaws} {L : Type} {LO : ListOps L} {LL : ListLaws L}.
Implicit Types (s : state L) (g : ghost).

(** Units in use and free units, from the ghost state. *)
Definition live_units (l : list obj) : Z := sumZ o_units l.
Definition free_of (bo : Z -> blocks) (l : list Z) : Z := sumZ (fun sp => sum_free (bo sp)) l.

(** *** Arithmetic modulo the width of a long *)
Lemma wrapu_add_l w a b : wrapu w (wrapu w a + b) = wrapu w (a + b).
Proof. apply Zplus_mod_idemp_l. Qed.

Lemma wraps_eqm w a b : 0 <= w -> a mod 2 ^ w = b mod 2 ^ w -> wraps w a = wraps w b.
Proof.
  intros Hw E. unfold wraps. rewrite (Z.add_mod a), (Z.add_mod b) by lia. by rewrite E.
Qed.

Lemma wraps_wrapu w a : 0 <= w -> wraps w (wrapu w a) = wraps w a.
Proof. intros Hw. apply wraps_eqm; [done|]. unfold wrapu. apply Z.mod_mod. lia. Qed.

(** *** One list *)
Lemma sum_units_loop_spec fuel h (pa : Z -> page) hd pre rest total :
  ring h (hd :: pre ++ rest) -> (length rest < fuel)%nat ->
  sum_units_loop fuel h pa hd (List.hd hd rest) (wrapu BITS_PER_LONG total) =
    Ret (wrapu BITS_PER_LONG (total + sumZ (fun sp => Slob.units (pa sp)) rest)).
Proof.
  revert fuel pre total. induction rest as [|sp rest IH]; intros fuel pre total R Hf;
    (destruct fuel as [|fuel]; [simpl in Hf; lia|]); simpl.
  { rewrite Z.eqb_refl. by rewrite Z.add_0_r. }
  assert (N := ring_nodup _ _ R).
  assert (sp ≠ hd) by (intros ->; apply NoDup_cons_1_1 in N; set_solver).
  assert (lnext h sp = List.hd hd rest) as ->.
  { destruct rest as [|y rest]; [by eapply ring_next_last|].
    exact (ring_next_mid h (hd :: pre) _ _ _ R). }
  zdec. rewrite wrapu_add_l, (IH _ (pre ++ [sp])).
  - by rewrite Z.add_assoc.
  - by rewrite <- app_assoc.
  - simpl in Hf. lia.
Qed.

Lemma sum_list_spec fuel h pa hd l total :
  ring h (hd :: l) -> (length l < fuel)%nat ->
  sum_units_loop fuel h pa hd (lnext h hd) (wrapu BITS_PER_LONG total) =
    Ret (wrapu BITS_PER_LONG (total + sumZ (fun sp => Slob.units (pa sp)) l)).
Proof.
  intros R Hf. assert (lnext h hd = List.hd hd l) as ->.
  { destruct l; [by apply ring_single|exact (ring_next _ _ _ _ R)]. }
  by apply (sum_units_loop_spec _ _ _ _ []).
Qed.

(** *** All lists *)

(** Pages that are on no list have no free unit. *)
Lemma free_partial s g :
  Inv s g -> free_of (blocks_of g) (partial (on_list g)) = free_of (blocks_of g) (slabs g).
Proof.
  intros I. destruct (inv_lists _ _ I) as [L1 _ L3 L4].
  assert (NoDup (slabs g)) as N by (by apply NoDup_app in L1 as (_&_&?)).
  assert (slabs g ≡ₚ filter (fun x => blocks_of g x ≠ []) (slabs g) ++
                     filter (fun x => ~ blocks_of g x ≠ []) (slabs g)) as E.
  { clear. induction (slabs g) as [|x l IH]; [done|]. rewrite !filter_cons.
    repeat case_decide; try tauto; simpl; [by constructor|].
    rewrite <- Permutation_middle. by constructor. }
  unfold free_of. rewrite E, sumZ_app.
  replace (sumZ _ (filter (fun x => ~ blocks_of g x ≠ []) (slabs g))) with 0.
  - rewrite Z.add_0_r. apply sumZ_perm. apply NoDup_Permutation; [done|by apply NoDup_filter|].
    intros x. rewrite L4, list_elem_of_filter. tauto.
  - symmetry. transitivity (sumZ (fun _ : Z => 0) (filter (fun x => ~ blocks_of g x ≠ []) (slabs g))).
    + apply sumZ_ext. intros x [Hx _]%list_elem_of_filter.
      destruct (blocks_of g x); [done|]. by destruct Hx.
    + clear. induction (filter _ _); simpl; lia.
Qed.

Lemma sum_units_free s g l :
  Inv s g -> (forall sp, sp ∈ l -> sp ∈ slabs g) ->
  sumZ (fun sp => Slob.units (page_at s sp)) l = free_of (blocks_of g) l.
Proof.
  intros I Hl. apply sumZ_ext. intros sp Hsp. by apply (pi_units _ _ _ (inv_pages _ _ I sp (Hl sp Hsp))).
Qed.

Lemma on_list_length s g hd : Inv s g -> hd ∈ heads -> (length (on_list g hd) <= length (slabs g))%nat.
Proof.
  intros I Hh. assert (R := li_rings _ _ _ _ (inv_lists _ _ I) hd Hh).
  apply submseteq_length, NoDup_submseteq.
  - apply ring_nodup in R. by apply NoDup_cons_1_2 in R.
  - intros x Hx. by apply (on_list_spec _ _ _ _ _ (inv_lists _ _ I) Hh x Hx).
Qed.

Lemma free_units_spec fuel s g :
  Inv s g -> (length (slabs g) < fuel)%nat ->
  free_units fuel s = Ret (wrapu BITS_PER_LONG (free_of (blocks_of g) (slabs g))).
Proof.
  intros I Hf. unfold free_units.
  assert (forall hd, hd ∈ heads -> (length (on_list g hd) < fuel)%nat) as Hlen.
  { intros hd Hh. pose proof (on_list_length s g hd I Hh). lia. }
  assert (forall hd, hd ∈ heads -> ring (lists s) (hd :: on_list g hd)) as R by apply (inv_lists _ _ I).
  assert (0 = wrapu BITS_PER_LONG 0) as E0 by (unfold wrapu; by rewrite Zmod_0_l).
  assert (forall hd, hd ∈ heads -> forall sp, sp ∈ on_list g hd -> sp ∈ slabs g) as Hs.
  { intros hd Hh sp Hsp. by apply (on_list_spec _ _ _ _ _ (inv_lists _ _ I) Hh sp Hsp). }
  assert (free_slob_small ∈ heads /\ free_slob_medium ∈ heads /\ free_slob_large ∈ heads)
    as (H1&H2&H3) by (unfold heads; set_solver).
  rewrite E0 at 1. rewrite (sum_list_spec _ _ _ _ _ _ (R _ H1) (Hlen _ H1)). simpl.
  rewrite (sum_list_spec _ _ _ _ _ _ (R _ H2) (Hlen _ H2)). simpl.
  rewrite (sum_list_spec _ _ _ _ _ _ (R _ H3) (Hlen _ H3)).
  rewrite !(sum_units_free s g) by eauto. rewrite <- (free_partial s g I).
  unfold partial, free_of. rewrite !sumZ_app. do 2 f_equal. lia.
Qed.

(** *** Units in use *)
Lemma units_in_one l (o : obj) :
  NoDup l -> o_page o ∈ l -> sumZ (fun sp => units_in sp o) l = o_units o.
Proof.
  intros N H. apply list_elem_of_split in H as (l1&l2&->).
  rewrite <- Permutation_middle in N. apply NoDup_cons_1_1 in N.
  rewrite <- Permutation_middle. simpl. unfold units_in at 1. rewrite Z.eqb_refl.
  enough (sumZ (fun sp => units_in sp o) (l1 ++ l2) = 0) by lia.
  transitivity (sumZ (fun _ : Z => 0) (l1 ++ l2)).
  - apply sumZ_ext. intros x Hx. unfold units_in. zcase; [congruence|done].
  - clear. induction (l1 ++ l2); simpl; lia.
Qed.

Lemma sum_swap (l : list Z) (lv : list obj) :
  NoDup l -> (forall o, o ∈ lv -> o_page o ∈ l) ->
  sumZ (fun sp => sumZ (units_in sp) lv) l = live_units lv.
Proof.
  intros N. unfold live_units. induction lv as [|o lv IH]; intros H; simpl.
  - clear. induction l; simpl; lia.
  - rewrite <- IH by set_solver. rewrite <- (units_in_one l o N) by set_solver. clear.
    induction l; simpl; lia.
Qed.

Lemma units_balance s g :
  Inv s g -> free_of (blocks_of g) (slabs g) + live_units (live g) = PU * Z.of_nat (length (slabs g)).
Proof.
  intros I. pose proof (inv_objs _ _ I) as HO.
  pose proof (li_nodup _ _ _ _ (inv_lists _ _ I)) as N. apply NoDup_app in N as (_&_&N).
  rewrite <- (sum_swap (slabs g)); [|done|intros o Ho; by apply (oi_range _ _ _ HO)].
  assert (forall sp, sp ∈ slabs g -> sum_free (blocks_of g sp) + sumZ (units_in sp) (live g) = PU) as E
    by apply (oi_count _ _ _ HO).
  unfold free_of. clear -E. induction (slabs g) as [|sp l IH]; [done|]. cbn [sumZ length].
  pose proof (E sp ltac:(set_solver)). specialize (IH ltac:(set_solver)). lia.
Qed.

Lemma sys_slob_units_free_spec fuel s g :
  Inv s g -> (length (slabs g) < fuel)%nat ->
  sys_slob_units_free fuel s =
    Ret (wraps BITS_PER_LONG (PU * Z.of_nat (length (slabs g)) - live_units (live g))).
Proof.
  intros I Hf. unfold sys_slob_units_free. rewrite (free_units_spec _ _ g) by done. simpl.
  pose proof bits_per_long_law. rewrite wraps_wrapu by lia.
  pose proof (units_balance s g I). do 2 f_equal. lia.
Qed.

Lemma sys_slob_units_used_spec fuel s g :
  Inv s g -> (length (slabs g) < fuel)%nat ->
  sys_slob_units_used fuel s = Ret (wraps BITS_PER_LONG (live_units (live g))).
Proof.
  intros I Hf. unfold sys_slob_units_used, units_used_at. rewrite (free_units_spec _ _ g) by done. simpl.
  pose proof bits_per_long_law. pose proof (units_balance s g I) as E. f_equal. apply wraps_eqm; [lia|].
  rewrite SLOB_UNITS_PAGE, (inv_pages_count _ _ I). unfold wrapu.
  rewrite Zmult_mod_idemp_r, <- Zminus_mod. f_equal. lia.
Qed.
End SlobAcct.
