(* ===== verification/SlobRuns.v ===== *)
(** Runs of the allocator: clients allocate, free what they hold and write into
    what they hold, in any order. Every state such a run reaches satisfies the
    invariant of SlobInv.v. *)
From S2P Require Import Prelude ListHead Kernel SlobBlocks Slob SlobFuel SlobFlags SlobPage SlobSearch SlobInv SlobAlloc SlobFree SlobAcct.

Section SlobRuns.
Context {K : Kernel} {KL : KernelLaws} {L : Type} {LO : ListOps L} {LL : ListLaws L}.
Implicit Types (s : state L) (g : ghost).

(** The allocator's state and the blocks the clients hold: address and size. *)
Record config : Type := mk_config { st : state L; held : list (Z * Z) }.

(** The page allocator hands out frames that are not slab pages. *)
Definition frame_free s (sp : Z) : Prop :=
  is_base (page_address sp) /\ virt_to_page (page_address sp) = sp /\
  sp ∉ heads /\ PageSlab (page_at s sp) = false.

Definition source_fresh s (src : page_source) : Prop :=
  forall gfp node,
    (alloc_pages src gfp 0 = NULL \/ frame_free s (alloc_pages src gfp 0)) /\
    (alloc_pages_exact_node src node gfp 0 = NULL \/
     frame_free s (alloc_pages_exact_node src node gfp 0)).

Inductive step (c : config) : config -> Prop :=
| step_alloc src size gfp align node s' b :
    request_ok size align -> source_fresh (st c) src ->
    returns (fun fuel => slob_alloc fuel src size gfp align node (st c)) (s', b) ->
    step c (mk_config s' (if b =? NULL then held c else (b, size) :: held c))
| step_free l1 b size l2 s' :
    held c = l1 ++ (b, size) :: l2 ->
    returns (fun fuel => slob_free fuel b size (st c)) (s', tt) ->
    step c (mk_config s' (l1 ++ l2))
| step_write b size i v :
    (b, size) ∈ held c -> 0 <= i < SLOB_UNITS size ->
    step c (mk_config (with_mem (<[b + 2 * i := v]> (mem (st c))) (st c)) (held c)).

(** After boot: three empty lists, no page. *)
Definition is_init s : Prop := (forall hd, hd ∈ heads -> ring (lists s) [hd]) /\ pages s = 0.

Definition reachable (c : config) : Prop :=
  exists s0, is_init s0 /\ rtc step (mk_config s0 []) c.

(** *** The invariant of runs *)
Definition holds (o : obj) (p : Z * Z) : Prop := p.1 = obj_addr o /\ free_ok o p.2.

Definition config_inv (c : config) g : Prop := Inv (st c) g /\ Forall2 holds (live g) (held c).

Definition ghost_init : ghost := mk_ghost [] (fun _ => []) [] (fun _ => []).

Lemma inv_init s : is_init s -> Inv s ghost_init.
Proof.
  intros [R P]. split; simpl.
  - intros sp ?%elem_of_nil. done.
  - split; [rewrite app_nil_r; apply heads_nodup|done|by apply NoDup_nil|].
    intros sp. simpl. rewrite !elem_of_nil. tauto.
  - split; [intros o ?%elem_of_nil; done|intros sp c ?%elem_of_nil; done..|].
    intros sp ?%elem_of_nil. done.
  - rewrite P. unfold wrapu. by rewrite Zmod_0_l.
Qed.

Lemma source_fresh_ok s g src : Inv s g -> source_fresh s src -> source_ok g src.
Proof.
  intros I F. assert (forall sp, frame_free s sp -> fresh_page g sp) as H.
  { intros sp (B&V&Hh&Hs). do 2 (split; [done|]). intros [?|Hin]%elem_of_app; [done|].
    pose proof (pi_slab _ _ _ (inv_pages _ _ I sp Hin)). congruence. }
  intros gfp node. destruct (F gfp node) as [[?|?] [?|?]]; auto.
Qed.

Lemma held_split g c l1 p l2 :
  config_inv c g -> held c = l1 ++ p :: l2 ->
  exists k1 o k2, live g = k1 ++ o :: k2 /\ holds o p /\ Forall2 holds (k1 ++ k2) (l1 ++ l2).
Proof.
  intros [_ F] E. rewrite E in F.
  apply Forall2_app_inv_r in F as (k1&k2'&F1&F2&Ek).
  apply Forall2_cons_inv_r in F2 as (o&k2&Ho&F2&->).
  exists k1, o, k2. split; [done|]. split; [done|]. by apply Forall2_app.
Qed.

Lemma holds_addr o p : holds o p -> p.1 = obj_addr o /\ 0 < p.2 /\ SLOB_UNITS p.2 = o_units o.
Proof. by intros [? [? ?]]. Qed.

(** *** What the invariant says about the held blocks *)
Definition bytes_disjoint (p q : Z * Z) : Prop := p.1 + p.2 <= q.1 \/ q.1 + q.2 <= p.1.

Lemma obj_bytes g s o p :
  Inv s g -> o ∈ live g -> holds o p ->
  is_base (page_address (o_page o)) /\ page_address (o_page o) <= p.1 /\
  p.1 + p.2 <= page_address (o_page o) + PAGE_SIZE.
Proof.
  intros I Hl (E&Hs&Hu)%holds_addr. destruct (oi_range _ _ _ (inv_objs _ _ I) o Hl) as (Hsp&?&?&?).
  pose proof (SLOB_UNITS_spec p.2). rewrite page_size_law. unfold obj_addr in E.
  split; [apply (pi_list _ _ _ (inv_pages _ _ I _ Hsp))|lia].
Qed.

Lemma objs_bytes_disjoint s g o1 o2 l p1 p2 :
  Inv s g -> live g ≡ₚ o1 :: o2 :: l -> holds o1 p1 -> holds o2 p2 -> bytes_disjoint p1 p2.
Proof.
  intros I E H1 H2. assert (o1 ∈ live g /\ o2 ∈ live g) as [L1 L2] by (rewrite E; set_solver).
  destruct (obj_bytes _ _ _ _ I L1 H1) as ([_ B1]&?&?), (obj_bytes _ _ _ _ I L2 H2) as ([_ B2]&?&?).
  rewrite page_size_law in *.
  assert (U1 := holds_addr _ _ H1). assert (U2 := holds_addr _ _ H2).
  destruct U1 as (E1&?&U1), U2 as (E2&?&U2). unfold obj_addr in *.
  pose proof (SLOB_UNITS_spec p1.2). pose proof (SLOB_UNITS_spec p2.2). unfold bytes_disjoint.
  destruct (decide (o_page o1 = o_page o2)) as [Ep|Hne].
  - pose proof (objs_disjoint _ _ _ o1 o2 l (Z.max (o_off o1) (o_off o2)) (inv_objs _ _ I) E Ep).
    rewrite Ep in *. destruct (decide (o_off o1 <= o_off o2)); lia.
  - destruct (oi_range _ _ _ (inv_objs _ _ I) o1 L1) as (S1&_).
    destruct (oi_range _ _ _ (inv_objs _ _ I) o2 L2) as (S2&_).
    assert (page_address (o_page o1) ≠ page_address (o_page o2)).
    { intros Ea. apply Hne. rewrite <- (pi_virt _ _ _ (inv_pages _ _ I _ S1)), Ea.
      by apply (pi_virt _ _ _ (inv_pages _ _ I _ S2)). }
    pose proof (Z.div_mod (page_address (o_page o1)) 4096).
    pose proof (Z.div_mod (page_address (o_page o2)) 4096). lia.
Qed.

Lemma held_pair g c l1 p l2 q l3 :
  config_inv c g -> held c = l1 ++ p :: l2 ++ q :: l3 ->
  exists o1 o2 l, live g ≡ₚ o1 :: o2 :: l /\ holds o1 p /\ holds o2 q.
Proof.
  intros CI E. destruct (held_split _ _ _ _ _ CI E) as (k1&o1&k2&El&H1&F).
  rewrite app_assoc in F. apply Forall2_app_inv_r in F as (j1&j2&_&F2&Ej).
  apply Forall2_cons_inv_r in F2 as (o2&j3&H2&_&->).
  exists o1, o2, (j1 ++ j3). split; [|done]. rewrite El, <- Permutation_middle, Ej.
  by rewrite <- Permutation_middle.
Qed.

(** Contents of a block. *)
Definition same_contents (m m' : Z -> Z) (p : Z * Z) : Prop :=
  forall i, 0 <= i < SLOB_UNITS p.2 -> m' (p.1 + 2 * i) = m (p.1 + 2 * i).

Lemma holds_preserved lv h m m' p :
  Forall2 holds lv h ->
  (forall o i, o ∈ lv -> o_off o <= i < o_off o + o_units o ->
    m' (page_address (o_page o) + 2 * i) = m (page_address (o_page o) + 2 * i)) ->
  p ∈ h -> same_contents m m' p.
Proof.
  intros F Hm Hp i Hi. apply list_elem_of_split in Hp as (l1&l2&->).
  apply Forall2_app_inv_r in F as (k1&k2'&_&F2&->).
  apply Forall2_cons_inv_r in F2 as (o&k2&(Ho&_&Hu)%holds_addr&_&->).
  rewrite Ho. unfold obj_addr. rewrite <- Z.add_assoc, <- Z.mul_add_distr_l.
  apply Hm; [set_solver|lia].
Qed.

Lemma new_block_disjoint c g s' sp r size g' p :
  config_inv c g -> Inv s' g' -> live g' = mk_obj sp r (SLOB_UNITS size) :: live g -> 0 < size ->
  p ∈ held c -> bytes_disjoint (obj_addr (mk_obj sp r (SLOB_UNITS size)), size) p.
Proof.
  intros CI I' El Hs Hp. apply list_elem_of_split in Hp as (l1&l2&E).
  destruct (held_split _ _ _ _ _ CI E) as (k1&o&k2&Ek&Ho&_).
  eapply (objs_bytes_disjoint _ _ _ o (k1 ++ k2)); [done| |by repeat split|done].
  rewrite El, Ek. by rewrite <- Permutation_middle.
Qed.

(** The cells of a held block are cells of slab pages. *)
Lemma held_cell g c p i :
  config_inv c g -> p ∈ held c -> 0 <= i < SLOB_UNITS p.2 ->
  exists sp x, sp ∈ slabs g /\ 0 <= x < PU /\ p.1 + 2 * i = page_address sp + 2 * x.
Proof.
  intros CI Hp Hi. apply list_elem_of_split in Hp as (l1&l2&Eh).
  destruct (held_split _ _ _ _ _ CI Eh) as (k1&o&k2&El&(Eo&_&Eu)%holds_addr&_).
  destruct (oi_range _ _ _ (inv_objs _ _ (proj1 CI)) o) as (?&?&?&?); [rewrite El; set_solver|].
  exists (o_page o), (o_off o + i). split; [done|]. split; [lia|]. rewrite Eo. unfold obj_addr. lia.
Qed.

(** A new object is a new held block. *)
(** Writing into a held block. *)
Definition writes_in (m m' : Z -> Z) (p : Z * Z) : Prop :=
  forall a, (forall i, 0 <= i < SLOB_UNITS p.2 -> a ≠ p.1 + 2 * i) -> m' a = m a.

(** Memory outside of the slab pages: whoever writes into a slab page or into a
    held block only leaves it alone. *)
Definition wrote_slabs s (m m' : Z -> Z) : Prop := forall a, slab_of s (virt_to_page a) = false -> m' a = m a.

Lemma slab_cell s g sp x :
  Inv s g -> sp ∈ slabs g -> 0 <= x < PU -> slab_of s (virt_to_page (page_address sp + 2 * x)) = true.
Proof.
  intros I Hsp Hx. assert (Isp := inv_pages _ _ I sp Hsp).
  rewrite virt_to_page_cell by (done || by eapply page_inv_frame_of). exact (pi_slab _ _ _ Isp).
Qed.

Lemma wrote_slab_page s g sp m m' : Inv s g -> sp ∈ slabs g -> wrote_page sp m m' -> wrote_slabs s m m'.
Proof.
  intros I Hsp W a Ha. apply W. intros c Hc ->. by rewrite (slab_cell s g sp c I Hsp Hc) in Ha.
Qed.

Lemma wrote_held c g p m m' :
  config_inv c g -> p ∈ held c -> writes_in m m' p -> wrote_slabs (st c) m m'.
Proof.
  intros CI Hp W a Ha. apply W. intros i Hi ->. destruct (held_cell g c p i CI Hp Hi) as (sp&x&Hsp&Hx&E).
  by rewrite E, (slab_cell (st c) g sp x (proj1 CI) Hsp Hx) in Ha.
Qed.

Lemma wrote_allocated s g u align s' b g' :
  allocated s g u align s' b g' -> wrote_slabs s' (mem s) (mem s').
Proof.
  intros (sp&r&I&El&_&_&_&W). eapply wrote_slab_page; [exact I| |exact W].
  apply (oi_range _ _ _ (inv_objs _ _ I) (mk_obj sp r u)). rewrite El. by left.
Qed.

Lemma allocated_run c g size align s' b g' :
  config_inv c g -> 0 < size -> allocated (st c) g (SLOB_UNITS size) align s' b g' ->
  aligned_to align b /\
  (exists base, is_base base /\ base <= b /\ b + size <= base + PAGE_SIZE) /\
  (forall p, p ∈ held c -> bytes_disjoint (b, size) p) /\
  (forall p, p ∈ held c -> same_contents (mem (st c)) (mem s') p) /\
  config_inv (mk_config s' ((b, size) :: held c)) g'.
Proof.
  intros CI Hs (sp&r&I'&El&Eb&Hal&HP&_).
  assert (holds (mk_obj sp r (SLOB_UNITS size)) (b, size)) as Ho by done.
  split; [done|]. split; [|split; [|split]].
  - exists (page_address sp).
    apply (obj_bytes g' s' (mk_obj sp r (SLOB_UNITS size)) (b, size) I'); [rewrite El; by left|done].
  - intros p Hp. rewrite Eb. by eapply new_block_disjoint.
  - intros p. apply (holds_preserved (live g)); [apply CI|done].
  - split; [done|]. simpl. rewrite El. constructor; [done|]. apply CI.
Qed.

(** A request in a state that satisfies the invariant. *)
Lemma alloc_run c g src size gfp align node :
  config_inv c g -> request_ok size align -> source_fresh (st c) src ->
  exists s' b, returns (fun fuel => slob_alloc fuel src size gfp align node (st c)) (s', b) /\
    ((b = NULL /\ s' = st c /\ slob_new_pages src (gfp .& Z.lnot __GFP_ZERO) 0 node = NULL) \/
     (b ≠ NULL /\ aligned_to align b /\
      (exists base, is_base base /\ base <= b /\ b + size <= base + PAGE_SIZE) /\
      (forall p, p ∈ held c -> bytes_disjoint (b, size) p) /\
      (forall p, p ∈ held c -> same_contents (mem (st c)) (mem s') p) /\
      (gfp .& __GFP_ZERO ≠ 0 -> forall i, 0 <= i < size / 2 -> mem s' (b + 2 * i) = 0) /\
      wrote_slabs s' (mem (st c)) (mem s') /\
      exists g', config_inv (mk_config s' ((b, size) :: held c)) g')).
Proof.
  intros CI R F. assert (I := proj1 CI).
  destruct (slob_alloc_spec (S (length (slabs g) + Z.to_nat PU)) src (st c) g size gfp align node I R)
    as (s'&b&E&Hpost); [by eapply source_fresh_ok|lia|]. exists s', b. split.
  { eapply returns_at; [|exact E]. intros n n' x. apply slob_alloc_mono. }
  destruct Hpost as [?|(Hb&(g'&Hal)&HZ)]; [by left|right].
  destruct (allocated_run c g size align s' b g' CI ltac:(apply R) Hal) as (?&?&?&?&?).
  do 6 (split; [done|]). split; [by eapply wrote_allocated|]. by exists g'.
Qed.

(** The return of a held block. *)
Lemma free_run c g l1 b size l2 :
  config_inv c g -> held c = l1 ++ (b, size) :: l2 ->
  exists s', returns (fun fuel => slob_free fuel b size (st c)) (s', tt) /\
    (exists g', config_inv (mk_config s' (l1 ++ l2)) g') /\
    (forall p, p ∈ l1 ++ l2 -> same_contents (mem (st c)) (mem s') p) /\
    wrote_slabs (st c) (mem (st c)) (mem s').
Proof.
  intros CI Eh. assert (I := proj1 CI).
  destruct (held_split _ _ _ _ _ CI Eh) as (k1&o&k2&Ek&[Ho Hok]&F2). simpl in Ho, Hok.
  assert (live g ≡ₚ o :: k1 ++ k2) as El by (rewrite Ek; by rewrite <- Permutation_middle).
  destruct (slob_free_spec (st c) g o (k1 ++ k2) size I El Hok (Z.to_nat PU))
    as (s'&g'&Ef&I'&El'&_&HP&HW); [lia|]. rewrite <- Ho in Ef. exists s'. split.
  { eapply returns_at; [|exact Ef]. intros n n' x. apply slob_free_mono. }
  split; [exists g'; split; [done|by rewrite El']|].
  split; [intros p; by apply (holds_preserved (k1 ++ k2))|].
  eapply wrote_slab_page; [exact I|by apply (freed_range _ _ _ _ I El)|exact HW].
Qed.

Lemma write_run c g p m' :
  config_inv c g -> p ∈ held c -> writes_in (mem (st c)) m' p ->
  config_inv (mk_config (with_mem m' (st c)) (held c)) g.
Proof.
  intros CI Hin W. assert (I := proj1 CI). split; [|apply CI]. apply inv_write; [done|].
  intros sp j Hsp Fj. apply W. intros i Hi E. apply list_elem_of_split in Hin as (l1&l2&Eh).
  destruct (held_split _ _ _ _ _ CI Eh) as (k1&o&k2&El&Ho&_). apply holds_addr in Ho as (Ho&_&Hu).
  simpl in *. assert (o ∈ live g) as Hl by (rewrite El; set_solver).
  destruct (oi_range _ _ _ (inv_objs _ _ I) o Hl) as (Hs&?&?&?).
  pose proof (page_list_bounds _ _ _ _ _ (pi_list _ _ _ (inv_pages _ _ I sp Hsp)) Fj).
  destruct (cell_inj (o_page o) sp (o_off o + i) j) as [<- <-]; [..|lia|done| |].
  - eapply page_inv_frame_of. by apply (inv_pages _ _ I).
  - eapply page_inv_frame_of. by apply (inv_pages _ _ I).
  - rewrite E, Ho. unfold obj_addr. lia.
  - apply (obj_not_free _ _ _ (inv_objs _ _ I) o (o_off o + i) Hl); [lia|done].
Qed.

(** It leaves the other held blocks alone. *)
Lemma write_others c g l1 p l2 q m' :
  config_inv c g -> held c = l1 ++ p :: l2 -> q ∈ l1 ++ l2 ->
  writes_in (mem (st c)) m' p -> same_contents (mem (st c)) m' q.
Proof.
  intros CI Eh Hq W j Hj. apply W. intros i Hi E. assert (I := proj1 CI).
  destruct (held_split _ _ _ _ _ CI Eh) as (k1&o1&k2&El&H1&F).
  apply list_elem_of_split in Hq as (j1&j2&Ej). rewrite Ej in F.
  apply Forall2_app_inv_r in F as (n1&n2&_&F&En). apply Forall2_cons_inv_r in F as (o2&n3&H2&_&->).
  assert (live g ≡ₚ o1 :: o2 :: n1 ++ n3) as Ep.
  { rewrite El, <- !Permutation_middle, En. by rewrite <- Permutation_middle. }
  apply holds_addr in H1 as (A1&_&U1), H2 as (A2&_&U2). unfold obj_addr in *.
  destruct (oi_range _ _ _ (inv_objs _ _ I) o1) as (S1&?&?&?); [rewrite Ep; set_solver|].
  destruct (oi_range _ _ _ (inv_objs _ _ I) o2) as (S2&?&?&?); [rewrite Ep; set_solver|].
  destruct (cell_inj (o_page o1) (o_page o2) (o_off o1 + i) (o_off o2 + j)) as [Eo Ec]; [..|lia|].
  - eapply page_inv_frame_of. by apply (inv_pages _ _ I).
  - eapply page_inv_frame_of. by apply (inv_pages _ _ I).
  - lia.
  - lia.
  - apply (objs_disjoint _ _ _ o1 o2 _ (o_off o1 + i) (inv_objs _ _ I) Ep Eo); lia.
Qed.

(** *** Runs preserve the invariant *)
Lemma step_inv c c' g : config_inv c g -> step c c' -> exists g', config_inv c' g'.
Proof.
  intros CI St. destruct St as [src size gfp align node s' b R F Hret|l1 b size l2 s' Eh Hret|b size i v Hin Hi].
  - destruct (alloc_run c g src size gfp align node CI R F) as (s1&b1&Hret1&Hpost).
    pose proof (returns_unique _ _ _ Hret1 Hret) as [= -> ->].
    destruct Hpost as [(->&->&_)|(Hb&_&_&_&_&_&_&g'&CI')]; [by exists g|]. exists g'. by zdec.
  - destruct (free_run c g l1 b size l2 CI Eh) as (s1&Hret1&CI'&_).
    by pose proof (returns_unique _ _ _ Hret1 Hret) as [= ->].
  - exists g. eapply write_run; [done|done|]. intros a Ha. apply fn_lookup_insert_ne.
    intros <-. by apply (Ha i).
Qed.

Lemma reachable_inv c : reachable c -> exists g, config_inv c g.
Proof.
  intros (s0&Hi&St). assert (config_inv (mk_config s0 []) ghost_init) as CI
    by (split; [by apply inv_init|constructor]).
  revert CI. generalize ghost_init. induction St as [c|c1 c2 c3 S12 _ IH]; intros g CI; [by exists g|].
  destruct (step_inv _ _ _ CI S12) as (g2&CI2). by apply (IH g2).
Qed.

Definition held_units (l : list (Z * Z)) : Z := sumZ (fun p => SLOB_UNITS p.2) l.

Lemma held_live_units g c : config_inv c g -> live_units (live g) = held_units (held c).
Proof.
  intros [_ F]. unfold live_units, held_units. induction F as [|o p k l H F IH]; simpl; [done|].
  apply holds_addr in H as (_&_&->). lia.
Qed.
End SlobRuns.
