(* ===== verification/SlobBoot.v ===== *)
(** A concrete machine for the allocator: 32-bit x86, the list implementation of
    ListHead.v, the state at boot, and the state after one kmalloc-sized request.
    Theorems with hypotheses are instantiated here. *)
From S2P Require Import Prelude ListHead Kernel SlobBlocks Slob SlobFuel SlobPage SlobSearch SlobInv SlobAlloc SlobRuns.
Import I386 Links.

Definition boot_links : links :=
  self_link free_slob_large (self_link free_slob_medium
    (self_link free_slob_small (mk_links (fun _ => 0) (fun _ => 0)))).

Definition boot : state links :=
  mk_state (fun _ => 0) (fun _ => mk_page 0 0 false false) boot_links 0 None [].

(** The frames at 0x2000 and 0x3000. *)
Definition frame1 : Z := mem_map + 64.
Definition frame2 : Z := mem_map + 96.

(** A page allocator with one frame to give. *)
Definition one_frame (sp : Z) : page_source := mk_source (fun _ _ => sp) (fun _ _ _ => NULL).

Lemma boot_init : is_init boot.
Proof.
  split; [|done]. intros hd Hh. unfold heads in Hh. rewrite !elem_of_cons in Hh.
  destruct Hh as [->|[->|[->|Hh]]]; [vm_compute; repeat split; apply NoDup_singleton..|].
  by apply elem_of_nil in Hh.
Qed.

Lemma boot_inv : Inv boot ghost_init.
Proof. apply inv_init, boot_init. Qed.

Lemma boot_reachable : reachable (mk_config boot []).
Proof. exists boot. split; [apply boot_init|constructor]. Qed.

(** One request served: the configuration after it. *)
Definition serve (c : config) (sp size align : Z) : config (L := links) :=
  match slob_alloc 8 (one_frame sp) size 0 align 0 (st c) with
  | Ret (s, b) => if b =? NULL then c else mk_config s ((b, size) :: held c)
  | _ => c
  end.

Lemma serve_reachable c sp size align :
  request_ok size align -> source_fresh (st c) (one_frame sp) -> reachable c ->
  reachable (serve c sp size align).
Proof.
  intros R F (s0&Hi&St). unfold serve.
  destruct (slob_alloc 8 _ _ _ _ _ _) as [[s b]| |] eqn:E; try (by exists s0).
  assert (returns (fun fuel => slob_alloc fuel (one_frame sp) size 0 align 0 (st c)) (s, b)) as Hr.
  { eapply returns_at; [intros n n' x; apply slob_alloc_mono|exact E]. }
  pose proof (step_alloc c _ _ _ _ _ _ _ R F Hr) as S1.
  destruct (b =? NULL); [by exists s0|]. exists s0. split; [done|]. by eapply rtc_r.
Qed.

Lemma frame_ok (s : state links) sp :
  bool_decide (sp ∈ heads) || PageSlab (page_at s sp) = false ->
  is_frame sp -> source_fresh s (one_frame sp).
Proof.
  intros [Hh Hs]%orb_false_iff [B V] gfp node. apply bool_decide_eq_false in Hh.
  split; [by right|by left].
Qed.

(** After a request of 100 bytes, and after a second one of 60 bytes. *)
Definition run0 : config := mk_config boot [].
Definition run1 : config := serve run0 frame1 100 0.
Definition run2 : config := serve run1 frame2 60 0.

Lemma run1_held : held run1 = [(8192, 100)].
Proof. by vm_compute. Qed.

Lemma run2_held : held run2 = [(8292, 60); (8192, 100)].
Proof. by vm_compute. Qed.

Lemma frame2_ok : is_frame frame2.
Proof. split; [split|]; by vm_compute. Qed.

Lemma run1_source : source_fresh (st run1) (one_frame frame2).
Proof. apply frame_ok; [by vm_compute|apply frame2_ok]. Qed.

Lemma run1_reachable : reachable run1.
Proof.
  apply serve_reachable; [split; [by vm_compute|by left]| |apply boot_reachable].
  apply frame_ok; [by vm_compute|]. split; [split|]; by vm_compute.
Qed.

Lemma run2_reachable : reachable run2.
Proof.
  apply serve_reachable; [split; [by vm_compute|by left]|apply run1_source|apply run1_reachable].
Qed.

(** A page, the frame at 0x2000, with two free blocks: 2 units at offset 10 and
    5 units at offset 20; another one, at 0x3000, with 9 units at offset 0. *)
Definition demo_mem : Z -> Z :=
  set_slob (set_slob (set_slob (fun _ => 0) (8192 + 2 * 20) 5 (8192 + 2 * PU))
    (8192 + 2 * 10) 2 (8192 + 2 * 20)) 12288 9 (12288 + 2 * PU).

Definition demo_links : links := list_add frame1 free_slob_small (list_add frame2 free_slob_small boot_links).

Definition demo : state links :=
  mk_state demo_mem
    (<[frame1 := mk_page 7 (8192 + 2 * 10) true true]>
      (<[frame2 := mk_page 9 12288 true true]> (fun _ => mk_page 0 0 false false)))
    demo_links 2 None [].

Lemma demo_page : page_list (mem demo) 8192 (freelist (page_at demo frame1)) [(10, 2); (20, 5)].
Proof. repeat split; by vm_compute. Qed.

Lemma demo_page_2 : page_list (mem demo) 12288 (freelist (page_at demo frame2)) [(0, 9)].
Proof. repeat split; by vm_compute. Qed.

Lemma demo_ring : ring (lists demo) [free_slob_small; frame1; frame2].
Proof. split; [apply (bool_decide_unpack _)|]; by vm_compute. Qed.

(** Twelve bytes fit in the second page only. *)
Lemma demo_page_none n : (2 <= n)%nat -> slob_page_alloc n frame1 12 0 demo = Ret (demo, NULL).
Proof.
  intros Hn. assert (slob_page_alloc 2 frame1 12 0 demo = Ret (demo, NULL)) as E.
  { pose proof (slob_page_alloc_spec 2 demo frame1 12 0 8192 _ demo_page) as S. unfold scan_result in S.
    replace (alloc_blocks _ _ _) with (@None (Z * blocks)) in S by by vm_compute.
    apply S; [done|simpl; lia|lia|by left]. }
  by eapply slob_page_alloc_mono.
Qed.

Lemma demo_page_2_some : exists s', slob_page_alloc 2 frame2 12 0 demo = Ret (s', 12288).
Proof.
  pose proof (slob_page_alloc_spec 2 demo frame2 12 0 12288 _ demo_page_2) as S. unfold scan_result in S.
  replace (alloc_blocks _ _ _) with (Some (0, [(6, 3)])) in S by by vm_compute.
  destruct S as (m&fl&E&_); [done|simpl; lia|lia|by left|]. eexists. exact E.
Qed.
