(* ===== verification/SlobProps.v ===== *)
(** What the slob allocator promises: the properties of assignments/a4/slob.c,
    for the whole allocator in any reachable state and for its parts, each with a
    concrete instance on the machine of SlobBoot.v. *)
From S2P Require Import Prelude ListHead Kernel SlobBlocks Slob SlobFuel SlobPage SlobSearch SlobInv SlobAlloc SlobFree SlobAcct SlobRuns SlobBoot.
Import I386 Links.

Section SlobProps.
Context {K : Kernel} {KL : KernelLaws} {L : Type} {LO : ListOps L} {LL : ListLaws L}.
Implicit Types (s : state L) (c : config (L := L)).

(** C1: in every reachable state a well-formed request to slob_alloc returns (the
    BUG_ON is unreachable and the loops end). It answers NULL, changing nothing,
    only if the page allocator has no page. Otherwise the block is non-null and
    aligned, lies inside one page, overlaps no held block, leaves the contents of
    all held blocks and everything outside of the slab pages alone, and its whole
    units are zero under __GFP_ZERO. *)
Theorem slob_alloc_correct c src size gfp align node :
  reachable c -> request_ok size align -> source_fresh (st c) src ->
  exists s' b, returns (fun fuel => slob_alloc fuel src size gfp align node (st c)) (s', b) /\
    ((b = NULL /\ s' = st c /\ slob_new_pages src (gfp .& Z.lnot __GFP_ZERO) 0 node = NULL) \/
     (b ≠ NULL /\ aligned_to align b /\
      (exists base, is_base base /\ base <= b /\ b + size <= base + PAGE_SIZE) /\
      (forall p, p ∈ held c -> bytes_disjoint (b, size) p) /\
      (forall p, p ∈ held c -> same_contents (mem (st c)) (mem s') p) /\
      (gfp .& __GFP_ZERO ≠ 0 -> forall i, 0 <= i < size / 2 -> mem s' (b + 2 * i) = 0) /\
      wrote_slabs s' (mem (st c)) (mem s'))).
Proof.
  intros (g&CI)%reachable_inv R F.
  destruct (alloc_run c g src size gfp align node CI R F) as (s'&b&E&[?|(?&?&?&?&?&?&?&_)]);
    exists s', b; auto 10.
Qed.

(** C2: in every reachable state, freeing a held block with its size returns (no
    BUG, the insertion loop ends), leads to a reachable state in which the block
    is not held any more, and leaves the contents of the other blocks, and everything
    outside of the slab pages, alone. *)
Theorem slob_free_correct c l1 b size l2 :
  reachable c -> held c = l1 ++ (b, size) :: l2 ->
  exists s', returns (fun fuel => slob_free fuel b size (st c)) (s', tt) /\
    reachable (mk_config s' (l1 ++ l2)) /\
    (forall p, p ∈ l1 ++ l2 -> same_contents (mem (st c)) (mem s') p) /\
    wrote_slabs (st c) (mem (st c)) (mem s').
Proof.
  intros Hc Eh. destruct (reachable_inv c Hc) as (g&CI).
  destruct (free_run c g l1 b size l2 CI Eh) as (s'&E&_&HP). exists s'. split; [done|]. split; [|done].
  destruct Hc as (s0&Hi&St). exists s0. split; [done|]. eapply rtc_r; [exact St|]. by eapply step_free.
Qed.

(** In every reachable state two held blocks never share a byte. *)
Theorem held_blocks_disjoint c l1 p l2 q l3 :
  reachable c -> held c = l1 ++ p :: l2 ++ q :: l3 -> bytes_disjoint p q.
Proof.
  intros Hc E. destruct (reachable_inv c Hc) as (g&CI).
  destruct (held_pair _ _ _ _ _ _ _ CI E) as (o1&o2&l&El&H1&H2).
  eapply objs_bytes_disjoint; [apply CI|done..].
Qed.

(** C3: every reachable state satisfies the invariant: every unit of every slab
    page is free or belongs to exactly one held block, the free blocks of each
    page are encoded in it ordered and coalesced, ->units counts them, a page is
    on exactly one of the three lists if and only if it has a free unit, and
    [pages] counts the slab pages. *)
Theorem reachable_invariant c :
  reachable c -> exists g, Inv (st c) g /\ Forall2 holds (live g) (held c).
Proof. exact (reachable_inv c). Qed.

(** Sys_slob_units_used returns the sum of the sizes, in units, of the held
    blocks, and sys_slob_units_free the units of the slab pages that are left,
    both as signed longs. *)
Theorem sys_slob_units_correct c :
  reachable c ->
  returns (fun fuel => sys_slob_units_used fuel (st c)) (wraps BITS_PER_LONG (held_units (held c))) /\
  exists n : nat, pages (st c) = wrapu BITS_PER_LONG (Z.of_nat n) /\
    returns (fun fuel => sys_slob_units_free fuel (st c))
      (wraps BITS_PER_LONG (PU * Z.of_nat n - held_units (held c))).
Proof.
  intros Hc. destruct (reachable_inv c Hc) as (g&CI). assert (I := proj1 CI).
  rewrite <- (held_live_units g c CI). split.
  - apply (returns_from _ _ (length (slabs g))). intros fuel. by apply sys_slob_units_used_spec.
  - exists (length (slabs g)). split; [apply I|].
    apply (returns_from _ _ (length (slabs g))). intros fuel. by apply sys_slob_units_free_spec.
Qed.

(** C16: slob_page_alloc refines first-fit allocation with alignment padding on
    the abstract free list of the page: if no block fits it answers NULL and
    changes nothing; otherwise it answers the first fitting block's aligned
    address, its units are taken out of the list, the remaining list is encoded
    in the page, and no other memory is written. *)
Theorem slob_page_alloc_refines fuel s sp size align base bs :
  page_list (mem s) base (freelist (page_at s sp)) bs -> bs ≠ [] ->
  (length bs <= fuel)%nat -> 0 < size -> align_ok align ->
  match alloc_blocks (pad align base) (SLOB_UNITS size) bs with
  | None => slob_page_alloc fuel sp size align s = Ret (s, NULL)
  | Some (r, bs') => exists s', slob_page_alloc fuel sp size align s = Ret (s', base + 2 * r) /\
      page_list (mem s') base (freelist (page_at s' sp)) bs' /\
      Slob.units (page_at s' sp) = Slob.units (page_at s sp) - SLOB_UNITS size /\
      same_outside base (in_free bs) (mem s) (mem s')
  end.
Proof.
  intros P Hne Hf Hs Ha. pose proof (slob_page_alloc_spec fuel s sp size align base bs P Hne Hf Hs Ha) as X.
  unfold scan_result in X. destruct (alloc_blocks _ _ _) as [[r bs']|] eqn:A; [|done].
  destruct X as (m&fl&->&Hfl&S&F). eexists. split; [done|]. rewrite took_mem, took_page. simpl.
  split; [|done]. destruct P as (B&W&_). split; [done|]. split; [|done].
  by eapply (alloc_blocks_spec PU _ (pad_nonneg _ _ Ha B) _ 0 bs); [by apply slob_units_pos| | |].
Qed.

(** C17: the insertion of slob_free refines address-ordered insertion with
    coalescing on both sides: the page then encodes the free list with the block
    added, and only free units and the block itself are written. *)
Theorem insert_block_refines fuel m base fl bs x u :
  page_list m base fl bs -> bs ≠ [] -> (length bs <= fuel)%nat ->
  0 <= x -> 1 <= u -> x + u <= PU -> (forall i, x <= i < x + u -> ~ in_free bs i) ->
  exists m' fl', insert_block fuel m fl (base + 2 * x) u = Ret (m', fl') /\
    page_list m' base fl' (free_blocks x u bs) /\
    same_outside base (fun i => in_free bs i \/ x <= i < x + u) m m'.
Proof. intros P. intros. apply insert_block_spec; try done. apply P. Qed.

(** C20: allocating from a page and freeing the block again restores the page's
    free list, block by block, when the allocation did not fill the page. *)
Theorem page_alloc_free_roundtrip fuel s sp size align base bs s' b :
  page_list (mem s) base (freelist (page_at s sp)) bs -> bs ≠ [] ->
  Slob.units (page_at s sp) = sum_free bs -> (Z.to_nat PU <= fuel)%nat -> 0 < size -> align_ok align ->
  slob_page_alloc fuel sp size align s = Ret (s', b) -> b ≠ NULL -> Slob.units (page_at s' sp) ≠ 0 ->
  exists m fl, insert_block fuel (mem s') (freelist (page_at s' sp)) b (SLOB_UNITS size) = Ret (m, fl) /\
    page_list m base fl bs.
Proof.
  intros P Hne Hu Hf Hs Ha Ea Hb Hu'. destruct P as (B&W&P').
  pose proof (wf_blocks_length PU 0 bs W ltac:(lia)).
  pose proof (slob_page_alloc_spec fuel s sp size align base bs
    (conj B (conj W P')) Hne ltac:(lia) Hs Ha) as X.
  unfold scan_result in X. destruct (alloc_blocks _ _ _) as [[r bs']|] eqn:A; [|congruence].
  destruct X as (m1&fl1&Ea'&Hfl&S&F). rewrite Ea in Ea'. injection Ea' as -> ->.
  rewrite took_page in Hu' |- *. simpl in Hu'. rewrite took_mem. simpl.
  assert (Hd := pad_nonneg _ _ Ha B). pose proof (slob_units_pos size Hs) as H1.
  destruct (alloc_blocks_spec PU _ Hd _ 0 _ _ _ H1 ltac:(done) W A) as (W'&Hsum&?&?&_&A6).
  pose proof (wf_blocks_length PU 0 bs' W' ltac:(lia)).
  destruct (insert_block_spec base r (SLOB_UNITS size) B ltac:(lia) H1 ltac:(lia) fuel m1 fl1 bs')
    as (m&fl&Ei&P2&_); [by repeat split; try apply B|intros ->; apply Hu'; rewrite Hu; simpl in Hsum;
      unfold sum_free in *; simpl in Hsum; lia|lia|intros i Hi; rewrite A6; tauto|].
  exists m, fl. split; [done|].
  by rewrite (free_alloc_blocks PU (pad align base) (SLOB_UNITS size) 0 bs r bs') in P2 by done.
Qed.

(** What set_slob stores, slob_units, slob_next and slob_last read back, for
    every size and next pointer that occur in a page (one-unit blocks use the
    negative encoding, the end of the page stands for the end of the list). *)
Theorem set_slob_roundtrip m base o n x :
  is_base base -> 0 <= o < PU -> 1 <= n <= PU -> 0 < x <= PU ->
  let m' := set_slob m (base + 2 * o) n (base + 2 * x) in
  slob_units m' (base + 2 * o) = n /\ slob_next m' (base + 2 * o) = base + 2 * x /\
  slob_last m' (base + 2 * o) = (x =? PU).
Proof.
  intros B Ho Hn Hx m'. pose proof (set_slob_encodes base o n x B Ho Hn Hx m) as E.
  split; [by eapply encodes_units|]. split; [by eapply encodes_next|by eapply encodes_last].
Qed.

(** *** The page search *)
#[local] Arguments best_fit_loop : simpl never.

Lemma no_node_skip sp : CONFIG_NUMA && negb (NUMA_NO_NODE =? NUMA_NO_NODE) && negb (page_to_nid sp =? NUMA_NO_NODE) = false.
Proof. rewrite Z.eqb_refl. by rewrite andb_false_r. Qed.

Lemma lnext_hd h (hd : Z) pre x rest : ring h (hd :: pre ++ x :: rest) -> lnext h x = List.hd hd rest.
Proof.
  intros R. destruct rest as [|y rest]; [by eapply ring_next_last|].
  exact (ring_next_mid h (hd :: pre) _ _ _ R).
Qed.

Lemma lnext_first h (hd : Z) l : ring h (hd :: l) -> lnext h hd = List.hd hd l.
Proof. intros R. destruct l; [by apply ring_single|exact (ring_next _ _ _ _ R)]. Qed.

Lemma page_not_head h (hd x : Z) pre rest : ring h (hd :: pre ++ x :: rest) -> x ≠ hd.
Proof. intros R%ring_nodup ->. apply NoDup_cons_1_1 in R. set_solver. Qed.

(** C21: the page search of slob_alloc, page by page and block by block. Every page
    of the list that is on the node asked for and has enough units makes one attempt,
    in the order of the list: slob_page_alloc is called for that page itself, or, if
    pages before it, within the first 50 of the list, have enough units but fewer than
    it has, for the first of those with the fewest. The first page so tried that has a block
    for the request serves it, with the first such block, and the next search starts
    at that page, or behind it if it is full; with none the search fails and nothing
    changes. The first page with enough units is the first one tried: if it has a
    block that fits, it is taken, whatever the pages behind it offer. *)
Theorem search_is_first_fit s g size align node :
  Inv s g -> 0 < size -> align_ok align ->
  let hd := slob_list_for size in
  let l := on_list g hd in
  let serves sp := alloc_blocks (pad align (page_address sp)) (SLOB_UNITS size) (blocks_of g sp) in
  let tried := candidates (page_at s) size node [] l in
  let search fuel := search_pages fuel hd size align node (lnext (lists s) hd) s in
  match first_serving serves tried with
  | None => returns search (s, NULL)
  | Some (sp, (r, bs')) => exists p q s', l = p ++ sp :: q /\
      returns search (s', page_address sp + 2 * r) /\ page_address sp + 2 * r ≠ NULL /\
      page_list (mem s') (page_address sp) (freelist (page_at s' sp)) bs' /\
      ring (lists s') (hd :: (if bs' is [] then q else sp :: q) ++ p)
  end /\
  (forall p sp q, l = p ++ sp :: q -> Forall (fun e => Slob.units (page_at s e) < SLOB_UNITS size) p ->
     eligible (page_at s) size node sp = true -> head tried = Some sp).
Proof.
  intros I Hs Ha hd l serves tried search. assert (hd ∈ heads) as Hh by apply slob_list_heads.
  assert (R0 := li_rings _ _ _ _ (inv_lists _ _ I) hd Hh).
  split; [|intros p sp q E F El; unfold tried; rewrite E; by apply candidates_first].
  set (n := S (length l + Z.to_nat PU)).
  pose proof (search_pages_run n s g size align node [] l I Hh eq_refl Hs Ha ltac:(lia)) as H. cbv zeta in H.
  change (slob_list_for size) with hd in H. change (on_list g hd) with l in H.
  change (on_list g hd) with l in R0. rewrite <- (lnext_first _ _ _ R0) in H. change (search_pages n hd size align node _ s) with (search n) in H.
  change (candidates (page_at s) size node [] l) with tried in H.
  assert (forall x, search n = Ret x -> returns search x) as Hret.
  { intros x E. apply (returns_at search x n); [|exact E]. intros n1 n2 y. apply search_pages_mono. }
  change (first_serving _ tried) with (first_serving serves tried) in H.
  destruct (first_serving serves tried) as [[sp [r bs']]|]; [|by apply Hret].
  destruct H as (p&q&m&fl&El&A&Hfl&S&F&E). exists p, q. eexists. split; [exact El|]. split; [by apply Hret|].
  assert (sp ∈ slabs g) as Hsl.
  { apply (on_list_spec _ _ _ _ _ (inv_lists _ _ I) Hh sp). change (on_list g hd) with l. rewrite El. set_solver. }
  assert (Isp := inv_pages _ _ I sp Hsl). pose proof (slob_units_pos size Hs) as Hu.
  assert (Hd := pad_nonneg align _ Ha (proj1 (pi_list _ _ _ Isp))).
  destruct (alloc_result_pos _ _ _ _ _ _ s Isp Hd Hu A) as (_&_&?). split; [lia|].
  pose proof (took_inv s g hd p sp q _ _ r bs' m fl I Hh El Hu Hd A Hfl S F) as I'.
  pose proof (inv_pages _ _ I' sp Hsl) as Isp'. simpl in Isp'. rewrite fn_lookup_insert in Isp'.
  split; [exact (pi_list _ _ _ Isp')|].
  pose proof (li_rings _ _ _ _ (inv_lists _ _ I') hd Hh) as R'. simpl in R'. rewrite fn_lookup_insert in R'.
  cbn [lists with_lists]. by apply rotate_spec.
Qed.

Lemma fold_choose_keeps pt size l best :
  Forall (fun e => Slob.units (pt best) <= Slob.units (pt e)) l ->
  fold_left (choose pt size) l best = best.
Proof.
  induction 1 as [|e l He _ IH]; simpl; [done|]. unfold choose at 2.
  rewrite (proj2 (Z.ltb_ge _ _) He). by rewrite andb_false_r.
Qed.

(** A fragmented page at the head of the list hides the others. If [p1] has
    enough units but no block that fits, and the pages behind it have more units,
    then the search fails, although any of them may have room: the scan answers
    [p1] again and again. slob_alloc then takes a new page. *)
Theorem search_hides_roomy_pages fuel s hd size align p1 rest :
  ring (lists s) (hd :: p1 :: rest) ->
  SLOB_UNITS size <= Slob.units (page_at s p1) ->
  Forall (fun e => Slob.units (page_at s p1) < Slob.units (page_at s e)) rest ->
  (forall n, (fuel <= n)%nat -> slob_page_alloc n p1 size align s = Ret (s, NULL)) ->
  search_pages (length rest + 2 + fuel) hd size align NUMA_NO_NODE (lnext (lists s) hd) s = Ret (s, NULL).
Proof.
  intros R Hu F Hno. rewrite (lnext_first _ _ _ R).
  enough (forall todo visited, p1 :: rest = visited ++ todo ->
    search_pages (length todo + 1 + fuel) hd size align NUMA_NO_NODE (List.hd hd todo) s = Ret (s, NULL)) as H.
  { specialize (H (p1 :: rest) [] eq_refl). simpl in H |- *.
    by replace (length rest + 2 + fuel)%nat with (S (length rest + 1 + fuel)) by lia. }
  intros todo. induction todo as [|sp todo IH]; intros visited Ev; simpl;
    [by rewrite Z.eqb_refl|].
  rewrite no_node_skip. rewrite Ev in R. pose proof (page_not_head _ _ _ _ _ R). zdec.
  rewrite (lnext_hd _ _ _ _ _ R).
  specialize (IH (visited ++ [sp])). rewrite <- app_assoc in IH. specialize (IH Ev).
  zcase; [done|]. rewrite (best_fit_scan _ _ _ _ _ visited sp todo R).
  assert (fold_left (choose (page_at s) size) (take 50 (visited ++ [sp])) sp = p1) as ->.
  { destruct visited as [|x visited]; simpl in Ev; injection Ev as <- Ev.
    - simpl. unfold choose. rewrite (proj2 (Z.ltb_ge _ _) (Z.le_refl _)). by rewrite andb_false_r.
    - assert (Slob.units (page_at s p1) < Slob.units (page_at s sp)).
      { rewrite Ev in F. apply Forall_app in F as [_ F]. by inversion F. }
      cbn [app take fold_left]. unfold choose at 2. do 2 zdec. simpl.
      apply fold_choose_keeps, Forall_take. rewrite Ev in F.
      apply Forall_app in F as [F1 _]. apply Forall_app. split; [|by constructor; [lia|]].
      eapply Forall_impl; [exact F1|]. simpl. lia. }
  rewrite Hno by lia. rewrite Z.eqb_refl, (lnext_hd _ _ _ _ _ R). exact IH.
Qed.
End SlobProps.

(** ** Instances *)

(** A request of 100 bytes, aligned to 8 and zeroed, after one of 100 bytes. *)
Lemma slob_alloc_correct_witness :
  exists s' b, returns (fun fuel => slob_alloc fuel (one_frame frame2) 100 __GFP_ZERO 8 0 (st run1)) (s', b) /\
    (b = NULL \/ aligned_to 8 b /\ bytes_disjoint (b, 100) (8192, 100)).
Proof.
  destruct (slob_alloc_correct run1 (one_frame frame2) 100 __GFP_ZERO 8 0 run1_reachable)
    as (s'&b&E&[(Hb&_)|(_&Ha&_&Hd&_)]).
  - split; [by vm_compute|]. right. exists 3. by split.
  - exact run1_source.
  - exists s', b. auto.
  - exists s', b. split; [done|]. right. split; [done|]. apply (Hd (8192, 100)).
    rewrite run1_held. by left.
Defined.

Lemma slob_free_correct_witness :
  exists s', returns (fun fuel => slob_free fuel 8292 60 (st run2)) (s', tt) /\
    reachable (mk_config s' [(8192, 100)]).
Proof.
  destruct (slob_free_correct run2 [] 8292 60 [(8192, 100)] run2_reachable) as (s'&E&R&_).
  - exact run2_held.
  - exists s'. split; [exact E|exact R].
Defined.

Lemma held_blocks_disjoint_witness :
  held run2 = [(8292, 60); (8192, 100)] /\ bytes_disjoint (8292, 60) (8192, 100).
Proof.
  split; [exact run2_held|].
  apply (held_blocks_disjoint run2 [] _ [] _ [] run2_reachable). exact run2_held.
Defined.

Lemma reachable_invariant_witness : exists g, Inv (st run1) g /\ Forall2 holds (live g) (held run1).
Proof. apply (reachable_invariant run1). exact run1_reachable. Defined.

Lemma sys_slob_units_correct_witness :
  returns (fun fuel => sys_slob_units_used fuel (st run2))
    (wraps BITS_PER_LONG (held_units (held run2))) /\
  held_units (held run2) = 80.
Proof.
  destruct (sys_slob_units_correct run2 run2_reachable) as [H _]. split; [exact H|].
  by rewrite run2_held.
Defined.

(** Six bytes from the page with blocks of 2 and 5 units: the second one. *)
Lemma slob_page_alloc_refines_witness :
  exists s', slob_page_alloc 2 frame1 6 0 demo = Ret (s', 8192 + 2 * 20) /\
    page_list (mem s') 8192 (freelist (page_at s' frame1)) [(10, 2); (23, 2)].
Proof.
  destruct (slob_page_alloc_refines 2 demo frame1 6 0 8192 [(10, 2); (20, 5)] demo_page)
    as (s'&E&P&_); [done|done|lia|by left|]. exists s'. split; [exact E|exact P].
Defined.

(** Freeing the 8 units between them joins everything to one block. *)
Lemma insert_block_refines_witness :
  exists m' fl', insert_block 2 demo_mem (8192 + 2 * 10) (8192 + 2 * 12) 8 = Ret (m', fl') /\
    page_list m' 8192 fl' [(10, 15)].
Proof.
  destruct (insert_block_refines 2 demo_mem 8192 (8192 + 2 * 10) [(10, 2); (20, 5)] 12 8 demo_page)
    as (m'&fl'&E&P&_); [done|done|lia..|intros i Hi; simpl; lia|]. exists m', fl'. by split.
Defined.

Lemma page_alloc_free_roundtrip_witness :
  exists s' b m fl, slob_page_alloc 2048 frame1 6 8 demo = Ret (s', b) /\
    insert_block 2048 (mem s') (freelist (page_at s' frame1)) b 3 = Ret (m, fl) /\
    page_list m 8192 fl [(10, 2); (20, 5)].
Proof.
  assert (match slob_page_alloc 2048 frame1 6 8 demo with
    | Ret (s', b) => negb (b =? 0) && negb (Slob.units (page_at s' frame1) =? 0)
    | _ => false end = true) as H by by vm_compute.
  destruct (slob_page_alloc 2048 frame1 6 8 demo) as [[s' b]| |] eqn:E; [|done..].
  apply andb_true_iff in H as [Hb Hu]. apply negb_true_iff, Z.eqb_neq in Hb, Hu.
  destruct (page_alloc_free_roundtrip 2048 demo frame1 6 8 8192 [(10, 2); (20, 5)] s' b demo_page)
    as (m&fl&Ei&P); [done|done|lia|done|right; exists 3; by split|done|done|done|].
  exists s', b, m, fl. split; [done|]. split; [exact Ei|exact P].
Defined.

(** A one-unit block that is the last of its page. *)
Lemma set_slob_roundtrip_witness :
  slob_units (set_slob (fun _ => 0) 8212 1 12288) 8212 = 1 /\
  slob_next (set_slob (fun _ => 0) 8212 1 12288) 8212 = 12288.
Proof. split; apply (set_slob_roundtrip (fun _ => 0) 8192 10 1 PU); (by vm_compute || lia). Defined.

(** A request of 6 bytes after one of 100 bytes. *)
Lemma search_is_first_fit_witness :
  exists g, Inv (st run1) g /\
    match first_serving (fun sp => alloc_blocks (pad 0 (page_address sp)) 3 (blocks_of g sp))
      (candidates (page_at (st run1)) 6 NUMA_NO_NODE [] (on_list g free_slob_small)) with
    | Some (sp, (r, _)) => exists s', returns (fun fuel => search_pages fuel free_slob_small 6 0 NUMA_NO_NODE
        (lnext (lists (st run1)) free_slob_small) (st run1)) (s', page_address sp + 2 * r)
    | None => returns (fun fuel => search_pages fuel free_slob_small 6 0 NUMA_NO_NODE
        (lnext (lists (st run1)) free_slob_small) (st run1)) (st run1, NULL)
    end.
Proof.
  destruct (reachable_inv run1 run1_reachable) as (g&I&_). exists g. split; [exact I|].
  destruct (search_is_first_fit (st run1) g 6 0 NUMA_NO_NODE I) as [H _]; [lia|by left|].
  change (slob_list_for 6) with free_slob_small in H. change (SLOB_UNITS 6) with 3 in H.
  destruct (first_serving _ _) as [[sp [r bs']]|]; [|exact H].
  destruct H as (p&q&s'&_&R&_). exists s'. exact R.
Defined.

(** Twelve bytes do not fit in the first page; the second one has 9 contiguous
    units and is not tried. *)
Lemma search_hides_roomy_pages_witness :
  search_pages 5 free_slob_small 12 0 NUMA_NO_NODE (lnext (lists demo) free_slob_small) demo = Ret (demo, NULL) /\
  (exists s', slob_page_alloc 2 frame2 12 0 demo = Ret (s', 12288)).
Proof.
  split.
  - apply (search_hides_roomy_pages 2 demo free_slob_small 12 0 frame1 [frame2]).
    + exact demo_ring.
    + by vm_compute.
    + constructor; [by vm_compute|constructor].
    + exact demo_page_none.
  - exact demo_page_2_some.
Defined.
