(* ===== verification/SlobThreads.v ===== *)
(** Several threads inside the allocator of assignments/a4/slob.c.

    slob_alloc and slob_free take slob_lock for their critical sections only. A
    thread gives the lock back between the search and the new page, fetches and
    marks the new page without it, and slob_free returns an empty page without it;
    memset, pages++ and pages-- come after the unlock. Here a call is a program
    counter that walks through these sections, each of them one step, so that the
    sections of different threads may come in any order. The definitions of the
    sections are those of Slob.v. *)
From S2P Require Import Prelude ListHead Kernel SlobBlocks Slob SlobFuel SlobPage SlobSearch SlobInv SlobAlloc SlobRuns.

(** The arguments of slob_alloc. *)
Record request : Type := mk_request { rq_size : Z; rq_gfp : Z; rq_align : Z; rq_node : Z }.

(** Where a thread is. The states of slob_alloc come first, then those of slob_free. *)
Inductive tpc : Type :=
| Idle
| ASearch (r : request)                (* before the first critical section *)
| ANew (r : request)                   (* no room found, no lock held *)
| AFill (r : request) (b : Z)          (* has the new page at b, before the second section *)
| ALoad (r : request) (b : Z)          (* pages++: before the load *)
| AStore (r : request) (b v : Z)       (* pages++: before v is stored *)
| AZero (r : request) (b : Z)          (* before memset and return *)
| FSection (block size : Z)            (* before the critical section of slob_free *)
| FReturn (block : Z)                  (* the page of block is empty and on no list *)
| FLoad                                (* pages--: before the load *)
| FStore (v : Z).                      (* pages--: before v is stored *)

(** A thread: its reclaim_state and its program counter. *)
Record thread : Type := mk_thread { reclaim : option Z; pc : tpc }.

Section SlobThreads.
Context {K : Kernel} {L : Type} {LO : ListOps L}.
Implicit Types (s : state L).

(** Whether pages++ and pages-- are indivisible: one instruction on a single
    processor. Otherwise they are a load and a store. *)
Variable atomic : bool.

(** The next section of a thread: the new state, where the thread is then, and the
    block that slob_alloc answers, if it returns one. *)
Definition thread_step (fuel : nat) (src : page_source) (p : tpc) s :
    res (state L * tpc * option (Z * Z)) :=
  match p with
  | Idle => Ret (s, Idle, None)
  | ASearch r =>
      let slob_list := slob_list_for (rq_size r) in
      '(s, b) ← search_pages fuel slob_list (rq_size r) (rq_align r) (rq_node r) (lnext (lists s) slob_list) s;
      Ret (s, if b =? NULL then ANew r else AZero r b, None)
  | ANew r =>
      let b := slob_new_pages src (rq_gfp r .& Z.lnot __GFP_ZERO) 0 (rq_node r) in
      if b =? NULL then Ret (s, Idle, None)
      else Ret (SetPageSlab (virt_to_page b) s, AFill r b, None)
  | AFill r b =>
      '(s, b) ← fill_page fuel (slob_list_for (rq_size r)) (rq_size r) (rq_align r) b s;
      Ret (s, ALoad r b, None)
  | ALoad r b =>
      let v := pages_inc (pages s) in
      if atomic then Ret (with_pages v s, AZero r b, None) else Ret (s, AStore r b v, None)
  | AStore r b v => Ret (with_pages v s, AZero r b, None)
  | AZero r b =>
      if negb (rq_gfp r .& __GFP_ZERO =? 0) && negb (b =? NULL)
      then Ret (with_mem (memset_zero (mem s) b (rq_size r)) s, Idle, Some (b, rq_size r))
      else Ret (s, Idle, Some (b, rq_size r))
  | FSection block size =>
      if ZERO_OR_NULL_PTR block then Ret (s, Idle, None)
      else if size =? 0 then Bug
      else
        '(s, empty) ← free_section fuel block size s;
        Ret (s, if (empty : bool) then FReturn block else Idle, None)
  | FReturn block => Ret (return_page block s, FLoad, None)
  | FLoad =>
      let v := pages_dec (pages s) in
      if atomic then Ret (with_pages v s, Idle, None) else Ret (s, FStore v, None)
  | FStore v => Ret (with_pages v s, Idle, None)
  end.

(** A thread left alone until its call is over: at most six sections. *)
Fixpoint run_alone (n fuel : nat) (src : page_source) (p : tpc) s : res (state L * option (Z * Z)) :=
  match n with
  | O => Fuel
  | S n =>
      '(s, p, d) ← thread_step fuel src p s;
      match p with Idle => Ret (s, d) | _ => run_alone n fuel src p s end
  end.

(** current->reclaim_state belongs to the running thread. *)
Definition set_current (r : option Z) s : state L :=
  mk_state (mem s) (page_at s) (lists s) (pages s) r (freed s).

(** *** The whole system: the shared state, the threads, and the blocks that no
    thread is working on *)
Record world : Type := mk_world { sh : state L; ths : list thread; client : list (Z * Z) }.

Inductive wstep (w : world) : world -> Prop :=
| w_alloc t1 t t2 r :                            (* a thread calls slob_alloc *)
    ths w = t1 ++ t :: t2 -> pc t = Idle -> request_ok (rq_size r) (rq_align r) ->
    wstep w (mk_world (sh w) (t1 ++ mk_thread (reclaim t) (ASearch r) :: t2) (client w))
| w_free t1 t t2 l1 b size l2 :                  (* a thread calls slob_free *)
    ths w = t1 ++ t :: t2 -> pc t = Idle -> client w = l1 ++ (b, size) :: l2 ->
    wstep w (mk_world (sh w) (t1 ++ mk_thread (reclaim t) (FSection b size) :: t2) (l1 ++ l2))
| w_write b size i v :                           (* the owner of a block writes into it *)
    (b, size) ∈ client w -> 0 <= i < SLOB_UNITS size ->
    wstep w (mk_world (with_mem (<[b + 2 * i := v]> (mem (sh w))) (sh w)) (ths w) (client w))
| w_run t1 t t2 src s' p' d :                    (* a thread executes its next section *)
    ths w = t1 ++ t :: t2 -> pc t ≠ Idle -> source_fresh (sh w) src ->
    returns (fun fuel => thread_step fuel src (pc t) (set_current (reclaim t) (sh w))) (s', p', d) ->
    wstep w (mk_world s' (t1 ++ mk_thread (reclaimed_slab s') p' :: t2) (option_list d ++ client w)).

Context {KL : KernelLaws} {LL : ListLaws L}.

(** After boot, all threads idle. *)
Definition winit (w : world) : Prop :=
  is_init (sh w) /\ Forall (fun t => pc t = Idle) (ths w) /\ client w = [].

Definition wreachable (w : world) : Prop := exists w0, winit w0 /\ rtc wstep w0 w.

Definition all_idle (w : world) : Prop := Forall (fun t => pc t = Idle) (ths w).

(** *** Sections and calls *)

#[local] Arguments run_alone : simpl never.

Lemma run_alone_S n fuel src p s :
  run_alone (S n) fuel src p s =
    ('(s', p', d) ← thread_step fuel src p s;
     match p' with Idle => Ret (s', d) | _ => run_alone n fuel src p' s' end).
Proof. done. Qed.

(** The end of slob_alloc, from the memset, and from pages++. *)
Lemma run_alone_zero n fuel src r b s :
  b ≠ NULL ->
  run_alone (S n) fuel src (AZero r b) s =
    Ret (if negb (rq_gfp r .& __GFP_ZERO =? 0) then with_mem (memset_zero (mem s) b (rq_size r)) s else s,
         Some (b, rq_size r)).
Proof. intros Hb. rewrite run_alone_S. simpl. zdec. rewrite andb_true_r. by destruct (negb _). Qed.

Lemma run_alone_count n fuel src r b s :
  run_alone (S (S (S n))) fuel src (ALoad r b) s =
    run_alone (if atomic then S (S n) else S n) fuel src (AZero r b) (with_pages (pages_inc (pages s)) s).
Proof. rewrite run_alone_S. simpl. by destruct atomic. Qed.

(** Left alone, a thread computes what slob_alloc computes, whether or not the
    update of the counter is indivisible. *)
Lemma run_alone_alloc fuel src size gfp align node s :
  run_alone 6 fuel src (ASearch (mk_request size gfp align node)) s =
  ('(s', b) ← slob_alloc fuel src size gfp align node s;
   Ret (s', if b =? NULL then None else Some (b, size))).
Proof.
  set (r := mk_request size gfp align node). rewrite run_alone_S. unfold slob_alloc, get_block. simpl.
  destruct (search_pages _ _ _ _ _ _ _) as [[s1 b]| |]; simpl; [|done..].
  destruct (Z.eqb_spec b NULL) as [->|Hb]; simpl.
  2:{ rewrite run_alone_zero by done. simpl. zdec. rewrite andb_true_r. by destruct (negb _); simpl; zdec. }
  rewrite run_alone_S. simpl. destruct (_ =? NULL); simpl; [by rewrite andb_false_r|].
  rewrite run_alone_S. unfold alloc_from_new_page. simpl.
  assert (forall fu hd sz al b0 (s0 s2 : state L) b2, fill_page fu hd sz al b0 s0 = Ret (s2, b2) -> b2 ≠ NULL) as Hf.
  { intros fu hd sz al b0 s0 s2 b2. unfold fill_page. destruct (slob_page_alloc _ _ _ _ _) as [[s3 b3]| |]; [|done..].
    destruct (Z.eqb_spec b3 NULL); [done|]. by intros [= -> ->]. }
  destruct (fill_page _ _ _ _ _ _) as [[s2 b2]| |] eqn:E; simpl; [|done..]. apply Hf in E.
  rewrite run_alone_count. destruct atomic; rewrite run_alone_zero by done; simpl; zdec;
    rewrite andb_true_r; by destruct (negb _); simpl; zdec.
Qed.

(** And what slob_free computes. *)
Lemma run_alone_free fuel src block size s :
  run_alone 4 fuel src (FSection block size) s =
  ('(s', _) ← slob_free fuel block size s; Ret (s', None)).
Proof.
  rewrite run_alone_S. unfold slob_free. simpl.
  destruct (ZERO_OR_NULL_PTR block); [done|]. destruct (size =? 0); [done|].
  destruct (free_section _ _ _ _) as [[s1 [|]]| |]; simpl; [|done..].
  do 2 (rewrite run_alone_S; simpl). destruct atomic; [done|]. simpl. by rewrite run_alone_S.
Qed.

(** More fuel changes no answer. *)
Lemma thread_step_mono src p s : fuel_mono (fun fuel => thread_step fuel src p s).
Proof.
  intros n n' x E Hn. destruct p; try exact E; simpl in *.
  - destruct (search_pages n _ _ _ _ _ _) as [y| |] eqn:P; [|done..].
    by rewrite (search_pages_mono _ _ _ _ _ _ _ _ _ P Hn).
  - destruct (fill_page n _ _ _ _ _) as [y| |] eqn:P; [|done..].
    by rewrite (fill_page_mono _ _ _ _ _ _ _ _ P Hn).
  - destruct (ZERO_OR_NULL_PTR _); [done|]. destruct (_ =? 0); [done|].
    destruct (free_section n _ _ _) as [y| |] eqn:P; [|done..].
    by rewrite (free_section_mono _ _ _ _ _ _ P Hn).
Qed.
End SlobThreads.
Arguments mk_world {L}. Arguments sh {L}. Arguments ths {L}. Arguments client {L}.
