(* ===== verification/SlobCounter.v ===== *)
(** The critical sections neither read nor write the counter [pages]: they do the
    same whatever it holds. A section of one thread can therefore be studied in the
    state in which the counter is right, even while other threads have still to
    update it. *)
From S2P Require Import Prelude ListHead Kernel Slob.

Section SlobCounter.
Context {K : Kernel} {L : Type} {LO : ListOps L}.
Implicit Types (s : state L).

(** The same outcome, with [n] in the counter. *)
Definition recount {A} (n : Z) (x : res (state L * A)) : res (state L * A) :=
  '(s, a) ← x; Ret (with_pages n s, a).

Lemma recount_inv {A} n (x : res (state L * A)) s a :
  recount n x = Ret (s, a) -> exists s1, x = Ret (s1, a) /\ s = with_pages n s1.
Proof. destruct x as [[s1 a1]| |]; simpl; [|done..]. intros [= <- <-]. by exists s1. Qed.

Lemma with_pages_id s : with_pages (pages s) s = s.
Proof. by destruct s. Qed.

(** A function that commutes with [with_pages] leaves the counter alone, and what
    it answers with one counter it answers with another. *)
Lemma section_run {A} (f : state L -> res (state L * A)) s n s' a :
  (forall n, f (with_pages n s) = recount n (f s)) -> f (with_pages n s) = Ret (s', a) ->
  exists s1, f s = Ret (s1, a) /\ s' = with_pages n s1 /\ pages s1 = pages s.
Proof.
  intros C E. rewrite C in E. apply recount_inv in E as (s1&E&->). exists s1. do 2 (split; [done|]).
  specialize (C (pages s)). rewrite with_pages_id, E in C. simpl in C. injection C as C. by rewrite C.
Qed.

Lemma take_block_pages n prev cur al d av u sp s :
  take_block prev cur al d av u sp (with_pages n s) =
    (with_pages n (take_block prev cur al d av u sp s).1, (take_block prev cur al d av u sp s).2).
Proof.
  unfold take_block. simpl. destruct (split_block _ _ _ _ _ _) as [[[m p] c] a].
  destruct (unlink_block _ _ _ _ _ _) as [m' fl]. simpl. by destruct (_ =? 0).
Qed.

Lemma page_alloc_loop_pages n fuel sp size align prev cur s :
  page_alloc_loop fuel sp size align prev cur (with_pages n s) =
    recount n (page_alloc_loop fuel sp size align prev cur s).
Proof.
  revert prev cur. induction fuel as [|fuel IH]; intros prev cur; simpl; [done|].
  destruct (_ <=? _).
  - rewrite take_block_pages. by destruct (take_block _ _ _ _ _ _ _ _).
  - destruct (slob_last _ _); [done|]. apply IH.
Qed.

Lemma slob_page_alloc_pages n fuel sp size align s :
  slob_page_alloc fuel sp size align (with_pages n s) = recount n (slob_page_alloc fuel sp size align s).
Proof. apply page_alloc_loop_pages. Qed.

#[local] Arguments best_fit_loop : simpl never.

Lemma search_pages_pages n fuel hd size align node sp s :
  search_pages fuel hd size align node sp (with_pages n s) =
    recount n (search_pages fuel hd size align node sp s).
Proof.
  revert sp s. induction fuel as [|fuel IH]; intros sp s; simpl; [done|].
  destruct (sp =? hd); [done|]. destruct (_ && _ && _); [apply IH|].
  destruct (_ <? _); [apply IH|]. rewrite slob_page_alloc_pages.
  destruct (slob_page_alloc fuel _ _ _ _) as [[s1 b]| |]; simpl; [|done..].
  destruct (b =? NULL); [apply IH|]. by destruct (_ && _).
Qed.

Lemma fill_page_pages n fuel hd size align b s :
  fill_page fuel hd size align b (with_pages n s) = recount n (fill_page fuel hd size align b s).
Proof.
  unfold fill_page. cbv zeta.
  set (s1 := set_slob_page_free (virt_to_page b) hd _) at 2.
  change (set_slob_page_free (virt_to_page b) hd _) with (with_pages n s1).
  rewrite slob_page_alloc_pages. destruct (slob_page_alloc _ _ _ _ _) as [[s2 b2]| |]; simpl; [|done..].
  by destruct (b2 =? NULL).
Qed.

Lemma free_section_pages n fuel block size s :
  free_section fuel block size (with_pages n s) = recount n (free_section fuel block size s).
Proof.
  unfold free_section. cbn [page_at with_pages]. destruct (_ =? _).
  - unfold slob_page_free. simpl. by destruct (PageSlobFree _).
  - unfold slob_page_free. cbn [page_at with_pages]. destruct (negb _); [done|]. simpl.
    by destruct (insert_block _ _ _ _ _) as [[m fl]| |].
Qed.
End SlobCounter.
