(* ===== verification/SlobThreadsInv.v ===== *)
(** The invariant of the allocator shared by threads: between two sections, the
    shared state satisfies the sequential invariant of SlobInv.v, but for the
    counter [pages]; the held blocks are those of the clients and those threads
    are working on; and pages on their way from or to the page allocator belong
    to one thread each. One lemma per section. *)
From S2P Require Import Prelude ListHead Kernel SlobBlocks Slob SlobFuel SlobPage SlobSearch SlobInv SlobAlloc SlobFree SlobRuns SlobFlags SlobThreads SlobCounter.

(** The block a thread is working on, and the page it has taken from the page
    allocator or is about to give back. *)
Definition owned_by (p : tpc) : option (Z * Z) :=
  match p with
  | ALoad r b | AStore r b _ | AZero r b => Some (b, rq_size r)
  | FSection b size => Some (b, size)
  | _ => None
  end.

Definition transit {K : Kernel} (p : tpc) : option Z :=
  match p with AFill _ b | FReturn b => Some (virt_to_page b) | _ => None end.

(** The changes of the counter that a thread owes. *)
Definition debt (p : tpc) : Z :=
  match p with ALoad _ _ => 1 | FReturn _ | FLoad => -1 | _ => 0 end.

(** Sections left until the call is over, at most. *)
Definition sections_left (p : tpc) : nat :=
  match p with
  | Idle => 0
  | ASearch _ => 6 | ANew _ => 5 | AFill _ _ => 4 | ALoad _ _ => 3 | AStore _ _ _ => 2 | AZero _ _ => 1
  | FSection _ _ => 4 | FReturn _ => 3 | FLoad => 2 | FStore _ => 1
  end.

Section SlobThreadsInv.
Context {K : Kernel} {KL : KernelLaws} {L : Type} {LO : ListOps L} {LL : ListLaws L}.
Variable atomic : bool.
Implicit Types (s : state L) (g : ghost) (l : list (Z * Z)) (T : list Z).

(** What a thread knows at its program counter. *)
Definition pc_ok (p : tpc) : Prop :=
  match p with
  | ASearch r | ANew r => request_ok (rq_size r) (rq_align r)
  | AFill r b => request_ok (rq_size r) (rq_align r) /\ page_address (virt_to_page b) = b
  | ALoad r b | AZero r b => b ≠ NULL /\ aligned_to (rq_align r) b
  | AStore r b _ => atomic = false /\ b ≠ NULL /\ aligned_to (rq_align r) b
  | FStore _ => atomic = false
  | _ => True
  end.

Definition page_count g : Z := Z.of_nat (length (slabs g)).

(** [s] with the right counter. *)
Definition counted g s : state L := with_pages (wrapu BITS_PER_LONG (page_count g)) s.

(** [sp] is a marked page outside of the allocator. *)
Definition in_transit s g (sp : Z) : Prop :=
  is_frame sp /\ sp ∉ heads ++ slabs g /\ PageSlab (page_at s sp) = true.

(** The state as one thread sees it: it is at [p], the others and the clients own
    the blocks [l] and the pages [T]. *)
Record tinv s g (p : tpc) l T : Prop := {
  ti_config : config_inv (mk_config (counted g s) (option_list (owned_by p) ++ l)) g;
  ti_nodup : NoDup (option_list (transit p) ++ T);
  ti_transit sp : sp ∈ option_list (transit p) ++ T -> in_transit s g sp;
  ti_pc : pc_ok p;
}.

(** What one step may do to the blocks that are in use: nothing, a new block that
    lies in one page and overlaps none, or one block less. *)
Definition in_page (q : Z * Z) : Prop :=
  exists base, is_base base /\ base <= q.1 /\ q.1 + q.2 <= base + PAGE_SIZE.

Inductive heap_step (h h' : list (Z * Z)) : Prop :=
| heap_same : h' ≡ₚ h -> heap_step h h'
| heap_alloc q : h' ≡ₚ q :: h -> in_page q -> (forall p, p ∈ h -> bytes_disjoint q p) -> heap_step h h'
| heap_free q : h ≡ₚ q :: h' -> heap_step h h'.

(** The block [d] a thread at [p] answers, if any: that of its request, aligned and
    zeroed as asked. *)
Definition answers (p : tpc) (m' : Z -> Z) (d : option (Z * Z)) : Prop :=
  match d with
  | None => True
  | Some (b, size) => exists r, p = AZero r b /\ size = rq_size r /\ b ≠ NULL /\ aligned_to (rq_align r) b /\
      (rq_gfp r .& __GFP_ZERO ≠ 0 -> forall i, 0 <= i < size / 2 -> m' (b + 2 * i) = 0)
  end.

(** The counter, when its updates are indivisible: from any debt [D] of the other
    threads, the section changes it as it should. *)
Definition counts s g p s' g' p' : Prop :=
  atomic = true -> forall D,
    pages s = wrapu BITS_PER_LONG (page_count g - debt p - D) ->
    pages s' = wrapu BITS_PER_LONG (page_count g' - debt p' - D).

(** Only pages marked PageSlab are written. *)
Definition marked_only s (m' : Z -> Z) : Prop := wrote_slabs s (mem s) m'.

(** A section from [p] in [s] does what it should. *)
Record section_result s g p l T s' g' (p' : tpc) (d : option (Z * Z)) : Prop := {
  sr_inv : tinv s' g' p' (option_list d ++ l) T;
  sr_same q : q ∈ l -> same_contents (mem s) (mem s') q;
  sr_heap : heap_step (option_list (owned_by p) ++ l) (option_list (owned_by p') ++ option_list d ++ l);
  sr_answers : answers p (mem s') d;
  sr_counts : counts s g p s' g' p';
  sr_marked : marked_only s (mem s');
  sr_left : (sections_left p' < sections_left p)%nat;
}.

Definition section_ok (src : page_source) s g p l T : Prop :=
  exists s' p' d g',
    returns (fun fuel => thread_step atomic fuel src p s) (s', p', d) /\
    section_result s g p l T s' g' p' d.

(** *** Frames *)
Lemma counted_inv s g p l T : tinv s g p l T -> Inv (counted g s) g.
Proof. intros I. apply (ti_config _ _ _ _ _ I). Qed.

Lemma in_transit_ext s s' g g' sp :
  in_transit s g sp -> slab_of s' sp = slab_of s sp -> sp ∉ slabs g' -> in_transit s' g' sp.
Proof.
  intros (F&Hn&Hs) E Hn'. split; [done|]. split; [set_solver|]. unfold slab_of in E. by rewrite E.
Qed.

(** The ghost state up to a permutation of the blocks. *)
Lemma inv_live_perm s g lv :
  Inv s g -> live g ≡ₚ lv -> Inv s (mk_ghost (slabs g) (blocks_of g) lv (on_list g)).
Proof.
  intros [I1 I2 [O1 O2 O3 O4] I4] E. split; try done. simpl. split.
  - intros o. rewrite <- E. apply O1.
  - intros sp c Hsp Hc. rewrite <- E. by apply O2.
  - intros sp c Hsp Hr Hc. rewrite <- E. by apply O3.
  - intros sp Hsp. rewrite <- E. by apply O4.
Qed.

Lemma holds_perm lv h h' : h ≡ₚ h' -> Forall2 holds lv h -> exists lv', lv ≡ₚ lv' /\ Forall2 holds lv' h'.
Proof.
  intros E. revert lv. induction E as [|x h h' _ IH|x y h|h h' h'' _ IH1 _ IH2]; intros lv F.
  - inversion F. by exists [].
  - apply Forall2_cons_inv_r in F as (o&k&Ho&F&->). destruct (IH _ F) as (k'&Ek&F').
    exists (o :: k'). split; [by rewrite Ek|by constructor].
  - apply Forall2_cons_inv_r in F as (o&k&Ho&F&->). apply Forall2_cons_inv_r in F as (o'&k'&Ho'&F&->).
    exists (o' :: o :: k'). split; [constructor|]. by do 2 (constructor; [done|]).
  - destruct (IH1 _ F) as (k&Ek&F1). destruct (IH2 _ F1) as (k'&Ek'&F2). exists k'. by rewrite Ek.
Qed.

Lemma config_perm s g h h' :
  config_inv (mk_config s h) g -> h ≡ₚ h' ->
  exists lv, config_inv (mk_config s h') (mk_ghost (slabs g) (blocks_of g) lv (on_list g)).
Proof.
  intros [I F] E. destruct (holds_perm _ _ _ E F) as (lv&El&F'). exists lv.
  split; [by apply inv_live_perm|done].
Qed.

(** Writing the cells of a block, and a new block. *)
Lemma held_marked s g h p m' :
  config_inv (mk_config (counted g s) h) g -> p ∈ h -> writes_in (mem s) m' p -> marked_only s m'.
Proof.
  exact (wrote_held (mk_config (counted g s) h) g p (mem s) m').
Qed.

Lemma allocated_marked s g u align s' b g' :
  allocated (counted g s) g u align (counted g' s') b g' -> (forall x, slab_of s' x = slab_of s x) ->
  marked_only s (mem s').
Proof.
  intros W%wrote_allocated Es a Ha. apply W. rewrite <- Ha. apply Es.
Qed.

(** A step that leaves memory, lists and descriptors of slab pages alone. *)
Lemma config_ext s s' g h :
  config_inv (mk_config s h) g -> mem s' = mem s -> lists s' = lists s -> pages s' = pages s ->
  (forall sp, sp ∈ slabs g -> page_at s' sp = page_at s sp) ->
  config_inv (mk_config s' h) g.
Proof. intros [I F] Em El Ep Ea. split; [by eapply inv_ext|done]. Qed.

#[local] Arguments search_pages : simpl never.
#[local] Arguments fill_page : simpl never.
#[local] Arguments free_section : simpl never.

Lemma with_pages_inj n s1 s2 : with_pages n s1 = with_pages n s2 -> pages s1 = pages s2 -> s1 = s2.
Proof. destruct s1, s2. by intros [= -> -> -> -> ->] [= ->]. Qed.

Lemma section_intro n src s g p l T s' p' d g' :
  thread_step atomic n src p s = Ret (s', p', d) -> section_result s g p l T s' g' p' d ->
  section_ok src s g p l T.
Proof.
  intros E H. exists s', p', d, g'. split; [|done].
  eapply returns_at; [intros n1 n2 x; apply thread_step_mono|exact E].
Qed.

Lemma counts_same s g p s' g' p' :
  pages s' = pages s -> slabs g' = slabs g -> debt p' = debt p -> counts s g p s' g' p'.
Proof. intros Ep Eg Ed _ D. unfold page_count. by rewrite Ep, Eg, Ed. Qed.

Ltac section_side := first [done | by apply counts_same | by (simpl; lia)].

(** A section that touches neither blocks nor pages. *)
Lemma section_quiet s g p l T s' p' :
  tinv s g p l T -> with_pages 0 s' = with_pages 0 s -> owned_by p' = owned_by p -> transit p' = transit p ->
  pc_ok p' -> counts s g p s' g p' -> (sections_left p' < sections_left p)%nat ->
  section_result s g p l T s' g p' None.
Proof.
  intros [I N Tr P] Es Eo Et P' C Hl.
  assert (Ec := f_equal (with_pages (wrapu BITS_PER_LONG (page_count g))) Es).
  change (counted g s' = counted g s) in Ec.
  split; [split|..]; rewrite ?Eo, ?Et; try done.
  - by rewrite Ec.
  - intros sp Hsp. apply (in_transit_ext s s' g g); [by apply Tr| |].
    + by apply (f_equal (fun x => slab_of x sp)) in Es.
    + destruct (Tr sp Hsp) as (_&Hn&_). set_solver.
  - apply (f_equal mem) in Es. simpl in Es. by rewrite Es.
  - by apply heap_same.
  - intros a _. apply (f_equal mem) in Es. simpl in Es. by rewrite Es.
Qed.

(** *** slob_alloc *)

(** A new block. *)
Lemma section_alloc s g p l T r s' g' p' b :
  tinv s g p l T -> owned_by p = None -> owned_by p' = Some (b, rq_size r) -> transit p' = None ->
  0 < rq_size r ->
  allocated (counted g s) g (SLOB_UNITS (rq_size r)) (rq_align r) (counted g' s') b g' ->
  (forall sp, sp ∈ T -> in_transit s' g' sp) -> NoDup T ->
  (b ≠ NULL -> aligned_to (rq_align r) b -> pc_ok p') -> b ≠ NULL -> (forall x, slab_of s' x = slab_of s x) ->
  counts s g p s' g' p' -> (sections_left p' < sections_left p)%nat ->
  section_result s g p l T s' g' p' None.
Proof.
  intros [I _ _ _] Eo Eo' Et' Hs A HT N P' Hb Hsl C Hl. rewrite Eo in I. simpl in I.
  destruct (allocated_run (mk_config (counted g s) l) g _ _ _ _ _ I Hs A) as (Hal&Hpg&Hd&Hsame&CI).
  split; [split|..]; rewrite ?Eo, ?Eo', ?Et'; simpl; auto.
  - by eapply heap_alloc.
  - by eapply allocated_marked.
Qed.

Lemma search_ok src s g r l T : tinv s g (ASearch r) l T -> section_ok src s g (ASearch r) l T.
Proof.
  intros I. assert (I' := I). destruct I' as [CI N Tr R]. simpl in R, CI.
  set (hd := slob_list_for (rq_size r)). set (n := S (length (slabs g) + Z.to_nat PU)).
  set (f := search_pages n hd (rq_size r) (rq_align r) (rq_node r) (lnext (lists s) hd)).
  assert (forall c, f (with_pages c s) = recount c (f s)) as C by (intros c; apply search_pages_pages).
  destruct (search_section_spec n (counted g s) g _ _ (rq_node r) (counted_inv _ _ _ _ _ I) R ltac:(lia))
    as [E|(s'&b&g'&E&Hb&Hal&Eg)]; destruct (section_run f s _ _ _ C E) as (s1&E1&Es&Ep).
  - apply with_pages_inj in Es as <-; [|done]. apply (section_intro n _ _ _ _ _ _ s (ANew r) None g).
    + unfold f in E1. cbn [thread_step]. fold hd. by rewrite E1.
    + apply section_quiet; section_side.
  - subst s'. apply (section_intro n _ _ _ _ _ _ s1 (AZero r b) None g').
    + unfold f in E1. cbn [thread_step]. fold hd. rewrite E1. simpl. by zdec.
    + assert (allocated (counted g s) g (SLOB_UNITS (rq_size r)) (rq_align r) (counted g' s1) b g') as Hal'.
      { unfold counted, page_count. by rewrite Eg. }
      eapply section_alloc; try section_side.
      * apply R.
      * intros sp Hsp. apply (in_transit_ext s s1 g g'); [by apply Tr|by eapply slab_of_search|].
        rewrite Eg. destruct (Tr sp Hsp) as (_&Hn&_). set_solver.
      * intros x. by eapply slab_of_search.
Qed.

Lemma new_pages_frame s src gfp node :
  source_fresh s src ->
  slob_new_pages src gfp 0 node = NULL \/
  exists sp, frame_free s sp /\ slob_new_pages src gfp 0 node = page_address sp.
Proof.
  intros Hs. unfold slob_new_pages. destruct (Hs gfp node) as [H1 H2].
  destruct (CONFIG_NUMA && negb (node =? NUMA_NO_NODE)).
  - destruct H2 as [->|H2]; [by left|]. zcase; [by left|]. right. eauto.
  - destruct H1 as [->|H1]; [by left|]. zcase; [by left|]. right. eauto.
Qed.

(** A frame of the page allocator is not on its way through another thread. *)
Lemma frame_free_fresh s g p l T sp :
  tinv s g p l T -> frame_free s sp -> sp ∉ heads ++ slabs g /\ sp ∉ T.
Proof.
  intros I (_&_&Hh&Hs). split.
  - intros [?|Hin]%elem_of_app; [done|].
    pose proof (pi_slab _ _ _ (inv_pages _ _ (counted_inv _ _ _ _ _ I) sp Hin)) as E. simpl in E. congruence.
  - intros Hin. destruct (ti_transit _ _ _ _ _ I sp) as (_&_&E); [rewrite elem_of_app; by right|congruence].
Qed.

Lemma new_ok src s g r l T :
  tinv s g (ANew r) l T -> source_fresh s src -> section_ok src s g (ANew r) l T.
Proof.
  intros I F. destruct (new_pages_frame s src (rq_gfp r .& Z.lnot __GFP_ZERO) (rq_node r) F) as [E|(sp&Ff&E)].
  - apply (section_intro 0 _ _ _ _ _ _ s Idle None g); [cbn [thread_step]; by rewrite E|].
    apply section_quiet; section_side.
  - destruct (frame_free_fresh _ _ _ _ _ _ I Ff) as [Hn HnT]. destruct Ff as (B&V&_&_).
    assert (sp ∉ slabs g) as Hsl by set_solver.
    apply (section_intro 0 _ _ _ _ _ _ (SetPageSlab sp s) (AFill r (page_address sp)) None g).
    + cbn [thread_step]. rewrite E, V. assert (page_address sp ≠ NULL) by (destruct B; lia). by zdec.
    + destruct I as [CI N Tr R]. split; [split|..]; simpl; rewrite ?V; try section_side.
      * eapply config_ext; [exact CI|done..|]. intros x Hx. simpl. apply fn_lookup_insert_ne. by intros ->.
      * by constructor.
      * intros x [->|Hx]%elem_of_cons.
        { split; [done|]. split; [done|]. simpl. by rewrite fn_lookup_insert. }
        apply (in_transit_ext s _ g g); [by apply Tr| |].
        { apply slab_of_page_ne. by intros ->. }
        destruct (Tr x Hx) as (_&Hx'&_). set_solver.
      * by apply heap_same.
Qed.

Lemma fill_ok src s g r b l T : tinv s g (AFill r b) l T -> section_ok src s g (AFill r b) l T.
Proof.
  intros I. assert (I' := I). destruct I' as [CI N Tr [R Hb]]. simpl in CI, N.
  set (sp := virt_to_page b) in *. set (hd := slob_list_for (rq_size r)).
  destruct (Tr sp) as ([B V]&Hn&Hsl); [by left|].
  set (f := fill_page 1 hd (rq_size r) (rq_align r) b).
  assert (forall c, f (with_pages c s) = recount c (f s)) as C by (intros c; apply fill_page_pages).
  destruct (fill_page_post 1 hd (rq_size r) (rq_align r) (counted g s) g sp)
    as (s'&b'&g'&E&Hb'&Hal&Eg); [by eapply counted_inv|apply slob_list_heads|done..|lia|].
  rewrite Hb in E. destruct (section_run f s _ _ _ C E) as (s1&E1&->&Ep).
  assert (page_count g' = page_count g + 1) as Ec.
  { unfold page_count. rewrite Eg. simpl length. lia. }
  apply (section_intro 1 _ _ _ _ _ _ s1 (ALoad r b') None g').
  - unfold f in E1. cbn [thread_step]. fold hd. by rewrite E1.
  - apply NoDup_cons in N as [HnT N]. eapply section_alloc; try section_side.
    + apply R.
    + unfold counted. rewrite Ec.
      replace (wrapu BITS_PER_LONG (page_count g + 1)) with (pages_inc (wrapu BITS_PER_LONG (page_count g)));
        [exact Hal|unfold pages_inc, wrapu; apply Zplus_mod_idemp_l].
    + intros x Hx. apply (in_transit_ext s s1 g g'); [apply Tr; by right|by eapply slab_of_fill|].
      rewrite Eg. destruct (Tr x) as (_&Hx'&_); [by right|]. set_solver.
    + intros x. by eapply slab_of_fill.
    + intros _ D. rewrite Ep, Ec. intros ->. f_equal. simpl. lia.
Qed.

(** pages++ and pages--. *)
Lemma load_ok src s g r b l T : tinv s g (ALoad r b) l T -> section_ok src s g (ALoad r b) l T.
Proof.
  intros I. assert (P := ti_pc _ _ _ _ _ I). destruct atomic eqn:At.
  - apply (section_intro 0 _ _ _ _ _ _ (with_pages (pages_inc (pages s)) s) (AZero r b) None g).
    + simpl. by rewrite At.
    + apply section_quiet; try section_side. intros _ D. simpl. intros ->.
      unfold pages_inc, wrapu. rewrite Zplus_mod_idemp_l. f_equal. lia.
  - apply (section_intro 0 _ _ _ _ _ _ s (AStore r b (pages_inc (pages s))) None g).
    + simpl. by rewrite At.
    + apply section_quiet; try section_side. intros At'. congruence.
Qed.

Lemma store_ok src s g r b v l T : tinv s g (AStore r b v) l T -> section_ok src s g (AStore r b v) l T.
Proof.
  intros I. destruct (ti_pc _ _ _ _ _ I) as (At&P).
  apply (section_intro 0 _ _ _ _ _ _ (with_pages v s) (AZero r b) None g); [done|].
  apply section_quiet; try section_side. intros At'. congruence.
Qed.

Lemma unload_ok src s g l T : tinv s g FLoad l T -> section_ok src s g FLoad l T.
Proof.
  intros I. destruct atomic eqn:At.
  - apply (section_intro 0 _ _ _ _ _ _ (with_pages (pages_dec (pages s)) s) Idle None g).
    + simpl. by rewrite At.
    + apply section_quiet; try section_side. intros _ D. simpl. intros ->.
      unfold pages_dec, wrapu. rewrite Zminus_mod_idemp_l. f_equal. lia.
  - apply (section_intro 0 _ _ _ _ _ _ s (FStore (pages_dec (pages s))) None g).
    + simpl. by rewrite At.
    + apply section_quiet; try section_side. intros At'. congruence.
Qed.

Lemma unstore_ok src s g v l T : tinv s g (FStore v) l T -> section_ok src s g (FStore v) l T.
Proof.
  intros I. assert (At := ti_pc _ _ _ _ _ I). simpl in At.
  apply (section_intro 0 _ _ _ _ _ _ (with_pages v s) Idle None g); [done|].
  apply section_quiet; try section_side. intros At'. congruence.
Qed.

(** A block that belongs to a client or a thread is not empty. *)
Lemma owned_size s g h b size : config_inv (mk_config s h) g -> (b, size) ∈ h -> 0 < size.
Proof.
  intros [_ F] Hin. apply list_elem_of_split in Hin as (l1&l2&->). simpl in F.
  apply Forall2_app_inv_r in F as (k1&k2&_&F&_).
  apply Forall2_cons_inv_r in F as (o&k3&(_&?&_)%holds_addr&_&_). done.
Qed.

(** memset, and the return of the block. *)
Lemma zero_ok src s g r b l T : tinv s g (AZero r b) l T -> section_ok src s g (AZero r b) l T.
Proof.
  intros I. assert (I' := I). destruct I' as [CI N Tr [Hb Hal]]. simpl in CI, N.
  assert (0 < rq_size r) as Hs by (eapply (owned_size _ _ _ b); [exact CI|by left]).
  assert (writes_in (mem s) (memset_zero (mem s) b (rq_size r)) (b, rq_size r)) as W
    by (intros a Ha; apply memset_zero_out; [lia|exact Ha]).
  destruct (Z.eqb_spec (rq_gfp r .& __GFP_ZERO) 0) as [Ez|Ez].
  - apply (section_intro 0 _ _ _ _ _ _ s Idle (Some (b, rq_size r)) g); [simpl; by rewrite Ez|].
    split; try section_side; [by apply heap_same|]. exists r. by do 4 (split; [done|]).
  - apply (section_intro 0 _ _ _ _ _ _ (with_mem (memset_zero (mem s) b (rq_size r)) s) Idle
      (Some (b, rq_size r)) g); [cbn [thread_step]; by do 2 zdec|].
    split; try section_side.
    + split; [|done|intros x Hx; by apply Tr|done].
      apply (write_run _ _ (b, rq_size r) _ CI); [by left|exact W].
    + intros q Hq. apply (write_others _ _ [] (b, rq_size r) l q _ CI); [done|done|exact W].
    + by apply heap_same.
    + simpl. exists r. do 4 (split; [done|]). intros _ i Hi. by apply memset_zero_in.
    + eapply held_marked; [exact CI|by left|exact W].
Qed.

(** *** slob_free *)
Lemma counted_after s1 g g' (e : bool) :
  Inv (if e then with_pages (pages_dec (pages (counted g s1))) (counted g s1) else counted g s1) g' ->
  page_count g' = page_count g - (if e then 1 else 0) -> Inv (counted g' s1) g'.
Proof.
  intros I Ec. unfold counted at 1. rewrite Ec. destruct e; [|by rewrite Z.sub_0_r].
  replace (wrapu BITS_PER_LONG (page_count g - 1)) with (pages_dec (wrapu BITS_PER_LONG (page_count g)));
    [exact I|unfold pages_dec, wrapu; apply Zminus_mod_idemp_l].
Qed.

Lemma free_section_ok src s g b size l T :
  tinv s g (FSection b size) l T -> section_ok src s g (FSection b size) l T.
Proof.
  intros I. assert (I' := I). destruct I' as [CI N Tr P]. simpl in CI, N. assert (IV := proj1 CI). simpl in IV.
  destruct (held_split _ _ [] (b, size) l CI eq_refl) as (k1&o&k2&Ek&[Ho Hok]&F). simpl in Ho, Hok, F.
  assert (live g ≡ₚ o :: k1 ++ k2) as El by (rewrite Ek; by rewrite <- Permutation_middle).
  set (f := free_section (Z.to_nat PU) b size).
  assert (forall c, f (with_pages c s) = recount c (f s)) as C by (intros c; apply free_section_pages).
  destruct (free_section_spec (counted g s) g o (k1 ++ k2) size IV El Hok (Z.to_nat PU) ltac:(lia))
    as (s'&e&g'&E&I'&El'&Es&HP&HW). rewrite <- Ho in E. destruct (section_run f s _ _ _ C E) as (s1&E1&->&Ep).
  pose proof (freed_virt _ _ _ _ IV El) as V. pose proof (freed_page _ _ _ _ IV El) as Pg.
  assert (forall x, slab_of s1 x = slab_of s x) as Fl by (intros x; by eapply slab_of_free_section).
  assert (forall x, x ∈ T -> x ∉ slabs g' -> in_transit s1 g' x) as HT.
  { intros x Hx. eapply in_transit_ext; [by apply Tr|by apply Fl]. }
  assert (forall x, x ∈ T -> x ∉ slabs g) as HnT.
  { intros x Hx. destruct (Tr x Hx) as (_&Hx'&_). set_solver. }
  apply (section_intro (Z.to_nat PU) _ _ _ _ _ _ s1 (if e then FReturn b else Idle) None g').
  { unfold f in E1. cbn [thread_step]. rewrite Ho.
    rewrite (freed_not_null _ _ _ _ IV El), (freed_size _ _ Hok), <- Ho. by rewrite E1. }
  assert (page_count g' = page_count g - (if e then 1 else 0)) as Ec.
  { unfold page_count. destruct e; rewrite Es; simpl length; lia. }
  assert (config_inv (mk_config (counted g' s1) l) g') as CI' by (split; [by eapply counted_after|by rewrite El']).
  split; try section_side.
  - destruct e; split; try done; simpl.
    + rewrite Ho, V. constructor; [|done]. intros Hx. apply (HnT _ Hx), (freed_range _ _ _ _ IV El).
    + pose proof (li_nodup _ _ _ _ (inv_lists _ _ IV)) as Nd. rewrite Es in Nd.
      rewrite Ho, V. intros x [->|Hx]%elem_of_cons.
      * split; [eapply page_inv_frame_of, Pg|]. split.
        { intros Hx. rewrite <- Permutation_middle in Nd. apply NoDup_cons_1_1 in Nd. done. }
        fold (slab_of s1 (o_page o)). rewrite Fl. exact (pi_slab _ _ _ Pg).
      * apply HT; [done|]. intros Hx'. apply (HnT x Hx). rewrite Es. by right.
    + intros x Hx. apply HT; [done|]. rewrite Es. by apply HnT.
  - intros q. by apply (holds_preserved (k1 ++ k2)).
  - simpl. replace (option_list (owned_by (if e then FReturn b else Idle))) with (@nil (Z * Z)) by by destruct e.
    by apply (heap_free _ _ (b, size)).
  - intros _ D. rewrite Ep, Ec. intros ->. f_equal. destruct e; simpl; lia.
  - by apply (wrote_slab_page (counted g s) g (o_page o)); [|apply (freed_range _ _ _ _ IV El)|].
  - destruct e; simpl; lia.
Qed.

Lemma return_ok src s g b l T : tinv s g (FReturn b) l T -> section_ok src s g (FReturn b) l T.
Proof.
  intros [CI N Tr P]. destruct (Tr (virt_to_page b)) as (_&Hn&_); [by left|].
  simpl in CI, N. apply NoDup_cons in N as [HnT N].
  apply (section_intro 0 _ _ _ _ _ _ (return_page b s) FLoad None g); [done|].
  assert (virt_to_page b ∉ slabs g) as Hn' by set_solver.
  split; try section_side.
  - split; try done.
    + simpl. eapply config_ext; [exact CI|done..|]. intros x Hx. simpl. by rewrite !fn_lookup_insert_ne by (by intros <-).
    + intros x Hx. apply (in_transit_ext s _ g g); [apply Tr; by right| |].
      * rewrite slab_of_return. case_decide; [by subst|done].
      * destruct (Tr x) as (_&Hx'&_); [by right|]. set_solver.
  - by apply heap_same.
Qed.

(** Every section, from wherever a thread is. *)
Lemma thread_ok src s g p l T :
  tinv s g p l T -> p ≠ Idle -> source_fresh s src -> section_ok src s g p l T.
Proof.
  intros I Hp F. destruct p; [done|by apply search_ok|by apply new_ok|by apply fill_ok|by apply load_ok|
    by apply store_ok|by apply zero_ok|by apply free_section_ok|by apply return_ok|by apply unload_ok|by apply unstore_ok].
Qed.
End SlobThreadsInv.
