(* ===== verification/SlobThreadsRuns.v ===== *)
(** Runs of many threads inside the allocator: every world they reach satisfies the
    invariant of SlobThreadsInv.v, whatever the order of their sections. *)
From S2P Require Import Prelude ListHead Kernel SlobBlocks Slob SlobPage SlobInv SlobAlloc SlobFree SlobAcct SlobRuns SlobThreads SlobCounter SlobThreadsInv.

Section SlobThreadsRuns.
Context {K : Kernel} {KL : KernelLaws} {L : Type} {LO : ListOps L} {LL : ListLaws L}.
Variable atomic : bool.
Implicit Types (s : state L) (g : ghost) (w : world (L := L)) (ts : list thread).

Definition owned_of ts : list (Z * Z) := omap (fun t => owned_by (pc t)) ts.
Definition transit_of ts : list Z := omap (fun t => transit (pc t)) ts.

(** The blocks in use: a thread is working on them or a client holds them. *)
Definition owned w : list (Z * Z) := owned_of (ths w) ++ client w.

Record winv w g : Prop := {
  wi_config : config_inv (mk_config (counted g (sh w)) (owned w)) g;
  wi_nodup : NoDup (transit_of (ths w));
  wi_transit sp : sp ∈ transit_of (ths w) -> in_transit (sh w) g sp;
  wi_pcs : Forall (fun t => pc_ok atomic (pc t)) (ths w);
}.

(** The counter is right but for what the threads still owe. *)
Definition wcounts w g : Prop :=
  pages (sh w) = wrapu BITS_PER_LONG (page_count g - sumZ (fun t => debt (pc t)) (ths w)).

(** *** One thread and the others *)
Lemma owned_split t1 t t2 (c : list (Z * Z)) :
  owned_of (t1 ++ t :: t2) ++ c ≡ₚ option_list (owned_by (pc t)) ++ owned_of (t1 ++ t2) ++ c.
Proof.
  unfold owned_of. by rewrite omap_split, (assoc (++)).
Qed.

Lemma transit_split t1 t t2 :
  transit_of (t1 ++ t :: t2) ≡ₚ option_list (transit (pc t)) ++ transit_of (t1 ++ t2).
Proof. unfold transit_of. by rewrite omap_split. Qed.

Lemma debt_split t1 t t2 :
  sumZ (fun t => debt (pc t)) (t1 ++ t :: t2) = debt (pc t) + sumZ (fun t => debt (pc t)) (t1 ++ t2).
Proof. rewrite !sumZ_app. simpl. lia. Qed.

(** The invariant as thread [t] sees it. *)
Lemma winv_focus w g t1 t t2 :
  winv w g -> ths w = t1 ++ t :: t2 ->
  exists g1, slabs g1 = slabs g /\
    tinv atomic (sh w) g1 (pc t) (owned_of (t1 ++ t2) ++ client w) (transit_of (t1 ++ t2)).
Proof.
  intros [CI N Tr P] E. unfold owned in CI. rewrite E in *.
  destruct (config_perm _ _ _ _ CI (owned_split t1 t t2 _)) as (lv&CI').
  eexists (mk_ghost _ _ lv _). split; [exact (eq_refl (slabs g))|]. split; [exact CI'| | |].
  - by rewrite <- transit_split.
  - intros sp. rewrite <- transit_split. apply Tr.
  - apply Forall_app in P as [_ P]. by inversion P.
Qed.

(** And back, after [t] has moved. *)
Lemma winv_unfocus s g t1 t t2 r p l c :
  tinv atomic s g p l (transit_of (t1 ++ t2)) -> l ≡ₚ owned_of (t1 ++ t2) ++ c ->
  Forall (fun t => pc_ok atomic (pc t)) (t1 ++ t :: t2) ->
  exists g1, slabs g1 = slabs g /\ winv (mk_world s (t1 ++ mk_thread r p :: t2) c) g1.
Proof.
  intros [CI N Tr P] El F.
  destruct (config_perm _ _ _ (owned (mk_world s (t1 ++ mk_thread r p :: t2) c)) CI) as (lv&CI').
  { unfold owned. simpl. by rewrite owned_split, El. }
  eexists (mk_ghost _ _ lv _). split; [exact (eq_refl (slabs g))|]. split; simpl.
  - exact CI'.
  - by rewrite transit_split.
  - intros sp. rewrite transit_split. apply Tr.
  - apply Forall_app in F as [F1 F2]. apply Forall_cons in F2 as [_ F2].
    apply Forall_app. split; [done|]. by constructor.
Qed.

Lemma tinv_current s g p l T r : tinv atomic s g p l T -> tinv atomic (set_current r s) g p l T.
Proof. intros [CI N Tr P]. split; try done. by eapply config_ext. Qed.

(** *** The next section of a thread *)
Lemma section_runs w g t1 t t2 src :
  winv w g -> ths w = t1 ++ t :: t2 -> pc t ≠ Idle -> source_fresh (sh w) src ->
  exists s' p' d g',
    returns (fun fuel => thread_step atomic fuel src (pc t) (set_current (reclaim t) (sh w))) (s', p', d) /\
    let w' := mk_world s' (t1 ++ mk_thread (reclaimed_slab s') p' :: t2) (option_list d ++ client w) in
    winv w' g' /\
    (forall q, q ∈ owned_of (t1 ++ t2) ++ client w -> same_contents (mem (sh w)) (mem s') q) /\
    heap_step (owned w) (owned w') /\
    answers (pc t) (mem s') d /\ (atomic = true -> wcounts w g -> wcounts w' g') /\
    (sections_left p' < sections_left (pc t))%nat /\ marked_only (sh w) (mem s').
Proof.
  intros I E Hp F. destruct (winv_focus _ _ _ _ _ I E) as (g1&Eg1&I1).
  apply (tinv_current _ _ _ _ _ (reclaim t)) in I1.
  destruct (thread_ok atomic src _ _ _ _ _ I1 Hp F) as (s'&p'&d&g'&R&[I2 Hs Hh Ha Hc Hm Hl]).
  assert (Fp := wi_pcs _ _ I). rewrite E in Fp.
  assert (option_list d ++ owned_of (t1 ++ t2) ++ client w ≡ₚ owned_of (t1 ++ t2) ++ option_list d ++ client w)
    as Ed by apply Permutation_app_swap_app.
  destruct (winv_unfocus _ _ _ t _ (reclaimed_slab s') _ _ (option_list d ++ client w) I2 Ed Fp)
    as (g2&Eg2&I').
  exists s', p', d, g2. split; [exact R|]. cbv zeta. split; [done|]. split; [exact Hs|]. split.
  - assert (forall h1 h1' h2 h2' : list (Z * Z), h1 ≡ₚ h1' -> h2 ≡ₚ h2' -> heap_step h1 h2 -> heap_step h1' h2') as HP.
    { intros h1 h1' h2 h2' E1 E2 [Es|q Es Hq Hd|q Es].
      - apply heap_same. by rewrite <- E1, <- E2.
      - eapply heap_alloc; [by rewrite <- E1, <- E2|done|]. intros p. rewrite <- E1. apply Hd.
      - eapply heap_free. by rewrite <- E1, <- E2. }
    eapply HP; [| |exact Hh]; unfold owned; simpl; [by rewrite E, owned_split|].
    by rewrite owned_split, Ed.
  - split; [exact Ha|]. split; [|by split]. unfold wcounts, page_count. rewrite E. simpl. rewrite !debt_split.
    intros At Hw. rewrite Eg2. rewrite Z.sub_add_distr. apply (Hc At). simpl. rewrite Hw.
    unfold page_count. rewrite Eg1. f_equal. lia.
Qed.

(** An idle thread becomes the running one. *)
Lemma winv_idle s t1 t t2 r c g :
  winv (mk_world s (t1 ++ t :: t2) c) g -> pc t = Idle ->
  exists g', winv (mk_world (set_current r s) (t1 ++ mk_thread r Idle :: t2) c) g'.
Proof.
  intros I Hi. destruct (winv_focus _ _ _ _ _ I eq_refl) as (g1&_&I1). rewrite Hi in I1.
  apply (tinv_current _ _ _ _ _ r) in I1.
  destruct (winv_unfocus _ _ _ t _ r _ _ c I1 (reflexivity _) (wi_pcs _ _ I)) as (g2&_&I2). by exists g2.
Qed.

(** *** Clients *)
Lemma winv_client s ts (c c' : list (Z * Z)) g :
  winv (mk_world s ts c) g -> c ≡ₚ c' -> exists g', winv (mk_world s ts c') g'.
Proof.
  intros [CI N Tr P] E.
  destruct (config_perm _ _ _ (owned (mk_world s ts c')) CI) as (lv&CI').
  { unfold owned. simpl. by rewrite E. }
  by eexists (mk_ghost _ _ lv _).
Qed.

(** The owner of a block writes into it; the other blocks keep their contents. *)
Lemma winv_write w g c1 p c2 m' :
  winv w g -> client w = c1 ++ p :: c2 -> writes_in (mem (sh w)) m' p ->
  winv (mk_world (with_mem m' (sh w)) (ths w) (client w)) g /\
  (forall q, q ∈ owned_of (ths w) ++ c1 ++ c2 -> same_contents (mem (sh w)) m' q).
Proof.
  intros [CI N Tr P] Ec W. split.
  - split; try done. apply (write_run _ _ p _ CI); [|done]. simpl. unfold owned. rewrite Ec. set_solver.
  - intros q. rewrite (assoc (++)). intros Hq. eapply (write_others _ _ (owned_of (ths w) ++ c1) p c2 q m' CI);
      [simpl; unfold owned; by rewrite Ec, <- (assoc (++))|done|done].
Qed.

(** *** Every step *)
Lemma wstep_inv w w' g :
  winv w g -> wstep atomic w w' ->
  exists g', winv w' g' /\ heap_step (owned w) (owned w') /\ (atomic = true -> wcounts w g -> wcounts w' g').
Proof.
  intros I St. destruct St as [t1 t t2 r E Hi R|t1 t t2 l1 b size l2 E Hi Ec|b size i v Hin Hr|t1 t t2 src s' p' d E Hp F R].
  - destruct (winv_focus _ _ _ _ _ I E) as (g1&Eg1&[CI N Tr P]). rewrite Hi in *.
    assert (Fp := wi_pcs _ _ I). rewrite E in Fp.
    destruct (winv_unfocus (sh w) g1 t1 t t2 (reclaim t) (ASearch r) (owned_of (t1 ++ t2) ++ client w) (client w))
      as (g2&Eg2&I'); [by split|done|done|].
    exists g2. split; [done|]. split.
    + apply heap_same. unfold owned. simpl. rewrite E, !owned_split. by rewrite Hi.
    + intros _. unfold wcounts, page_count. simpl. rewrite E, !debt_split, Eg2, Eg1, Hi. done.
  - destruct (winv_focus _ _ _ _ _ I E) as (g1&Eg1&[CI N Tr P]). rewrite Hi in *.
    assert (Fp := wi_pcs _ _ I). rewrite E in Fp. rewrite Ec in CI. simpl in CI.
    destruct (config_perm _ _ _ ((b, size) :: owned_of (t1 ++ t2) ++ l1 ++ l2) CI) as (lv&CI').
    { rewrite !(assoc (++)). by rewrite <- Permutation_middle. }
    destruct (winv_unfocus (sh w) (mk_ghost (slabs g1) (blocks_of g1) lv (on_list g1)) t1 t t2 (reclaim t)
      (FSection b size) (owned_of (t1 ++ t2) ++ l1 ++ l2) (l1 ++ l2)) as (g2&Eg2&I'); [by split|done|done|].
    exists g2. split; [done|]. split.
    + apply heap_same. unfold owned. simpl. rewrite E, !owned_split, Hi, Ec. simpl.
      rewrite !(assoc (++)). by rewrite <- Permutation_middle.
    + intros _. unfold wcounts, page_count. simpl. rewrite E, !debt_split, Eg2, Hi. simpl. by rewrite Eg1.
  - apply list_elem_of_split in Hin as (c1&c2&Ec).
    exists g. split; [|split; [by apply heap_same|done]].
    apply (winv_write w g c1 (b, size) c2 _ I Ec).
    intros a Ha. apply fn_lookup_insert_ne. intros <-. by apply (Ha i).
  - destruct (section_runs _ _ _ _ _ _ I E Hp F) as (s1&p1&d1&g'&R1&I'&_&Hh&_&Hc&_).
    pose proof (returns_unique _ _ _ R1 R) as [= -> -> ->]. by exists g'.
Qed.

Lemma counted_right s g : Inv s g -> counted g s = s.
Proof.
  intros I. pose proof (inv_pages_count _ _ I) as E. fold (page_count g) in E.
  unfold counted. rewrite <- E. apply with_pages_id.
Qed.

Lemma idle_of ts : Forall (fun t => pc t = Idle) ts ->
  owned_of ts = [] /\ transit_of ts = [] /\ sumZ (fun t => debt (pc t)) ts = 0 /\
  Forall (fun t => pc_ok atomic (pc t)) ts.
Proof.
  induction 1 as [|t ts Ht _ (E1&E2&E3&F)]; [done|]. unfold owned_of, transit_of in *. simpl.
  rewrite Ht. simpl. split; [exact E1|]. split; [exact E2|]. split; [exact E3|]. constructor; [by rewrite Ht|done].
Qed.

Lemma winit_inv w : winit w -> winv w ghost_init /\ wcounts w ghost_init.
Proof.
  intros (Hi&F&Ec). destruct (idle_of _ F) as (E1&E2&E3&F'). pose proof (inv_init _ Hi) as I. split.
  - split; rewrite ?E2; [|by apply NoDup_nil|intros sp ?%elem_of_nil; done|done].
    unfold owned. rewrite E1, Ec. split; [|constructor]. simpl.
    by rewrite (counted_right _ _ I).
  - unfold wcounts. rewrite E3, (inv_pages_count _ _ I). done.
Qed.

(** More steps lead from states that satisfy the invariant to such states. *)
Lemma wsteps_inv w w' g :
  winv w g -> (atomic = true -> wcounts w g) -> rtc (wstep atomic) w w' ->
  exists g', winv w' g' /\ (atomic = true -> wcounts w' g').
Proof.
  intros I C R. induction R as [w|w w1 w' St _ IH] in g, I, C |- *; [by exists g|].
  destruct (wstep_inv _ _ g I St) as (g1&I1&_&C1). eapply IH; eauto.
Qed.

Lemma wreachable_inv w :
  wreachable atomic w -> exists g, winv w g /\ (atomic = true -> wcounts w g).
Proof. intros (w0&Hi&St). apply winit_inv in Hi as [I C]. by eapply wsteps_inv. Qed.

(** *** What the invariant says *)
Lemma owned_disjoint w g k1 p k2 q k3 :
  winv w g -> owned w = k1 ++ p :: k2 ++ q :: k3 -> bytes_disjoint p q.
Proof.
  intros [CI _ _ _] E. destruct (held_pair _ _ _ _ _ _ _ CI E) as (o1&o2&l&El&H1&H2).
  eapply objs_bytes_disjoint; [apply CI|done..].
Qed.

(** Between two sections the sum of the free units is right, up to the width of a
    long, and a call that found [v] in [pages] answers from that. *)
Lemma free_between w g fuel :
  winv w g -> (length (slabs g) < fuel)%nat ->
  free_units fuel (sh w) = Ret (wrapu BITS_PER_LONG (PU * page_count g - held_units (owned w))).
Proof.
  intros [CI _ _ _] Hf. assert (Inv (counted g (sh w)) g) as I by apply CI.
  change (free_units fuel (sh w)) with (free_units fuel (counted g (sh w))).
  rewrite (free_units_spec _ _ g I Hf). pose proof (held_live_units g _ CI) as Hl.
  pose proof (units_balance _ _ I) as B. simpl in Hl. rewrite Hl in B. unfold page_count. do 2 f_equal. lia.
Qed.

Lemma used_at_between w g v fuel :
  winv w g -> (length (slabs g) < fuel)%nat ->
  units_used_at v fuel (sh w) = Ret (wraps BITS_PER_LONG (held_units (owned w) + PU * (v - page_count g))).
Proof.
  intros I Hf. unfold units_used_at. rewrite (free_between w g) by done. simpl. pose proof bits_per_long_law.
  f_equal. apply wraps_eqm; [lia|]. rewrite SLOB_UNITS_PAGE. unfold wrapu. rewrite <- Zminus_mod. f_equal. lia.
Qed.

(** The read finds what the counter lacks of the pages. *)
Lemma used_at_count w g w' g' fuel :
  wcounts w g -> winv w' g' -> (length (slabs g') < fuel)%nat ->
  units_used_at (pages (sh w)) fuel (sh w') =
    Ret (wraps BITS_PER_LONG (held_units (owned w') +
      PU * (page_count g - sumZ (fun t => debt (pc t)) (ths w) - page_count g'))).
Proof.
  intros C I Hf. rewrite (used_at_between w' g') by done. pose proof bits_per_long_law.
  f_equal. apply wraps_eqm; [lia|]. rewrite C. unfold wrapu.
  rewrite <- (Zplus_mod_idemp_r (PU * (_ mod _ - _))), <- (Zmult_mod_idemp_r (_ mod _ - _)), Zminus_mod_idemp_l.
  by rewrite Zmult_mod_idemp_r, Zplus_mod_idemp_r.
Qed.

Lemma units_between w g fuel :
  winv w g -> wcounts w g -> (length (slabs g) < fuel)%nat ->
  sys_slob_units_used fuel (sh w) =
    Ret (wraps BITS_PER_LONG (held_units (owned w) - PU * sumZ (fun t => debt (pc t)) (ths w))) /\
  sys_slob_units_free fuel (sh w) =
    Ret (wraps BITS_PER_LONG (PU * page_count g - held_units (owned w))).
Proof.
  intros I C Hf. unfold sys_slob_units_used, sys_slob_units_free. rewrite (used_at_count w g w g) by done.
  rewrite (free_between w g) by done. pose proof bits_per_long_law. split; simpl.
  - do 2 f_equal. lia.
  - by rewrite wraps_wrapu by lia.
Qed.

(** With no call under way nothing is owed and the blocks in use are the clients'. *)
Lemma all_idle_owned w :
  all_idle w -> owned w = client w /\ sumZ (fun t => debt (pc t)) (ths w) = 0.
Proof. intros F. destruct (idle_of _ F) as (E1&_&E3&_). unfold owned. by rewrite E1. Qed.
End SlobThreadsRuns.
