(* ===== verification/SlobThreadsBoot.v ===== *)
(** Concrete runs of two threads on the machine of SlobBoot.v: a scheduler that
    executes a list of actions, and the worlds used as instances. *)
From S2P Require Import Prelude ListHead Kernel SlobBlocks Slob SlobFuel SlobInv SlobAlloc SlobRuns SlobBoot SlobThreads SlobThreadsInv SlobThreadsRuns.
Import I386 Links.

(** What the scheduler lets happen next: thread [i] calls slob_alloc, it calls
    slob_free for the [j]-th block of the clients, or it executes its next section,
    [sp] being the page the page allocator would give. *)
Inductive action : Type :=
| Call (i : nat) (r : request)
| Release (i j : nat)
| Run (i : nat) (sp : Z).

Definition is_idle (p : tpc) : bool := match p with Idle => true | _ => false end.

Lemma is_idle_spec p : is_idle p = true <-> p = Idle.
Proof. by destruct p. Qed.

Lemma all_idle_spec (w : world (L := links)) : forallb (fun t => is_idle (pc t)) (ths w) = true -> all_idle w.
Proof.
  intros H. apply List.Forall_forall. intros t Ht. by apply is_idle_spec, (proj1 (forallb_forall _ _) H).
Qed.

(** Unaligned requests of at most a page, frames that are not slab pages. *)
Definition request_okb (r : request) : bool :=
  (0 <? rq_size r) && (rq_size r <=? PAGE_SIZE) && (rq_align r =? 0).

Definition frame_okb (s : state links) (sp : Z) : bool :=
  negb (bool_decide (sp ∈ heads) || PageSlab (page_at s sp)) &&
  (0 <? page_address sp) && (page_address sp mod 4096 =? 0) && (virt_to_page (page_address sp) =? sp).

Lemma request_okb_spec r : request_okb r = true -> request_ok (rq_size r) (rq_align r).
Proof.
  unfold request_okb. rewrite !andb_true_iff, Z.ltb_lt, Z.leb_le, Z.eqb_eq.
  intros [[? ?] ?]. split; [done|by left].
Qed.

Lemma frame_okb_spec s sp : frame_okb s sp = true -> source_fresh s (one_frame sp).
Proof.
  unfold frame_okb. rewrite !andb_true_iff, negb_true_iff, Z.ltb_lt, !Z.eqb_eq.
  intros [[[Hs ?] ?] ?]. apply frame_ok; [done|]. by split.
Qed.

Definition wact (atomic : bool) (a : action) (w : world (L := links)) : option (world (L := links)) :=
  match a with
  | Call i r =>
      t ← ths w !! i;
      if is_idle (pc t) && request_okb r
      then Some (mk_world (sh w) (<[i := mk_thread (reclaim t) (ASearch r)]> (ths w)) (client w)) else None
  | Release i j =>
      t ← ths w !! i;
      '(b, size) ← client w !! j;
      if is_idle (pc t)
      then Some (mk_world (sh w) (<[i := mk_thread (reclaim t) (FSection b size)]> (ths w))
                   (take j (client w) ++ drop (S j) (client w)))
      else None
  | Run i sp =>
      t ← ths w !! i;
      if negb (is_idle (pc t)) && frame_okb (sh w) sp
      then match thread_step atomic 8 (one_frame sp) (pc t) (set_current (reclaim t) (sh w)) with
           | Ret (s, p, d) =>
               Some (mk_world s (<[i := mk_thread (reclaimed_slab s) p]> (ths w)) (option_list d ++ client w))
           | _ => None
           end
      else None
  end.

Lemma insert_middle {A} (l : list A) i x y :
  l !! i = Some x -> <[i := y]> l = take i l ++ y :: drop (S i) l.
Proof. intros E. apply insert_take_drop. by eapply lookup_lt_Some. Qed.

Lemma wact_step atomic a w w' : wact atomic a w = Some w' -> wstep atomic w w'.
Proof.
  destruct a as [i r|i j|i sp]; simpl; destruct (ths w !! i) as [t|] eqn:E; simpl; try done;
    assert (Et := eq_sym (take_drop_middle _ _ _ E)).
  - destruct (is_idle (pc t) && request_okb r) eqn:C; [|done].
    apply andb_true_iff in C as [Hi%is_idle_spec R%request_okb_spec].
    intros [= <-]. rewrite (insert_middle _ _ _ _ E). by eapply w_alloc.
  - destruct (client w !! j) as [[b size]|] eqn:Ej; simpl; [|done].
    destruct (is_idle (pc t)) eqn:C; [|done]. apply is_idle_spec in C.
    intros [= <-]. rewrite (insert_middle _ _ _ _ E).
    eapply w_free; [exact Et|done|by rewrite take_drop_middle].
  - destruct (negb _ && _) eqn:C; [|done]. apply andb_true_iff in C as [Hi%negb_true_iff F%frame_okb_spec].
    assert (pc t ≠ Idle) as Hi' by (intros Ei%is_idle_spec; congruence).
    destruct (thread_step _ _ _ _ _) as [[[s p] d]| |] eqn:T; [|done..].
    intros [= <-]. rewrite (insert_middle _ _ _ _ E). eapply w_run; [exact Et|done|exact F|].
    eapply returns_at; [intros n n' x; apply thread_step_mono|exact T].
Qed.

Fixpoint wacts (atomic : bool) (l : list action) (w : world (L := links)) : option (world (L := links)) :=
  match l with
  | [] => Some w
  | a :: l => w ← wact atomic a w; wacts atomic l w
  end.

(** Two idle threads after boot; the second one reclaims memory. *)
Definition two_threads : world (L := links) :=
  mk_world boot [mk_thread None Idle; mk_thread (Some 0) Idle] [].

Lemma two_threads_init : winit two_threads.
Proof. split; [apply boot_init|]. split; [|done]. by repeat constructor. Qed.

Lemma wacts_rtc atomic l w w' : wacts atomic l w = Some w' -> rtc (wstep atomic) w w'.
Proof.
  revert w. induction l as [|a l IH]; intros w; simpl; [by intros [= <-]|].
  destruct (wact atomic a w) as [w1|] eqn:E; simpl; [|done].
  intros E'. eapply rtc_l; [by eapply wact_step|by apply IH].
Qed.

(** The world a list of actions leads to, and the start if it cannot be executed. *)
Definition after (atomic : bool) (l : list action) : world (L := links) :=
  default two_threads (wacts atomic l two_threads).

Lemma after_reachable atomic l : wreachable atomic (after atomic l).
Proof.
  exists two_threads. split; [apply two_threads_init|]. unfold after.
  destruct (wacts atomic l two_threads) as [w|] eqn:E; [by eapply wacts_rtc|apply rtc_refl].
Qed.

(** Both threads find the lists empty, take a page each and fill it. *)
Definition r100 : request := mk_request 100 0 0 0.
Definition r60 : request := mk_request 60 __GFP_ZERO 0 0.
Definition frame3 : Z := mem_map + 128.
Definition both_fill : list action :=
  [Call 0 r100; Call 1 r60; Run 0 frame3; Run 1 frame3; Run 0 frame1; Run 1 frame2;
   Run 1 frame3; Run 0 frame3].

(** Then both load the counter before they store it, or before the other loads it. *)
Definition lost_update : list action :=
  both_fill ++ [Run 0 frame3; Run 1 frame3; Run 0 frame3; Run 1 frame3; Run 0 frame3; Run 1 frame3].

Definition one_counted : list action := both_fill ++ [Run 0 frame3].
Definition no_loss : list action := one_counted ++ [Run 1 frame3; Run 0 frame3; Run 1 frame3].

(** The first thread frees the only block of the second page; the page is on its
    way back when the second thread asks for a block. *)
Definition one_returns : list action :=
  no_loss ++ [Release 0 0; Run 0 frame3; Call 1 r100].
