(* ===== verification/SlobThreadsProps.v ===== *)
(** What the allocator of assignments/a4/slob.c promises to several threads at
    once, and what becomes of its page counter, which is not under slob_lock. *)
From S2P Require Import Prelude ListHead Kernel SlobBlocks Slob SlobFuel SlobPage SlobInv SlobAlloc SlobFree SlobAcct SlobRuns SlobBoot SlobThreads SlobThreadsInv SlobThreadsRuns SlobThreadsBoot.
Import I386 Links.

Section SlobThreadsProps.
Context {K : Kernel} {KL : KernelLaws} {L : Type} {LO : ListOps L} {LL : ListLaws L}.
Implicit Types (w : world (L := L)).

(** C4: any number of threads may be inside slob_alloc and slob_free at once. In
    every reachable world, whatever the interleaving of their sections, two blocks
    that clients hold or threads are working on never share a byte; the next
    section of any thread returns (no BUG_ON fires, no loop runs for ever) and
    brings its call closer to the end; it leaves the contents of all blocks of
    clients and of other threads alone and writes to no page that is not marked
    PageSlab; and a block it answers is aligned and zeroed as its request asks. *)
Theorem threads_are_safe atomic w :
  wreachable atomic w ->
  (forall k1 p k2 q k3, owned w = k1 ++ p :: k2 ++ q :: k3 -> bytes_disjoint p q) /\
  forall t1 t t2 src, ths w = t1 ++ t :: t2 -> pc t ≠ Idle -> source_fresh (sh w) src ->
    exists s' p' d,
      returns (fun fuel => thread_step atomic fuel src (pc t) (set_current (reclaim t) (sh w))) (s', p', d) /\
      (sections_left p' < sections_left (pc t))%nat /\
      (forall q, q ∈ owned_of (t1 ++ t2) ++ client w -> same_contents (mem (sh w)) (mem s') q) /\
      marked_only (sh w) (mem s') /\ answers (pc t) (mem s') d.
Proof.
  intros (g&I&_)%wreachable_inv. split; [intros k1 p k2 q k3; by apply (owned_disjoint atomic w g)|].
  intros t1 t t2 src E Hp F.
  destruct (section_runs atomic w g t1 t t2 src I E Hp F) as (s'&p'&d&g'&R&_&Hs&_&Ha&_&Hl&Hm).
  by exists s', p', d.
Qed.

(** C5: the allocator shared by threads refines a heap: each step of any thread
    leaves the blocks in use as they are, adds one block that lies inside a page
    and overlaps none of them, or takes one of them away. *)
Theorem threads_refine_heap atomic w w' :
  wreachable atomic w -> wstep atomic w w' -> heap_step (owned w) (owned w').
Proof. intros (g&I&_)%wreachable_inv St. by destruct (wstep_inv atomic w w' g I St) as (g'&_&?&_). Qed.

(** The sections make up the calls: a thread that is left alone computes
    exactly what slob_alloc, respectively slob_free, computes, including BUG_ON and
    loops that do not end, in any state and for any arguments. *)
Theorem sections_are_calls atomic fuel src size gfp align node block (s : state L) :
  run_alone atomic 6 fuel src (ASearch (mk_request size gfp align node)) s =
    ('(s', b) ← slob_alloc fuel src size gfp align node s;
     Ret (s', if b =? NULL then None else Some (b, size))) /\
  run_alone atomic 4 fuel src (FSection block size) s =
    ('(s', _) ← slob_free fuel block size s; Ret (s', None)).
Proof. split; [apply run_alone_alloc|apply run_alone_free]. Qed.

(** C6: when pages++ and pages-- are indivisible, the counter is always the number
    of slab pages but for the updates the threads have still to make. Asked
    between two sections, the system calls report the units in use, too many or too
    few by a page for each such update, and the units that are left. When no
    call is under way both are exact: the units of the blocks the clients hold. If
    threads run between the read of the counter and the sum of the free units, in
    either order, sys_slob_units_used reports the units in use at the sum, off also
    by a page for each page that came or went in between. *)
Theorem indivisible_counter_is_exact w :
  wreachable true w ->
  exists g, winv true w g /\
    let owed w := sumZ (fun t => debt (pc t)) (ths w) in
    pages (sh w) = wrapu BITS_PER_LONG (page_count g - owed w) /\
    returns (fun fuel => sys_slob_units_used fuel (sh w)) (wraps BITS_PER_LONG (held_units (owned w) - PU * owed w)) /\
    returns (fun fuel => sys_slob_units_free fuel (sh w)) (wraps BITS_PER_LONG (PU * page_count g - held_units (owned w))) /\
    (all_idle w -> owned w = client w /\ owed w = 0) /\
    forall w', rtc (wstep true) w w' -> exists g', winv true w' g' /\
      returns (fun fuel => units_used_at (pages (sh w)) fuel (sh w'))
        (wraps BITS_PER_LONG (held_units (owned w') + PU * (page_count g - owed w - page_count g'))) /\
      returns (fun fuel => units_used_at (pages (sh w')) fuel (sh w))
        (wraps BITS_PER_LONG (held_units (owned w) + PU * (page_count g' - owed w' - page_count g))).
Proof.
  intros (g&I&C)%wreachable_inv. exists g. split; [done|]. split; [by apply C|].
  do 2 (split; [apply (returns_from _ _ (length (slabs g))); intros fuel Hf; by destruct (units_between true w g fuel I (C eq_refl) Hf)|]).
  split; [apply (all_idle_owned true)|]. intros w' (g'&I'&C')%(wsteps_inv true w w' g I C). exists g'. split; [done|]. split.
  - apply (returns_from _ _ (length (slabs g'))). intros fuel Hf. by apply (used_at_count true _ _ _ _ _ (C eq_refl)).
  - apply (returns_from _ _ (length (slabs g))). intros fuel Hf. by apply (used_at_count true _ _ _ _ _ (C' eq_refl)).
Qed.
End SlobThreadsProps.

(** C7: as a load and a store, pages++ loses updates. Two threads that allocate at
    once leave the counter at 1 with two slab pages; when both calls are over, 80
    units are in use and sys_slob_units_used answers -1968. *)
Theorem counter_update_is_lost :
  exists w : world (L := links), wreachable false w /\ all_idle w /\ held_units (client w) = 80 /\
    returns (fun fuel => sys_slob_units_used fuel (sh w)) (-1968).
Proof.
  exists (after false lost_update). split; [apply after_reachable|]. split; [|split].
  - apply all_idle_spec. by vm_compute.
  - by vm_compute.
  - apply (returns_at _ _ 8); [apply sys_slob_units_used_mono|]. by vm_compute.
Qed.

(** ** Instances *)

(** The thread that finished first has freed the only block of its page and is
    about to return the page; the other one searches. *)
Lemma threads_are_safe_witness :
  exists s' p' d,
    returns (fun fuel => thread_step true fuel (one_frame frame3) (FReturn 12288)
      (set_current None (sh (after true one_returns)))) (s', p', d) /\
    same_contents (mem (sh (after true one_returns))) (mem s') (8192, 100).
Proof.
  destruct (threads_are_safe true (after true one_returns) (after_reachable _ _)) as (_&H).
  destruct (H [] (mk_thread None (FReturn 12288)) [mk_thread (Some 0) (ASearch r100)] (one_frame frame3))
    as (s'&p'&d&R&_&Hs&_); [by vm_compute|done|apply frame_okb_spec; by vm_compute|].
  exists s', p', d. split; [exact R|]. apply Hs. apply (bool_decide_unpack _). by vm_compute.
Defined.

(** The second thread returns its block, which then is a client's. *)
Lemma threads_refine_heap_witness :
  exists w, wact true (Run 1 frame3) (after true (both_fill ++ [Run 1 frame3])) = Some w /\
    heap_step (owned (after true (both_fill ++ [Run 1 frame3]))) (owned w).
Proof.
  assert (match wact true (Run 1 frame3) (after true (both_fill ++ [Run 1 frame3])) with
    | Some _ => true | None => false end = true) as H by by vm_compute.
  destruct (wact true (Run 1 frame3) (after true (both_fill ++ [Run 1 frame3]))) as [w|] eqn:E; [|done].
  exists w. split; [done|].
  apply (threads_refine_heap true (after true (both_fill ++ [Run 1 frame3])) w (after_reachable _ _)).
  exact (wact_step _ _ _ _ E).
Defined.

(** Between the two updates: 80 units are in use, and one page is not counted yet. *)
Lemma indivisible_counter_is_exact_witness :
  returns (fun fuel => sys_slob_units_used fuel (sh (after true one_counted))) (-1968) /\
  returns (fun fuel => sys_slob_units_used fuel (sh (after true no_loss))) 80.
Proof.
  split.
  - destruct (indivisible_counter_is_exact (after true one_counted) (after_reachable _ _)) as (g&_&_&H&_).
    assert (wraps BITS_PER_LONG (held_units (owned (after true one_counted)) -
      PU * sumZ (fun t => debt (pc t)) (ths (after true one_counted))) = -1968) as E by by vm_compute.
    rewrite E in H. exact H.
  - destruct (indivisible_counter_is_exact (after true no_loss) (after_reachable _ _)) as (g&_&_&H&_&Hi&_).
    destruct Hi as [Ew Eo]; [apply all_idle_spec; by vm_compute|]. rewrite Ew, Eo in H.
    assert (wraps BITS_PER_LONG (held_units (client (after true no_loss)) - PU * 0) = 80) as E by by vm_compute.
    rewrite E in H. exact H.
Defined.
