(* ===== verification/Kmalloc.v ===== *)
(** The front end of the slob allocator: assignments/a4/slob.c, lines 449-672.

    kmalloc puts the size of an object in front of it and takes the block from
    slob_alloc, or whole pages from the page allocator; kfree reads the size
    back. A kmem_cache has objects of one size; those of a cache with
    SLAB_DESTROY_BY_RCU are freed by a callback, their last bytes hold the
    rcu_head and the size the callback needs. The tracing, lockdep and kmemleak
    hooks do not change the state and are left out. *)
From S2P Require Import Prelude ListHead Kernel SlobBlocks Slob SlobFuel.

(** What the front end uses of the rest of the kernel. *)
Class Mm : Type := {
  ARCH_KMALLOC_MINALIGN : Z;
  ARCH_SLAB_MINALIGN : Z;
  gfp_allowed_mask : Z;
  __GFP_COMP : Z;
  SLAB_DESTROY_BY_RCU : Z;
  SLAB_PANIC : Z;
  sizeof_kmem_cache : Z;
  get_order : Z -> Z;
  sizeof_rcu_head : Z;
  (* call_rcu(head, func) stores its bookkeeping in *head *)
  rcu_store : (Z -> Z) -> Z -> (Z -> Z);
}.

Class MmLaws `{Kernel, Mm} : Prop := {
  minalign_law : exists k, 2 <= k <= 11 /\ Z.max ARCH_KMALLOC_MINALIGN ARCH_SLAB_MINALIGN = 2 ^ k;
  long_law : BITS_PER_LONG = 32 \/ BITS_PER_LONG = 64;
  get_order_law size : PAGE_SIZE <= 2 * size -> 0 <= get_order size /\ size <= PAGE_SIZE * 2 ^ get_order size;
  panic_law : SLAB_PANIC .& SLAB_DESTROY_BY_RCU = 0;
  kmem_cache_law : 0 < sizeof_kmem_cache < 2 ^ 31;
  kmalloc_minalign_law : exists k, 1 <= k <= 11 /\ ARCH_KMALLOC_MINALIGN = 2 ^ k;
  rcu_head_law : 0 < sizeof_rcu_head <= 64 /\ (2 | sizeof_rcu_head);
  (* it writes the units of the rcu_head only *)
  rcu_store_law m head a :
    (forall i, 0 <= 2 * i < sizeof_rcu_head -> a ≠ head + 2 * i) -> rcu_store m head a = m a;
}.

Record kmem_cache : Type := mk_cache {
  c_size : Z;                                  (* unsigned int size *)
  c_align : Z;
  c_flags : Z;
  ctor : option ((Z -> Z) -> Z -> (Z -> Z));   (* its effect on memory *)
}.

Record kstate (L : Type) : Type := mk_kstate {
  slob : state L;
  returned : list (Z * Z);    (* calls of __free_pages(page, order), last first *)
  rcu_pending : list Z;       (* rcu_heads waiting for kmem_rcu_free, last first *)
}.
Arguments mk_kstate {L}. Arguments slob {L}. Arguments returned {L}. Arguments rcu_pending {L}.

Section Kmalloc.
Context {K : Kernel} {M : Mm} {L : Type} {LO : ListOps L}.
Implicit Types (m : Z -> Z) (s : kstate L).

Definition with_slob (sl : state L) s : kstate L := mk_kstate sl (returned s) (rcu_pending s).
Definition kmem s : Z -> Z := mem (slob s).
Definition with_kmem m s : kstate L := with_slob (with_mem m (slob s)) s.

(** An unsigned int in slobidx_t memory, little-endian. *)
Definition store_uint m (a v : Z) : Z -> Z :=
  if slobidx_bits =? 16
  then <[ptr_add a 1 := to_slobidx (Z.shiftr v 16)]> (<[a := to_slobidx v]> m)
  else <[a := to_slobidx v]> m.

Definition load_uint m (a : Z) : Z :=
  if slobidx_bits =? 16
  then wrapu 16 (m a) + Z.shiftl (wrapu 16 (m (ptr_add a 1))) 16
  else wrapu 32 (m a).

Definition load_int m (a : Z) : Z := wraps 32 (load_uint m a).

(** *** kmalloc *)
Definition kmalloc_align : Z := Z.max ARCH_KMALLOC_MINALIGN ARCH_SLAB_MINALIGN.

(** The object fits in a slob page together with its header. *)
Definition small_size (size : Z) : bool :=
  size <? wrapu BITS_PER_LONG (PAGE_SIZE - kmalloc_align).

Definition __do_kmalloc_node (fuel : nat) (src : page_source) (size gfp node : Z) s :
    res (kstate L * Z) :=
  let align := kmalloc_align in
  let gfp := gfp .& gfp_allowed_mask in
  if small_size size then
    if size =? 0 then Ret (s, ZERO_SIZE_PTR)
    else
      '(sl, m) ← slob_alloc fuel src (size + align) gfp align node (slob s);
      let s := with_slob sl s in
      if m =? NULL then Ret (s, NULL)
      else Ret (with_kmem (store_uint (kmem s) m size) s, m + align)
  else
    let order := get_order size in
    let gfp := if negb (order =? 0) then gfp .| __GFP_COMP else gfp in
    Ret (s, slob_new_pages src gfp order node).

Definition __kmalloc fuel src size gfp s : res (kstate L * Z) :=
  __do_kmalloc_node fuel src size gfp NUMA_NO_NODE s.

Definition __kmalloc_node fuel src size gfp node s : res (kstate L * Z) :=
  __do_kmalloc_node fuel src size gfp node s.

(** [compound_order sp]: the order of the compound page at [sp] now. *)
Definition kfree (fuel : nat) (compound_order : Z -> Z) (block : Z) s : res (kstate L * unit) :=
  if ZERO_OR_NULL_PTR block then Ret (s, tt)
  else
    let sp := virt_to_page block in
    if PageSlab (page_at (slob s) sp) then
      let align := kmalloc_align in
      let m := block - align in
      '(sl, _) ← slob_free fuel m (wraps 32 (load_uint (kmem s) m + align)) (slob s);
      Ret (with_slob sl s, tt)
    else Ret (mk_kstate (slob s) ((sp, compound_order sp) :: returned s) (rcu_pending s), tt).

Definition ksize (compound_order : Z -> Z) (block : Z) s : res Z :=
  if block =? NULL then Bug
  else if block =? ZERO_SIZE_PTR then Ret 0
  else
    let sp := virt_to_page block in
    if negb (PageSlab (page_at (slob s) sp))
    then Ret (wrapu BITS_PER_LONG (Z.shiftl PAGE_SIZE (compound_order sp)))
    else
      let m := block - kmalloc_align in
      Ret (wrapu BITS_PER_LONG (SLOB_UNITS (load_uint (kmem s) m) * SLOB_UNIT)).

(** *** kmem_cache *)

(** sizeof(struct slob_rcu): an rcu_head and an int, padded to a pointer. *)
Definition sizeof_slob_rcu : Z := ALIGN (sizeof_rcu_head + 4) (BITS_PER_LONG / 8).

Definition __kmem_cache_create (c : kmem_cache) (flags : Z) : kmem_cache * Z :=
  let size :=
    if negb (flags .& SLAB_DESTROY_BY_RCU =? 0)
    then wrapu 32 (c_size c + sizeof_slob_rcu) else c_size c in
  (mk_cache size (c_align c) flags (ctor c), 0).

Definition run_ctor (c : kmem_cache) (b : Z) s : kstate L :=
  match ctor c with
  | Some f => if negb (b =? NULL) then with_kmem (f (kmem s) b) s else s
  | None => s
  end.

Definition slob_alloc_node (fuel : nat) (src : page_source) (c : kmem_cache) (flags node : Z) s :
    res (kstate L * Z) :=
  let flags := flags .& gfp_allowed_mask in
  '(s, b) ←
    (if c_size c <? PAGE_SIZE then
       '(sl, b) ← slob_alloc fuel src (c_size c) flags (c_align c) node (slob s);
       Ret (with_slob sl s, b)
     else Ret (s, slob_new_pages src flags (get_order (c_size c)) node));
  Ret (run_ctor c b s, b).

Definition kmem_cache_alloc fuel src c flags s : res (kstate L * Z) :=
  slob_alloc_node fuel src c flags NUMA_NO_NODE s.

Definition kmem_cache_alloc_node fuel src c gfp node s : res (kstate L * Z) :=
  slob_alloc_node fuel src c gfp node s.

(** [size] is an int; the comparison with PAGE_SIZE is unsigned. *)
Definition __kmem_cache_free (fuel : nat) (b size : Z) s : res (kstate L * unit) :=
  if wrapu BITS_PER_LONG size <? PAGE_SIZE then
    '(sl, _) ← slob_free fuel b size (slob s);
    Ret (with_slob sl s, tt)
  else Ret (with_slob (slob_free_pages b (get_order (wrapu BITS_PER_LONG size)) (slob s)) s, tt).

Definition kmem_rcu_free (fuel : nat) (head : Z) s : res (kstate L * unit) :=
  let size := load_int (kmem s) (head + sizeof_rcu_head) in
  let b := head - (size - sizeof_slob_rcu) in
  __kmem_cache_free fuel b size s.

Definition kmem_cache_free (fuel : nat) (c : kmem_cache) (b : Z) s : res (kstate L * unit) :=
  if negb (c_flags c .& SLAB_DESTROY_BY_RCU =? 0) then
    let slob_rcu := b + (c_size c - sizeof_slob_rcu) in
    let m := store_uint (kmem s) (slob_rcu + sizeof_rcu_head) (c_size c) in
    let m := rcu_store m slob_rcu in
    Ret (mk_kstate (with_mem m (slob s)) (returned s) (slob_rcu :: rcu_pending s), tt)
  else __kmem_cache_free fuel b (wraps 32 (c_size c)) s.

Definition __kmem_cache_shutdown (c : kmem_cache) : Z := 0.
Definition kmem_cache_shrink (d : kmem_cache) : Z := 0.

(** *** Boot *)

(** The cache of caches. *)
Definition kmem_cache_boot : kmem_cache :=
  mk_cache sizeof_kmem_cache ARCH_KMALLOC_MINALIGN SLAB_PANIC None.

(** The globals kmem_cache and slab_state; slob.c sets two of the states. None:
    what they are before kmem_cache_init. *)
Inductive slab_phase : Type := UP | FULL.

Record globals : Type := mk_globals {
  kmem_cache_ptr : option kmem_cache;
  slab_state : option slab_phase;
}.

Definition kmem_cache_init (g : globals) : globals := mk_globals (Some kmem_cache_boot) (Some UP).
Definition kmem_cache_init_late (g : globals) : globals := mk_globals (kmem_cache_ptr g) (Some FULL).

(** *** More fuel never changes an answer *)
Lemma kmalloc_mono src size gfp node s :
  fuel_mono (fun fuel => __do_kmalloc_node fuel src size gfp node s).
Proof.
  intros n n' x. unfold __do_kmalloc_node. destruct (small_size _); [|done]. destruct (size =? 0); [done|].
  destruct (slob_alloc n _ _ _ _ _ _) as [p| |] eqn:E; [|done..]. intros Ex Hn.
  by rewrite (slob_alloc_mono _ _ _ _ _ _ _ _ _ E Hn).
Qed.

Lemma kfree_mono co block s : fuel_mono (fun fuel => kfree fuel co block s).
Proof.
  intros n n' x. unfold kfree. destruct (ZERO_OR_NULL_PTR _); [done|]. destruct (PageSlab _); [|done].
  destruct (slob_free n _ _ _) as [p| |] eqn:E; [|done..]. intros Ex Hn.
  by rewrite (slob_free_mono _ _ _ _ _ _ E Hn).
Qed.

Lemma cache_alloc_mono src c flags node s :
  fuel_mono (fun fuel => slob_alloc_node fuel src c flags node s).
Proof.
  intros n n' x. unfold slob_alloc_node. destruct (_ <? _); [|done].
  destruct (slob_alloc n _ _ _ _ _ _) as [p| |] eqn:E; [|done..]. intros Ex Hn.
  by rewrite (slob_alloc_mono _ _ _ _ _ _ _ _ _ E Hn).
Qed.

Lemma cache_free_mono b size s : fuel_mono (fun fuel => __kmem_cache_free fuel b size s).
Proof.
  intros n n' x. unfold __kmem_cache_free. destruct (_ <? _); [|done].
  destruct (slob_free n _ _ _) as [p| |] eqn:E; [|done..]. intros Ex Hn.
  by rewrite (slob_free_mono _ _ _ _ _ _ E Hn).
Qed.
End Kmalloc.
