(* ===== verification/KmallocRuns.v ===== *)
(** Runs of the front end. The objects handed out and not yet given back are
    tracked; every run is a run of the allocator underneath, whose invariant
    carries over, and the sizes stored next to the objects stay intact. *)
From S2P Require Import Prelude ListHead Kernel SlobBlocks Slob SlobFuel SlobPage SlobSearch SlobInv SlobAlloc SlobFree SlobAcct SlobRuns SlobFlags Kmalloc.

(** What a client got: from kmalloc (with its size) out of a slob page or as whole
    pages, from a cache likewise, or an object waiting for its RCU callback. *)
Inductive kblock : Type :=
| Kmalloc (p size : Z)
| Kpages (p size : Z)
| Object (p : Z) (c : kmem_cache)
| Opages (p : Z) (c : kmem_cache)
| Deferred (b : Z) (c : kmem_cache).

Section KmallocRuns.
Context {K : Kernel} {KL : KernelLaws} {M : Mm} {ML : MmLaws}.
Context {L : Type} {LO : ListOps L} {LL : ListLaws L}.
Implicit Types (m : Z -> Z) (s : kstate L).

(** *** The stored sizes *)
Lemma store_uint_eq m a v :
  store_uint m a v = <[a + 2 := to_slobidx (Z.shiftr v 16)]> (<[a := to_slobidx v]> m).
Proof. unfold store_uint. by rewrite slobidx_bits_16, ptr_add_eq. Qed.

Lemma load_uint_eq m a : load_uint m a = m a mod 65536 + 65536 * (m (a + 2) mod 65536).
Proof.
  unfold load_uint. rewrite slobidx_bits_16, Z.eqb_refl, ptr_add_eq, Z.shiftl_mul_pow2 by lia.
  unfold wrapu. change (2 ^ 16) with 65536. rewrite Z.mul_1_r. lia.
Qed.

Lemma load_uint_ext m m' a : m' a = m a -> m' (a + 2) = m (a + 2) -> load_uint m' a = load_uint m a.
Proof. intros E1 E2. by rewrite !load_uint_eq, E1, E2. Qed.

Lemma to_slobidx_mod x : to_slobidx x mod 65536 = x mod 65536.
Proof.
  unfold to_slobidx. rewrite slobidx_bits_16. unfold wraps.
  change (2 ^ 16) with 65536. change (2 ^ (16 - 1)) with 32768.
  rewrite Zminus_mod_idemp_l. f_equal. lia.
Qed.

Lemma load_store_uint m a v : 0 <= v < 2 ^ 32 -> load_uint (store_uint m a v) a = v.
Proof.
  intros Hv. rewrite load_uint_eq, store_uint_eq, (fn_lookup_insert _ (a + 2)).
  rewrite (fn_lookup_insert_ne _ (a + 2)), (fn_lookup_insert _ a) by lia.
  rewrite !to_slobidx_mod, Z.shiftr_div_pow2 by lia.
  change (2 ^ 16) with 65536. change (2 ^ 32) with (65536 * 65536) in Hv.
  rewrite (Z.mod_small (v / 65536)) by (split; [apply Z.div_pos|apply Z.div_lt_upper_bound]; lia).
  pose proof (Z.div_mod v 65536). lia.
Qed.

Lemma store_uint_in m a v b size i :
  a = b + 2 * i -> 0 <= i -> i + 1 < SLOB_UNITS size -> writes_in m (store_uint m a v) (b, size).
Proof.
  intros -> Hi Hs x Hx. simpl in Hx. rewrite store_uint_eq.
  rewrite !fn_lookup_insert_ne; [done|..].
  - intros E. apply (Hx i); lia.
  - intros E. apply (Hx (i + 1)); lia.
Qed.

Lemma align_facts : 4 <= kmalloc_align <= 2048 /\ (2 | kmalloc_align) /\
  exists k, 1 <= k <= 12 /\ kmalloc_align = 2 ^ k.
Proof.
  destruct minalign_law as (k&Hk&E). unfold kmalloc_align. rewrite E.
  assert (2 ^ 2 <= 2 ^ k) by (apply Z.pow_le_mono_r; lia).
  assert (2 ^ k <= 2 ^ 11) by (apply Z.pow_le_mono_r; lia).
  split; [lia|]. split; [|exists k; lia]. exists (2 ^ (k - 1)).
  rewrite Z.mul_comm, <- Z.pow_succ_r by lia. f_equal. lia.
Qed.

Lemma small_size_spec size : small_size size = true <-> size < PAGE_SIZE - kmalloc_align.
Proof.
  unfold small_size. destruct align_facts as (?&_). rewrite wrapu_small, Z.ltb_lt; [done|].
  rewrite page_size_law. assert (2 ^ 32 <= 2 ^ BITS_PER_LONG) by
    (apply Z.pow_le_mono_r; [lia|apply bits_per_long_law]). lia.
Qed.

Lemma rcu_facts : sizeof_rcu_head + 4 <= sizeof_slob_rcu <= 76 /\ (2 | sizeof_slob_rcu).
Proof.
  destruct rcu_head_law as (?&_). unfold sizeof_slob_rcu.
  assert (exists k, (k = 2 \/ k = 3) /\ BITS_PER_LONG / 8 = 2 ^ k) as (k&Hk&->).
  { destruct long_law as [->| ->]; [exists 2|exists 3]; split; (lia || done). }
  destruct (align_law (sizeof_rcu_head + 4) k) as (?&D); [lia..|].
  assert (2 ^ k <= 8) by by destruct Hk as [->| ->].
  split; [lia|]. etrans; [|exact D]. by destruct Hk as [->| ->]; [exists 2|exists 4].
Qed.

(** *** Configurations *)
Definition rcu_cache (c : kmem_cache) : bool := negb (c_flags c .& SLAB_DESTROY_BY_RCU =? 0).
Definition rcu_head_of (b : Z) (c : kmem_cache) : Z := b + (c_size c - sizeof_slob_rcu).

(** The block of the slob allocator behind an object, its pages, its rcu_head. *)
Definition slob_block (k : kblock) : option (Z * Z) :=
  match k with
  | Kmalloc p size => Some (p - kmalloc_align, size + kmalloc_align)
  | Object b c | Deferred b c => Some (b, c_size c)
  | Kpages _ _ | Opages _ _ => None
  end.

Definition pages_of (size : Z) : Z := PAGE_SIZE * 2 ^ get_order size.

Definition page_block (k : kblock) : option (Z * Z) :=
  match k with
  | Kpages p size => Some (p, pages_of size)
  | Opages b c => Some (b, pages_of (c_size c))
  | _ => None
  end.

Definition pending_head (k : kblock) : option Z :=
  match k with Deferred b c => Some (rcu_head_of b c) | _ => None end.

(** The bytes of the object itself. *)
Definition user_bytes (k : kblock) : Z * Z :=
  match k with
  | Kmalloc p size | Kpages p size => (p, size)
  | Object b c | Opages b c | Deferred b c => (b, c_size c)
  end.

(** What kmem_cache_create guarantees: a positive int size, a power of two (or
    no) alignment, room for the RCU footer, a constructor that keeps to its
    object. *)
Record cache_ok (c : kmem_cache) : Prop := {
  co_size : 0 < c_size c < 2 ^ 31;
  co_align : c_align c = 0 \/ exists k, 1 <= k <= 12 /\ c_align c = 2 ^ k;
  co_rcu : rcu_cache c = true -> c_size c < PAGE_SIZE /\ (2 | c_size c) /\ sizeof_slob_rcu <= c_size c;
  co_ctor f m b : ctor c = Some f -> writes_in m (f m b) (b, c_size c);
}.

Definition kblock_ok m (k : kblock) : Prop :=
  match k with
  | Kmalloc p size => 0 < size /\ small_size size = true /\ load_uint m (p - kmalloc_align) = size
  | Kpages p size => small_size size = false
  | Object b c => cache_ok c /\ c_size c < PAGE_SIZE
  | Opages b c => cache_ok c /\ PAGE_SIZE <= c_size c
  | Deferred b c => cache_ok c /\ rcu_cache c = true /\
      load_uint m (rcu_head_of b c + sizeof_rcu_head) = c_size c
  end.

Record kconfig : Type := mk_kconfig { kst : kstate L; kheld : list kblock }.

Definition slob_config (kc : kconfig) : config (L := L) :=
  mk_config (slob (kst kc)) (omap slob_block (kheld kc)).

Record kinv (kc : kconfig) : Prop := {
  ki_slob : exists g, config_inv (slob_config kc) g;
  ki_blocks : Forall (kblock_ok (kmem (kst kc))) (kheld kc);
  ki_base q n : (q, n) ∈ omap page_block (kheld kc) -> is_base q;
  ki_pages q n a : (q, n) ∈ omap page_block (kheld kc) -> q <= a < q + n ->
    slab_of (slob (kst kc)) (virt_to_page a) = false;
  ki_apart : ForallOrdPairs bytes_disjoint (omap page_block (kheld kc));
  ki_pending : rcu_pending (kst kc) ≡ₚ omap pending_head (kheld kc);
}.

(** *** What the allocator leaves alone *)

(** The contents of whole pages, and of all objects of a list: their slob blocks
    and their pages. *)
Definition pages_same (pgs : list (Z * Z)) (m m' : Z -> Z) : Prop :=
  forall q n a, (q, n) ∈ pgs -> q <= a < q + n -> m' a = m a.

Definition same_objects (l : list kblock) (m m' : Z -> Z) : Prop :=
  (forall p, p ∈ omap slob_block l -> same_contents m m' p) /\ pages_same (omap page_block l) m m'.

Lemma pages_same_slabs (sl : state L) pgs m m' :
  (forall q n a, (q, n) ∈ pgs -> q <= a < q + n -> slab_of sl (virt_to_page a) = false) ->
  wrote_slabs sl m m' -> pages_same pgs m m'.
Proof. intros Hs W q n a Hq Ha. apply W. by apply (Hs q n). Qed.

Lemma kblock_ok_ext m m' k :
  kblock_ok m k -> (forall p, slob_block k = Some p -> same_contents m m' p) -> kblock_ok m' k.
Proof.
  destruct k as [p size| | | |b c]; simpl; try done.
  - intros (Hs&Hb&El) Hm. split; [done|]. split; [done|]. rewrite <- El.
    specialize (Hm _ eq_refl). destruct align_facts as (?&_).
    pose proof (SLOB_UNITS_spec (size + kmalloc_align)).
    assert (2 <= SLOB_UNITS (size + kmalloc_align)) by lia. apply load_uint_ext.
    + rewrite <- (Z.add_0_r (p - _)). apply (Hm 0). simpl. lia.
    + apply (Hm 1). simpl. lia.
  - intros (Hc&Hr&El) Hm. split; [done|]. split; [done|]. rewrite <- El.
    specialize (Hm _ eq_refl). destruct (co_rcu _ Hc Hr) as (?&[i Hi]&?).
    destruct rcu_facts as (?&[j Hj]), rcu_head_law as (?&[k Hk]).
    pose proof (SLOB_UNITS_spec (c_size c)). unfold rcu_head_of.
    replace (b + _ + _) with (b + 2 * (i - j + k)) by lia. apply load_uint_ext.
    + apply Hm. simpl. lia.
    + replace (b + _ + 2) with (b + 2 * (i - j + k + 1)) by lia. apply Hm. simpl. lia.
Qed.

Lemma kblocks_ext m m' l :
  Forall (kblock_ok m) l -> (forall p, p ∈ omap slob_block l -> same_contents m m' p) ->
  Forall (kblock_ok m') l.
Proof.
  rewrite !Forall_forall. intros F Hm k Hk. eapply kblock_ok_ext; [by apply F|].
  intros p Ep. apply Hm, list_elem_of_omap. by exists k.
Qed.

(** Pages without PageSlab, such as those given out whole. *)
Definition no_slab (sl : state L) (q n : Z) : Prop :=
  forall a, q <= a < q + n -> slab_of sl (virt_to_page a) = false.

(** A slob page is not among them. *)
Lemma page_cells_apart (c : config (L := L)) g q n sp x :
  config_inv c g -> no_slab (st c) q n -> sp ∈ slabs g -> 0 <= x < PU -> ~ (q <= page_address sp + 2 * x < q + n).
Proof.
  intros [I _] Hq Hsp Hx Ha. assert (Isp := inv_pages _ _ I sp Hsp). pose proof (Hq _ Ha) as E.
  rewrite (virt_to_page_cell sp x (page_inv_frame_of _ _ _ Isp) Hx) in E.
  unfold slab_of in E. pose proof (pi_slab _ _ _ Isp) as E'. simpl in E'. congruence.
Qed.

(** Writing into whole pages concerns no slob block. *)
Lemma page_write (c : config (L := L)) g q n m' :
  config_inv c g -> no_slab (st c) q n -> (forall a, a < q \/ q + n <= a -> m' a = mem (st c) a) ->
  config_inv (mk_config (with_mem m' (st c)) (held c)) g /\
  forall p, p ∈ held c -> same_contents (mem (st c)) m' p.
Proof.
  intros CI Hq Hm. split.
  - split; [|apply CI]. apply inv_write; [apply CI|]. intros sp x Hsp Hx.
    assert (0 <= x < PU) as Hr.
    { eapply page_list_bounds; [|done]. apply (pi_list _ _ _ (inv_pages _ _ (proj1 CI) _ Hsp)). }
    apply Hm. pose proof (page_cells_apart c g q n sp x CI Hq Hsp Hr). lia.
  - intros p Hp i Hi. destruct (held_cell g c p i CI Hp Hi) as (sp&x&Hsp&Hx&->).
    apply Hm. pose proof (page_cells_apart c g q n sp x CI Hq Hsp Hx). lia.
Qed.

(** *** The page allocator hands out frames nobody uses *)

(** [n] bytes from the page of [sp] on are neither slab pages nor among [pgs]. *)
Definition frames_unused (sl : state L) (pgs : list (Z * Z)) (sp n : Z) : Prop :=
  is_frame sp /\ forall a, page_address sp <= a < page_address sp + n ->
    virt_to_page a ∉ heads /\ slab_of sl (virt_to_page a) = false /\
    forall q n', (q, n') ∈ pgs -> ~ (q <= a < q + n').

Definition source_unused (sl : state L) (pgs : list (Z * Z)) (src : page_source) : Prop :=
  forall gfp order node sp, 0 <= order ->
    sp = alloc_pages src gfp order \/ sp = alloc_pages_exact_node src node gfp order ->
    sp = NULL \/ frames_unused sl pgs sp (PAGE_SIZE * 2 ^ order).

Definition frames_fresh (kc : kconfig) (sp n : Z) : Prop :=
  frames_unused (slob (kst kc)) (omap page_block (kheld kc)) sp n.
Definition kfresh (kc : kconfig) (src : page_source) : Prop :=
  source_unused (slob (kst kc)) (omap page_block (kheld kc)) src.

Lemma frames_unused_self sl pgs sp n :
  0 < n -> frames_unused sl pgs sp n -> frame_free sl sp.
Proof.
  intros Hn [[B V] F]. destruct (F (page_address sp)) as (?&?&_); [lia|]. by rewrite V in *.
Qed.

Lemma source_unused_fresh sl pgs src : source_unused sl pgs src -> source_fresh sl src.
Proof.
  intros F gfp node. assert (0 < PAGE_SIZE * 2 ^ 0) as Hn by (rewrite page_size_law; lia).
  split.
  - destruct (F gfp 0 node (alloc_pages src gfp 0)) as [?|X]; [lia|by left|by left|right].
    by apply (frames_unused_self sl pgs _ _ Hn).
  - destruct (F gfp 0 node (alloc_pages_exact_node src node gfp 0)) as [?|X]; [lia|by right|by left|right].
    by apply (frames_unused_self sl pgs _ _ Hn).
Qed.

Lemma kfresh_slob kc src : kfresh kc src -> source_fresh (slob (kst kc)) src.
Proof. apply source_unused_fresh. Qed.

Lemma new_pages_unused sl pgs src gfp order node :
  source_unused sl pgs src -> 0 <= order ->
  slob_new_pages src gfp order node = NULL \/
  exists sp, frames_unused sl pgs sp (PAGE_SIZE * 2 ^ order) /\
    slob_new_pages src gfp order node = page_address sp.
Proof.
  intros F Ho. unfold slob_new_pages.
  set (sp := if CONFIG_NUMA && negb (node =? NUMA_NO_NODE) then _ else _). destruct (Z.eqb_spec sp NULL) as [|Hne]; [by left|].
  destruct (F gfp order node sp Ho) as [?|?]; [|done|right; by exists sp].
  unfold sp. destruct (_ && _); [by right|by left].
Qed.

Lemma new_pages_fresh kc src gfp order node :
  kfresh kc src -> 0 <= order ->
  slob_new_pages src gfp order node = NULL \/
  exists sp, frames_fresh kc sp (PAGE_SIZE * 2 ^ order) /\
    slob_new_pages src gfp order node = page_address sp.
Proof. apply new_pages_unused. Qed.

(** A page slob_alloc may take is not one of [pgs]. *)
Lemma new_page_elsewhere sl pgs src gfp node q n a :
  source_unused sl pgs src -> (q, n) ∈ pgs -> is_base q -> q <= a < q + n ->
  new_page_addr src gfp node = NULL \/ virt_to_page a ≠ virt_to_page (new_page_addr src gfp node).
Proof.
  intros F Hq [_ Bq] Ha. unfold new_page_addr.
  destruct (new_pages_unused sl pgs src (gfp .& Z.lnot __GFP_ZERO) 0 node F)
    as [->|(sp&[Fr X]&->)]; [lia|by left|right].
  intros Ev. destruct Fr as [[Bp Bm] V].
  assert (page_address sp = a - a mod 4096) as Ep.
  { rewrite <- page_mask_land, <- page_address_law, Ev, page_address_law, page_mask_land.
    rewrite Bm. lia. }
  destruct (X (page_address sp)) as (_&_&Xq); [rewrite page_size_law; lia|]. apply (Xq q n Hq).
  pose proof (Z.div_mod a 4096). pose proof (Z.div_mod q 4096).
  pose proof (Z.mod_pos_bound a 4096). lia.
Qed.

(** *** slob_alloc and slob_free below the front end *)

Lemma alloc_keeps_pages kc fuel src size gfp align node sl b q n a :
  kinv kc -> kfresh kc src ->
  slob_alloc fuel src size gfp align node (slob (kst kc)) = Ret (sl, b) ->
  (q, n) ∈ omap page_block (kheld kc) -> q <= a < q + n -> slab_of sl (virt_to_page a) = false.
Proof.
  intros KI F E Hq Ha. rewrite <- (ki_pages _ KI q n a Hq Ha). eapply slab_of_alloc; [exact E|].
  eapply new_page_elsewhere; [exact F|exact Hq|by eapply ki_base|done].
Qed.

Lemma kalloc_run kc src size gfp align node :
  kinv kc -> kfresh kc src -> request_ok size align ->
  exists sl b, returns (fun fuel => slob_alloc fuel src size gfp align node (slob (kst kc))) (sl, b) /\
    (b = NULL /\ sl = slob (kst kc) /\ slob_new_pages src (gfp .& Z.lnot __GFP_ZERO) 0 node = NULL \/
     b ≠ NULL /\ aligned_to align b /\
     (exists base, is_base base /\ base <= b /\ b + size <= base + PAGE_SIZE) /\
     (forall p, p ∈ omap slob_block (kheld kc) -> bytes_disjoint (b, size) p) /\
     same_objects (kheld kc) (kmem (kst kc)) (mem sl) /\
     (gfp .& __GFP_ZERO ≠ 0 -> forall i, 0 <= i < size / 2 -> mem sl (b + 2 * i) = 0) /\
     (exists g', config_inv (mk_config sl ((b, size) :: omap slob_block (kheld kc))) g') /\
     (forall q n a, (q, n) ∈ omap page_block (kheld kc) -> q <= a < q + n ->
        slab_of sl (virt_to_page a) = false)).
Proof.
  intros KI F R. destruct (ki_slob _ KI) as (g&CI).
  destruct (alloc_run (slob_config kc) g src size gfp align node CI R (kfresh_slob _ _ F))
    as (sl&b&E&[(?&?&?)|(?&?&?&?&?&?&W&?)]); exists sl, b; (split; [exact E|]); [by left|right].
  assert (forall q n a, (q, n) ∈ omap page_block (kheld kc) -> q <= a < q + n -> slab_of sl (virt_to_page a) = false)
    as Hs by (destruct E as [fu E]; intros q n a; eapply alloc_keeps_pages; eauto).
  do 4 (split; [done|]). split; [split; [done|by eapply pages_same_slabs]|]. by do 2 (split; [done|]).
Qed.

(** The pages of the others, when an object goes. *)
Lemma removed_pages kc l1 k l2 p :
  kheld kc = l1 ++ k :: l2 -> p ∈ omap page_block (l1 ++ l2) -> p ∈ omap page_block (kheld kc).
Proof.
  intros ->. rewrite !omap_app, !elem_of_app. intros [?|?]; [by left|right]. simpl.
  destruct (page_block k); [by right|done].
Qed.

Lemma kfree_run kc l1 k l2 b size :
  kinv kc -> kheld kc = l1 ++ k :: l2 -> slob_block k = Some (b, size) ->
  exists sl, returns (fun fuel => slob_free fuel b size (slob (kst kc))) (sl, tt) /\
    (exists g', config_inv (mk_config sl (omap slob_block (l1 ++ l2))) g') /\
    same_objects (l1 ++ l2) (kmem (kst kc)) (mem sl) /\
    (forall q n a, (q, n) ∈ omap page_block (kheld kc) -> q <= a < q + n ->
       slab_of sl (virt_to_page a) = false).
Proof.
  intros KI Eh Ek. destruct (ki_slob _ KI) as (g&CI).
  destruct (free_run (slob_config kc) g (omap slob_block l1) b size (omap slob_block l2) CI)
    as (sl&E&CI'&Hm&W); [simpl; by rewrite Eh, omap_app; simpl; rewrite Ek|].
  exists sl. split; [exact E|]. split; [by rewrite omap_app|]. split.
  { split; [by rewrite omap_app|]. eapply pages_same_slabs; [|exact W]. intros q n a Hq.
    by apply (ki_pages _ KI q n), (removed_pages kc l1 k l2). }
  destruct E as [fu E]. intros q n a Hq Ha. eapply slab_of_free; [by apply (E fu)|]. by apply (ki_pages _ KI q n).
Qed.
End KmallocRuns.
