(* ===== verification/KmallocOps.v ===== *)
(** The operations of the front end on a configuration that satisfies the
    invariant of KmallocRuns.v: each returns and keeps the invariant. *)
From S2P Require Import Prelude ListHead Kernel SlobBlocks Slob SlobFuel SlobPage SlobSearch SlobInv SlobAlloc SlobFree SlobAcct SlobRuns SlobFlags Kmalloc KmallocRuns.

(** Pairwise relations survive the removal of an element. *)
Lemma pairs_remove {A} (R : A -> A -> Prop) l1 x l2 :
  ForallOrdPairs R (l1 ++ x :: l2) -> ForallOrdPairs R (l1 ++ l2).
Proof.
  induction l1 as [|y l1 IH]; simpl; intros F; inversion F as [|? ? Fy F']; subst; [done|].
  constructor; [|by apply IH]. apply Forall_app in Fy as [F1 F2].
  apply Forall_app. split; [done|]. by apply Forall_cons in F2 as [_ ?].
Qed.

Lemma pairs_elem {A} (R : A -> A -> Prop) l1 x l2 y l3 :
  ForallOrdPairs R (l1 ++ x :: l2 ++ y :: l3) -> R x y.
Proof.
  induction l1 as [|z l1 IH]; simpl; intros F; inversion F as [|? ? Fz F']; subst; [|by apply IH].
  apply Forall_app in Fz as [_ Fz]. by apply Forall_cons in Fz as [? _].
Qed.

Lemma omap_middle {A B} (f : A -> option B) l1 x l2 :
  omap f (l1 ++ x :: l2) =
  omap f l1 ++ match f x with Some y => y :: omap f l2 | None => omap f l2 end.
Proof. by rewrite omap_app. Qed.

Lemma bytes_disjoint_sym p q : bytes_disjoint p q -> bytes_disjoint q p.
Proof. unfold bytes_disjoint. lia. Qed.

Section KmallocOps.
Context {K : Kernel} {KL : KernelLaws} {M : Mm} {ML : MmLaws}.
Context {L : Type} {LO : ListOps L} {LL : ListLaws L}.
Implicit Types (m : Z -> Z) (s : kstate L) (kc : kconfig (L := L)) (k : kblock).

Lemma same_contents_trans m1 m2 m3 p :
  same_contents m1 m2 p -> same_contents m2 m3 p -> same_contents m1 m3 p.
Proof. intros H12 H23 i Hi. rewrite H23 by done. by apply H12. Qed.

Lemma writes_in_mono m m' p q :
  writes_in m m' p ->
  (forall i, 0 <= i < SLOB_UNITS p.2 -> exists j, 0 <= j < SLOB_UNITS q.2 /\ p.1 + 2 * i = q.1 + 2 * j) ->
  writes_in m m' q.
Proof. intros W Hpq a Ha. apply W. intros i Hi ->. destruct (Hpq i Hi) as (j&Hj&E). by apply (Ha j). Qed.

(** *** Sizes *)
Lemma large_size_spec size : small_size size = false -> PAGE_SIZE <= 2 * size.
Proof.
  intros E. destruct align_facts as (?&_). rewrite page_size_law.
  destruct (decide (size < PAGE_SIZE - kmalloc_align)) as [Hs|Hs].
  - apply small_size_spec in Hs. congruence.
  - rewrite page_size_law in Hs. lia.
Qed.

Lemma pages_of_spec size : PAGE_SIZE <= 2 * size -> 0 <= get_order size /\ size <= pages_of size /\ PAGE_SIZE <= pages_of size.
Proof.
  intros Hs. destruct (get_order_law size Hs) as (?&?). split; [done|]. split; [done|].
  unfold pages_of. pose proof (Z.pow_pos_nonneg 2 (get_order size)). rewrite page_size_law. lia.
Qed.

Lemma page_block_size m k q n :
  kblock_ok m k -> page_block k = Some (q, n) ->
  q = (user_bytes k).1 /\ 0 < (user_bytes k).2 <= n /\ PAGE_SIZE <= n.
Proof.
  destruct k as [| p size | | p c |]; simpl; intros Hok [= <- <-].
  - apply large_size_spec in Hok. destruct (pages_of_spec _ Hok) as (?&?&?).
    rewrite page_size_law in *. lia.
  - destruct Hok as (_&Hc). assert (PAGE_SIZE <= 2 * c_size c) as H2 by (rewrite page_size_law in *; lia).
    destruct (pages_of_spec _ H2) as (?&?&?). rewrite page_size_law in *. lia.
Qed.

Lemma slob_block_size m k p :
  kblock_ok m k -> slob_block k = Some p ->
  p.1 <= (user_bytes k).1 /\ 0 < (user_bytes k).2 /\ (user_bytes k).1 + (user_bytes k).2 = p.1 + p.2.
Proof.
  destruct align_facts as (?&_).
  destruct k as [q size | | b c | | b c]; simpl; intros Hok [= <-]; simpl.
  - destruct Hok as (?&_). lia.
  - destruct Hok as ([Hc _ _ _]&_). lia.
  - destruct Hok as ([Hc _ _ _]&_). lia.
Qed.

(** Every block is one or the other. *)
Lemma block_cases k : (exists p, slob_block k = Some p /\ page_block k = None) \/
  (exists q, page_block k = Some q /\ slob_block k = None).
Proof. destruct k; simpl; eauto. Qed.

(** *** Slob blocks lie in slob pages *)
Lemma base_of base a : is_base base -> base <= a < base + PAGE_SIZE -> a .& PAGE_MASK = base.
Proof.
  rewrite page_size_law. intros [_ B] Ha. rewrite page_mask_land.
  pose proof (Z.div_mod a 4096). pose proof (Z.div_mod base 4096).
  pose proof (Z.mod_pos_bound a 4096). lia.
Qed.

Lemma held_page g (c : config (L := L)) p :
  config_inv c g -> p ∈ held c ->
  4096 <= p.1 /\ forall a, p.1 <= a < p.1 + p.2 -> slab_of (st c) (virt_to_page a) = true.
Proof.
  intros CI Hp. apply list_elem_of_split in Hp as (l1&l2&Eh).
  destruct (held_split _ _ _ _ _ CI Eh) as (k1&o&k2&El&Ho&_).
  assert (o ∈ live g) as Hl by (rewrite El; set_solver).
  destruct (obj_bytes _ _ _ _ (proj1 CI) Hl Ho) as (B&?&?).
  destruct (oi_range _ _ _ (inv_objs _ _ (proj1 CI)) o Hl) as (Hs&_).
  assert (Isp := inv_pages _ _ (proj1 CI) _ Hs). split.
  - destruct B as [B1 B2]. pose proof (Z.div_mod (page_address (o_page o)) 4096). lia.
  - intros a Ha. rewrite (virt_to_page_law a (page_address (o_page o))).
    + rewrite (pi_virt _ _ _ Isp). apply (pi_slab _ _ _ Isp).
    + rewrite (base_of _ a B) by lia. symmetry. apply base_of; [done|]. rewrite page_size_law. lia.
Qed.

(** *** Distinct objects do not overlap *)
Lemma in_omap {B} (f : kblock -> option B) kc k p : k ∈ kheld kc -> f k = Some p -> p ∈ omap f (kheld kc).
Proof. intros ? ?. apply list_elem_of_omap. by exists k. Qed.

(** Part of a slob block and part of a page without PageSlab. *)
Lemma block_page_apart g (c : config (L := L)) p q n x y :
  config_inv c g -> p ∈ held c -> no_slab (st c) q n ->
  p.1 <= x.1 /\ 0 < x.2 /\ x.1 + x.2 = p.1 + p.2 -> q = y.1 /\ 0 < y.2 <= n -> bytes_disjoint x y.
Proof.
  intros CI Hp Hq Hx (->&Hy). destruct (held_page g c p CI Hp) as [_ Hs]. unfold bytes_disjoint.
  destruct (decide (x.1 + x.2 <= y.1)); [by left|]. destruct (decide (y.1 + y.2 <= x.1)); [by right|].
  set (a := Z.max x.1 y.1). pose proof (Hq a ltac:(lia)) as Ef. rewrite Hs in Ef by lia. done.
Qed.

Lemma mixed_apart kc k k' p q :
  kinv kc -> k ∈ kheld kc -> k' ∈ kheld kc -> slob_block k = Some p -> page_block k' = Some q ->
  bytes_disjoint (user_bytes k) (user_bytes k').
Proof.
  intros KI Hk Hk' Ep Eq. destruct (ki_slob _ KI) as (g&CI), q as [q n].
  pose proof (ki_blocks _ KI) as F. rewrite Forall_forall in F.
  destruct (page_block_size _ _ _ _ (F _ Hk') Eq) as (?&?&_).
  eapply (block_page_apart g (slob_config kc) p q n); [exact CI|exact (in_omap slob_block _ _ _ Hk Ep)| |by eapply slob_block_size; [apply F|]|done].
  intros a. apply (ki_pages _ KI q n). by eapply in_omap.
Qed.

Lemma kheld_apart kc l1 k1 l2 k2 l3 :
  kinv kc -> kheld kc = l1 ++ k1 :: l2 ++ k2 :: l3 -> bytes_disjoint (user_bytes k1) (user_bytes k2).
Proof.
  intros KI Eh. destruct (ki_slob _ KI) as (g&CI).
  assert (k1 ∈ kheld kc /\ k2 ∈ kheld kc) as [H1 H2] by (rewrite Eh; set_solver).
  pose proof (ki_blocks _ KI) as F. rewrite Forall_forall in F.
  pose proof (F _ H1) as O1. pose proof (F _ H2) as O2.
  destruct (block_cases k1) as [(p1&E1&_)|([q1 n1]&E1&_)], (block_cases k2) as [(p2&E2&_)|([q2 n2]&E2&_)].
  - assert (omap slob_block (kheld kc) = omap slob_block l1 ++ p1 :: omap slob_block l2 ++ p2 :: omap slob_block l3) as Eo
      by by rewrite Eh, omap_middle, E1, omap_middle, E2.
    destruct (held_pair g (slob_config kc) _ _ _ _ _ CI Eo) as (o1&o2&l&El&Ho1&Ho2).
    pose proof (objs_bytes_disjoint _ _ _ _ _ _ _ (proj1 CI) El Ho1 Ho2) as D.
    destruct (slob_block_size _ _ _ O1 E1) as (?&?&?), (slob_block_size _ _ _ O2 E2) as (?&?&?).
    unfold bytes_disjoint in *. lia.
  - by eapply (mixed_apart kc k1 k2).
  - apply bytes_disjoint_sym. by eapply (mixed_apart kc k2 k1).
  - pose proof (ki_apart _ KI) as P. rewrite Eh, omap_middle, E1, omap_middle, E2 in P.
    apply pairs_elem in P.
    destruct (page_block_size _ _ _ _ O1 E1) as (->&?&?), (page_block_size _ _ _ _ O2 E2) as (->&?&?).
    unfold bytes_disjoint in *. simpl in P. lia.
Qed.

(** *** Taking and giving back *)

(** A new slob block: the memory may differ from what slob_alloc left inside it. *)
Lemma kinv_add_slob kc sl b size k m' :
  kinv kc -> slob_block k = Some (b, size) -> pending_head k = None ->
  (exists g, config_inv (mk_config sl ((b, size) :: omap slob_block (kheld kc))) g) ->
  same_objects (kheld kc) (kmem (kst kc)) (mem sl) ->
  (forall q n a, (q, n) ∈ omap page_block (kheld kc) -> q <= a < q + n ->
     slab_of sl (virt_to_page a) = false) ->
  writes_in (mem sl) m' (b, size) -> kblock_ok m' k ->
  kinv (mk_kconfig (with_slob (with_mem m' sl) (kst kc)) (k :: kheld kc)) /\
  same_objects (kheld kc) (kmem (kst kc)) m'.
Proof.
  intros KI Ek Hpend (g&CI) [Hm Hp] Hs W Ok.
  assert (same_objects (kheld kc) (kmem (kst kc)) m') as Hm'.
  { split; [|intros q n a Hq Ha; rewrite <- (Hp q n a Hq Ha); eapply pages_same_slabs; [exact Hs| |done..]].
    2: { apply (wrote_held (mk_config sl ((b, size) :: omap slob_block (kheld kc))) g (b, size)); [done|by left|done]. }
    intros p Hx. eapply same_contents_trans; [by apply Hm|].
    apply (write_others _ g [] (b, size) (omap slob_block (kheld kc)) p _ CI); done. }
  assert (page_block k = None) as Ep by (by destruct k).
  split; [|done]. split; unfold slob_config; simpl; rewrite ?Ek, ?Ep, ?Hpend.
  - exists g. apply (write_run _ g (b, size) m' CI); [by left|done].
  - constructor; [done|]. eapply kblocks_ext; [apply KI|apply Hm'].
  - apply KI.
  - done.
  - apply KI.
  - apply KI.
Qed.

(** New whole pages. *)
Lemma kinv_add_pages kc k sp n :
  kinv kc -> page_block k = Some (page_address sp, n) -> kblock_ok (kmem (kst kc)) k ->
  frames_fresh kc sp n -> kinv (mk_kconfig (kst kc) (k :: kheld kc)).
Proof.
  intros KI Ep Ok [[B V] X]. destruct (page_block_size _ _ _ _ Ok Ep) as (_&_&Hn).
  rewrite page_size_law in Hn.
  assert (slob_block k = None /\ pending_head k = None) as [Ek Hpend] by (by destruct k).
  split; unfold slob_config; simpl; rewrite ?Ep, ?Ek, ?Hpend; try apply KI.
  - constructor; [done|apply KI].
  - intros q n'. rewrite elem_of_cons. intros [[= -> ->]|Hq]; [done|by eapply ki_base].
  - intros q n' a. rewrite elem_of_cons. intros [[= -> ->]|Hq] Ha; [by apply X|by eapply ki_pages].
  - constructor; [|apply KI]. apply Forall_forall. intros [q n'] Hq. unfold bytes_disjoint. simpl.
    destruct (decide (page_address sp + n <= q)); [by left|].
    destruct (decide (q + n' <= page_address sp)); [by right|].
    destruct (X (Z.max (page_address sp) q)) as (_&_&Xq); [lia|]. exfalso. apply (Xq q n' Hq).
    apply list_elem_of_omap in Hq as (k'&Hk'&Eq). pose proof (ki_blocks _ KI) as F.
    rewrite Forall_forall in F. destruct (page_block_size _ _ _ _ (F _ Hk') Eq) as (_&?&?). lia.
Qed.

(** An object given back to slob_free. *)
Lemma kinv_remove kc sl l1 k l2 rc :
  kinv kc -> kheld kc = l1 ++ k :: l2 ->
  (exists g, config_inv (mk_config sl (omap slob_block (l1 ++ l2))) g) ->
  same_objects (l1 ++ l2) (kmem (kst kc)) (mem sl) ->
  (forall q n a, (q, n) ∈ omap page_block (kheld kc) -> q <= a < q + n ->
     slab_of sl (virt_to_page a) = false) ->
  forall pend, pend ≡ₚ omap pending_head (l1 ++ l2) ->
  kinv (mk_kconfig (mk_kstate sl rc pend) (l1 ++ l2)).
Proof.
  intros KI Eh CI [Hm _] Hs pend Hp. pose proof (fun p => removed_pages kc l1 k l2 p Eh) as Sub.
  split; simpl; try done.
  - eapply kblocks_ext; [|done]. pose proof (ki_blocks _ KI) as F. rewrite Eh in F.
    apply Forall_app in F as [F1 F]. apply Forall_cons in F as [_ F2]. by apply Forall_app.
  - intros q n Hq. by eapply ki_base, Sub.
  - intros q n a Hq. by eapply Hs, Sub.
  - pose proof (ki_apart _ KI) as P. rewrite Eh, omap_middle in P. rewrite omap_app.
    destruct (page_block k); [by apply pairs_remove in P|done].
Qed.

Lemma pending_remove kc l1 k l2 :
  kinv kc -> kheld kc = l1 ++ k :: l2 -> pending_head k = None ->
  rcu_pending (kst kc) ≡ₚ omap pending_head (l1 ++ l2).
Proof.
  intros KI Eh Ek. rewrite (ki_pending _ KI), Eh, omap_middle, Ek. by rewrite omap_app.
Qed.
End KmallocOps.
