(* ===== verification/KmallocSteps.v ===== *)
(** kmalloc, kfree, ksize and the caches, one specification per operation, and
    the runs they make up. *)
From S2P Require Import Prelude ListHead Kernel SlobBlocks Slob SlobFuel SlobPage SlobSearch SlobInv SlobAlloc SlobFree SlobAcct SlobRuns SlobFlags Kmalloc KmallocRuns KmallocOps.

(** The order of the compound page behind each kmalloc of whole pages is the one
    it was allocated with. *)
Definition compound_ok `{Kernel, Mm} (compound_order : Z -> Z) (l : list kblock) : Prop :=
  forall p size, Kpages p size ∈ l -> compound_order (virt_to_page p) = get_order size.

Section KmallocSteps.
Context {K : Kernel} {KL : KernelLaws} {M : Mm} {ML : MmLaws}.
Context {L : Type} {LO : ListOps L} {LL : ListLaws L}.
Implicit Types (m : Z -> Z) (s : kstate L) (kc : kconfig (L := L)) (k : kblock).

Lemma with_slob_id s : with_slob (slob s) s = s.
Proof. by destruct s. Qed.

(** The contents of all objects are kept: of their slob blocks and of their pages. *)
Definition keeps kc (l : list kblock) (s' : kstate L) : Prop := same_objects l (kmem (kst kc)) (kmem s').

Lemma keeps_refl kc l s' : kmem s' = kmem (kst kc) -> keeps kc l s'.
Proof. intros E. unfold keeps. rewrite E. split; [by intros p _ i _|done]. Qed.

(** *** kmalloc *)
Definition kobj (p size : Z) : kblock := if small_size size then Kmalloc p size else Kpages p size.

Lemma aligned_page base : is_base base -> (kmalloc_align | base).
Proof.
  intros [_ B]. destruct minalign_law as (j&Hj&E). unfold kmalloc_align. rewrite E.
  apply Z.mod_divide in B; [|done]. etrans; [|exact B]. exists (2 ^ (12 - j)).
  rewrite <- Z.pow_add_r by lia. change 4096 with (2 ^ 12). f_equal. lia.
Qed.

(** What the page allocator answers when kmalloc asks it: for one page without
    zeroing, slob_alloc clears the block itself, or for all pages of a large object. *)
Definition kmalloc_pages (src : page_source) (size gfp node : Z) : Z :=
  let gfp := gfp .& gfp_allowed_mask in
  if small_size size then slob_new_pages src (gfp .& Z.lnot __GFP_ZERO) 0 node
  else slob_new_pages src (if get_order size =? 0 then gfp else gfp .| __GFP_COMP) (get_order size) node.

(** A page allocator that hands out cleared pages when it is asked for them. *)
Definition source_zeroes m (src : page_source) : Prop :=
  forall gfp order node sp, gfp .& __GFP_ZERO ≠ 0 -> sp ≠ NULL ->
    sp = alloc_pages src gfp order \/ sp = alloc_pages_exact_node src node gfp order ->
    forall i, 0 <= i -> 2 * i < PAGE_SIZE * 2 ^ order -> m (page_address sp + 2 * i) = 0.

Lemma new_pages_zero m src gfp order node i :
  source_zeroes m src -> gfp .& __GFP_ZERO ≠ 0 -> slob_new_pages src gfp order node ≠ NULL ->
  0 <= i -> 2 * i < PAGE_SIZE * 2 ^ order -> m (slob_new_pages src gfp order node + 2 * i) = 0.
Proof.
  unfold slob_new_pages. intros Z0 Hg. destruct (_ && _).
  - destruct (Z.eqb_spec (alloc_pages_exact_node src node gfp order) NULL); [done|]. intros _ ? ?.
    eapply Z0; eauto.
  - destruct (Z.eqb_spec (alloc_pages src gfp order) NULL); [done|]. intros _ ? ?.
    by apply (Z0 gfp order node); [..|left|done|done].
Qed.

(** Adding __GFP_COMP keeps __GFP_ZERO. *)
Lemma gfp_zero_comp (b : bool) g :
  g .& __GFP_ZERO ≠ 0 -> (if b then g else g .| __GFP_COMP) .& __GFP_ZERO ≠ 0.
Proof. intros Hg. destruct b; [done|]. rewrite Z.land_lor_distr_l. by intros [? _]%Z.lor_eq_0_iff. Qed.

(** What a kmalloc that found memory promises. *)
Definition kmalloc_gave kc src (size gfp node : Z) (s' : kstate L) (p : Z) : Prop :=
  0 < size /\ p ≠ NULL /\ (kmalloc_align | p) /\
  kinv (mk_kconfig s' (kobj p size :: kheld kc)) /\ keeps kc (kheld kc) s' /\
  (small_size size = false -> p = kmalloc_pages src size gfp node /\ s' = kst kc) /\
  (gfp .& gfp_allowed_mask .& __GFP_ZERO ≠ 0 ->
     small_size size = true \/ source_zeroes (kmem (kst kc)) src ->
     forall i, 0 <= i < size / 2 -> kmem s' (p + 2 * i) = 0).

(** The header goes in front of the object, which is not touched. *)
Lemma kmalloc_header kc src sl b size gfp node :
  kinv kc -> 0 < size -> small_size size = true ->
  b ≠ NULL -> aligned_to kmalloc_align b -> 0 < b ->
  same_objects (kheld kc) (kmem (kst kc)) (mem sl) ->
  (gfp .& gfp_allowed_mask .& __GFP_ZERO ≠ 0 ->
    forall i, 0 <= i < (size + kmalloc_align) / 2 -> mem sl (b + 2 * i) = 0) ->
  (exists g', config_inv (mk_config sl ((b, size + kmalloc_align) :: omap slob_block (kheld kc))) g') ->
  (forall q n a, (q, n) ∈ omap page_block (kheld kc) -> q <= a < q + n ->
     slab_of sl (virt_to_page a) = false) ->
  kmalloc_gave kc src size gfp node (with_slob (with_mem (store_uint (mem sl) b size) sl) (kst kc)) (b + kmalloc_align).
Proof.
  intros KI Hs Esm Hb Al B Hm HZ CI Hsl. destruct align_facts as (Ha&[h Hh]&_).
  assert (Hlt := proj1 (small_size_spec size) Esm). rewrite page_size_law in Hlt.
  destruct Al as [Al|Al]; [lia|]. set (m' := store_uint (mem sl) b size).
  assert (b + kmalloc_align - kmalloc_align = b) as Eb by lia.
  pose proof (SLOB_UNITS_spec (size + kmalloc_align)).
  assert (writes_in (mem sl) m' (b, size + kmalloc_align)) as W by (apply (store_uint_in _ _ _ _ _ 0); lia).
  assert (slob_block (Kmalloc (b + kmalloc_align) size) = Some (b, size + kmalloc_align)) as Ek
    by (simpl; by rewrite Eb).
  destruct (kinv_add_slob kc sl b _ _ m' KI Ek eq_refl CI Hm Hsl W) as [KI' Kp].
  { simpl. split; [lia|]. split; [done|]. rewrite Eb. apply load_store_uint. lia. }
  unfold kmalloc_gave, kobj. rewrite Esm. split; [done|]. split; [lia|].
  split; [by apply Z.divide_add_r|]. split; [done|]. split; [exact Kp|]. split; [done|].
  intros Hgz _ i Hi. change (m' (b + kmalloc_align + 2 * i) = 0). unfold m'. rewrite store_uint_eq.
  rewrite !fn_lookup_insert_ne by lia.
  replace (b + kmalloc_align + 2 * i) with (b + 2 * (h + i)) by lia.
  apply HZ; [done|]. rewrite Hh, Z.div_add by lia. lia.
Qed.

Lemma kmalloc_spec kc src size gfp node :
  kinv kc -> kfresh kc src -> 0 <= size ->
  exists s' p, returns (fun fuel => __do_kmalloc_node fuel src size gfp node (kst kc)) (s', p) /\
    (size = 0 /\ p = ZERO_SIZE_PTR /\ s' = kst kc \/ 0 < size /\ p = NULL /\ s' = kst kc /\ kmalloc_pages src size gfp node = NULL \/
     kmalloc_gave kc src size gfp node s' p).
Proof.
  intros KI F Hs. destruct align_facts as (Ha&_&j&Hj&Ej). destruct (small_size size) eqn:Esm.
  - destruct (Z.eqb_spec size 0) as [->|Hz].
    { exists (kst kc), ZERO_SIZE_PTR. split; [|by auto]. apply (returns_from _ _ 0). intros fuel _.
      unfold __do_kmalloc_node. by rewrite Esm. }
    assert (Hlt := proj1 (small_size_spec size) Esm).
    destruct (kalloc_run kc src (size + kmalloc_align) (gfp .& gfp_allowed_mask) kmalloc_align node KI F)
      as (sl&b&[n E]&Hpost); [split; [lia|right; by exists j]|].
    destruct Hpost as [(->&->&Enull)|(Hb&Al&(base&B&Hlo&Hhi)&_&Hm&HZ&CI&Hsl)].
    + exists (kst kc), NULL. split; [|right; left; unfold kmalloc_pages; rewrite Esm; split; [lia|done]]. exists n. intros fuel Hf.
      unfold __do_kmalloc_node. rewrite Esm, (E fuel Hf). zdec. simpl. by rewrite with_slob_id.
    + destruct B as [B _]. eexists _, _. split; [|right; right; apply (kmalloc_header kc src sl b); (done || lia)].
      exists n. intros fuel Hf. unfold __do_kmalloc_node. rewrite Esm, (E fuel Hf). zdec. simpl. zdec. done.
  - assert (HL := large_size_spec size Esm). destruct (pages_of_spec size HL) as (Ho&Hle&_).
    set (g := if get_order size =? 0 then gfp .& gfp_allowed_mask else gfp .& gfp_allowed_mask .| __GFP_COMP).
    assert (kmalloc_pages src size gfp node = slob_new_pages src g (get_order size) node) as Ek
      by (unfold kmalloc_pages; by rewrite Esm).
    exists (kst kc), (slob_new_pages src g (get_order size) node). split.
    { apply (returns_from _ _ 0). intros fuel _. unfold __do_kmalloc_node. rewrite Esm. unfold g. by destruct (_ =? 0). }
    rewrite page_size_law in HL. rewrite Ek. pose proof (new_pages_zero (kmem (kst kc)) src g (get_order size) node) as HZ.
    destruct (new_pages_fresh kc src g (get_order size) node F Ho) as [E|(sp&Fr&Esp)];
      [right; left; rewrite E; split; [lia|done]|].
    rewrite Esp in HZ |- *.
    right. right. assert (B := proj1 (proj1 Fr)). unfold kmalloc_gave, kobj. rewrite Esm.
    split; [lia|]. split; [destruct B; lia|].
    split; [by apply aligned_page|]. split; [by eapply kinv_add_pages|]. split; [by apply keeps_refl|]. split; [by rewrite Ek|].
    intros Hgz [?|Hsz] i Hi; [done|]. unfold pages_of in Hle. pose proof (Z.mul_div_le size 2 ltac:(lia)).
    apply HZ; [done|by apply gfp_zero_comp|destruct B as [B _]; lia|lia|lia].
Qed.

(** *** kfree *)

(** What sys_slob_units_used counts: for every object in a slab page its units with
    those of the kmalloc header, and nothing for whole pages. *)
Lemma units_of_objects kc :
  kinv kc ->
  returns (fun fuel => sys_slob_units_used fuel (slob (kst kc)))
    (wraps BITS_PER_LONG (held_units (omap slob_block (kheld kc)))).
Proof.
  intros KI. destruct (ki_slob _ KI) as (g&CI).
  apply (returns_from _ _ (length (slabs g))). intros fuel Hf.
  change (omap slob_block (kheld kc)) with (held (slob_config kc)).
  rewrite <- (held_live_units g (slob_config kc) CI). by apply sys_slob_units_used_spec; [apply CI|].
Qed.

(** The block at [b] went through slob_free, which made [s'] of the allocator. *)
Definition slob_freed s (b size : Z) (s' : kstate L) : Prop :=
  returns (fun fuel => slob_free fuel b size (slob s)) (slob s', tt).

Lemma kfree_small_spec kc co l1 p size l2 :
  kinv kc -> kheld kc = l1 ++ Kmalloc p size :: l2 ->
  exists s', returns (fun fuel => kfree fuel co p (kst kc)) (s', tt) /\
    kinv (mk_kconfig s' (l1 ++ l2)) /\ keeps kc (l1 ++ l2) s' /\
    returned s' = returned (kst kc) /\ rcu_pending s' = rcu_pending (kst kc) /\
    slob_freed (kst kc) (p - kmalloc_align) (size + kmalloc_align) s'.
Proof.
  intros KI Eh. destruct (ki_slob _ KI) as (g&CI). destruct align_facts as (Ha&_).
  pose proof (ki_blocks _ KI) as F. rewrite Eh in F.
  apply Forall_app in F as [_ F]. apply Forall_cons in F as [(Hs&Hsm&El) _].
  apply small_size_spec in Hsm. rewrite page_size_law in Hsm.
  destruct (held_page g (slob_config kc) (p - kmalloc_align, size + kmalloc_align) CI) as [Hp Hv].
  { apply (in_omap slob_block kc (Kmalloc p size)); [rewrite Eh; set_solver|done]. }
  simpl in Hp, Hv. specialize (Hv p ltac:(lia)).
  destruct (kfree_run kc l1 (Kmalloc p size) l2 _ _ KI Eh eq_refl) as (sl&R&CI'&Hm&Hsl).
  assert (R' := R). destruct R' as [n E]. exists (with_slob sl (kst kc)). split; [|split; [|done]].
  - exists n. intros fuel Hf. unfold kfree. pose proof zero_size_law as Hz. rewrite page_size_law in Hz.
    rewrite zero_or_null_law by lia. zdec. unfold slab_of in Hv. rewrite Hv, El.
    rewrite wraps_small by lia. by rewrite (E fuel Hf).
  - eapply kinv_remove; try done. by eapply pending_remove.
Qed.

Lemma kfree_pages_spec kc co l1 p size l2 :
  kinv kc -> kheld kc = l1 ++ Kpages p size :: l2 ->
  let s' := mk_kstate (slob (kst kc)) ((virt_to_page p, co (virt_to_page p)) :: returned (kst kc))
              (rcu_pending (kst kc)) in
  returns (fun fuel => kfree fuel co p (kst kc)) (s', tt) /\ kinv (mk_kconfig s' (l1 ++ l2)).
Proof.
  intros KI Eh s'. assert (Kpages p size ∈ kheld kc) as Hin by (rewrite Eh; set_solver).
  pose proof (in_omap page_block kc _ _ Hin eq_refl) as Hq.
  pose proof (ki_blocks _ KI) as F. rewrite Forall_forall in F.
  destruct (page_block_size _ _ _ _ (F _ Hin) eq_refl) as (_&_&Hn). rewrite page_size_law in Hn.
  pose proof (ki_pages _ KI _ _ p Hq ltac:(lia)) as Ef. destruct (ki_base _ KI _ _ Hq) as [B1 B2].
  split.
  - apply (returns_from _ _ 0). intros fuel _. unfold kfree. pose proof zero_size_law as Hz.
    rewrite page_size_law in Hz. pose proof (Z.div_mod p 4096).
    rewrite zero_or_null_law by lia. zdec. unfold slab_of in Ef. by rewrite Ef.
  - eapply kinv_remove; try done.
    + destruct (ki_slob _ KI) as (g&CI). exists g.
      assert (omap slob_block (l1 ++ l2) = omap slob_block (kheld kc)) as -> by by rewrite Eh, omap_middle, omap_app.
      exact CI.
    + apply KI.
    + by eapply pending_remove.
Qed.

(** *** ksize *)
Lemma ksize_spec kc co p size :
  kinv kc -> compound_ok co (kheld kc) -> kobj p size ∈ kheld kc ->
  ksize co p (kst kc) =
  Ret (wrapu BITS_PER_LONG (if small_size size then 2 * SLOB_UNITS size else pages_of size)).
Proof.
  intros KI Hco Hin. destruct (ki_slob _ KI) as (g&CI). destruct align_facts as (Ha&_).
  pose proof zero_size_law as Hz. rewrite page_size_law in Hz.
  pose proof (ki_blocks _ KI) as F. rewrite Forall_forall in F. specialize (F _ Hin).
  unfold ksize, kobj in *. destruct (small_size size) eqn:Esm.
  - destruct F as (Hs&_&El).
    destruct (held_page g (slob_config kc) _ CI (in_omap slob_block _ _ _ Hin eq_refl)) as [Hp Hv].
    simpl in Hp, Hv. specialize (Hv p ltac:(lia)). unfold slab_of in Hv. do 2 zdec. rewrite Hv, El. simpl.
    by rewrite SLOB_UNIT_2, Z.mul_comm.
  - pose proof (in_omap page_block _ _ _ Hin eq_refl) as Hq.
    destruct (page_block_size _ _ _ _ F eq_refl) as (_&_&Hn). rewrite page_size_law in Hn.
    pose proof (ki_pages _ KI _ _ p Hq ltac:(lia)) as Ef. destruct (ki_base _ KI _ _ Hq) as [B1 B2].
    pose proof (Z.div_mod p 4096). unfold slab_of in Ef. do 2 zdec. rewrite Ef, (Hco _ _ Hin). simpl.
    destruct (pages_of_spec size (large_size_spec _ Esm)) as (?&_).
    by rewrite Z.shiftl_mul_pow2.
Qed.
(** *** Clients write into their objects *)
Lemma user_in_slob k m p :
  kblock_ok m k -> slob_block k = Some p -> forall i, 0 <= i < SLOB_UNITS (user_bytes k).2 ->
  exists j, 0 <= j < SLOB_UNITS p.2 /\ (user_bytes k).1 + 2 * i = p.1 + 2 * j.
Proof.
  intros Ok Ep i Hi. destruct (slob_block_size _ _ _ Ok Ep) as (?&?&?).
  destruct align_facts as (?&[h Hh]&_). pose proof (SLOB_UNITS_spec (user_bytes k).2).
  destruct k as [q size| | | |]; simpl in *; try done; injection Ep as <-; simpl in *.
  - exists (i + h). pose proof (SLOB_UNITS_spec (size + kmalloc_align)). lia.
  - by exists i.
  - by exists i.
Qed.

Lemma user_in_pages k m m' q n :
  kblock_ok m k -> page_block k = Some (q, n) -> (2 | n) -> writes_in m m' (user_bytes k) ->
  forall a, a < q \/ q + n <= a -> m' a = m a.
Proof.
  intros Ok Ep [h Hh] W a Ha. apply W. intros i Hi ->.
  destruct (page_block_size _ _ _ _ Ok Ep) as (->&?&_).
  pose proof (SLOB_UNITS_spec (user_bytes k).2). lia.
Qed.

Lemma pages_of_even size : PAGE_SIZE <= 2 * size -> (2 | pages_of size).
Proof.
  intros Hs. unfold pages_of. apply Z.divide_mul_l. rewrite page_size_law. by exists 2048.
Qed.

Lemma page_block_even k m q n : kblock_ok m k -> page_block k = Some (q, n) -> (2 | n).
Proof.
  destruct k as [| p size | | p c |]; simpl; intros Ok [= <- <-]; apply pages_of_even.
  - by apply large_size_spec.
  - rewrite page_size_law in *. lia.
Qed.

Lemma kblock_ok_self m m' k :
  kblock_ok m k -> pending_head k = None -> writes_in m m' (user_bytes k) -> kblock_ok m' k.
Proof.
  destruct k as [p size| | | |]; simpl; try done. intros (Hs&Hsm&El) _ W. split; [done|].
  split; [done|]. rewrite <- El. destruct align_facts as (?&_).
  apply load_uint_ext; apply W; simpl; intros i Hi; lia.
Qed.

(** Writing into the pages of one object leaves those of the others alone. *)
Lemma other_pages kc l1 k l2 q n m m' :
  kinv kc -> kheld kc = l1 ++ k :: l2 -> page_block k = Some (q, n) ->
  (forall a, a < q \/ q + n <= a -> m' a = m a) -> pages_same (omap page_block (l1 ++ l2)) m m'.
Proof.
  intros KI Eh Ek W x n' a Hx Ha. apply W. pose proof (ki_apart _ KI) as P. rewrite Eh, omap_middle, Ek in P.
  rewrite omap_app, elem_of_app in Hx. simpl in P.
  assert (bytes_disjoint (q, n) (x, n')) as [D|D]; [|simpl in D; lia..].
  destruct Hx as [(x1&x2&E)%list_elem_of_split|(x1&x2&E)%list_elem_of_split]; rewrite E in P.
  - apply bytes_disjoint_sym. rewrite <- (assoc (++)) in P. by eapply (pairs_elem _ x1 (x, n') x2 (q, n)).
  - by eapply (pairs_elem _ _ (q, n) x1 (x, n')).
Qed.

(** What a client writes into its object concerns no other one. *)
Lemma write_object kc l1 k l2 m' :
  kinv kc -> kheld kc = l1 ++ k :: l2 -> writes_in (kmem (kst kc)) m' (user_bytes k) ->
  (exists g, config_inv (mk_config (with_mem m' (slob (kst kc))) (omap slob_block (kheld kc))) g) /\
  keeps kc (l1 ++ l2) (with_kmem m' (kst kc)).
Proof.
  intros KI Eh W. destruct (ki_slob _ KI) as (g&CI).
  assert (k ∈ kheld kc) as Hk by (rewrite Eh; set_solver).
  pose proof (ki_blocks _ KI) as F. rewrite Forall_forall in F. pose proof (F _ Hk) as Ok.
  destruct (block_cases k) as [(p&Ep&_)|([q n]&Ep&Es)].
  - assert (writes_in (kmem (kst kc)) m' p) as Wp by (eapply writes_in_mono; [done|by eapply user_in_slob]).
    assert (p ∈ held (slob_config kc)) as Hp by by eapply in_omap.
    split; [exists g; by apply (write_run (slob_config kc) g p m' CI)|]. split.
    + intros x Hx. rewrite omap_app in Hx.
      apply (write_others (slob_config kc) g (omap slob_block l1) p (omap slob_block l2)); try done.
      simpl. by rewrite Eh, omap_middle, Ep.
    + eapply pages_same_slabs; [|exact (wrote_held _ g p _ m' CI Hp Wp)].
      intros x n a Hx. by apply (ki_pages _ KI x n), (removed_pages kc l1 k l2).
  - assert (forall a, a < q \/ q + n <= a -> m' a = kmem (kst kc) a) as Wp
      by (eapply user_in_pages; [done..|by eapply page_block_even|done]).
    destruct (page_write (slob_config kc) g q n m' CI) as [CI' Hm];
      [intros a; apply (ki_pages _ KI q n), (in_omap _ _ _ _ Hk Ep)|exact Wp|].
    split; [by exists g|]. split; [|by apply (other_pages kc l1 k l2 q n)].
    intros x Hx. apply Hm. simpl. by rewrite Eh, omap_middle, Es, <- omap_app.
Qed.

Lemma kinv_write kc l1 k l2 m' :
  kinv kc -> kheld kc = l1 ++ k :: l2 -> pending_head k = None ->
  writes_in (kmem (kst kc)) m' (user_bytes k) ->
  kinv (mk_kconfig (with_kmem m' (kst kc)) (kheld kc)) /\
  keeps kc (l1 ++ l2) (with_kmem m' (kst kc)).
Proof.
  intros KI Eh Hpend W. destruct (write_object kc l1 k l2 m' KI Eh W) as [CI' Kp].
  split; [|done]. split; simpl; try apply KI; [exact CI'|].
  rewrite Eh. pose proof (ki_blocks _ KI) as F. rewrite Eh in F.
  apply Forall_app in F as [F1 F2]. apply Forall_cons in F2 as [Ok F2].
  assert (Forall (kblock_ok m') (l1 ++ l2)) as F3 by (eapply kblocks_ext; [by apply Forall_app|apply Kp]).
  apply Forall_app in F3 as [? ?]. apply Forall_app. split; [done|]. constructor; [|done].
  by eapply kblock_ok_self.
Qed.

(** *** kmem_cache_alloc *)
Definition cobj (b : Z) (c : kmem_cache) : kblock :=
  if c_size c <? PAGE_SIZE then Object b c else Opages b c.

(** What the page allocator answers when slob_alloc_node asks it. *)
Definition cache_pages (src : page_source) (c : kmem_cache) (flags node : Z) : Z :=
  let flags := flags .& gfp_allowed_mask in
  if c_size c <? PAGE_SIZE then slob_new_pages src (flags .& Z.lnot __GFP_ZERO) 0 node
  else slob_new_pages src flags (get_order (c_size c)) node.

(** [sl] is the allocator before the constructor, which runs on the new object. *)
Definition constructed (c : kmem_cache) (b : Z) (sl : state L) s : kstate L :=
  with_slob (with_mem (match ctor c with Some f => f (mem sl) b | None => mem sl end) sl) s.

Definition cache_got kc src (c : kmem_cache) (flags node : Z) (sl : state L) (b : Z) : Prop :=
  (if c_size c <? PAGE_SIZE
   then returns (fun fuel => slob_alloc fuel src (c_size c) (flags .& gfp_allowed_mask) (c_align c) node
     (slob (kst kc))) (sl, b)
   else sl = slob (kst kc) /\ b = cache_pages src c flags node) /\
  (flags .& gfp_allowed_mask .& __GFP_ZERO ≠ 0 ->
     c_size c < PAGE_SIZE \/ source_zeroes (kmem (kst kc)) src ->
     forall i, 0 <= i < c_size c / 2 -> mem sl (b + 2 * i) = 0).

Definition cache_gave kc src (c : kmem_cache) (flags node : Z) (s' : kstate L) (b : Z) : Prop :=
  b ≠ NULL /\ aligned_to (c_align c) b /\ kinv (mk_kconfig s' (cobj b c :: kheld kc)) /\
  keeps kc (kheld kc) s' /\
  exists sl, cache_got kc src c flags node sl b /\ s' = constructed c b sl (kst kc).

Lemma run_ctor_null c s : run_ctor c NULL s = s.
Proof. unfold run_ctor. by destruct (ctor c). Qed.

Lemma run_ctor_made c b sl s : b ≠ NULL -> run_ctor c b (with_slob sl s) = constructed c b sl s.
Proof.
  intros Hb. unfold run_ctor, constructed. destruct (ctor c); [by zdec|]. by destruct sl.
Qed.

Lemma ctor_writes c b m :
  cache_ok c -> writes_in m (match ctor c with Some f => f m b | None => m end) (b, c_size c).
Proof. intros Hc. destruct (ctor c) as [f|] eqn:E; [by apply (co_ctor _ Hc)|done]. Qed.

Lemma page_aligned c base : cache_ok c -> is_base base -> aligned_to (c_align c) base.
Proof.
  intros Hc [_ B]. destruct (co_align _ Hc) as [E|(j&Hj&E)]; [by left|right]. rewrite E.
  apply Z.mod_divide in B; [|done]. etrans; [|exact B]. exists (2 ^ (12 - j)).
  rewrite <- Z.pow_add_r by lia. change 4096 with (2 ^ 12). f_equal. lia.
Qed.

Lemma cache_alloc_spec kc src c flags node :
  kinv kc -> kfresh kc src -> cache_ok c ->
  exists s' b, returns (fun fuel => slob_alloc_node fuel src c flags node (kst kc)) (s', b) /\
    (b = NULL /\ s' = kst kc /\ cache_pages src c flags node = NULL \/ cache_gave kc src c flags node s' b).
Proof.
  intros KI F Hc. pose proof (co_size _ Hc) as Hs. unfold cache_gave, cache_got, cache_pages, cobj.
  destruct (Z.ltb_spec (c_size c) PAGE_SIZE) as [Hlt|Hge].
  - destruct (kalloc_run kc src (c_size c) (flags .& gfp_allowed_mask) (c_align c) node KI F)
      as (sl&b&R&Hpost); [split; [lia|apply Hc]|]. assert (R' := R). destruct R' as [n E].
    exists (run_ctor c b (with_slob sl (kst kc))), b. split.
    { exists n. intros fuel Hf. unfold slob_alloc_node. zdec. rewrite (E fuel Hf). done. }
    destruct Hpost as [(->&->&Enull)|(Hb&Al&_&_&Hm&HZ&CI&Hsl)];
      [left; by rewrite with_slob_id, run_ctor_null|right]. rewrite run_ctor_made by done.
    do 2 (split; [done|]).
    destruct (kinv_add_slob kc sl b (c_size c) (Object b c) _ KI eq_refl eq_refl CI Hm Hsl (ctor_writes c b (mem sl) Hc))
      as [KI' Kp]; [done|]. split; [exact KI'|]. split; [exact Kp|]. exists sl. split; [|done].
    split; [exact R|]. intros Hz _. by apply HZ.
  - set (b := slob_new_pages src (flags .& gfp_allowed_mask) (get_order (c_size c)) node).
    exists (run_ctor c b (kst kc)), b. split.
    { apply (returns_from _ _ 0). intros fuel _. unfold slob_alloc_node. by zdec. }
    rewrite page_size_law in Hge. destruct (pages_of_spec (c_size c)) as (Ho&Hle&_); [rewrite page_size_law; lia|].
    pose proof (new_pages_zero (kmem (kst kc)) src (flags .& gfp_allowed_mask) (get_order (c_size c)) node) as HZ.
    fold b in HZ. destruct (new_pages_fresh kc src (flags .& gfp_allowed_mask) (get_order (c_size c)) node F Ho)
      as [E|(sp&Fr&E)]; fold b in E; [left; rewrite E; by rewrite run_ctor_null|right].
    assert (B := proj1 (proj1 Fr)). assert (b ≠ NULL) as Hb by (rewrite E; destruct B; lia).
    split; [done|]. split; [rewrite E; by apply page_aligned|].
    assert (kinv (mk_kconfig (kst kc) (Opages b c :: kheld kc))) as KI'.
    { eapply kinv_add_pages; [done|simpl; by rewrite E|split; [done|rewrite page_size_law; lia]|exact Fr]. }
    destruct (kinv_write _ [] (Opages b c) (kheld kc) _ KI' eq_refl eq_refl (ctor_writes c b (kmem (kst kc)) Hc))
      as [KI2 Kp].
    assert (run_ctor c b (kst kc) = constructed c b (slob (kst kc)) (kst kc)) as ->
      by (rewrite <- run_ctor_made by done; by rewrite with_slob_id).
    split; [exact KI2|]. split; [exact Kp|]. exists (slob (kst kc)).
    split; [|done].
    split; [done|]. intros Hz [Hp|Hsz] i Hi; [rewrite page_size_law in Hp; lia|]. pose proof (Z.mul_div_le (c_size c) 2 ltac:(lia)).
    unfold pages_of in Hle. apply HZ; (done || lia).
Qed.

(** *** kmem_cache_free and its callback *)
Lemma cache_free_slob kc l1 k l2 b c pend rc s :
  kinv kc -> kheld kc = l1 ++ k :: l2 -> slob_block k = Some (b, c_size c) -> cache_ok c ->
  c_size c < PAGE_SIZE -> slob s = slob (kst kc) -> returned s = rc -> rcu_pending s = pend ->
  pend ≡ₚ omap pending_head (l1 ++ l2) ->
  exists s', returns (fun fuel => __kmem_cache_free fuel b (c_size c) s) (s', tt) /\
    kinv (mk_kconfig s' (l1 ++ l2)) /\ keeps kc (l1 ++ l2) s' /\ returned s' = rc /\ rcu_pending s' = pend /\
    slob_freed (kst kc) b (c_size c) s'.
Proof.
  intros KI Eh Ek Hc Hlt Es Er Epd Hp. pose proof (co_size _ Hc). rewrite page_size_law in Hlt.
  destruct (kfree_run kc l1 k l2 _ _ KI Eh Ek) as (sl&Rf&CI'&Hm&Hsl).
  assert (R' := Rf). destruct R' as [n E]. exists (with_slob sl s). split; [|split; [|done]].
  - exists n. intros fuel Hf. unfold __kmem_cache_free.
    assert (2 ^ 32 <= 2 ^ BITS_PER_LONG) by (apply Z.pow_le_mono_r; [lia|apply bits_per_long_law]).
    rewrite wrapu_small, page_size_law by lia. zdec. by rewrite Es, (E fuel Hf).
  - unfold with_slob. eapply kinv_remove; try done. by rewrite Epd.
Qed.

Lemma inv_free_pages (sl : state L) g b o : Inv sl g -> Inv (slob_free_pages b o sl) g.
Proof. intros [I1 I2 I3 I4]. split; try done. intros sp Hsp. by eapply page_inv_frame; [apply I1| |]. Qed.

Lemma cache_free_pages kc l1 b c l2 :
  kinv kc -> kheld kc = l1 ++ Opages b c :: l2 ->
  let s' := with_slob (slob_free_pages b (get_order (c_size c)) (slob (kst kc))) (kst kc) in
  returns (fun fuel => __kmem_cache_free fuel b (c_size c) (kst kc)) (s', tt) /\
  kinv (mk_kconfig s' (l1 ++ l2)).
Proof.
  intros KI Eh s'. pose proof (ki_blocks _ KI) as F. rewrite Forall_forall in F.
  destruct (F (Opages b c)) as [Hc Hge]; [rewrite Eh; set_solver|]. pose proof (co_size _ Hc).
  assert (wrapu BITS_PER_LONG (c_size c) = c_size c) as Ew.
  { apply wrapu_small. assert (2 ^ 32 <= 2 ^ BITS_PER_LONG) by
      (apply Z.pow_le_mono_r; [lia|apply bits_per_long_law]). lia. }
  split.
  - apply (returns_from _ _ 0). intros fuel _. unfold __kmem_cache_free. rewrite Ew. by zdec.
  - eapply kinv_remove; try done.
    + destruct (ki_slob _ KI) as (g&[I F2]). exists g. split; [by apply inv_free_pages|].
      simpl in F2 |- *. rewrite omap_app. by rewrite Eh, omap_middle in F2.
    + intros q n a. by apply (ki_pages _ KI).
    + by eapply pending_remove.
Qed.
Lemma kinv_defer s l1 b c l2 :
  kinv (mk_kconfig s (l1 ++ Object b c :: l2)) -> rcu_cache c = true ->
  load_uint (kmem s) (rcu_head_of b c + sizeof_rcu_head) = c_size c ->
  kinv (mk_kconfig (mk_kstate (slob s) (returned s) (rcu_head_of b c :: rcu_pending s))
    (l1 ++ Deferred b c :: l2)).
Proof.
  intros [CI F B P A Pend] Hr El. unfold slob_config in CI. simpl in *.
  rewrite omap_middle in CI; rewrite omap_middle in Pend. simpl in CI, Pend.
  assert (omap page_block (l1 ++ Deferred b c :: l2) = omap page_block (l1 ++ Object b c :: l2)) as Ep
    by by rewrite !omap_middle.
  split; unfold slob_config; simpl; rewrite ?Ep; try done.
  - by rewrite omap_middle.
  - apply Forall_app in F as [F1 F2]. apply Forall_cons in F2 as [[Hc _] F2].
    apply Forall_app. split; [done|]. constructor; [|done]. by split.
  - rewrite Pend, omap_middle. simpl. by rewrite Permutation_middle.
Qed.

(** Where the size of an object waiting for RCU is stored. *)
Lemma rcu_cell c : cache_ok c -> rcu_cache c = true ->
  exists i, 0 <= i /\ c_size c - sizeof_slob_rcu = 2 * i /\
    exists j, 0 < j /\ sizeof_rcu_head = 2 * j /\ i + j + 1 < SLOB_UNITS (c_size c).
Proof.
  intros Hc Hr. destruct (co_rcu _ Hc Hr) as (_&[x Hx]&Hle). destruct rcu_facts as (Hl&[y Hy]).
  destruct rcu_head_law as (Hl'&[z Hz]). pose proof (SLOB_UNITS_spec (c_size c)).
  exists (x - y). split; [lia|]. split; [lia|]. exists z. lia.
Qed.

Lemma defer_writes m b c :
  cache_ok c -> rcu_cache c = true ->
  writes_in m (rcu_store (store_uint m (rcu_head_of b c + sizeof_rcu_head) (c_size c)) (rcu_head_of b c))
    (b, c_size c).
Proof.
  intros Hc Hr. destruct (rcu_cell c Hc Hr) as (i&Hi&Ei&j&Hj&Ej&Hlt). unfold rcu_head_of.
  intros a Ha. simpl in Ha. rewrite rcu_store_law by (intros x Hx ->; apply (Ha (i + x)); lia).
  by apply (store_uint_in m _ _ b (c_size c) (i + j)); [lia..|].
Qed.

Lemma deferred_size m b c :
  cache_ok c ->
  load_uint (rcu_store (store_uint m (rcu_head_of b c + sizeof_rcu_head) (c_size c)) (rcu_head_of b c))
    (rcu_head_of b c + sizeof_rcu_head) = c_size c.
Proof.
  intros Hc. pose proof (co_size _ Hc). set (a := rcu_head_of b c + sizeof_rcu_head).
  rewrite <- (load_store_uint m a (c_size c)) at 2 by lia.
  apply load_uint_ext; apply rcu_store_law; intros i Hi; unfold a; lia.
Qed.

Lemma cache_free_rcu kc l1 b c l2 fuel :
  kinv kc -> kheld kc = l1 ++ Object b c :: l2 -> rcu_cache c = true ->
  exists s', kmem_cache_free fuel c b (kst kc) = Ret (s', tt) /\
    kinv (mk_kconfig s' (l1 ++ Deferred b c :: l2)) /\ keeps kc (l1 ++ l2) s' /\
    rcu_pending s' = rcu_head_of b c :: rcu_pending (kst kc) /\ returned s' = returned (kst kc) /\
    slob s' = with_mem (kmem s') (slob (kst kc)).
Proof.
  intros KI Eh Hr. pose proof (ki_blocks _ KI) as F. rewrite Forall_forall in F.
  destruct (F (Object b c)) as [Hc _]; [rewrite Eh; set_solver|].
  pose proof (defer_writes (kmem (kst kc)) b c Hc Hr) as W.
  set (m' := rcu_store _ _) in W.
  destruct (kinv_write kc l1 (Object b c) l2 m' KI Eh eq_refl W) as [KI' Kp].
  eexists. split; [unfold kmem_cache_free; unfold rcu_cache in Hr; by rewrite Hr|].
  split; [|by split].
  change (mk_kstate _ _ _) with
    (mk_kstate (slob (with_kmem m' (kst kc))) (returned (with_kmem m' (kst kc)))
       (rcu_head_of b c :: rcu_pending (with_kmem m' (kst kc)))).
  apply kinv_defer; [by rewrite <- Eh|done|]. by apply deferred_size.
Qed.

Lemma cache_free_now kc l1 b c l2 :
  kinv kc -> kheld kc = l1 ++ Object b c :: l2 -> rcu_cache c = false ->
  exists s', returns (fun fuel => kmem_cache_free fuel c b (kst kc)) (s', tt) /\
    kinv (mk_kconfig s' (l1 ++ l2)) /\ keeps kc (l1 ++ l2) s' /\
    rcu_pending s' = rcu_pending (kst kc) /\ returned s' = returned (kst kc) /\
    slob_freed (kst kc) b (c_size c) s'.
Proof.
  intros KI Eh Hr. pose proof (ki_blocks _ KI) as F. rewrite Forall_forall in F.
  destruct (F (Object b c)) as [Hc Hlt]; [rewrite Eh; set_solver|]. pose proof (co_size _ Hc).
  destruct (cache_free_slob kc l1 (Object b c) l2 b c _ _ (kst kc) KI Eh eq_refl Hc Hlt eq_refl eq_refl eq_refl)
    as (s'&[n E]&KI'&Kp&Er&Ep&Ef); [by eapply pending_remove|].
  exists s'. split; [|done]. exists n. intros fuel Hf. unfold kmem_cache_free. unfold rcu_cache in Hr.
  rewrite Hr, wraps_small by lia. by apply E.
Qed.

Lemma rcu_callback kc l1 b c l2 q1 q2 :
  kinv kc -> kheld kc = l1 ++ Deferred b c :: l2 -> rcu_pending (kst kc) = q1 ++ rcu_head_of b c :: q2 ->
  exists s', returns (fun fuel => kmem_rcu_free fuel (rcu_head_of b c)
      (mk_kstate (slob (kst kc)) (returned (kst kc)) (q1 ++ q2))) (s', tt) /\
    kinv (mk_kconfig s' (l1 ++ l2)) /\ keeps kc (l1 ++ l2) s' /\ rcu_pending s' = q1 ++ q2 /\
    returned s' = returned (kst kc) /\ slob_freed (kst kc) b (c_size c) s'.
Proof.
  intros KI Eh Eq. pose proof (ki_blocks _ KI) as F. rewrite Forall_forall in F.
  destruct (F (Deferred b c)) as (Hc&Hr&El); [rewrite Eh; set_solver|]. pose proof (co_size _ Hc).
  destruct (co_rcu _ Hc Hr) as (Hlt&_).
  destruct (cache_free_slob kc l1 (Deferred b c) l2 b c (q1 ++ q2) (returned (kst kc))
    (mk_kstate (slob (kst kc)) (returned (kst kc)) (q1 ++ q2)) KI Eh eq_refl Hc Hlt eq_refl eq_refl eq_refl)
    as (s'&[n E]&KI'&Kp&Er&Ep&Ef).
  { pose proof (ki_pending _ KI) as P. rewrite Eq, Eh, omap_middle in P. simpl in P.
    rewrite <- !Permutation_middle in P. apply Permutation_cons_inv in P. by rewrite P, omap_app. }
  exists s'. split; [|done]. exists n. intros fuel Hf. unfold kmem_rcu_free, load_int.
  unfold kmem in El |- *. simpl. rewrite El, wraps_small by lia.
  replace (rcu_head_of b c - _) with b by (unfold rcu_head_of; lia). by apply E.
Qed.
End KmallocSteps.
