(* ===== verification/KmallocReach.v ===== *)
(** Runs of the front end: clients allocate, write and give back in any order, and
    the callbacks queued by call_rcu run at any time. The invariant of
    KmallocRuns.v holds in every state such a run reaches. *)
From S2P Require Import Prelude ListHead Kernel SlobBlocks Slob SlobFuel SlobPage SlobSearch SlobInv SlobAlloc SlobFree SlobAcct SlobRuns SlobFlags Kmalloc KmallocRuns KmallocOps KmallocSteps.

Section KmallocReach.
Context {K : Kernel} {KL : KernelLaws} {M : Mm} {ML : MmLaws}.
Context {L : Type} {LO : ListOps L} {LL : ListLaws L}.
Implicit Types (m : Z -> Z) (s : kstate L) (kc : kconfig (L := L)) (k : kblock).

Inductive kstep kc : kconfig (L := L) -> Prop :=
| kstep_kmalloc src size gfp node s' p :
    0 <= size -> kfresh kc src ->
    returns (fun fuel => __do_kmalloc_node fuel src size gfp node (kst kc)) (s', p) ->
    kstep kc (mk_kconfig s' (if (p =? NULL) || (size =? 0) then kheld kc else kobj p size :: kheld kc))
| kstep_kfree co l1 p size l2 s' :
    kheld kc = l1 ++ kobj p size :: l2 ->
    returns (fun fuel => kfree fuel co p (kst kc)) (s', tt) ->
    kstep kc (mk_kconfig s' (l1 ++ l2))
| kstep_cache_alloc src c flags node s' b :
    cache_ok c -> kfresh kc src ->
    returns (fun fuel => slob_alloc_node fuel src c flags node (kst kc)) (s', b) ->
    kstep kc (mk_kconfig s' (if b =? NULL then kheld kc else cobj b c :: kheld kc))
| kstep_cache_free l1 b c l2 s' :
    kheld kc = l1 ++ cobj b c :: l2 ->
    returns (fun fuel => kmem_cache_free fuel c b (kst kc)) (s', tt) ->
    kstep kc (mk_kconfig s' (l1 ++ (if rcu_cache c then [Deferred b c] else []) ++ l2))
| kstep_rcu l1 b c l2 q1 q2 s' :
    kheld kc = l1 ++ Deferred b c :: l2 ->
    rcu_pending (kst kc) = q1 ++ rcu_head_of b c :: q2 ->
    returns (fun fuel => kmem_rcu_free fuel (rcu_head_of b c)
      (mk_kstate (slob (kst kc)) (returned (kst kc)) (q1 ++ q2))) (s', tt) ->
    kstep kc (mk_kconfig s' (l1 ++ l2))
| kstep_write k i v :
    k ∈ kheld kc -> pending_head k = None -> 0 <= i < SLOB_UNITS (user_bytes k).2 ->
    kstep kc (mk_kconfig (with_kmem (<[(user_bytes k).1 + 2 * i := v]> (kmem (kst kc))) (kst kc)) (kheld kc)).

Definition kinit s : Prop := is_init (slob s) /\ rcu_pending s = [].

Definition kreachable kc : Prop := exists s0, kinit s0 /\ rtc kstep (mk_kconfig s0 []) kc.

Lemma kinit_inv s : kinit s -> kinv (mk_kconfig s []).
Proof.
  intros [I E]. split; simpl; try done.
  - exists ghost_init. split; [by apply inv_init|constructor].
  - intros q n H. by apply elem_of_nil in H.
  - intros q n a H. by apply elem_of_nil in H.
  - constructor.
  - by rewrite E.
Qed.

(** Giving back a kmalloc object, small or whole pages. *)
Lemma kfree_spec kc co l1 p size l2 :
  kinv kc -> kheld kc = l1 ++ kobj p size :: l2 ->
  exists s', returns (fun fuel => kfree fuel co p (kst kc)) (s', tt) /\
    kinv (mk_kconfig s' (l1 ++ l2)) /\ keeps kc (l1 ++ l2) s' /\ rcu_pending s' = rcu_pending (kst kc) /\
    if small_size size
    then slob_freed (kst kc) (p - kmalloc_align) (size + kmalloc_align) s' /\ returned s' = returned (kst kc)
    else slob s' = slob (kst kc) /\ returned s' = (virt_to_page p, co (virt_to_page p)) :: returned (kst kc).
Proof.
  intros KI Eh. unfold kobj in Eh. destruct (small_size size).
  - destruct (kfree_small_spec kc co l1 p size l2 KI Eh) as (s'&?&?&?&?&?&?). by exists s'.
  - destruct (kfree_pages_spec kc co l1 p size l2 KI Eh) as (?&?). eexists. split; [done|]. by split.
Qed.

(** Giving back an object of a cache: it is queued for RCU, its size stored with
    it, or its block goes to slob_free, or its pages to the page allocator. *)
Definition cache_freed s (b : Z) (c : kmem_cache) (s' : kstate L) : Prop :=
  returned s' = returned s /\
  if rcu_cache c then
    slob s' = with_mem (kmem s') (slob s) /\ rcu_pending s' = rcu_head_of b c :: rcu_pending s /\
    load_uint (kmem s') (rcu_head_of b c + sizeof_rcu_head) = c_size c
  else rcu_pending s' = rcu_pending s /\
    if c_size c <? PAGE_SIZE then slob_freed s b (c_size c) s'
    else kmem s' = kmem s /\ freed (slob s') = (b, get_order (c_size c)) :: freed (slob s).

Lemma deferred_stored kc l1 b c l2 :
  kinv kc -> kheld kc = l1 ++ Deferred b c :: l2 ->
  load_uint (kmem (kst kc)) (rcu_head_of b c + sizeof_rcu_head) = c_size c.
Proof.
  intros KI Eh. pose proof (ki_blocks _ KI) as F. rewrite Forall_forall in F.
  destruct (F (Deferred b c)) as (_&_&E); [rewrite Eh; set_solver|]. exact E.
Qed.

Lemma cache_free_spec kc l1 b c l2 :
  kinv kc -> kheld kc = l1 ++ cobj b c :: l2 ->
  exists s', returns (fun fuel => kmem_cache_free fuel c b (kst kc)) (s', tt) /\
    kinv (mk_kconfig s' (l1 ++ (if rcu_cache c then [Deferred b c] else []) ++ l2)) /\
    keeps kc (l1 ++ l2) s' /\ cache_freed (kst kc) b c s'.
Proof.
  intros KI Eh. unfold cobj in Eh. unfold cache_freed. destruct (rcu_cache c) eqn:Hr; simpl.
  - destruct (c_size c <? PAGE_SIZE) eqn:E.
    + destruct (cache_free_rcu kc l1 b c l2 0 KI Eh Hr) as (s'&E0&KI'&?&?&?&?).
      exists s'. split; [|split; [done|]; split; [done|]; split; [done|]; do 2 (split; [done|]);
        by apply (deferred_stored (mk_kconfig s' (l1 ++ Deferred b c :: l2)) l1 b c l2)]. exists 0%nat. intros fuel _.
      rewrite <- E0. unfold kmem_cache_free. unfold rcu_cache in Hr. by rewrite Hr.
    + pose proof (ki_blocks _ KI) as F. rewrite Forall_forall in F.
      destruct (F (Opages b c)) as [Hc Hge]; [rewrite Eh; set_solver|].
      destruct (co_rcu _ Hc Hr) as (?&_). lia.
  - destruct (c_size c <? PAGE_SIZE).
    + destruct (cache_free_now kc l1 b c l2 KI Eh Hr) as (s'&?&?&?&?&?&?). by exists s'.
    + pose proof (ki_blocks _ KI) as F. rewrite Forall_forall in F.
      destruct (F (Opages b c)) as [Hc _]; [rewrite Eh; set_solver|]. pose proof (co_size _ Hc).
      destruct (cache_free_pages kc l1 b c l2 KI Eh) as ([n E]&?).
      eexists. split; [|split; [done|]; split; [by apply keeps_refl|done]].
      exists n. intros fuel Hf. unfold kmem_cache_free. unfold rcu_cache in Hr. rewrite Hr.
      rewrite wraps_small by lia. by apply E.
Qed.

Lemma kstep_inv kc kc' : kinv kc -> kstep kc kc' -> kinv kc'.
Proof.
  intros KI St.
  destruct St as [src size gfp node s' p Hs F R|co l1 p size l2 s' Eh R|src c flags node s' b Hc F R
    |l1 b c l2 s' Eh R|l1 b c l2 q1 q2 s' Eh Eq R|k i v Hk Hp Hi].
  - destruct (kmalloc_spec kc src size gfp node KI F Hs) as (s1&p1&R1&Hpost).
    pose proof (returns_unique _ _ _ R1 R) as [= -> ->].
    destruct kc as [s0 h]; simpl in *.
    destruct Hpost as [(->&->&->)|[(_&->&->&_)|(?&?&_&?&_)]]; [|by zdec|by do 2 zdec].
    by rewrite orb_true_r.
  - destruct (kfree_spec kc co l1 p size l2 KI Eh) as (s1&R1&?&_).
    by pose proof (returns_unique _ _ _ R1 R) as [= ->].
  - destruct (cache_alloc_spec kc src c flags node KI F Hc) as (s1&b1&R1&Hpost).
    pose proof (returns_unique _ _ _ R1 R) as [= -> ->]. destruct kc as [s0 h]; simpl in *.
    destruct Hpost as [(->&->&_)|(?&_&?&_)]; by zdec.
  - destruct (cache_free_spec kc l1 b c l2 KI Eh) as (s1&R1&?&_).
    by pose proof (returns_unique _ _ _ R1 R) as [= ->].
  - destruct (rcu_callback kc l1 b c l2 q1 q2 KI Eh Eq) as (s1&R1&?&_).
    by pose proof (returns_unique _ _ _ R1 R) as [= ->].
  - apply list_elem_of_split in Hk as (l1&l2&Eh).
    eapply (kinv_write kc l1 k l2); [done..|]. intros a Ha. apply fn_lookup_insert_ne.
    intros <-. by apply (Ha i).
Qed.

Lemma kreachable_inv kc : kreachable kc -> kinv kc.
Proof.
  intros (s0&I%kinit_inv&St). induction St as [|c1 c2 c3 S12 _ IH]; [done|].
  apply IH. by eapply kstep_inv.
Qed.

Lemma kreachable_step kc kc' : kreachable kc -> kstep kc kc' -> kreachable kc'.
Proof. intros (s0&I&St) S1. exists s0. split; [done|]. by eapply rtc_r. Qed.
End KmallocReach.
