(* ===== verification/KmallocBoot.v ===== *)
(** The front end on the machine of SlobBoot.v: an object of 100 bytes from
    kmalloc, one of 4090 bytes in a page of its own, one of a cache with
    SLAB_DESTROY_BY_RCU, and the same cache after the object was freed. *)
From S2P Require Import Prelude ListHead Kernel SlobBlocks Slob SlobFuel SlobPage SlobSearch SlobInv SlobAlloc SlobFree SlobAcct SlobRuns SlobFlags SlobBoot Kmalloc KmallocRuns KmallocOps KmallocSteps KmallocReach.
Import I386 Links.

#[export] Instance i386_mm : Mm := {
  ARCH_KMALLOC_MINALIGN := 8;
  ARCH_SLAB_MINALIGN := 8;
  gfp_allowed_mask := 33554431;
  __GFP_COMP := 16384;
  SLAB_DESTROY_BY_RCU := 524288;
  SLAB_PANIC := 262144;
  sizeof_kmem_cache := 48;
  get_order size := Z.log2_up ((size + 4095) / 4096);
  sizeof_rcu_head := 8;
  rcu_store m head := <[head + 4 := 1]> (<[head := 0]> m);
}.

#[export] Instance i386_mm_laws : MmLaws.
Proof.
  split.
  - exists 3. by split.
  - by left.
  - intros size Hs. change PAGE_SIZE with 4096 in *. simpl get_order.
    assert (1 <= (size + 4095) / 4096) by (apply Z.div_le_lower_bound; lia).
    pose proof (Z.log2_up_nonneg ((size + 4095) / 4096)). split; [done|].
    assert ((size + 4095) / 4096 <= 2 ^ Z.log2_up ((size + 4095) / 4096)).
    { destruct (decide ((size + 4095) / 4096 = 1)) as [->|]; [done|]. apply Z.log2_up_spec. lia. }
    pose proof (Z.div_mod (size + 4095) 4096). pose proof (Z.mod_pos_bound (size + 4095) 4096). lia.
  - done.
  - done.
  - exists 3. by split.
  - split; [done|]. by exists 4.
  - intros m head a Ha. simpl in *. rewrite !fn_lookup_insert_ne; [done|..]; intros <-.
    + apply (Ha 0); lia.
    + apply (Ha 2); lia.
Qed.

(** A page allocator with the one page at [sp] to give. *)
Definition one_page (sp : Z) : page_source :=
  mk_source (fun _ order => if order =? 0 then sp else NULL) (fun _ _ _ => NULL).

Notation kconf := (kconfig (L := links)).

Definition page_unused_by (s : state links) (pgs : list (Z * Z)) (sp : Z) : bool :=
  bool_decide (sp ∉ heads) && negb (slab_of s sp) &&
  forallb (fun p : Z * Z => (p.1 + p.2 <=? page_address sp) || (page_address sp + 4096 <=? p.1)) pgs.

Definition page_unused (kc : kconf) (sp : Z) : bool :=
  page_unused_by (slob (kst kc)) (omap page_block (kheld kc)) sp.

Lemma one_page_unused s pgs sp :
  is_frame sp -> page_unused_by s pgs sp = true -> source_unused s pgs (one_page sp).
Proof.
  intros Fr U gfp order node x Ho. simpl. intros [->| ->]; [|by left].
  destruct (Z.eqb_spec order 0) as [->|]; [right|by left]. split; [done|]. intros a Ha.
  apply andb_true_iff in U as [[U1 U2]%andb_true_iff U3]. rewrite forallb_forall in U3.
  assert (virt_to_page a = sp) as ->.
  { destruct Fr as [B V]. etrans; [apply virt_to_page_law|exact V].
    rewrite (base_of _ a B) by done. symmetry. apply base_of; [done|]. change PAGE_SIZE with 4096. lia. }
  apply bool_decide_eq_true in U1. apply negb_true_iff in U2. do 2 (split; [done|]).
  intros q n Hq. apply list_elem_of_In in Hq. specialize (U3 _ Hq). simpl in U3.
  simpl in Ha.
  apply orb_true_iff in U3 as [U3|U3]; apply Z.leb_le in U3; lia.
Qed.

Lemma one_page_fresh (kc : kconf) sp : is_frame sp -> page_unused kc sp = true -> kfresh kc (one_page sp).
Proof. apply one_page_unused. Qed.

(** One request served. *)
Definition kserve (kc : kconf) (sp size : Z) : kconf :=
  match __do_kmalloc_node 8 (one_page sp) size 0 0 (kst kc) with
  | Ret (s, p) => mk_kconfig s (if (p =? NULL) || (size =? 0) then kheld kc else kobj p size :: kheld kc)
  | _ => kc
  end.

Definition cserve (kc : kconf) (sp : Z) (c : kmem_cache) : kconf :=
  match slob_alloc_node 8 (one_page sp) c 0 0 (kst kc) with
  | Ret (s, b) => mk_kconfig s (if b =? NULL then kheld kc else cobj b c :: kheld kc)
  | _ => kc
  end.

Lemma kserve_reachable kc sp size :
  0 <= size -> kfresh kc (one_page sp) -> kreachable kc -> kreachable (kserve kc sp size).
Proof.
  intros Hs F R. unfold kserve. destruct (__do_kmalloc_node 8 _ _ _ _ _) as [[s p]| |] eqn:E; try done.
  eapply kreachable_step; [done|]. apply (kstep_kmalloc kc (one_page sp) size 0 0); [done|done|].
  eapply returns_at; [apply kmalloc_mono|exact E].
Qed.

Lemma cserve_reachable kc sp c :
  cache_ok c -> kfresh kc (one_page sp) -> kreachable kc -> kreachable (cserve kc sp c).
Proof.
  intros Hc F R. unfold cserve. destruct (slob_alloc_node 8 _ _ _ _ _) as [[s b]| |] eqn:E; try done.
  eapply kreachable_step; [done|]. apply (kstep_cache_alloc kc (one_page sp) c 0 0); [done|done|].
  eapply returns_at; [apply cache_alloc_mono|exact E].
Qed.

(** Objects of 24 bytes and their footer. *)
Definition rcu_c : kmem_cache := (__kmem_cache_create (mk_cache 24 4 0 None) SLAB_DESTROY_BY_RCU).1.

Lemma rcu_c_ok : cache_ok rcu_c.
Proof.
  split.
  - by vm_compute.
  - right. by exists 2.
  - intros _. split; [by vm_compute|]. split; [by exists 18|]. by vm_compute.
  - done.
Qed.

Definition frame3 : Z := mem_map + 128.

Definition kr0 : kconf := mk_kconfig (mk_kstate boot [] []) [].
Definition kr1 : kconf := kserve kr0 frame1 100.
Definition kr2 : kconf := kserve kr1 frame2 4090.
Definition kr3 : kconf := cserve kr2 frame3 rcu_c.
Definition kr4 : kconf :=
  match kmem_cache_free 8 rcu_c 8300 (kst kr3) with
  | Ret (s, _) => mk_kconfig s (Deferred 8300 rcu_c :: [Kpages 12288 4090; Kmalloc 8200 100])
  | _ => kr3
  end.

Lemma frame1_ok : is_frame frame1.
Proof. split; [split|]; by vm_compute. Qed.
Lemma frame3_ok : is_frame frame3.
Proof. split; [split|]; by vm_compute. Qed.

Lemma kr0_reachable : kreachable kr0.
Proof. exists (mk_kstate boot [] []). split; [split; [apply boot_init|done]|constructor]. Qed.

Lemma kr1_held : kheld kr1 = [Kmalloc 8200 100].
Proof. by vm_compute. Qed.
Lemma kr2_held : kheld kr2 = [Kpages 12288 4090; Kmalloc 8200 100].
Proof. by vm_compute. Qed.
Lemma kr3_held : kheld kr3 = [Object 8300 rcu_c; Kpages 12288 4090; Kmalloc 8200 100].
Proof. by vm_compute. Qed.

Lemma kr1_reachable : kreachable kr1.
Proof. apply kserve_reachable; [done|apply one_page_fresh; [apply frame1_ok|by vm_compute]|apply kr0_reachable]. Qed.

Lemma kr1_fresh : kfresh kr1 (one_page frame2).
Proof. apply one_page_fresh; [apply frame2_ok|by vm_compute]. Qed.

Lemma kr2_reachable : kreachable kr2.
Proof. apply kserve_reachable; [done|apply kr1_fresh|apply kr1_reachable]. Qed.

Lemma kr2_fresh : kfresh kr2 (one_page frame3).
Proof. apply one_page_fresh; [apply frame3_ok|by vm_compute]. Qed.

Lemma kr3_reachable : kreachable kr3.
Proof. apply cserve_reachable; [apply rcu_c_ok|apply kr2_fresh|apply kr2_reachable]. Qed.
