(* ===== verification/KmallocProps.v ===== *)
(** What the front end promises: kmalloc, kfree, ksize and the kmem_caches in any
    state that clients of the allocator can bring about. *)
From S2P Require Import Prelude ListHead Kernel SlobBlocks Slob SlobFuel SlobPage SlobSearch SlobInv SlobAlloc SlobFree SlobAcct SlobRuns SlobFlags SlobBoot Kmalloc KmallocRuns KmallocOps KmallocSteps KmallocReach KmallocBoot.
Import I386 Links.

Section KmallocProps.
Context {K : Kernel} {KL : KernelLaws} {M : Mm} {ML : MmLaws}.
Context {L : Type} {LO : ListOps L} {LL : ListLaws L}.
Implicit Types (m : Z -> Z) (s : kstate L) (kc : kconfig (L := L)) (k : kblock).

(** The objects [l] are all that the allocator holds: the invariant accounts for every
    unit of its pages with them, and they are what the system call counts. *)
Definition only_held s (l : list kblock) : Prop :=
  kinv (mk_kconfig s l) /\
  returns (fun fuel => sys_slob_units_used fuel (slob s)) (wraps BITS_PER_LONG (held_units (omap slob_block l))).

Lemma only_held_inv s l : kinv (mk_kconfig s l) -> only_held s l.
Proof. intros KI. by split; [|exact (units_of_objects _ KI)]. Qed.

(** *** Properties *)

(** C8: in every reachable state kmalloc returns. Size 0 gives ZERO_SIZE_PTR; NULL
    comes only when the page allocator fails the very request that kmalloc makes of
    it, one page or the order that holds the size; in both cases nothing changes.
    Otherwise the object is aligned, overlaps no object handed out before and the
    contents of the others are kept. A large object is what the page allocator
    answers to that request. Under __GFP_ZERO the units of the object are zero: small
    ones always, large ones when the page allocator clears what it is asked to clear. *)
Theorem kmalloc_correct kc src size gfp node :
  kreachable kc -> kfresh kc src -> 0 <= size ->
  exists s' p, returns (fun fuel => __do_kmalloc_node fuel src size gfp node (kst kc)) (s', p) /\
    (size = 0 /\ p = ZERO_SIZE_PTR /\ s' = kst kc \/
     0 < size /\ p = NULL /\ s' = kst kc /\ kmalloc_pages src size gfp node = NULL \/
     0 < size /\ p ≠ NULL /\ (kmalloc_align | p) /\
     kreachable (mk_kconfig s' (kobj p size :: kheld kc)) /\
     (forall k, k ∈ kheld kc -> bytes_disjoint (p, size) (user_bytes k)) /\
     keeps kc (kheld kc) s' /\
     (small_size size = false -> p = kmalloc_pages src size gfp node /\ s' = kst kc) /\
     (gfp .& gfp_allowed_mask .& __GFP_ZERO ≠ 0 ->
        small_size size = true \/ source_zeroes (kmem (kst kc)) src ->
        forall i, 0 <= i < size / 2 -> kmem s' (p + 2 * i) = 0)).
Proof.
  intros Hr F Hs. assert (KI := kreachable_inv kc Hr).
  destruct (kmalloc_spec kc src size gfp node KI F Hs) as (s'&p&R&Hpost). exists s', p.
  split; [done|]. destruct Hpost as [?|[?|(Hsz&Hp&Hal&KI'&Hk&Hl&Hz)]]; [by left|by auto|right; right].
  do 3 (split; [done|]). split; [|split; [|done]].
  - pose proof (kstep_kmalloc kc src size gfp node s' p Hs F R) as St.
    rewrite (proj2 (Z.eqb_neq p NULL) Hp), (proj2 (Z.eqb_neq size 0)) in St by lia.
    by eapply kreachable_step.
  - intros k Hin. apply list_elem_of_split in Hin as (l1&l2&Eh).
    assert ((p, size) = user_bytes (kobj p size)) as -> by (unfold kobj; by destruct (small_size _)).
    eapply (kheld_apart _ [] _ l1 k l2); [exact KI'|]. simpl. by rewrite Eh.
Qed.

(** C9: in every reachable state kfree of an object from kmalloc returns without
    BUG and frees exactly it: an object in a slob page goes to slob_free with its
    header, at the address and with the size it was allocated with; whole pages go
    back to the page allocator with the order of the compound page and the slob pages
    stay as they are. The invariant then holds with the other objects alone, which
    keep their contents, and the counted units are theirs: nothing leaks. *)
Theorem kfree_correct kc co l1 p size l2 :
  kreachable kc -> kheld kc = l1 ++ kobj p size :: l2 ->
  exists s', returns (fun fuel => kfree fuel co p (kst kc)) (s', tt) /\
    kreachable (mk_kconfig s' (l1 ++ l2)) /\
    (if small_size size
     then slob_freed (kst kc) (p - kmalloc_align) (size + kmalloc_align) s' /\ returned s' = returned (kst kc)
     else slob s' = slob (kst kc) /\ returned s' = (virt_to_page p, co (virt_to_page p)) :: returned (kst kc)) /\
    rcu_pending s' = rcu_pending (kst kc) /\ keeps kc (l1 ++ l2) s' /\ only_held s' (l1 ++ l2).
Proof.
  intros Hr Eh. destruct (kfree_spec kc co l1 p size l2 (kreachable_inv kc Hr) Eh) as (s'&R&KI'&Hk&Ep&Ef).
  exists s'. split; [done|]. split; [|do 3 (split; [done|]); exact (only_held_inv _ _ KI')].
  eapply kreachable_step; [done|]. by eapply kstep_kfree.
Qed.

(** C14: ksize of an object from kmalloc: the requested size rounded up to units
    for one in a slob page, the size of the compound page otherwise. So kfree and
    ksize find the size that kmalloc was given, whatever happened since. *)
Theorem ksize_correct kc co p size :
  kreachable kc -> compound_ok co (kheld kc) -> kobj p size ∈ kheld kc ->
  exists n, ksize co p (kst kc) = Ret n /\
    (if small_size size then size <= n <= size + 1 /\ (2 | n) else n = wrapu BITS_PER_LONG (pages_of size)).
Proof.
  intros Hr%kreachable_inv Hco Hin. eexists. split; [by apply ksize_spec|].
  pose proof (ki_blocks _ Hr) as F. rewrite Forall_forall in F. specialize (F _ Hin).
  unfold kobj in F. destruct (small_size size) eqn:E; [|done].
  apply small_size_spec in E. rewrite page_size_law in E. destruct F as (Hs&_&_).
  destruct align_facts as (?&_). pose proof (SLOB_UNITS_spec size).
  assert (2 ^ 32 <= 2 ^ BITS_PER_LONG) by (apply Z.pow_le_mono_r; [lia|apply bits_per_long_law]).
  rewrite wrapu_small by lia. split; [lia|]. by exists (SLOB_UNITS size); lia.
Qed.

(** In every reachable state two objects of the front end (from kmalloc or a
    cache, in slob pages or in pages of their own, waiting for RCU or not) never
    share a byte. *)
Theorem objects_disjoint kc l1 k1 l2 k2 l3 :
  kreachable kc -> kheld kc = l1 ++ k1 :: l2 ++ k2 :: l3 -> bytes_disjoint (user_bytes k1) (user_bytes k2).
Proof. intros Hr. by apply kheld_apart, kreachable_inv. Qed.

(** C11: kmem_cache_alloc returns. NULL comes only when the page allocator fails the
    very request made of it, and nothing changed. Otherwise the object is aligned as
    the cache asks and overlaps no other object; it is what slob_alloc returned for
    the size and alignment of the cache, or what the page allocator answered, cleared
    under __GFP_ZERO, and then the constructor of the cache ran on it, once: nothing
    else changed, and the contents of the other objects are kept. *)
Theorem kmem_cache_alloc_correct kc src c flags :
  kreachable kc -> kfresh kc src -> cache_ok c ->
  exists s' b, returns (fun fuel => kmem_cache_alloc fuel src c flags (kst kc)) (s', b) /\
    (b = NULL /\ s' = kst kc /\ cache_pages src c flags NUMA_NO_NODE = NULL \/
     b ≠ NULL /\ aligned_to (c_align c) b /\ kreachable (mk_kconfig s' (cobj b c :: kheld kc)) /\
     (forall k, k ∈ kheld kc -> bytes_disjoint (b, c_size c) (user_bytes k)) /\
     keeps kc (kheld kc) s' /\
     exists sl, cache_got kc src c flags NUMA_NO_NODE sl b /\ s' = constructed c b sl (kst kc)).
Proof.
  intros Hr F Hc. assert (KI := kreachable_inv kc Hr).
  destruct (cache_alloc_spec kc src c flags NUMA_NO_NODE KI F Hc) as (s'&b&R&Hpost). exists s', b.
  split; [done|]. destruct Hpost as [?|(Hb&Hal&KI'&Hk&Hg)]; [by left|right].
  do 2 (split; [done|]). split; [|split; [|done]].
  - pose proof (kstep_cache_alloc kc src c flags _ s' b Hc F R) as St.
    rewrite (proj2 (Z.eqb_neq b NULL) Hb) in St. by eapply kreachable_step.
  - intros k Hin. apply list_elem_of_split in Hin as (l1&l2&Eh).
    assert ((b, c_size c) = user_bytes (cobj b c)) as -> by (unfold cobj; by destruct (_ <? _)).
    eapply (kheld_apart _ [] _ l1 k l2); [exact KI'|]. simpl. by rewrite Eh.
Qed.

(** C12: kmem_cache_free returns and frees exactly its object: the block goes to
    slob_free with the size of the cache, or its pages to the page allocator with
    their order. With SLAB_DESTROY_BY_RCU the object stays allocated instead, its
    size is stored behind it and its rcu_head is queued. The other objects keep their
    contents, the invariant holds with the objects that remain and the counted units
    are theirs. *)
Theorem kmem_cache_free_correct kc l1 b c l2 :
  kreachable kc -> kheld kc = l1 ++ cobj b c :: l2 ->
  exists s', returns (fun fuel => kmem_cache_free fuel c b (kst kc)) (s', tt) /\
    kreachable (mk_kconfig s' (l1 ++ (if rcu_cache c then [Deferred b c] else []) ++ l2)) /\
    cache_freed (kst kc) b c s' /\ keeps kc (l1 ++ l2) s' /\
    only_held s' (l1 ++ (if rcu_cache c then [Deferred b c] else []) ++ l2).
Proof.
  intros Hr Eh. destruct (cache_free_spec kc l1 b c l2 (kreachable_inv kc Hr) Eh) as (s'&R&KI'&?&?).
  exists s'. split; [done|]. split; [|do 2 (split; [done|]); exact (only_held_inv _ _ KI')].
  eapply kreachable_step; [done|]. by eapply kstep_cache_free.
Qed.

(** C13: every callback that waits belongs to an object whose free was deferred,
    and running it, at any later time, returns without BUG and frees exactly that
    object: slob_free gets the block and the size its cache had, the contents of the
    others are kept, the invariant holds with them alone and the counted units are
    theirs. *)
Theorem kmem_rcu_free_correct kc head q1 q2 :
  kreachable kc -> rcu_pending (kst kc) = q1 ++ head :: q2 ->
  exists l1 b c l2 s', kheld kc = l1 ++ Deferred b c :: l2 /\ head = rcu_head_of b c /\
    returns (fun fuel => kmem_rcu_free fuel head
      (mk_kstate (slob (kst kc)) (returned (kst kc)) (q1 ++ q2))) (s', tt) /\
    kreachable (mk_kconfig s' (l1 ++ l2)) /\ slob_freed (kst kc) b (c_size c) s' /\
    rcu_pending s' = q1 ++ q2 /\ returned s' = returned (kst kc) /\
    keeps kc (l1 ++ l2) s' /\ only_held s' (l1 ++ l2).
Proof.
  intros Hr Eq. assert (KI := kreachable_inv kc Hr).
  assert (head ∈ omap pending_head (kheld kc)) as Hin.
  { rewrite <- (ki_pending _ KI), Eq. set_solver. }
  apply list_elem_of_omap in Hin as (k&Hk&Ek). destruct k as [| | | |b c]; try done.
  injection Ek as <-. apply list_elem_of_split in Hk as (l1&l2&Eh).
  destruct (rcu_callback kc l1 b c l2 q1 q2 KI Eh Eq) as (s'&R&KI'&?&?&?&?).
  exists l1, b, c, l2, s'. do 3 (split; [done|]).
  split; [|do 4 (split; [done|]); exact (only_held_inv _ _ KI')].
  eapply kreachable_step; [done|]. by eapply kstep_rcu.
Qed.

(** The system call sys_slob_units_used counts, for every object in a slob page, its units
    with those of the kmalloc header, and nothing for whole pages. *)
Theorem units_used_by_objects kc :
  kreachable kc ->
  returns (fun fuel => sys_slob_units_used fuel (slob (kst kc)))
    (wraps BITS_PER_LONG (held_units (omap slob_block (kheld kc)))).
Proof. intros Hr. by apply units_of_objects, kreachable_inv. Qed.

(** C15: what __kmem_cache_create makes of a request with a size below 2^31 (for
    SLAB_DESTROY_BY_RCU: even and with the footer smaller than a page) is
    well-formed, and the requested object does not overlap the footer. *)
Theorem kmem_cache_create_ok c flags :
  0 < c_size c < 2 ^ 31 -> (c_align c = 0 \/ exists j, 1 <= j <= 12 /\ c_align c = 2 ^ j) ->
  (flags .& SLAB_DESTROY_BY_RCU ≠ 0 -> (2 | c_size c) /\ c_size c + sizeof_slob_rcu < PAGE_SIZE) ->
  (forall f m b, ctor c = Some f -> writes_in m (f m b) (b, c_size c)) ->
  let '(c', ret) := __kmem_cache_create c flags in
  ret = 0 /\ cache_ok c' /\ (rcu_cache c' = true -> forall b, b + c_size c <= rcu_head_of b c').
Proof.
  intros Hs Ha Hr Hf. unfold __kmem_cache_create. destruct rcu_facts as (Hl&D). destruct rcu_head_law as (?&_).
  split; [done|]. rewrite page_size_law in Hr. pose proof (SLOB_UNITS_spec (c_size c)).
  destruct (Z.eqb_spec (flags .& SLAB_DESTROY_BY_RCU) 0) as [E|E]; cbn [negb].
  - assert (rcu_cache (mk_cache (c_size c) (c_align c) flags (ctor c)) = false) as Er
      by (unfold rcu_cache; simpl; by zdec).
    split; [|congruence]. by split; simpl; rewrite ?Er.
  - destruct (Hr E) as [D' Hlt]. rewrite wrapu_small by lia. unfold rcu_head_of. simpl.
    split; [|intros _ b; lia]. split; simpl.
    + lia.
    + done.
    + intros _. rewrite page_size_law. split; [lia|]. split; [by apply Z.divide_add_r|lia].
    + intros f m b Ef. eapply writes_in_mono; [by eapply Hf|]. simpl. intros i Hi. exists i.
      pose proof (SLOB_UNITS_spec (c_size c + sizeof_slob_rcu)). split; [lia|done].
Qed.

(** So is the cache that kmem_cache_init starts with, and kmem_cache_init_late
    leaves it in place. *)
Lemma kmem_cache_init_ok g : exists c,
  kmem_cache_ptr (kmem_cache_init g) = Some c /\ slab_state (kmem_cache_init g) = Some UP /\ cache_ok c /\
  kmem_cache_init_late (kmem_cache_init g) = mk_globals (Some c) (Some FULL).
Proof.
  exists kmem_cache_boot. do 2 (split; [done|]). split; [|done].
  assert (rcu_cache kmem_cache_boot = false) as Er by (unfold rcu_cache; simpl; by rewrite panic_law).
  split; rewrite ?Er; try done.
  - apply kmem_cache_law.
  - right. destruct kmalloc_minalign_law as (j&?&E). exists j. simpl. split; [lia|done].
Qed.
End KmallocProps.

(** ** Instances *)

(** 50 zeroed bytes after an object of 100 bytes. *)
Lemma kmalloc_correct_witness :
  exists s' p, returns (fun fuel => __do_kmalloc_node fuel (one_page frame2) 50 __GFP_ZERO 0 (kst kr1)) (s', p) /\
    (p = NULL \/ (8 | p) /\ bytes_disjoint (p, 50) (8200, 100)).
Proof.
  destruct (kmalloc_correct kr1 (one_page frame2) 50 __GFP_ZERO 0)
    as (s'&p&R&[(?&_)|[(_&?&_)|(_&_&Ha&_&Hd&_)]]).
  - exact kr1_reachable.
  - exact kr1_fresh.
  - lia.
  - lia.
  - exists s', p. split; [exact R|by left].
  - exists s', p. split; [exact R|right]. split; [exact Ha|].
    apply (Hd (Kmalloc 8200 100)). rewrite kr1_held. by left.
Defined.

(** The page goes back, with order 0. *)
Lemma kfree_correct_witness :
  exists s', returns (fun fuel => kfree fuel (fun _ => 0) 12288 (kst kr2)) (s', tt) /\
    kreachable (mk_kconfig s' [Kmalloc 8200 100]) /\ returned s' = [(frame2, 0)].
Proof.
  destruct (kfree_correct kr2 (fun _ => 0) [] 12288 4090 [Kmalloc 8200 100] kr2_reachable)
    as (s'&R&Hr&Er&_).
  - exact kr2_held.
  - exists s'. split; [exact R|]. split; [exact Hr|].
    assert (small_size 4090 = false) as Es by by vm_compute.
    rewrite Es in Er. destruct Er as [_ Er]. rewrite Er. by vm_compute.
Defined.

Lemma kr2_compound : compound_ok (fun _ => 0) (kheld kr2).
Proof.
  intros p size Hin. rewrite kr2_held in Hin. rewrite !elem_of_cons in Hin.
  destruct Hin as [[= -> ->]|[?|Hin]]; [done|done|]. by apply elem_of_nil in Hin.
Qed.

Lemma ksize_correct_witness :
  exists n, ksize (fun _ => 0) 8200 (kst kr2) = Ret n /\ 100 <= n <= 101 /\ (2 | n).
Proof.
  destruct (ksize_correct kr2 (fun _ => 0) 8200 100) as (n&E&H).
  - exact kr2_reachable.
  - exact kr2_compound.
  - rewrite kr2_held. right. by left.
  - exists n. split; [exact E|]. assert (small_size 100 = true) as Es by by vm_compute.
    rewrite Es in H. exact H.
Defined.

Lemma objects_disjoint_witness :
  kheld kr2 = [Kpages 12288 4090; Kmalloc 8200 100] /\ bytes_disjoint (12288, 4090) (8200, 100).
Proof.
  split; [exact kr2_held|].
  apply (objects_disjoint kr2 [] (Kpages 12288 4090) [] (Kmalloc 8200 100) [] kr2_reachable).
  exact kr2_held.
Defined.

Lemma kmem_cache_alloc_correct_witness :
  exists s' b, returns (fun fuel => kmem_cache_alloc fuel (one_page frame3) rcu_c 0 (kst kr2)) (s', b) /\
    (b = NULL \/ aligned_to 4 b /\ bytes_disjoint (b, 36) (8200, 100)).
Proof.
  destruct (kmem_cache_alloc_correct kr2 (one_page frame3) rcu_c 0)
    as (s'&b&R&[(?&_)|(_&Ha&_&Hd&_)]).
  - exact kr2_reachable.
  - exact kr2_fresh.
  - exact rcu_c_ok.
  - exists s', b. split; [exact R|by left].
  - exists s', b. split; [exact R|right]. split; [exact Ha|].
    apply (Hd (Kmalloc 8200 100)). rewrite kr2_held. right. by left.
Defined.

(** The object of the RCU cache stays; its rcu_head is at its byte 24. *)
Lemma kmem_cache_free_correct_witness :
  exists s', returns (fun fuel => kmem_cache_free fuel rcu_c 8300 (kst kr3)) (s', tt) /\
    kreachable (mk_kconfig s' [Deferred 8300 rcu_c; Kpages 12288 4090; Kmalloc 8200 100]) /\
    rcu_pending s' = [8324].
Proof.
  destruct (kmem_cache_free_correct kr3 [] 8300 rcu_c [Kpages 12288 4090; Kmalloc 8200 100] kr3_reachable)
    as (s'&R&Hr&[_ Ep]&_).
  - exact kr3_held.
  - exists s'. split; [exact R|]. split; [exact Hr|].
    assert (rcu_cache rcu_c = true) as Er by by vm_compute.
    rewrite Er in Ep. destruct Ep as (_&Ep&_). rewrite Ep. by vm_compute.
Defined.

Lemma kr4_reachable : kreachable kr4.
Proof.
  destruct (kmem_cache_free 8 rcu_c 8300 (kst kr3)) as [[s []]| |] eqn:E.
  - replace kr4 with (mk_kconfig s [Deferred 8300 rcu_c; Kpages 12288 4090; Kmalloc 8200 100])
      by (unfold kr4; by rewrite E).
    assert (returns (fun fuel => kmem_cache_free fuel rcu_c 8300 (kst kr3)) (s, tt)) as R
      by (exists 0%nat; intros fuel _; exact E).
    pose proof (kstep_cache_free kr3 [] 8300 rcu_c _ s kr3_held R) as St.
    exact (kreachable_step _ _ kr3_reachable St).
  - unfold kr4. rewrite E. exact kr3_reachable.
  - unfold kr4. rewrite E. exact kr3_reachable.
Qed.

Lemma kr4_pending : rcu_pending (kst kr4) = [8324].
Proof. by vm_compute. Qed.

Lemma kmem_rcu_free_correct_witness :
  exists l1 l2 s', returns (fun fuel => kmem_rcu_free fuel 8324
      (mk_kstate (slob (kst kr4)) (returned (kst kr4)) [])) (s', tt) /\
    kreachable (mk_kconfig s' (l1 ++ l2)) /\ rcu_pending s' = [].
Proof.
  destruct (kmem_rcu_free_correct kr4 8324 [] [] kr4_reachable) as (l1&b&c&l2&s'&_&_&R&Hr&_&Ep&_).
  - exact kr4_pending.
  - exists l1, l2, s'. split; [exact R|]. split; [exact Hr|exact Ep].
Defined.

(** 100 bytes and their header of 8: 54 units; nothing for the page. *)
Lemma units_used_by_objects_witness :
  returns (fun fuel => sys_slob_units_used fuel (slob (kst kr2)))
    (wraps 32 (held_units (omap slob_block (kheld kr2)))) /\
  held_units (omap slob_block (kheld kr2)) = 54.
Proof.
  split; [exact (units_used_by_objects kr2 kr2_reachable)|]. rewrite kr2_held. by vm_compute.
Defined.

Lemma kmem_cache_create_ok_witness :
  let '(c', ret) := __kmem_cache_create (mk_cache 24 4 0 None) SLAB_DESTROY_BY_RCU in
  ret = 0 /\ cache_ok c' /\ (rcu_cache c' = true -> forall b, b + 24 <= rcu_head_of b c').
Proof.
  apply (kmem_cache_create_ok (mk_cache 24 4 0 None) SLAB_DESTROY_BY_RCU).
  - by vm_compute.
  - right. by exists 2.
  - intros _. split; [by exists 12|by vm_compute].
  - done.
Defined.
