(* ===== verification/KmallocThreads.v ===== *)
(** Several threads inside the front end of assignments/a4/slob.c.

    kmalloc and kmem_cache_alloc call slob_alloc and then work on a block that is
    theirs; kfree, kmem_cache_free and the RCU callback look at the object first
    and then call slob_free. A call of the front end is a program counter that
    walks through the part before, the sections of SlobThreads.v, and the part
    after. *)
From S2P Require Import Prelude ListHead Kernel SlobBlocks Slob SlobFuel SlobPage SlobInv SlobAlloc SlobRuns SlobThreads SlobThreadsInv SlobThreadsRuns Kmalloc KmallocRuns KmallocOps KmallocSteps.

(** What a thread wants: an object of a size, or an object of a cache. *)
Inductive want : Type :=
| WKmalloc (size : Z)
| WCache (c : kmem_cache).

Inductive kpc : Type :=
| KIdle
| KAlloc (a : want) (p : tpc)          (* inside slob_alloc *)
| KPages (a : want) (gfp node : Z)     (* too large for a slab page: before slob_new_pages *)
| KInit (a : want) (b : Z)             (* the block for the object is at b *)
| KFree (k : kblock)                   (* before it looks at the object it frees *)
| KIn (p : tpc).                       (* inside slob_free *)

Record kthread : Type := mk_kthread { kreclaim : option Z; kpc_of : kpc }.

Section KmallocThreads.
Context {K : Kernel} {M : Mm} {L : Type} {LO : ListOps L}.
Variable atomic : bool.
(** The order of the compound page at a struct page. *)
Variable compound_order : Z -> Z.
Implicit Types (s : kstate L).

(** *** The part before slob_alloc *)
Definition kmalloc_request (size gfp node : Z) : request :=
  mk_request (size + kmalloc_align) (gfp .& gfp_allowed_mask) kmalloc_align node.

Definition cache_request (c : kmem_cache) (flags node : Z) : request :=
  mk_request (c_size c) (flags .& gfp_allowed_mask) (c_align c) node.

(** kmalloc and kmem_cache_alloc up to the call of slob_alloc or slob_new_pages. *)
Definition kmalloc_start (size gfp node : Z) : kpc :=
  if small_size size then KAlloc (WKmalloc size) (ASearch (kmalloc_request size gfp node))
  else KPages (WKmalloc size) (gfp .& gfp_allowed_mask) node.

Definition cache_start (c : kmem_cache) (flags node : Z) : kpc :=
  if c_size c <? PAGE_SIZE then KAlloc (WCache c) (ASearch (cache_request c flags node))
  else KPages (WCache c) (flags .& gfp_allowed_mask) node.

(** slob_new_pages for a large object. *)
Definition large_pages (src : page_source) (a : want) (gfp node : Z) : Z :=
  match a with
  | WKmalloc size =>
      let order := get_order size in
      let gfp := if negb (order =? 0) then gfp .| __GFP_COMP else gfp in
      slob_new_pages src gfp order node
  | WCache c => slob_new_pages src gfp (get_order (c_size c)) node
  end.

(** *** The part after slob_alloc: the header, or the constructor *)
Definition finish (a : want) (b : Z) s : kstate L * kblock :=
  match a with
  | WKmalloc size => (with_kmem (store_uint (kmem s) b size) s, Kmalloc (b + kmalloc_align) size)
  | WCache c => (run_ctor c b s, cobj b c)
  end.

(** *** The part before slob_free: its arguments, unless it is not called *)
Definition kfree_enter (block : Z) s : kstate L * option (Z * Z) :=
  if ZERO_OR_NULL_PTR block then (s, None)
  else
    let sp := virt_to_page block in
    if PageSlab (page_at (slob s) sp) then
      let m := block - kmalloc_align in
      (s, Some (m, wraps 32 (load_uint (kmem s) m + kmalloc_align)))
    else (mk_kstate (slob s) ((sp, compound_order sp) :: returned s) (rcu_pending s), None).

Definition cache_free_enter (b size : Z) s : kstate L * option (Z * Z) :=
  if wrapu BITS_PER_LONG size <? PAGE_SIZE then (s, Some (b, size))
  else (with_slob (slob_free_pages b (get_order (wrapu BITS_PER_LONG size)) (slob s)) s, None).

Definition rcu_free_enter (head : Z) s : kstate L * option (Z * Z) :=
  let size := load_int (kmem s) (head + sizeof_rcu_head) in
  cache_free_enter (head - (size - sizeof_slob_rcu)) size s.

(** kmem_cache_free of an object of a cache with SLAB_DESTROY_BY_RCU. *)
Definition defer (c : kmem_cache) (b : Z) s : kstate L :=
  let slob_rcu := b + (c_size c - sizeof_slob_rcu) in
  let m := store_uint (kmem s) (slob_rcu + sizeof_rcu_head) (c_size c) in
  mk_kstate (with_mem (rcu_store m slob_rcu) (slob s)) (returned s) (slob_rcu :: rcu_pending s).

Definition call_free (x : kstate L * option (Z * Z)) : kstate L * kpc :=
  (x.1, match x.2 with Some (b, size) => KIn (FSection b size) | None => KIdle end).

(** The next section of a thread: the state, where it is then, and the object it
    answers or leaves to a callback. *)
Definition kthread_step (fuel : nat) (src : page_source) (p : kpc) s :
    res (kstate L * kpc * option kblock) :=
  match p with
  | KIdle => Ret (s, KIdle, None)
  | KAlloc a p =>
      '(sl, p, d) ← thread_step atomic fuel src p (slob s);
      let p :=
        match p, d with
        | Idle, Some (b, _) => KInit a b
        | Idle, None => KIdle               (* out of memory *)
        | _, _ => KAlloc a p
        end in
      Ret (with_slob sl s, p, None)
  | KPages a gfp node =>
      let b := large_pages src a gfp node in
      if b =? NULL then Ret (s, KIdle, None)
      else match a with
           | WKmalloc size => Ret (s, KIdle, Some (Kpages b size))
           | WCache _ => Ret (s, KInit a b, None)
           end
  | KInit a b => let '(s, k) := finish a b s in Ret (s, KIdle, Some k)
  | KFree k =>
      match k with
      | Kmalloc p _ | Kpages p _ => let '(s, p) := call_free (kfree_enter p s) in Ret (s, p, None)
      | Object b c | Opages b c =>
          if rcu_cache c then Ret (defer c b s, KIdle, Some (Deferred b c))
          else let '(s, p) := call_free (cache_free_enter b (wraps 32 (c_size c)) s) in Ret (s, p, None)
      | Deferred b c => let '(s, p) := call_free (rcu_free_enter (rcu_head_of b c) s) in Ret (s, p, None)
      end
  | KIn p =>
      '(sl, p, _) ← thread_step atomic fuel src p (slob s);
      Ret (with_slob sl s, match p with Idle => KIdle | _ => KIn p end, None)
  end.

(** *** The parts make up the operations of Kmalloc.v *)
Definition then_free (fuel : nat) (x : kstate L * option (Z * Z)) : res (kstate L * unit) :=
  match x.2 with
  | None => Ret (x.1, tt)
  | Some (b, size) => '(sl, _) ← slob_free fuel b size (slob x.1); Ret (with_slob sl x.1, tt)
  end.

Lemma kfree_parts fuel block s : kfree fuel compound_order block s = then_free fuel (kfree_enter block s).
Proof.
  unfold kfree, kfree_enter. destruct (ZERO_OR_NULL_PTR block); [done|]. by destruct (PageSlab _).
Qed.

Lemma cache_free_parts fuel c b s :
  kmem_cache_free fuel c b s =
    if rcu_cache c then Ret (defer c b s, tt) else then_free fuel (cache_free_enter b (wraps 32 (c_size c)) s).
Proof.
  unfold kmem_cache_free, rcu_cache. destruct (negb _); [done|].
  unfold __kmem_cache_free, cache_free_enter. by destruct (_ <? _).
Qed.

Lemma rcu_free_parts fuel head s : kmem_rcu_free fuel head s = then_free fuel (rcu_free_enter head s).
Proof. unfold kmem_rcu_free, rcu_free_enter, __kmem_cache_free, cache_free_enter. by destruct (_ <? _). Qed.

Definition address (k : kblock) : Z :=
  match k with Kmalloc p _ | Kpages p _ | Object p _ | Opages p _ | Deferred p _ => p end.

Definition then_finish (a : want) (x : res (state L * Z)) s : res (kstate L * Z) :=
  '(sl, b) ← x;
  if b =? NULL then Ret (with_slob sl s, NULL)
  else let '(s, k) := finish a b (with_slob sl s) in Ret (s, address k).

Lemma kmalloc_parts fuel src size gfp node s :
  small_size size = true -> size ≠ 0 ->
  __do_kmalloc_node fuel src size gfp node s =
    let r := kmalloc_request size gfp node in
    then_finish (WKmalloc size) (slob_alloc fuel src (rq_size r) (rq_gfp r) (rq_align r) (rq_node r) (slob s)) s.
Proof.
  intros Hs Hz. unfold __do_kmalloc_node, then_finish. rewrite Hs. zdec. simpl.
  destruct (slob_alloc _ _ _ _ _ _ _) as [[sl b]| |]; simpl; [|done..]. by destruct (b =? NULL).
Qed.

Lemma kmalloc_large_parts fuel src size gfp node s :
  small_size size = false ->
  __do_kmalloc_node fuel src size gfp node s =
    Ret (s, large_pages src (WKmalloc size) (gfp .& gfp_allowed_mask) node).
Proof. intros Hs. unfold __do_kmalloc_node. by rewrite Hs. Qed.

Lemma cache_alloc_parts fuel src c flags node s :
  slob_alloc_node fuel src c flags node s =
    let r := cache_request c flags node in
    then_finish (WCache c)
      (if c_size c <? PAGE_SIZE then slob_alloc fuel src (rq_size r) (rq_gfp r) (rq_align r) (rq_node r) (slob s)
       else Ret (slob s, large_pages src (WCache c) (flags .& gfp_allowed_mask) node)) s.
Proof.
  assert (forall b s0, address (cobj b c) = b /\ (b = NULL -> run_ctor (L := L) c b s0 = s0)) as Hf.
  { intros b s0. split; [unfold cobj; by destruct (_ <? _)|]. intros ->. unfold run_ctor. by destruct (ctor c). }
  unfold slob_alloc_node, then_finish. simpl. destruct (_ <? _).
  - destruct (slob_alloc _ _ _ _ _ _ _) as [[sl b]| |]; simpl; [|done..].
    destruct (Hf b (with_slob sl s)) as [Ea En].
    destruct (Z.eqb_spec b NULL) as [->|]; [by rewrite En|by rewrite Ea].
  - simpl. set (b := slob_new_pages _ _ _ _). destruct (Hf b s) as [Ea En]. rewrite with_slob_id.
    destruct (Z.eqb_spec b NULL) as [Eb|]; [by rewrite En, Eb|by rewrite Ea].
Qed.
End KmallocThreads.
