(* ===== verification/KmallocThreadsInv.v ===== *)
(** Runs of many threads inside the front end. Each run is a run of the allocator
    below it (SlobThreadsRuns.v), in which the small objects and the blocks that the
    front end is working on are the clients' blocks; large objects have pages of
    their own, which are no slab pages; the sizes kept next to the objects stay
    what they were. *)
From S2P Require Import Prelude ListHead Kernel SlobBlocks Slob SlobFuel SlobPage SlobInv SlobAlloc SlobFree SlobAcct SlobRuns SlobFlags SlobThreads SlobCounter SlobThreadsInv SlobThreadsRuns Kmalloc KmallocRuns KmallocOps KmallocSteps KmallocThreads.

Section KmallocThreadsInv.
Context {K : Kernel} {KL : KernelLaws} {M : Mm} {ML : MmLaws}.
Context {L : Type} {LO : ListOps L} {LL : ListLaws L}.
Variable atomic : bool.
Variable compound_order : Z -> Z.
Implicit Types (s : kstate L) (ts : list kthread) (l : list kblock) (sl : state L).

(** The shared state, the threads, and the objects that clients hold or that wait
    for their callback. *)
Record kworld : Type := mk_kworld { ksh : kstate L; kths : list kthread; kobjs : list kblock }.
Implicit Types (w : kworld).

(** The block a thread of the front end has from slob_alloc or has still to give
    back, its pages likewise, and the object it is about to free. *)
Definition want_size (a : want) : Z :=
  match a with WKmalloc size => size + kmalloc_align | WCache c => c_size c end.

Definition want_small (a : want) : bool :=
  match a with WKmalloc size => small_size size | WCache c => c_size c <? PAGE_SIZE end.

Definition front_block (p : kpc) : option (Z * Z) :=
  match p with
  | KInit a b => if want_small a then Some (b, want_size a) else None
  | KFree k => slob_block k
  | _ => None
  end.

Definition front_pages (p : kpc) : option (Z * Z) :=
  match p with
  | KInit a b => if want_small a then None else Some (b, pages_of (want_size a))
  | KFree k => page_block k
  | _ => None
  end.

Definition freeing (p : kpc) : option kblock := match p with KFree k => Some k | _ => None end.

Definition front_of ts : list (Z * Z) := omap (fun t => front_block (kpc_of t)) ts.
Definition pages_of_front ts : list (Z * Z) := omap (fun t => front_pages (kpc_of t)) ts.
Definition freeing_of ts : list kblock := omap (fun t => freeing (kpc_of t)) ts.
Definition blocks_of_objs l : list (Z * Z) := omap slob_block l.
Definition pages_of_objs l : list (Z * Z) := omap page_block l.

(** All pages that were given out whole. *)
Definition whole_pages w : list (Z * Z) := pages_of_front (kths w) ++ pages_of_objs (kobjs w).

(** *** Steps. kmalloc of size 0 and kfree of NULL touch nothing that is shared. *)
Definition idle_thread (t : kthread) (p : kpc) : kthread := mk_kthread (kreclaim t) p.

Definition set_kcurrent (r : option Z) s : kstate L := with_slob (set_current r (slob s)) s.

Inductive kwstep w : kworld -> Prop :=
| kw_kmalloc t1 t t2 size gfp node :             (* a thread calls kmalloc *)
    kths w = t1 ++ t :: t2 -> kpc_of t = KIdle -> 0 < size ->
    kwstep w (mk_kworld (ksh w) (t1 ++ idle_thread t (kmalloc_start size gfp node) :: t2) (kobjs w))
| kw_cache t1 t t2 c flags node :                (* kmem_cache_alloc *)
    kths w = t1 ++ t :: t2 -> kpc_of t = KIdle -> cache_ok c ->
    kwstep w (mk_kworld (ksh w) (t1 ++ idle_thread t (cache_start c flags node) :: t2) (kobjs w))
| kw_free t1 t t2 l1 k l2 :                      (* kfree, kmem_cache_free *)
    kths w = t1 ++ t :: t2 -> kpc_of t = KIdle -> kobjs w = l1 ++ k :: l2 -> pending_head k = None ->
    kwstep w (mk_kworld (ksh w) (t1 ++ idle_thread t (KFree k) :: t2) (l1 ++ l2))
| kw_rcu t1 t t2 l1 b c l2 q1 q2 :               (* the callback of a deferred object *)
    kths w = t1 ++ t :: t2 -> kpc_of t = KIdle -> kobjs w = l1 ++ Deferred b c :: l2 ->
    rcu_pending (ksh w) = q1 ++ rcu_head_of b c :: q2 ->
    kwstep w (mk_kworld (mk_kstate (slob (ksh w)) (returned (ksh w)) (q1 ++ q2))
      (t1 ++ idle_thread t (KFree (Deferred b c)) :: t2) (l1 ++ l2))
| kw_write k i v :                               (* the owner of an object writes into it *)
    k ∈ kobjs w -> pending_head k = None -> 0 <= i < SLOB_UNITS (user_bytes k).2 ->
    kwstep w (mk_kworld (with_kmem (<[(user_bytes k).1 + 2 * i := v]> (kmem (ksh w))) (ksh w)) (kths w) (kobjs w))
| kw_run t1 t t2 src s' p' d :                   (* a thread executes its next section *)
    kths w = t1 ++ t :: t2 -> kpc_of t ≠ KIdle -> source_unused (slob (ksh w)) (whole_pages w) src ->
    returns (fun fuel => kthread_step atomic compound_order fuel src (kpc_of t) (set_kcurrent (kreclaim t) (ksh w))) (s', p', d) ->
    kwstep w (mk_kworld s' (t1 ++ mk_kthread (reclaimed_slab (slob s')) p' :: t2) (option_list d ++ kobjs w)).

Definition kwinit w : Prop :=
  is_init (slob (ksh w)) /\ rcu_pending (ksh w) = [] /\ Forall (fun t => kpc_of t = KIdle) (kths w) /\ kobjs w = [].

Definition kwreachable w : Prop := exists w0, kwinit w0 /\ rtc kwstep w0 w.

(** *** The allocator below *)
Definition slob_pc (p : kpc) : tpc := match p with KAlloc _ p | KIn p => p | _ => Idle end.
Definition slob_thread (t : kthread) : thread := mk_thread (kreclaim t) (slob_pc (kpc_of t)).

Definition abs w : world (L := L) :=
  mk_world (slob (ksh w)) (slob_thread <$> kths w) (front_of (kths w) ++ blocks_of_objs (kobjs w)).

(** *** What a thread knows *)
Definition want_ok (a : want) : Prop :=
  match a with WKmalloc size => 0 < size | WCache c => cache_ok c end.

Definition want_align (a : want) : Z :=
  match a with WKmalloc _ => kmalloc_align | WCache c => c_align c end.

(** The request of a call to slob_alloc, and whether it is a call to slob_free. *)
Definition request_of (p : tpc) : option request :=
  match p with
  | ASearch r | ANew r | AFill r _ | ALoad r _ | AStore r _ _ | AZero r _ => Some r
  | _ => None
  end.

Definition kpc_ok (p : kpc) : Prop :=
  match p with
  | KIdle | KFree _ => True
  | KAlloc a p => want_ok a /\ want_small a = true /\
      exists r, request_of p = Some r /\ rq_size r = want_size a /\ rq_align r = want_align a
  | KPages a _ _ => want_ok a /\ want_small a = false
  | KInit a b => want_ok a /\ b ≠ NULL /\ aligned_to (want_align a) b /\
      match a with WKmalloc _ => want_small a = true | WCache _ => True end
  | KIn p => p ≠ Idle /\ request_of p = None
  end.

(** Pages given out whole: bases of frames, not slab pages, apart from each other. *)
Record pages_ok sl (pgs : list (Z * Z)) : Prop := {
  pg_base q n : (q, n) ∈ pgs -> is_base q;
  pg_slab q n : (q, n) ∈ pgs -> no_slab sl q n;
  pg_apart p q rest : pgs ≡ₚ p :: q :: rest -> bytes_disjoint p q;
}.

Record kwinv w : Prop := {
  kw_slob : exists g, winv atomic (abs w) g;
  kw_ok : Forall (kblock_ok (kmem (ksh w))) (freeing_of (kths w) ++ kobjs w);
  kw_pages : pages_ok (slob (ksh w)) (whole_pages w);
  kw_pcs : Forall (fun t => kpc_ok (kpc_of t)) (kths w);
  kw_pending : rcu_pending (ksh w) ≡ₚ omap pending_head (kobjs w);
}.

(** *** Pages *)
#[export] Instance pages_ok_proper sl : Proper ((≡ₚ) ==> iff) (pages_ok sl).
Proof.
  assert (forall l l' : list (Z * Z), l ≡ₚ l' -> pages_ok sl l -> pages_ok sl l') as H.
  { intros l l' E [B S A]. split.
    - intros q n. rewrite <- E. apply B.
    - intros q n. rewrite <- E. apply S.
    - intros p q l0 E'. apply (A p q l0). by rewrite E. }
  intros l l' E. split; apply H; [done|by symmetry].
Qed.

Lemma pages_ok_flags sl sl' pgs :
  pages_ok sl pgs ->
  (forall q n a, (q, n) ∈ pgs -> q <= a < q + n -> slab_of sl (virt_to_page a) = false ->
     slab_of sl' (virt_to_page a) = false) ->
  pages_ok sl' pgs.
Proof.
  intros [B S A] E. split; [done| |done]. intros q n Hq a Ha. apply (E q n); [done..|]. by apply (S q n).
Qed.

Lemma pages_ok_tail sl p pgs : pages_ok sl (p :: pgs) -> pages_ok sl pgs.
Proof.
  intros [B S A]. split.
  - intros q n Hq. apply (B q n). by right.
  - intros q n Hq. apply (S q n). by right.
  - intros x y l E. apply (A x y (p :: l)). rewrite E. solve_Permutation.
Qed.

(** Their contents. Writing into marked pages only, or into one page, keeps the others. *)
Lemma pages_same_marked sl pgs m' : pages_ok sl pgs -> marked_only sl m' -> pages_same pgs (mem sl) m'.
Proof. intros Pg W q n a Hq Ha. apply W. by apply (pg_slab _ _ Pg q n). Qed.

Lemma pages_same_other sl q n pgs m m' :
  pages_ok sl ((q, n) :: pgs) -> (forall a, a < q \/ q + n <= a -> m' a = m a) -> pages_same pgs m m'.
Proof.
  intros Pg W q' n' a Hq Ha. apply W. apply list_elem_of_split in Hq as (l1&l2&->).
  destruct (pg_apart _ _ Pg (q, n) (q', n') (l1 ++ l2)) as [D|D]; [by rewrite <- Permutation_middle|simpl in D; lia..].
Qed.

Lemma pages_ok_cons sl sp n pgs :
  pages_ok sl pgs -> (forall q n, (q, n) ∈ pgs -> PAGE_SIZE <= n) -> PAGE_SIZE <= n -> frames_unused sl pgs sp n ->
  pages_ok sl ((page_address sp, n) :: pgs).
Proof.
  clear compound_order. intros [B S A] Hpg Hn [[Bs V] X]. rewrite page_size_law in Hn. split.
  - intros q n'. rewrite elem_of_cons. intros [[= -> ->]|Hq]; [done|by eapply B].
  - intros q n'. rewrite elem_of_cons. intros [[= -> ->]|Hq] a Ha; [by apply X|by apply (S q n')].
  - assert (forall q, q ∈ pgs -> bytes_disjoint (page_address sp, n) q) as D.
    { intros [q n'] Hq. pose proof (Hpg _ _ Hq). rewrite page_size_law in *. unfold bytes_disjoint. simpl.
      destruct (decide (page_address sp + n <= q)); [by left|].
      destruct (decide (q + n' <= page_address sp)); [by right|].
      destruct (X (Z.max (page_address sp) q)) as (_&_&Xq); [lia|]. exfalso. apply (Xq q n' Hq). lia. }
    intros p q l E.
    assert (p ∈ (page_address sp, n) :: pgs) as Hp by (rewrite E; by left).
    apply elem_of_cons in Hp as [->|Hp].
    + apply Permutation_cons_inv in E. apply D. rewrite E. by left.
    + assert (q ∈ (page_address sp, n) :: pgs) as Hq by (rewrite E; by right; left).
      apply list_elem_of_split in Hp as (a1&a2&Ea). rewrite Ea in E.
      assert ((page_address sp, n) :: a1 ++ a2 ≡ₚ q :: l) as E'.
      { apply (Permutation_cons_inv (a := p)). rewrite <- E, <- Permutation_middle. apply perm_swap. }
      assert (q ∈ (page_address sp, n) :: a1 ++ a2) as Hq' by (rewrite E'; by left).
      apply elem_of_cons in Hq' as [->|Hq'].
      * apply bytes_disjoint_sym, D. rewrite Ea. set_solver.
      * apply list_elem_of_split in Hq' as (b1&b2&Eb). apply (A p q (b1 ++ b2)).
        rewrite Ea, <- Permutation_middle, Eb. by rewrite <- Permutation_middle.
Qed.

Lemma whole_pages_size w q n : kwinv w -> (q, n) ∈ whole_pages w -> PAGE_SIZE <= n.
Proof.
  intros KI. pose proof (kw_ok _ KI) as Ok. pose proof (kw_pcs _ KI) as Ps.
  rewrite Forall_forall in Ok. rewrite Forall_forall in Ps. unfold whole_pages. rewrite elem_of_app. intros [Hq|Hq].
  - apply list_elem_of_omap in Hq as (t&Ht&Et). specialize (Ps t Ht).
    destruct (kpc_of t) as [| | |a b|k|] eqn:Ep; try done; simpl in Et.
    + destruct (want_small a) eqn:Hs; [done|]. injection Et as <- <-.
      destruct a as [size|c]; [destruct Ps as (_&_&_&?); congruence|]. simpl in *. apply Z.ltb_ge in Hs.
      apply pages_of_spec. rewrite page_size_law in *. lia.
    + eapply page_block_size; [apply Ok|exact Et]. rewrite elem_of_app. left.
      apply list_elem_of_omap. exists t. split; [done|]. by rewrite Ep.
  - apply list_elem_of_omap in Hq as (k&Hk&Ek). eapply page_block_size; [apply Ok|exact Ek].
    rewrite elem_of_app. by right.
Qed.

(** *** One thread and the others *)

(** Assembling the invariant after thread [t] has moved to [p']. *)
Lemma kwinv_intro s' t1 t t2 r p' objs' c g' :
  winv atomic (mk_world (slob s') (slob_thread <$> t1 ++ mk_kthread r p' :: t2) c) g' ->
  c ≡ₚ option_list (front_block p') ++ front_of (t1 ++ t2) ++ blocks_of_objs objs' ->
  pages_ok (slob s') (option_list (front_pages p') ++ pages_of_front (t1 ++ t2) ++ pages_of_objs objs') ->
  Forall (fun t => kpc_ok (kpc_of t)) (t1 ++ t :: t2) -> kpc_ok p' ->
  Forall (kblock_ok (kmem s')) (option_list (freeing p') ++ freeing_of (t1 ++ t2) ++ objs') ->
  rcu_pending s' ≡ₚ omap pending_head objs' ->
  kwinv (mk_kworld s' (t1 ++ mk_kthread r p' :: t2) objs').
Proof.
  intros I Ec Pg P P' Ok Pe. split; try done.
  - apply (winv_client _ _ _ _ _ _ I). unfold front_of. simpl. rewrite omap_split. simpl.
    by rewrite Ec, (assoc (++)).
  - simpl. unfold freeing_of. rewrite omap_split. simpl. by rewrite <- (assoc (++)).
  - unfold whole_pages, pages_of_front. simpl. rewrite omap_split. simpl. by rewrite <- (assoc (++)).
  - simpl. apply Forall_app in P as [P1 P2]. apply Forall_cons in P2 as [_ P2].
    apply Forall_app. split; [done|]. by constructor.
Qed.

(** The parts of the invariant, as thread [t] sees them. *)
Record kfocus w t1 t t2 : Prop := {
  kf_slob : exists g, winv atomic (abs w) g;
  kf_client : client (abs w) ≡ₚ option_list (front_block (kpc_of t)) ++ front_of (t1 ++ t2) ++ blocks_of_objs (kobjs w);
  kf_pages_eq : whole_pages w ≡ₚ option_list (front_pages (kpc_of t)) ++ pages_of_front (t1 ++ t2) ++ pages_of_objs (kobjs w);
  kf_pages : pages_ok (slob (ksh w)) (option_list (front_pages (kpc_of t)) ++ pages_of_front (t1 ++ t2) ++ pages_of_objs (kobjs w));
  kf_pc : kpc_ok (kpc_of t);
  kf_ok : Forall (kblock_ok (kmem (ksh w))) (option_list (freeing (kpc_of t)) ++ freeing_of (t1 ++ t2) ++ kobjs w);
  kf_pcs : Forall (fun t => kpc_ok (kpc_of t)) (t1 ++ t :: t2);
}.

Lemma kwinv_focus w t1 t t2 : kwinv w -> kths w = t1 ++ t :: t2 -> kfocus w t1 t t2.
Proof.
  intros [I Ok Pg P Pe] E.
  assert (whole_pages w ≡ₚ option_list (front_pages (kpc_of t)) ++ pages_of_front (t1 ++ t2) ++ pages_of_objs (kobjs w)) as Ep.
  { unfold whole_pages, pages_of_front. rewrite E, omap_split. by rewrite <- (assoc (++)). }
  split; try done.
  - simpl. unfold front_of. rewrite E, omap_split. by rewrite <- (assoc (++)).
  - by rewrite <- Ep.
  - rewrite E in P. apply Forall_app in P as [_ P]. by inversion P.
  - rewrite E in Ok. unfold freeing_of in Ok. rewrite omap_split in Ok. by rewrite <- (assoc (++)) in Ok.
  - by rewrite <- E.
Qed.

(** The blocks behind the objects a thread must not disturb. *)
Definition front_objs t1 t2 l : list kblock := freeing_of (t1 ++ t2) ++ l.

Lemma freeing_front ts p : p ∈ omap slob_block (freeing_of ts) -> p ∈ front_of ts.
Proof.
  intros Hp. apply list_elem_of_omap in Hp as (k&Hk&Ek). apply list_elem_of_omap in Hk as (t&Ht&Et).
  apply list_elem_of_omap. exists t. split; [done|]. destruct (kpc_of t); try done. by injection Et as ->.
Qed.

Lemma front_objs_ext m m' t1 t2 l :
  Forall (kblock_ok m) (front_objs t1 t2 l) ->
  (forall p, p ∈ front_of (t1 ++ t2) ++ blocks_of_objs l -> same_contents m m' p) ->
  Forall (kblock_ok m') (front_objs t1 t2 l).
Proof.
  intros F Hm. eapply kblocks_ext; [exact F|]. intros p. unfold front_objs. rewrite omap_app, elem_of_app.
  intros Hp. apply Hm. rewrite elem_of_app. destruct Hp as [Hp|Hp]; [left; by apply freeing_front|by right].
Qed.

(** *** What the next section does *)

(** The contents of all objects of clients and other threads are kept, in slab
    pages or in pages of their own. *)
Definition kept w t1 t2 (s' : kstate L) : Prop :=
  (forall p, p ∈ front_of (t1 ++ t2) ++ blocks_of_objs (kobjs w) -> same_contents (kmem (ksh w)) (kmem s') p) /\
  pages_same (pages_of_front (t1 ++ t2) ++ pages_of_objs (kobjs w)) (kmem (ksh w)) (kmem s').

(** What is freed is the whole block of the object, or all of its pages; an object
    of a cache with SLAB_DESTROY_BY_RCU is queued. *)
Definition frees_whole (p p' : kpc) s s' : Prop :=
  match p with
  | KFree k =>
      match k with
      | Kpages q _ => p' = KIdle /\ returned s' = (virt_to_page q, compound_order (virt_to_page q)) :: returned s
      | Opages b c => p' = KIdle /\ freed (slob s') = (b, get_order (c_size c)) :: freed (slob s)
      | Object b c =>
          if rcu_cache c then p' = KIdle /\ rcu_pending s' = rcu_head_of b c :: rcu_pending s
          else p' = KIn (FSection b (c_size c))
      | Kmalloc q size => p' = KIn (FSection (q - kmalloc_align) (size + kmalloc_align))
      | Deferred b c => p' = KIn (FSection b (c_size c))
      end
  | _ => True
  end.

(** A new object: what was wanted, aligned, with its size stored. *)
Definition gives (p : kpc) (m' : Z -> Z) (d : option kblock) : Prop :=
  match d with
  | None => True
  | Some k => kblock_ok m' k /\
      match p with
      | KPages (WKmalloc size) _ _ => exists b, k = Kpages b size /\ (kmalloc_align | b)
      | KInit (WKmalloc size) b => k = Kmalloc (b + kmalloc_align) size /\ (kmalloc_align | b + kmalloc_align)
      | KInit (WCache c) b => k = cobj b c /\ aligned_to (c_align c) b
      | KFree (Object b c) => k = Deferred b c
      | _ => False
      end
  end.

(** Sections left until the call is over, at most. *)
Definition ksections_left (p : kpc) : nat :=
  match p with
  | KIdle => 0
  | KAlloc _ p => 2 + sections_left p
  | KPages _ _ _ => 2
  | KInit _ _ => 1
  | KFree _ => 6
  | KIn p => 1 + sections_left p
  end.

Definition ksection_ok (src : page_source) w t1 t t2 : Prop :=
  exists s' p' d,
    returns (fun fuel => kthread_step atomic compound_order fuel src (kpc_of t) (set_kcurrent (kreclaim t) (ksh w))) (s', p', d) /\
    kwinv (mk_kworld s' (t1 ++ mk_kthread (reclaimed_slab (slob s')) p' :: t2) (option_list d ++ kobjs w)) /\
    kept w t1 t2 s' /\ frees_whole (kpc_of t) p' (ksh w) s' /\ gives (kpc_of t) (kmem s') d /\
    (ksections_left p' < ksections_left (kpc_of t))%nat.
End KmallocThreadsInv.
