(* ===== verification/KmallocThreadsSteps.v ===== *)
(** The sections of the front end, one lemma each: its part before slob_free, its
    part after slob_alloc, and the sections of the allocator in between. *)
From S2P Require Import Prelude ListHead Kernel SlobBlocks Slob SlobFuel SlobPage SlobInv SlobAlloc SlobFree SlobAcct SlobRuns SlobFlags SlobThreads SlobCounter SlobThreadsInv SlobThreadsRuns Kmalloc KmallocRuns KmallocOps KmallocSteps KmallocThreads KmallocThreadsInv.

Section KmallocThreadsSteps.
Context {K : Kernel} {KL : KernelLaws} {M : Mm} {ML : MmLaws}.
Context {L : Type} {LO : ListOps L} {LL : ListLaws L}.
Variable atomic : bool.
Variable compound_order : Z -> Z.
Implicit Types (s : kstate L) (w : kworld (L := L)).

Notation kwinv := (kwinv atomic).
Notation ksection_ok := (ksection_ok atomic compound_order).

(** *** Requests keep their arguments *)
Lemma thread_step_request fuel src p (s s' : state L) p' d :
  thread_step atomic fuel src p s = Ret (s', p', d) ->
  match request_of p with
  | Some r => request_of p' = Some r /\ d = None \/
      p' = Idle /\ (d = None \/ exists b, p = AZero r b /\ d = Some (b, rq_size r))
  | None => request_of p' = None /\ d = None
  end.
Proof.
  destruct p as [|r|r|r b|r b|r b v|r b|b size|b| |v]; simpl; try by intros [= <- <- <-].
  - destruct (search_pages _ _ _ _ _ _ _) as [[s1 b]| |]; simpl; [|done..].
    intros [= <- <- <-]. left. by destruct (b =? NULL).
  - destruct (_ =? NULL); intros [= <- <- <-]; auto.
  - destruct (fill_page _ _ _ _ _ _) as [[s1 b1]| |]; simpl; [|done..]. intros [= <- <- <-]. auto.
  - destruct atomic; intros [= <- <- <-]; auto.
  - intros [= <- <- <-]. auto.
  - destruct (_ && _); intros [= <- <- <-]; eauto 8.
  - destruct (ZERO_OR_NULL_PTR b); [by intros [= <- <- <-]|]. destruct (size =? 0); [done|].
    destruct (free_section _ _ _ _) as [[s1 e]| |]; simpl; [|done..]. intros [= <- <- <-]. by destruct e.
  - destruct atomic; by intros [= <- <- <-].
Qed.

(** Pages without PageSlab stay so, except the one taken from the page allocator. *)
Lemma thread_step_slab fuel src p (s s' : state L) p' d sp :
  thread_step atomic fuel src p s = Ret (s', p', d) -> slab_of s sp = false ->
  (forall gfp node, new_page_addr src gfp node = NULL \/ sp ≠ virt_to_page (new_page_addr src gfp node)) ->
  slab_of s' sp = false.
Proof.
  intros E Hs Hn. destruct p as [|r|r|r b|r b|r b v|r b|b size|b| |v]; simpl in E.
  - by injection E as <- _ _.
  - destruct (search_pages _ _ _ _ _ _ _) as [[s1 b]| |] eqn:F; simpl in E; [|done..].
    apply slab_of_search with (sp' := sp) in F. injection E as <- _ _. by rewrite F.
  - fold (new_page_addr src (rq_gfp r) (rq_node r)) in E.
    destruct (Z.eqb_spec (new_page_addr src (rq_gfp r) (rq_node r)) NULL); [by injection E as <- _ _|].
    injection E as <- _ _. destruct (Hn (rq_gfp r) (rq_node r)) as [?|?]; [done|].
    unfold SetPageSlab. by rewrite slab_of_page_ne.
  - destruct (fill_page _ _ _ _ _ _) as [[s1 b1]| |] eqn:F; simpl in E; [|done..].
    apply slab_of_fill with (sp' := sp) in F. injection E as <- _ _. by rewrite F.
  - by destruct atomic; injection E as <- _ _.
  - by injection E as <- _ _.
  - by destruct (_ && _); injection E as <- _ _.
  - destruct (ZERO_OR_NULL_PTR b); [by injection E as <- _ _|]. destruct (size =? 0); [done|].
    destruct (free_section _ _ _ _) as [[s1 e]| |] eqn:F; simpl in E; [|done..].
    apply slab_of_free_section with (sp' := sp) in F. injection E as <- _ _. by rewrite F.
  - injection E as <- _ _. rewrite slab_of_return. by case_decide.
  - by destruct atomic; injection E as <- _ _.
  - by injection E as <- _ _.
Qed.

Lemma thread_step_pages fuel src p (s s' : state L) p' d pgs :
  thread_step atomic fuel src p s = Ret (s', p', d) -> pages_ok s pgs -> source_unused s pgs src ->
  pages_ok s' pgs.
Proof.
  intros E Pg F. eapply pages_ok_flags; [exact Pg|]. intros q n a Hq Ha Hs.
  eapply thread_step_slab; [exact E|exact Hs|]. intros gfp node.
  eapply new_page_elsewhere; [exact F|exact Hq|by apply (pg_base _ _ Pg q n)|exact Ha].
Qed.

(** *** Sections of the allocator *)

(** A section of slob_alloc or slob_free, whatever the front end does after it. *)
Lemma slob_section src w t1 t t2 p :
  kwinv w -> kths w = t1 ++ t :: t2 -> kpc_of t = p -> slob_pc p ≠ Idle ->
  front_block p = None -> front_pages p = None -> freeing p = None ->
  source_unused (slob (ksh w)) (whole_pages w) src ->
  exists sl q d,
    returns (fun fuel => thread_step atomic fuel src (slob_pc p) (set_current (kreclaim t) (slob (ksh w)))) (sl, q, d) /\
    answers (slob_pc p) (mem sl) d /\ (sections_left q < sections_left (slob_pc p))%nat /\
    kept w t1 t2 (with_slob sl (ksh w)) /\
    (forall p', slob_pc p' = q -> front_block p' = d -> front_pages p' = None -> freeing p' = None -> kpc_ok p' ->
      kwinv (mk_kworld (with_slob sl (ksh w)) (t1 ++ mk_kthread (reclaimed_slab sl) p' :: t2) (kobjs w))).
Proof.
  intros KI E Ep Hq Ef Eg Er F. destruct (kwinv_focus _ _ _ _ _ KI E) as [(g&I) Ec Epg Pg _ Ok Ps].
  rewrite Ep, Ef in Ec. rewrite Ep, Er in Ok. rewrite Ep, Eg in Pg, Epg. simpl in Ec, Ok, Pg, Epg.
  assert (ths (abs w) = (slob_thread <$> t1) ++ slob_thread t :: (slob_thread <$> t2)) as Et
    by (simpl; by rewrite E, fmap_app).
  assert (pc (slob_thread t) = slob_pc p) as Epc by (simpl; by rewrite Ep).
  destruct (section_runs atomic (abs w) g _ _ _ src I Et) as (sl&q&d&g'&R&I'&Hs&_&Ha&_&Hl&Hm);
    [by rewrite Epc|by eapply source_unused_fresh|]. rewrite Epc in R, Ha, Hl.
  exists sl, q, d. split; [exact R|]. split; [exact Ha|]. split; [exact Hl|].
  assert (kept w t1 t2 (with_slob sl (ksh w))) as Hk.
  { split; [intros x Hx; apply Hs; rewrite elem_of_app; right; by rewrite Ec|]. by eapply pages_same_marked. }
  assert (pages_ok sl (whole_pages w)) as Pg'.
  { destruct R as [n R]. eapply (thread_step_pages n src); [by apply R| |exact F].
    eapply pages_ok_flags; [apply (kw_pages _ _ KI)|done]. }
  split; [exact Hk|]. intros p' Eq Ed Eg' Er' P'.
  eapply (kwinv_intro atomic _ t1 t t2 _ p' _ (option_list d ++ client (abs w)) g').
  - rewrite fmap_app. simpl. unfold slob_thread at 2. simpl. rewrite Eq. exact I'.
  - by rewrite Ec, Ed.
  - rewrite Eg'. simpl. by rewrite <- Epg.
  - exact Ps.
  - done.
  - rewrite Er'. simpl. by apply (front_objs_ext (kmem (ksh w))); [|apply Hk].
  - apply KI.
Qed.

Lemma kalloc_ok src w t1 t t2 a p :
  kwinv w -> kths w = t1 ++ t :: t2 -> kpc_of t = KAlloc a p ->
  source_unused (slob (ksh w)) (whole_pages w) src -> ksection_ok src w t1 t t2.
Proof.
  intros KI E Ep F. assert (P := kf_pc _ _ _ _ _ (kwinv_focus _ _ _ _ _ KI E)). rewrite Ep in P.
  destruct P as (Ha&Hsm&r&Er&Es&Eal).
  destruct (slob_section src w t1 t t2 _ KI E Ep) as (sl&q&d&[n R]&An&Hl&Hk&HI); [by intros Eq; simpl in Eq; subst|done..|].
  simpl in R, An. pose proof (thread_step_request _ _ _ _ _ _ _ (R n ltac:(lia))) as Hr. rewrite Er in Hr.
  set (p' := match q, d with Idle, Some (b, _) => KInit a b | Idle, None => KIdle | _, _ => KAlloc a q end).
  exists (with_slob sl (ksh w)), p', None. split.
  { exists n. intros fuel Hf. rewrite Ep. simpl. by rewrite (R fuel Hf). }
  assert (ksections_left p' < ksections_left (KAlloc a p))%nat as Hl'.
  { unfold p'. simpl in Hl |- *. destruct q, d as [[]|]; simpl in *; lia. }
  split; [|split; [exact Hk|rewrite Ep; done]].
  assert (slob_pc p' = q /\ front_block p' = d /\ front_pages p' = None /\ freeing p' = None /\ kpc_ok p')
    as (?&?&?&?&?); [|by apply HI].
  unfold p'. destruct Hr as [[Eq ->]|[-> [->|(b&Epz&->)]]]; simpl; [|done|].
  - assert (kpc_ok (KAlloc a q)) as Pq by (split; [done|]; split; [done|by exists r]). by destruct q.
  - rewrite <- Es in *. destruct An as (r'&Er'&_&Hb&Hal&_). rewrite Epz in Er'. injection Er' as <-.
    rewrite Eal in Hal. rewrite Es, Hsm. do 6 (split; [done|]). by destruct a.
Qed.

Lemma kin_ok src w t1 t t2 p :
  kwinv w -> kths w = t1 ++ t :: t2 -> kpc_of t = KIn p ->
  source_unused (slob (ksh w)) (whole_pages w) src -> ksection_ok src w t1 t t2.
Proof.
  intros KI E Ep F. assert (P := kf_pc _ _ _ _ _ (kwinv_focus _ _ _ _ _ KI E)). rewrite Ep in P.
  destruct P as (Hp&Er).
  destruct (slob_section src w t1 t t2 _ KI E Ep Hp eq_refl eq_refl eq_refl F) as (sl&q&d&[n R]&_&Hl&Hk&HI).
  simpl in R. pose proof (thread_step_request _ _ _ _ _ _ _ (R n ltac:(lia))) as Hr. rewrite Er in Hr.
  destruct Hr as [Eq ->]. set (p' := match q with Idle => KIdle | _ => KIn q end).
  exists (with_slob sl (ksh w)), p', None. split.
  { exists n. intros fuel Hf. rewrite Ep. simpl. by rewrite (R fuel Hf). }
  assert (ksections_left p' < ksections_left (KIn p))%nat as Hl'.
  { unfold p'. simpl in Hl |- *. destruct q; simpl in *; lia. }
  split; [|split; [exact Hk|rewrite Ep; done]].
  apply HI; unfold p'; by destruct q.
Qed.

(** *** Outside slob_alloc and slob_free *)

(** Writing into whole pages, and giving them back, concerns no slob block. *)
Lemma winv_page_write (aw : world (L := L)) g q n m' :
  winv atomic aw g -> no_slab (sh aw) q n -> (forall a, a < q \/ q + n <= a -> m' a = mem (sh aw) a) ->
  winv atomic (mk_world (with_mem m' (sh aw)) (ths aw) (client aw)) g /\
  (forall p, p ∈ owned_of (ths aw) ++ client aw -> same_contents (mem (sh aw)) m' p).
Proof.
  intros [CI N Tr P] Hq W. destruct (page_write _ g q n m' CI Hq W) as [CI' Hs].
  split; [|exact Hs]. by split.
Qed.

Lemma winv_free_pages (sl : state L) ths c g b order :
  winv atomic (mk_world sl ths c) g -> winv atomic (mk_world (slob_free_pages b order sl) ths c) g.
Proof.
  intros [[I F] N Tr P]. split; try done. split; [|exact F]. simpl in I |- *.
  exact (inv_free_pages _ g b order I).
Qed.
Notation rest w t1 t2 := (front_of (t1 ++ t2) ++ blocks_of_objs (kobjs w)).
Notation rest_pages w t1 t2 := (pages_of_front (t1 ++ t2) ++ pages_of_objs (kobjs w)).

(** The allocator when thread [t] runs outside of it. *)
Lemma focus_idle w t1 t t2 :
  kwinv w -> kths w = t1 ++ t :: t2 -> slob_pc (kpc_of t) = Idle ->
  exists g, winv atomic (mk_world (set_current (kreclaim t) (slob (ksh w)))
    ((slob_thread <$> t1) ++ mk_thread (kreclaim t) Idle :: (slob_thread <$> t2))
    (option_list (front_block (kpc_of t)) ++ rest w t1 t2)) g.
Proof.
  intros KI E Eq. destruct (kwinv_focus _ _ _ _ _ KI E) as [(g&I) Ec _ _ _ _ _].
  destruct (winv_client _ _ _ _ _ _ I Ec) as (g1&I1). simpl in I1. rewrite E, fmap_app in I1.
  by eapply winv_idle.
Qed.

(** [m'] differs from the memory only in what thread [t] has. *)
Record wrote w t1 t t2 (m' : Z -> Z) : Prop := {
  wr_slob : exists g, winv atomic (mk_world (with_mem m' (set_current (kreclaim t) (slob (ksh w))))
    ((slob_thread <$> t1) ++ mk_thread (kreclaim t) Idle :: (slob_thread <$> t2))
    (option_list (front_block (kpc_of t)) ++ rest w t1 t2)) g;
  wr_kept p : p ∈ rest w t1 t2 -> same_contents (kmem (ksh w)) m' p;
  wr_pages : pages_same (rest_pages w t1 t2) (kmem (ksh w)) m';
}.

Lemma write_block w t1 t t2 p m' :
  kwinv w -> kths w = t1 ++ t :: t2 -> slob_pc (kpc_of t) = Idle -> front_block (kpc_of t) = Some p ->
  writes_in (kmem (ksh w)) m' p -> wrote w t1 t t2 m'.
Proof.
  intros KI E Eq Ef W. destruct (focus_idle _ _ _ _ KI E Eq) as (g&I). rewrite Ef in I.
  destruct (winv_write atomic _ g [] p (rest w t1 t2) m' I eq_refl W) as [I' Hs].
  split; [rewrite Ef; by exists g|intros x Hx; apply Hs; rewrite elem_of_app; by right|].
  destruct (kwinv_focus _ _ _ _ _ KI E) as [_ _ _ Pg _ _ _].
  assert (pages_ok (slob (ksh w)) (rest_pages w t1 t2)) as Pg'.
  { destruct (front_pages _); [by apply pages_ok_tail in Pg|exact Pg]. }
  apply (pages_same_marked _ _ _ Pg').
  apply (held_marked (set_current (kreclaim t) (slob (ksh w))) _ _ p m' (wi_config _ _ _ I)); [|exact W].
  unfold owned. rewrite elem_of_app. right. by left.
Qed.

Lemma write_pages w t1 t t2 q n m' :
  kwinv w -> kths w = t1 ++ t :: t2 -> slob_pc (kpc_of t) = Idle -> front_pages (kpc_of t) = Some (q, n) ->
  (forall a, a < q \/ q + n <= a -> m' a = kmem (ksh w) a) -> wrote w t1 t t2 m'.
Proof.
  intros KI E Eq Ef W. destruct (focus_idle _ _ _ _ KI E Eq) as (g&I).
  destruct (kwinv_focus _ _ _ _ _ KI E) as [_ _ _ Pg _ _ _]. rewrite Ef in Pg.
  assert (no_slab (slob (ksh w)) q n) as Hq by (apply (pg_slab _ _ Pg); by left).
  destruct (winv_page_write _ g q n m' I Hq W) as [I' Hs].
  split; [by exists g|intros x Hx; apply Hs; simpl; rewrite !elem_of_app in *; tauto|].
  by apply (pages_same_other (slob (ksh w)) q n).
Qed.

Lemma wrote_nothing w t1 t t2 :
  kwinv w -> kths w = t1 ++ t :: t2 -> slob_pc (kpc_of t) = Idle -> wrote w t1 t t2 (kmem (ksh w)).
Proof. intros KI E Eq. split; [by apply (focus_idle _ _ _ _ KI E)|by intros p _ i _|done]. Qed.

Lemma wrote_kept w t1 t t2 m' s' : wrote w t1 t t2 m' -> kmem s' = m' -> kept w t1 t2 s'.
Proof. intros [_ H1 H2] <-. by split. Qed.

Lemma nothing_kept w t1 t2 s' : kmem s' = kmem (ksh w) -> kept w t1 t2 s'.
Proof. intros E. unfold kept. rewrite E. split; [by intros p _ i _|done]. Qed.

(** Thread [t] is done; what it has becomes an object of a client. *)
Lemma settle_inv w t1 t t2 m' k s' :
  kwinv w -> kths w = t1 ++ t :: t2 -> wrote w t1 t t2 m' ->
  slob_block k = front_block (kpc_of t) -> page_block k = front_pages (kpc_of t) -> kblock_ok m' k ->
  slob s' = with_mem m' (set_current (kreclaim t) (slob (ksh w))) ->
  rcu_pending s' = option_list (pending_head k) ++ rcu_pending (ksh w) ->
  kwinv (mk_kworld s' (t1 ++ mk_kthread (reclaimed_slab (slob s')) KIdle :: t2) (k :: kobjs w)).
Proof.
  intros KI E [(g&I) Hk _] Es Eg Ok' El Er. destruct (kwinv_focus _ _ _ _ _ KI E) as [_ _ _ Pg _ Ok Ps].
  apply Forall_app in Ok as [_ Ok].
  apply (kwinv_intro atomic _ t1 t t2 _ KIdle _ (option_list (front_block (kpc_of t)) ++ rest w t1 t2) g).
  - rewrite El, fmap_app. exact I.
  - simpl. rewrite Es. destruct (front_block _); simpl; [|done]. by rewrite Permutation_middle.
  - rewrite El. eapply pages_ok_flags; [|by intros q n a _ _ H; exact H]. simpl. rewrite Eg.
    eapply pages_ok_proper; [|eapply pages_ok_flags; [exact Pg|by intros q n a _ _ H; exact H]].
    destruct (front_pages _); simpl; [|done]. by rewrite Permutation_middle.
  - exact Ps.
  - done.
  - simpl. unfold kmem. rewrite El. simpl. rewrite <- Permutation_middle. constructor; [done|].
    by apply (front_objs_ext (kmem (ksh w))).
  - rewrite Er. simpl. destruct (pending_head k); simpl; [apply perm_skip|]; apply KI.
Qed.

(** *** slob_new_pages for a large object *)
Lemma large_pages_new src a gfp node :
  exists gfp', large_pages src a gfp node =
    slob_new_pages src gfp' (get_order (match a with WKmalloc size => size | WCache c => c_size c end)) node.
Proof. destruct a as [size|c]; simpl; by eexists. Qed.

(** Thread [t], which has nothing, goes on to [p'] and may answer [d]. *)
Lemma leave_pages w t1 t t2 a gfp node p' d :
  kwinv w -> kths w = t1 ++ t :: t2 -> kpc_of t = KPages a gfp node ->
  slob_pc p' = Idle -> front_block p' = None -> freeing p' = None -> kpc_ok p' ->
  omap slob_block (option_list d) = [] -> omap pending_head (option_list d) = [] ->
  Forall (kblock_ok (kmem (ksh w))) (option_list d) ->
  pages_ok (slob (ksh w)) (option_list (front_pages p') ++ omap page_block (option_list d) ++ whole_pages w) ->
  kwinv (mk_kworld (set_kcurrent (kreclaim t) (ksh w)) (t1 ++ mk_kthread (kreclaim t) p' :: t2) (option_list d ++ kobjs w)).
Proof.
  intros KI E Ep Es Ef Er P' Ed1 Ed2 Okd Pgd. destruct (kwinv_focus _ _ _ _ _ KI E) as [_ _ Epg _ _ Ok Ps].
  destruct (focus_idle _ _ _ _ KI E) as (g&I); [by rewrite Ep|]. rewrite Ep in I, Epg, Ok. simpl in I, Epg, Ok.
  eapply (kwinv_intro atomic _ t1 t t2 _ p' _ _ g).
  - rewrite fmap_app. simpl. unfold slob_thread at 2. simpl. rewrite Es. exact I.
  - unfold blocks_of_objs. by rewrite Ef, omap_app, Ed1.
  - apply (pages_ok_flags (slob (ksh w))); [|by intros q n x _ _ H; exact H]. unfold pages_of_objs.
    rewrite omap_app. eapply pages_ok_proper; [|exact Pgd]. rewrite Epg. unfold pages_of_objs. solve_Permutation.
  - exact Ps.
  - done.
  - rewrite Er. simpl. rewrite (Permutation_app_comm (option_list d)), (assoc (++)). apply Forall_app. by split.
  - rewrite omap_app, Ed2. apply KI.
Qed.

Lemma kpages_ok src w t1 t t2 a gfp node :
  kwinv w -> kths w = t1 ++ t :: t2 -> kpc_of t = KPages a gfp node ->
  source_unused (slob (ksh w)) (whole_pages w) src -> ksection_ok src w t1 t t2.
Proof.
  intros KI E Ep F. destruct (kwinv_focus _ _ _ _ _ KI E) as [_ _ _ _ P _ _].
  rewrite Ep in P. destruct P as [Ha Hl].
  set (sz := match a with WKmalloc size => size | WCache c => c_size c end).
  assert (PAGE_SIZE <= 2 * sz) as Hsz.
  { subst sz. destruct a as [size|c]; simpl in Hl; [by apply large_size_spec|].
    apply Z.ltb_ge in Hl. rewrite page_size_law in *. lia. }
  destruct (pages_of_spec sz Hsz) as (Ho&_&Hn).
  destruct (large_pages_new src a gfp node) as (gfp'&El). fold sz in El.
  assert (forall s' p' d, kthread_step atomic compound_order 0 src (KPages a gfp node) (set_kcurrent (kreclaim t) (ksh w)) = Ret (s', p', d) ->
    returns (fun fuel => kthread_step atomic compound_order fuel src (kpc_of t) (set_kcurrent (kreclaim t) (ksh w))) (s', p', d)) as Ret0.
  { intros s' p' d E0. exists 0%nat. intros fuel _. rewrite Ep. exact E0. }
  unfold ksection_ok. destruct (new_pages_unused _ _ src gfp' (get_order sz) node F Ho) as [En|(sp&Fr&En)]; rewrite En in El.
  - eexists _, KIdle, None. split; [apply Ret0; simpl; by rewrite El|].
    split; [apply (leave_pages w t1 t t2 a gfp node KIdle None); try done; apply (kw_pages _ _ KI)|].
    split; [by apply nothing_kept|]. rewrite Ep. split; [done|]. split; [done|simpl; lia].
  - assert (B := proj1 (proj1 Fr)). assert (page_address sp ≠ NULL) as Hne by (destruct B; lia).
    assert (pages_ok (slob (ksh w)) ((page_address sp, pages_of sz) :: whole_pages w)) as Pg'.
    { apply pages_ok_cons; [apply (kw_pages _ _ KI)|by intros q n; apply (whole_pages_size atomic)|exact Hn|exact Fr]. }
    destruct a as [size|c].
    + eexists _, KIdle, (Some (Kpages (page_address sp) size)). split; [apply Ret0; cbn [kthread_step]; rewrite El; by zdec|].
      split; [apply (leave_pages w t1 t t2 (WKmalloc size) gfp node KIdle (Some (Kpages (page_address sp) size))); try done; by constructor|].
      split; [by apply nothing_kept|]. rewrite Ep. split; [done|]. split; [|simpl; lia].
      split; [done|]. exists (page_address sp). split; [done|by apply aligned_page].
    + eexists _, (KInit (WCache c) (page_address sp)), None. split; [apply Ret0; cbn [kthread_step]; rewrite El; by zdec|].
      simpl in Hl. split; [apply (leave_pages w t1 t t2 (WCache c) gfp node (KInit (WCache c) (page_address sp)) None); simpl; rewrite ?Hl; try done|].
      * split; [done|]. split; [done|]. split; [by apply page_aligned|done].
      * split; [by apply nothing_kept|]. rewrite Ep. split; [done|]. split; [done|simpl; lia].
Qed.

(** *** After slob_alloc or slob_new_pages *)
Lemma run_ctor_writes c b s :
  cache_ok c -> exists m', run_ctor c b s = with_kmem m' s /\ writes_in (kmem s) m' (b, c_size c).
Proof.
  intros Hc. assert (with_kmem (kmem s) s = s) as Eid by by destruct s as [[] ? ?].
  unfold run_ctor. destruct (ctor c) as [f|] eqn:E; [destruct (negb _)|].
  - exists (f (kmem s) b). split; [done|]. by apply (co_ctor _ Hc).
  - by exists (kmem s).
  - by exists (kmem s).
Qed.

Lemma finish_spec a b s :
  kpc_ok (KInit a b) ->
  exists m' k, finish a b s = (with_kmem m' s, k) /\ writes_in (kmem s) m' (b, want_size a) /\
    slob_block k = front_block (KInit a b) /\ page_block k = front_pages (KInit a b) /\
    pending_head k = None /\ gives (KInit a b) m' (Some k).
Proof.
  intros (Ha&Hb&Al&Hsm). destruct a as [size|c]; simpl in *.
  - destruct align_facts as (Hk&_&_). rewrite Hsm.
    assert (Hlt := proj1 (small_size_spec size) Hsm). rewrite page_size_law in Hlt.
    eexists _, _. split; [done|]. pose proof (SLOB_UNITS_spec (size + kmalloc_align)).
    split; [apply (store_uint_in _ _ _ _ _ 0); lia|]. simpl. rewrite Z.add_simpl_r.
    do 3 (split; [done|]). split; [|split; [done|]].
    + split; [done|]. split; [done|]. apply load_store_uint. lia.
    + destruct Al as [Al|Al]; [lia|]. by apply Z.divide_add_r.
  - destruct (run_ctor_writes c b s Ha) as (m'&->&W). exists m', (cobj b c). unfold cobj.
    destruct (Z.ltb_spec (c_size c) PAGE_SIZE); do 6 (split; [done|]); done.
Qed.

Lemma finish_ok src w t1 t t2 a b :
  kwinv w -> kths w = t1 ++ t :: t2 -> kpc_of t = KInit a b -> ksection_ok src w t1 t t2.
Proof.
  intros KI E Ep. destruct (kwinv_focus _ _ _ _ _ KI E) as [_ _ _ Pg P _ _].
  assert (slob_pc (kpc_of t) = Idle) as Eq by by rewrite Ep. rewrite Ep in P.
  destruct (finish_spec a b (set_kcurrent (kreclaim t) (ksh w)) P) as (m'&k&Ef&W&Es&Eg&Eh&Hg). rewrite <- Ep in Es, Eg.
  assert (wrote w t1 t t2 m') as Wr.
  { destruct (block_cases k) as [(p&Ek&_)|([q n]&Ek&_)].
    - rewrite Es, Ep in Ek. apply (write_block w t1 t t2 p m' KI E Eq); [by rewrite Ep|].
      simpl in Ek. destruct (want_small a); [by injection Ek as <-|done].
    - apply (write_pages w t1 t t2 q n m' KI E Eq); [by rewrite <- Eg|]. destruct Hg as [Hok Hg].
      assert (user_bytes k = (b, want_size a)) as Eu.
      { rewrite Ep in Eg. destruct a as [size|c]; destruct Hg as [-> _]; [done|]. unfold cobj. by destruct (_ <? _). }
      assert (kblock_ok (kmem (ksh w)) k) as Hok' by by destruct k.
      eapply user_in_pages; [exact Hok'|exact Ek|by eapply page_block_even|by rewrite Eu]. }
  eexists _, KIdle, (Some k). split.
  { exists 0%nat. intros fuel _. rewrite Ep. cbn [kthread_step]. by rewrite Ef. }
  split; [|split; [by eapply wrote_kept|rewrite Ep; split; [done|split; [exact Hg|simpl; lia]]]].
  eapply settle_inv; [exact KI|exact E|exact Wr|done..|apply Hg|done|by rewrite Eh].
Qed.
(** *** Before slob_free *)
Lemma enter_ok src w t1 t t2 k b n p' :
  kwinv w -> kths w = t1 ++ t :: t2 -> kpc_of t = KFree k -> slob_block k = Some (b, n) -> page_block k = None ->
  (forall fuel, kthread_step atomic compound_order fuel src (KFree k) (set_kcurrent (kreclaim t) (ksh w)) =
     Ret (set_kcurrent (kreclaim t) (ksh w), p', None)) ->
  p' = KIn (FSection b n) -> frees_whole compound_order (KFree k) p' (ksh w) (set_kcurrent (kreclaim t) (ksh w)) ->
  ksection_ok src w t1 t t2.
Proof.
  intros KI E Ep Ek Epk Hstep -> Hfw. destruct (kwinv_focus _ _ _ _ _ KI E) as [_ _ _ Pg _ Ok Ps].
  rewrite Ep in Ok, Pg. simpl in Ok, Pg. rewrite Epk in Pg. apply Forall_cons in Ok as [_ Ok].
  destruct (focus_idle _ _ _ _ KI E) as (g2&I2); [by rewrite Ep|]. rewrite Ep in I2. simpl in I2. rewrite Ek in I2.
  pose proof (w_free atomic (mk_world (set_current (kreclaim t) (slob (ksh w)))
    ((slob_thread <$> t1) ++ mk_thread (kreclaim t) Idle :: (slob_thread <$> t2)) ((b, n) :: rest w t1 t2))
    _ _ _ [] b n (rest w t1 t2) eq_refl eq_refl eq_refl) as St.
  destruct (wstep_inv _ _ _ _ I2 St) as (g3&I3&_&_).
  eexists _, _, None. split.
  { exists 0%nat. intros fuel _. rewrite Ep. apply Hstep. }
  split; [|split; [by apply nothing_kept|rewrite Ep; split; [exact Hfw|split; [done|simpl; lia]]]].
  eapply (kwinv_intro atomic _ t1 t t2 _ (KIn (FSection b n)) _ _ g3).
  - rewrite fmap_app. exact I3.
  - done.
  - apply (pages_ok_flags (slob (ksh w))); [exact Pg|by intros q m x _ _ H; exact H].
  - exact Ps.
  - by split.
  - exact Ok.
  - apply KI.
Qed.

(** Thread [t] gave its whole pages back. *)
Lemma gave_back src w t1 t t2 k q n s' :
  kwinv w -> kths w = t1 ++ t :: t2 -> kpc_of t = KFree k -> page_block k = Some (q, n) ->
  (forall fuel, kthread_step atomic compound_order fuel src (KFree k) (set_kcurrent (kreclaim t) (ksh w)) =
     Ret (s', KIdle, None)) ->
  slob s' = set_current (kreclaim t) (slob (ksh w)) \/
  (exists b order, slob s' = slob_free_pages b order (set_current (kreclaim t) (slob (ksh w)))) ->
  rcu_pending s' = rcu_pending (ksh w) -> frees_whole compound_order (KFree k) KIdle (ksh w) s' ->
  ksection_ok src w t1 t t2.
Proof.
  intros KI E Ep Ek Hstep Hsl Hpe Hfw. destruct (kwinv_focus _ _ _ _ _ KI E) as [_ _ _ Pg _ Ok Ps].
  rewrite Ep in Ok, Pg. simpl in Ok, Pg. rewrite Ek in Pg. apply Forall_cons in Ok as [_ Ok].
  assert (kmem s' = kmem (ksh w)) as Em by (unfold kmem; by destruct Hsl as [->|(b&order&->)]).
  assert (exists g, winv atomic (mk_world (slob s') ((slob_thread <$> t1) ++
    mk_thread (reclaimed_slab (slob s')) Idle :: (slob_thread <$> t2)) (rest w t1 t2)) g) as (g&I).
  { destruct (focus_idle _ _ _ _ KI E) as (g&I); [by rewrite Ep|]. rewrite Ep in I. simpl in I.
    assert (slob_block k = None) as Es by by destruct k. rewrite Es in I.
    destruct Hsl as [->|(b&order&->)]; [by exists g|].
    destruct (winv_idle _ _ _ _ _ (reclaimed_slab (slob_free_pages b order (set_current (kreclaim t) (slob (ksh w))))) _ _
      (winv_free_pages _ _ _ _ b order I)) as (g'&I'); [done|]. by exists g'. }
  exists s', KIdle, None. split; [exists 0%nat; intros fuel _; rewrite Ep; apply Hstep|].
  split; [|split; [by apply nothing_kept|rewrite Ep; split; [exact Hfw|split; [done|simpl; lia]]]].
  eapply (kwinv_intro atomic _ t1 t t2 _ KIdle _ (rest w t1 t2) g).
  - rewrite fmap_app. exact I.
  - done.
  - apply (pages_ok_flags (slob (ksh w))); [by apply pages_ok_tail in Pg|].
    intros q' m x _ _ H. destruct Hsl as [->|(b&order&->)]; exact H.
  - exact Ps.
  - done.
  - simpl. by rewrite Em.
  - rewrite Hpe. apply KI.
Qed.

(** An address above the first page is neither NULL nor ZERO_SIZE_PTR. *)
Lemma zero_or_null_high p : 4096 <= p -> ZERO_OR_NULL_PTR p = false.
Proof.
  intros Hp. pose proof zero_size_law as Hz. rewrite page_size_law in Hz.
  rewrite zero_or_null_law by lia. by zdec.
Qed.

Lemma long_size x : 0 < x < 2 ^ 31 -> wraps 32 x = x /\ wrapu BITS_PER_LONG x = x.
Proof.
  intros Hx. assert (2 ^ 32 <= 2 ^ BITS_PER_LONG) by (apply Z.pow_le_mono_r; [lia|apply bits_per_long_law]).
  split; [apply wraps_small; lia|apply wrapu_small; lia].
Qed.

Lemma free_kmalloc src w t1 t t2 p size :
  kwinv w -> kths w = t1 ++ t :: t2 -> kpc_of t = KFree (Kmalloc p size) -> ksection_ok src w t1 t t2.
Proof.
  intros KI E Ep. destruct (kwinv_focus _ _ _ _ _ KI E) as [(g&I) Ec _ _ _ Ok _].
  rewrite Ep in Ec, Ok. simpl in Ec, Ok. apply Forall_cons in Ok as [(Hs&Hsm&El) _].
  apply small_size_spec in Hsm. rewrite page_size_law in Hsm. destruct align_facts as (Ha&_).
  destruct (held_page g (mk_config (counted g (slob (ksh w))) (owned (abs w)))
    (p - kmalloc_align, size + kmalloc_align) (wi_config _ _ _ I)) as [Hp Hv].
  { unfold owned. simpl. rewrite elem_of_app. right. rewrite Ec. by left. }
  simpl in Hp, Hv. specialize (Hv p ltac:(lia)).
  eapply (enter_ok src w t1 t t2 _ _ _ _ KI E Ep eq_refl eq_refl); [|done|done]. intros fuel. simpl.
  unfold kfree_enter. rewrite zero_or_null_high by lia. unfold slab_of in Hv. simpl in Hv |- *. rewrite Hv.
  unfold kmem in *. simpl. rewrite El. by rewrite wraps_small by lia.
Qed.

Lemma free_kpages src w t1 t t2 p size :
  kwinv w -> kths w = t1 ++ t :: t2 -> kpc_of t = KFree (Kpages p size) -> ksection_ok src w t1 t t2.
Proof.
  intros KI E Ep. destruct (kwinv_focus _ _ _ _ _ KI E) as [_ _ _ Pg _ Ok _].
  rewrite Ep in Pg, Ok. simpl in Pg, Ok. apply Forall_cons in Ok as [Hk _].
  destruct (page_block_size _ _ _ _ Hk eq_refl) as (_&_&Hn). rewrite page_size_law in Hn.
  destruct (pg_base _ _ Pg p (pages_of size)) as [B1 B2]; [by left|].
  pose proof (pg_slab _ _ Pg p (pages_of size) ltac:(by left) p ltac:(lia)) as Ef.
  eapply (gave_back src w t1 t t2 _ _ _ _ KI E Ep eq_refl).
  - intros fuel. simpl. unfold kfree_enter. pose proof (Z.div_mod p 4096). rewrite zero_or_null_high by lia.
    unfold slab_of in Ef. simpl in Ef |- *. by rewrite Ef.
  - by left.
  - done.
  - done.
Qed.

Lemma free_opages src w t1 t t2 b c :
  kwinv w -> kths w = t1 ++ t :: t2 -> kpc_of t = KFree (Opages b c) -> ksection_ok src w t1 t t2.
Proof.
  intros KI E Ep. destruct (kwinv_focus _ _ _ _ _ KI E) as [_ _ _ _ _ Ok _].
  rewrite Ep in Ok. simpl in Ok. apply Forall_cons in Ok as [[Hc Hge] _].
  destruct (long_size (c_size c) (co_size _ Hc)) as [Ew Eu].
  assert (rcu_cache c = false) as Hr.
  { destruct (rcu_cache c) eqn:Hr; [|done]. destruct (co_rcu _ Hc Hr). rewrite page_size_law in *. lia. }
  eapply (gave_back src w t1 t t2 _ _ _ _ KI E Ep eq_refl).
  - intros fuel. simpl. rewrite Hr. unfold cache_free_enter. rewrite Ew, Eu. by zdec.
  - right. by eexists _, _.
  - done.
  - done.
Qed.

Lemma free_object src w t1 t t2 b c :
  kwinv w -> kths w = t1 ++ t :: t2 -> kpc_of t = KFree (Object b c) -> ksection_ok src w t1 t t2.
Proof.
  intros KI E Ep. destruct (kwinv_focus _ _ _ _ _ KI E) as [_ _ _ _ _ Ok _].
  rewrite Ep in Ok. simpl in Ok. apply Forall_cons in Ok as [[Hc Hlt] _].
  destruct (long_size (c_size c) (co_size _ Hc)) as [Ew Eu]. destruct (rcu_cache c) eqn:Hr.
  - pose proof (defer_writes (kmem (ksh w)) b c Hc Hr) as W. set (m' := rcu_store _ _) in W.
    assert (wrote w t1 t t2 m') as Wr by (apply (write_block w t1 t t2 (b, c_size c)); [done|done|by rewrite Ep..|done]).
    assert (kblock_ok m' (Deferred b c)) as Hk.
    { split; [done|]. split; [done|]. by apply deferred_size. }
    eexists _, KIdle, (Some (Deferred b c)). split.
    { exists 0%nat. intros fuel _. rewrite Ep. simpl. by rewrite Hr. }
    split; [|split; [by eapply wrote_kept|rewrite Ep; split; [simpl; by rewrite Hr|split; [by split|simpl; lia]]]].
    by eapply settle_inv; [exact KI|exact E|exact Wr|rewrite Ep..| | |].
  - eapply (enter_ok src w t1 t t2 _ _ _ _ KI E Ep eq_refl eq_refl); [|done|simpl; by rewrite Hr].
    intros fuel. simpl. rewrite Hr. unfold cache_free_enter. rewrite Ew, Eu. by zdec.
Qed.

Lemma free_deferred src w t1 t t2 b c :
  kwinv w -> kths w = t1 ++ t :: t2 -> kpc_of t = KFree (Deferred b c) -> ksection_ok src w t1 t t2.
Proof.
  intros KI E Ep. destruct (kwinv_focus _ _ _ _ _ KI E) as [_ _ _ _ _ Ok _].
  rewrite Ep in Ok. simpl in Ok. apply Forall_cons in Ok as [(Hc&Hr&El) _].
  destruct (long_size (c_size c) (co_size _ Hc)) as [Ew Eu]. destruct (co_rcu _ Hc Hr) as (Hlt&_).
  eapply (enter_ok src w t1 t t2 _ _ _ _ KI E Ep eq_refl eq_refl); [|done|done]. intros fuel. simpl.
  unfold rcu_free_enter, load_int, cache_free_enter. unfold kmem in *. simpl. rewrite El, Ew, Eu. zdec.
  replace (rcu_head_of b c - (c_size c - sizeof_slob_rcu)) with b by (unfold rcu_head_of; lia). done.
Qed.

(** Every section of the front end. *)
Lemma kthread_ok src w t1 t t2 :
  kwinv w -> kths w = t1 ++ t :: t2 -> kpc_of t ≠ KIdle -> source_unused (slob (ksh w)) (whole_pages w) src ->
  ksection_ok src w t1 t t2.
Proof.
  intros KI E Hp F. destruct (kpc_of t) as [|a p|a gfp node|a b|k|p] eqn:Ep; [done|..].
  - by eapply kalloc_ok.
  - by eapply kpages_ok.
  - by eapply finish_ok.
  - destruct k; [by eapply free_kmalloc|by eapply free_kpages|by eapply free_object|by eapply free_opages|
      by eapply free_deferred].
  - by eapply kin_ok.
Qed.
End KmallocThreadsSteps.
