(* ===== verification/KmallocThreadsReach.v ===== *)
(** Every run of many threads inside the front end keeps the invariant of
    KmallocThreadsInv.v. *)
From S2P Require Import Prelude ListHead Kernel SlobBlocks Slob SlobFuel SlobPage SlobInv SlobAlloc SlobFree SlobAcct SlobRuns SlobFlags SlobThreads SlobCounter SlobThreadsInv SlobThreadsRuns Kmalloc KmallocRuns KmallocOps KmallocSteps KmallocThreads KmallocThreadsInv KmallocThreadsSteps.

Section KmallocThreadsReach.
Context {K : Kernel} {KL : KernelLaws} {M : Mm} {ML : MmLaws}.
Context {L : Type} {LO : ListOps L} {LL : ListLaws L}.
Variable atomic : bool.
Variable compound_order : Z -> Z.
Implicit Types (s : kstate L) (w : kworld (L := L)).

Notation kwinv := (kwinv atomic).
Notation kwstep := (kwstep atomic compound_order).

Lemma want_request_ok a : want_ok a -> want_small a = true -> request_ok (want_size a) (want_align a).
Proof.
  destruct a as [size|c]; simpl.
  - intros Hs Hsm%small_size_spec. destruct align_facts as (?&_&k&?&?).
    split; [lia|]. right. by exists k.
  - intros Hc Hlt%Z.ltb_lt. pose proof (co_size _ Hc). split; [lia|]. apply (co_align _ Hc).
Qed.

(** A thread calls kmalloc or kmem_cache_alloc. *)
Lemma start_inv w t1 t t2 a r gfp node :
  kwinv w -> kths w = t1 ++ t :: t2 -> kpc_of t = KIdle -> want_ok a ->
  rq_size r = want_size a -> rq_align r = want_align a ->
  kwinv (mk_kworld (ksh w)
    (t1 ++ idle_thread t (if want_small a then KAlloc a (ASearch r) else KPages a gfp node) :: t2) (kobjs w)).
Proof.
  intros KI E Ep Ha Es Eal. destruct (kwinv_focus _ _ _ _ _ KI E) as [(g&I) Ec _ Pg _ Ok Ps].
  rewrite Ep in Ec, Ok, Pg. simpl in Ec, Ok, Pg.
  assert (ths (abs w) = (slob_thread <$> t1) ++ slob_thread t :: (slob_thread <$> t2)) as Et
    by (simpl; by rewrite E, fmap_app).
  assert (pc (slob_thread t) = Idle) as Hi by (simpl; by rewrite Ep).
  set (p' := if want_small a then _ else _).
  assert (exists g', winv atomic (mk_world (slob (ksh w)) (slob_thread <$> t1 ++ idle_thread t p' :: t2) (client (abs w))) g')
    as (g'&I').
  { rewrite fmap_app. unfold p'. destruct (want_small a) eqn:Hsm.
    - assert (request_ok (rq_size r) (rq_align r)) as R by (rewrite Es, Eal; by apply want_request_ok).
      destruct (wstep_inv _ _ _ _ I (w_alloc atomic (abs w) _ _ _ r Et Hi R)) as (g'&I'&_&_). by exists g'.
    - exists g. unfold abs in I. simpl in Et. rewrite Et in I. unfold slob_thread at 2 in I. rewrite Ep in I. exact I. }
  apply (kwinv_intro atomic _ t1 t t2 _ p' _ _ g' I'); unfold p'.
  - destruct (want_small a); exact Ec.
  - destruct (want_small a); exact Pg.
  - exact Ps.
  - destruct (want_small a) eqn:Hsm; simpl; [|done]. do 2 (split; [done|]). by exists r.
  - destruct (want_small a); exact Ok.
  - apply KI.
Qed.

(** A thread is about to free an object, which leaves the clients. *)
Lemma release_inv w t1 t t2 l1 k l2 pend :
  kwinv w -> kths w = t1 ++ t :: t2 -> kpc_of t = KIdle -> kobjs w = l1 ++ k :: l2 ->
  pend ≡ₚ omap pending_head (l1 ++ l2) ->
  kwinv (mk_kworld (mk_kstate (slob (ksh w)) (returned (ksh w)) pend) (t1 ++ idle_thread t (KFree k) :: t2) (l1 ++ l2)).
Proof.
  intros KI E Ep Eo Hp. destruct (kwinv_focus _ _ _ _ _ KI E) as [(g&I) Ec _ Pg _ Ok Ps].
  rewrite Ep, Eo in Ec, Ok, Pg. simpl in Ec, Ok, Pg.
  eapply (kwinv_intro atomic _ t1 t t2 _ (KFree k) _ (client (abs w)) g).
  - assert (slob_thread <$> t1 ++ mk_kthread (kreclaim t) (KFree k) :: t2 = ths (abs w)) as Eth.
    { simpl. rewrite E, !fmap_app. simpl. unfold slob_thread at 2 5. by rewrite Ep. }
    rewrite Eth. exact I.
  - rewrite Ec. simpl. unfold blocks_of_objs. rewrite omap_split. solve_Permutation.
  - eapply pages_ok_proper; [|exact Pg]. simpl. unfold pages_of_objs. rewrite omap_split. solve_Permutation.
  - exact Ps.
  - done.
  - simpl. rewrite !(assoc (++)) in *. by rewrite <- Permutation_middle in Ok.
  - done.
Qed.

(** The block or the pages of a client's object. *)
Lemma objs_block w l1 k l2 p :
  kobjs w = l1 ++ k :: l2 -> slob_block k = Some p ->
  client (abs w) = (front_of (kths w) ++ blocks_of_objs l1) ++ p :: blocks_of_objs l2.
Proof.
  intros Eo Ep. simpl. unfold blocks_of_objs. rewrite Eo, omap_app. simpl. rewrite Ep. by rewrite (assoc (++)).
Qed.

Lemma objs_pages w k p : k ∈ kobjs w -> page_block k = Some p -> p ∈ whole_pages w.
Proof. intros Hk Ep. unfold whole_pages. rewrite elem_of_app. right. apply list_elem_of_omap. by exists k. Qed.

Lemma obj_ok w k : kwinv w -> k ∈ kobjs w -> kblock_ok (kmem (ksh w)) k.
Proof.
  intros KI Hk. pose proof (kw_ok _ _ KI) as Ok. rewrite Forall_forall in Ok. apply Ok.
  rewrite elem_of_app. by right.
Qed.

Lemma kw_write_inv w l1 k l2 m' :
  kwinv w -> kobjs w = l1 ++ k :: l2 -> pending_head k = None -> writes_in (kmem (ksh w)) m' (user_bytes k) ->
  kwinv (mk_kworld (with_kmem m' (ksh w)) (kths w) (kobjs w)).
Proof.
  intros KI Eo Hpend W. destruct (kw_slob _ _ KI) as (g&I).
  assert (k ∈ kobjs w) as Hin by (rewrite Eo; set_solver). pose proof (obj_ok _ _ KI Hin) as Hk.
  assert (winv atomic (abs (mk_kworld (with_kmem m' (ksh w)) (kths w) (kobjs w))) g /\
    forall p, p ∈ front_of (kths w) ++ blocks_of_objs l1 ++ blocks_of_objs l2 -> same_contents (kmem (ksh w)) m' p)
    as [I' Hs].
  { destruct (block_cases k) as [(p&Ep&_)|([q n]&Ep&Es)].
    - destruct (winv_write atomic _ g _ p _ m' I (objs_block _ _ _ _ _ Eo Ep)) as [I' Hs].
      { eapply writes_in_mono; [exact W|]. by eapply user_in_slob. }
      split; [exact I'|]. intros q Hq. apply Hs. rewrite !elem_of_app in *. tauto.
    - destruct (winv_page_write atomic _ g q n m' I) as [I' Hs].
      { apply (pg_slab _ _ (kw_pages _ _ KI)). by eapply objs_pages. }
      { eapply user_in_pages; [exact Hk|exact Ep|by eapply page_block_even|exact W]. }
      split; [exact I'|]. intros x Hx. apply Hs. rewrite elem_of_app. right. simpl. unfold blocks_of_objs in *.
      rewrite Eo, omap_split, Es. simpl. by rewrite omap_app. }
  destruct KI as [_ Ok Pg P Pe]. split; [by exists g| | |done|done]; simpl.
  - rewrite Eo in *. unfold front_objs in *. apply Forall_app in Ok as [Ok1 Ok2]. apply Forall_app in Ok2 as [Ok2 Ok3].
    apply Forall_cons in Ok3 as [_ Ok3].
    assert (Forall (kblock_ok m') (freeing_of (kths w) ++ l1 ++ l2)) as F.
    { eapply kblocks_ext; [by repeat (apply Forall_app; split)|]. intros p Hp. apply Hs.
      rewrite !omap_app, !elem_of_app in Hp. rewrite !elem_of_app.
      destruct Hp as [Hp|Hp]; [left; by apply freeing_front|by right]. }
    apply Forall_app in F as [F1 F]. apply Forall_app in F as [F2 F3].
    repeat (apply Forall_app; split); [done|done|]. constructor; [by eapply kblock_ok_self|done].
  - apply (pages_ok_flags (slob (ksh w))); [exact Pg|by intros q n x _ _ H; exact H].
Qed.

Lemma kwstep_inv w w' : kwinv w -> kwstep w w' -> kwinv w'.
Proof.
  intros KI St.
  destruct St as [t1 t t2 size gfp node E Ep Hs|t1 t t2 c flags node E Ep Hc|t1 t t2 l1 k l2 E Ep Eo Hp
    |t1 t t2 l1 b c l2 q1 q2 E Ep Eo Eq|k i v Hk Hp Hi|t1 t t2 src s' p' d E Hp F R].
  - by apply (start_inv w t1 t t2 (WKmalloc size)).
  - by apply (start_inv w t1 t t2 (WCache c)).
  - replace (ksh w) with (mk_kstate (slob (ksh w)) (returned (ksh w)) (rcu_pending (ksh w))) by by destruct (ksh w).
    apply release_inv; try done. rewrite (kw_pending _ _ KI), Eo, !omap_app. simpl. by rewrite Hp.
  - apply release_inv; try done. assert (P := kw_pending _ _ KI). rewrite Eq, Eo, omap_app in P. simpl in P.
    rewrite <- !Permutation_middle in P. apply Permutation_cons_inv in P. by rewrite P, omap_app.
  - apply list_elem_of_split in Hk as (l1&l2&Eo). eapply kw_write_inv; [done..|].
    intros a Ha. apply fn_lookup_insert_ne. intros <-. by apply (Ha i).
  - destruct (kthread_ok atomic compound_order src w t1 t t2 KI E Hp F) as (s1&p1&d1&R1&KI'&_).
    by pose proof (returns_unique _ _ _ R1 R) as [= -> -> ->].
Qed.

Lemma kwinit_inv w : kwinit w -> kwinv w.
Proof.
  intros (Hi&Hp&F&Eo).
  assert (front_of (kths w) = [] /\ freeing_of (kths w) = [] /\ pages_of_front (kths w) = [] /\
    Forall (fun t => pc t = Idle) (slob_thread <$> kths w) /\ Forall (fun t => kpc_ok (kpc_of t)) (kths w))
    as (Ef&Er&Eg&Fi&Fp).
  { clear -F. unfold front_of, freeing_of, pages_of_front. induction F as [|t ts Ht _ (E1&E2&E3&F1&F2)]; [done|].
    simpl. rewrite Ht. simpl. do 3 (split; [done|]). split; constructor; simpl; rewrite ?Ht; done. }
  split; unfold whole_pages; rewrite ?Eo, ?Er, ?Eg; try done.
  - exists ghost_init. apply winit_inv. unfold abs. rewrite Ef, Eo. done.
  - split; [by intros q n ?%elem_of_nil..|]. by intros p q l ?%Permutation_nil_cons.
  - by rewrite Hp.
Qed.

Lemma kwreachable_inv w : kwreachable atomic compound_order w -> kwinv w.
Proof.
  intros (w0&I%kwinit_inv&St). induction St as [|w1 w2 w3 S12 _ IH]; [done|]. apply IH. by eapply kwstep_inv.
Qed.

(** Two objects never overlap. *)
Lemma kobjs_mixed w k k' p q :
  kwinv w -> k ∈ kobjs w -> k' ∈ kobjs w -> slob_block k = Some p -> page_block k' = Some q ->
  bytes_disjoint (user_bytes k) (user_bytes k').
Proof.
  intros KI Hk Hk' Ep Eq. destruct (kw_slob _ _ KI) as (g&I), q as [q n].
  destruct (page_block_size _ _ _ _ (obj_ok _ _ KI Hk') Eq) as (?&?&_).
  eapply (block_page_apart g (mk_config (counted g (slob (ksh w))) (owned (abs w))) p q n);
    [apply (wi_config _ _ _ I)| | |by eapply slob_block_size; [apply (obj_ok w)|]|done].
  - unfold owned. simpl. rewrite !elem_of_app. right. right. apply list_elem_of_omap. by exists k.
  - exact (pg_slab _ _ (kw_pages _ _ KI) q n (objs_pages _ _ _ Hk' Eq)).
Qed.

Lemma kobjs_disjoint w l1 k1 l2 k2 l3 :
  kwinv w -> kobjs w = l1 ++ k1 :: l2 ++ k2 :: l3 -> bytes_disjoint (user_bytes k1) (user_bytes k2).
Proof.
  intros KI Eo. assert (k1 ∈ kobjs w /\ k2 ∈ kobjs w) as [H1 H2] by (rewrite Eo; set_solver).
  pose proof (obj_ok _ _ KI H1) as O1. pose proof (obj_ok _ _ KI H2) as O2.
  destruct (block_cases k1) as [(p1&E1&_)|([q1 n1]&E1&_)], (block_cases k2) as [(p2&E2&_)|([q2 n2]&E2&_)].
  - destruct (kw_slob _ _ KI) as (g&I).
    assert (bytes_disjoint p1 p2) as D.
    { eapply (owned_disjoint atomic (abs w) g (owned_of (ths (abs w)) ++ front_of (kths w) ++ blocks_of_objs l1)
        p1 (blocks_of_objs l2) p2 (blocks_of_objs l3)); [exact I|]. unfold owned. rewrite (objs_block _ _ _ _ _ Eo E1).
      unfold blocks_of_objs. rewrite omap_app. simpl. rewrite E2. by rewrite !(assoc (++)). }
    destruct (slob_block_size _ _ _ O1 E1) as (?&?&?), (slob_block_size _ _ _ O2 E2) as (?&?&?).
    unfold bytes_disjoint in *. lia.
  - by eapply (kobjs_mixed w k1 k2).
  - apply bytes_disjoint_sym. by eapply (kobjs_mixed w k2 k1).
  - assert (bytes_disjoint (q1, n1) (q2, n2)) as D.
    { apply (pg_apart _ _ (kw_pages _ _ KI) _ _
        (pages_of_front (kths w) ++ pages_of_objs l1 ++ pages_of_objs l2 ++ pages_of_objs l3)).
      unfold whole_pages, pages_of_objs. rewrite Eo, omap_split, E1. simpl. rewrite (assoc (++)), omap_split, E2.
      rewrite !omap_app. solve_Permutation. }
    destruct (page_block_size _ _ _ _ O1 E1) as (->&?&?), (page_block_size _ _ _ _ O2 E2) as (->&?&?).
    unfold bytes_disjoint in *. simpl in D. lia.
Qed.
End KmallocThreadsReach.
