(* ===== verification/KmallocThreadsProps.v ===== *)
(** What the front end of assignments/a4/slob.c promises to several threads at
    once, and a concrete interleaving on the machine of KmallocBoot.v. *)
From S2P Require Import Prelude ListHead Kernel SlobBlocks Slob SlobFuel SlobPage SlobInv SlobAlloc SlobFree SlobAcct SlobRuns SlobFlags SlobBoot SlobThreads SlobThreadsInv SlobThreadsRuns SlobThreadsBoot Kmalloc KmallocRuns KmallocOps KmallocSteps KmallocReach KmallocBoot KmallocThreads KmallocThreadsInv KmallocThreadsSteps KmallocThreadsReach.
Import I386 Links.

Section KmallocThreadsProps.
Context {K : Kernel} {KL : KernelLaws} {M : Mm} {ML : MmLaws}.
Context {L : Type} {LO : ListOps L} {LL : ListLaws L}.
Implicit Types (w : kworld (L := L)).

(** C10: any number of threads may be inside kmalloc, kfree, kmem_cache_alloc,
    kmem_cache_free and RCU callbacks at once, for objects in slab pages and for
    those that get pages of their own. In every reachable world, whatever the
    interleaving, two objects never share a byte; if the page allocator gives only
    pages nobody uses, the next section of any thread returns without BUG and
    brings its call closer to the end; it keeps the contents of all clients'
    objects, and of the blocks and pages other threads work on; what is freed is the
    whole block that was allocated for the object, as the size read back from memory
    is the one stored there, or all of its pages; and an object it answers is the
    one wanted, aligned, with its size stored in front if it lies in a slab page. *)
Theorem front_end_threads_are_safe atomic co w :
  kwreachable atomic co w ->
  (forall l1 k1 l2 k2 l3, kobjs w = l1 ++ k1 :: l2 ++ k2 :: l3 -> bytes_disjoint (user_bytes k1) (user_bytes k2)) /\
  forall t1 t t2 src, kths w = t1 ++ t :: t2 -> kpc_of t ≠ KIdle ->
    source_unused (slob (ksh w)) (whole_pages w) src ->
    exists s' p' d,
      returns (fun fuel => kthread_step atomic co fuel src (kpc_of t) (set_kcurrent (kreclaim t) (ksh w))) (s', p', d) /\
      (ksections_left p' < ksections_left (kpc_of t))%nat /\
      kept w t1 t2 s' /\ frees_whole co (kpc_of t) p' (ksh w) s' /\ gives (kpc_of t) (kmem s') d.
Proof.
  intros KI%kwreachable_inv. split; [intros l1 k1 l2 k2 l3; by apply (kobjs_disjoint atomic)|].
  intros t1 t t2 src E Hp F.
  destruct (kthread_ok atomic co src w t1 t t2 KI E Hp F) as (s'&p'&d&R&_&?&?&?&?).
  by exists s', p', d.
Qed.
End KmallocThreadsProps.

(** ** A scheduler for the front end *)
Notation kworld_i386 := (kworld (L := links)).

Inductive kaction : Type :=
| KCall (i : nat) (size : Z)            (* thread i calls kmalloc *)
| KRelease (i j : nat)                  (* thread i calls kfree for the j-th object *)
| KRun (i : nat) (sp : Z).              (* its next section; sp is the next page to give *)

Definition is_kidle (p : kpc) : bool := match p with KIdle => true | _ => false end.

Lemma is_kidle_spec p : is_kidle p = true <-> p = KIdle.
Proof. by destruct p. Qed.

(** [sp] is a page the page allocator may give. *)
Definition page_okb (w : kworld_i386) (sp : Z) : bool :=
  page_unused_by (slob (ksh w)) (whole_pages w) sp &&
  (0 <? page_address sp) && (page_address sp mod 4096 =? 0) && (virt_to_page (page_address sp) =? sp).

Lemma page_okb_spec w sp : page_okb w sp = true -> source_unused (slob (ksh w)) (whole_pages w) (one_page sp).
Proof.
  unfold page_okb. rewrite !andb_true_iff, Z.ltb_lt, !Z.eqb_eq. intros [[[U ?] ?] ?].
  apply one_page_unused; [by split|exact U].
Qed.

Definition kact (a : kaction) (w : kworld_i386) : option kworld_i386 :=
  match a with
  | KCall i size =>
      t ← kths w !! i;
      if is_kidle (kpc_of t) && (0 <? size)
      then Some (mk_kworld (ksh w) (<[i := idle_thread t (kmalloc_start size 0 0)]> (kths w)) (kobjs w))
      else None
  | KRelease i j =>
      t ← kths w !! i;
      k ← kobjs w !! j;
      if is_kidle (kpc_of t) && match pending_head k with None => true | _ => false end
      then Some (mk_kworld (ksh w) (<[i := idle_thread t (KFree k)]> (kths w))
                   (take j (kobjs w) ++ drop (S j) (kobjs w)))
      else None
  | KRun i sp =>
      t ← kths w !! i;
      if negb (is_kidle (kpc_of t)) && page_okb w sp
      then match kthread_step true (fun _ => 0) 8 (one_page sp) (kpc_of t) (set_kcurrent (kreclaim t) (ksh w)) with
           | Ret (s, p, d) =>
               Some (mk_kworld s (<[i := mk_kthread (reclaimed_slab (slob s)) p]> (kths w)) (option_list d ++ kobjs w))
           | _ => None
           end
      else None
  end.

Lemma kthread_step_mono atomic co src p s : fuel_mono (fun fuel => kthread_step (L := links) atomic co fuel src p s).
Proof.
  intros n n' x E Hn. destruct p as [|a p|a gfp node|a b|k|p]; try exact E; simpl in *.
  - destruct (thread_step _ n _ _ _) as [y| |] eqn:T; [|done..].
    by rewrite (thread_step_mono _ _ _ _ _ _ _ T Hn).
  - destruct (thread_step _ n _ _ _) as [y| |] eqn:T; [|done..].
    by rewrite (thread_step_mono _ _ _ _ _ _ _ T Hn).
Qed.

Lemma kact_step a w w' : kact a w = Some w' -> kwstep true (fun _ => 0) w w'.
Proof.
  destruct a as [i size|i j|i sp]; simpl; destruct (kths w !! i) as [t|] eqn:E; simpl; try done;
    assert (Et := eq_sym (take_drop_middle _ _ _ E)).
  - destruct (is_kidle (kpc_of t) && _) eqn:C; [|done].
    apply andb_true_iff in C as [Hi%is_kidle_spec Hs%Z.ltb_lt].
    intros [= <-]. rewrite (insert_middle _ _ _ _ E). by eapply kw_kmalloc.
  - destruct (kobjs w !! j) as [k|] eqn:Ej; simpl; [|done].
    destruct (is_kidle (kpc_of t) && _) eqn:C; [|done]. apply andb_true_iff in C as [Hi%is_kidle_spec Hp].
    intros [= <-]. rewrite (insert_middle _ _ _ _ E).
    eapply kw_free; [exact Et|done|by rewrite take_drop_middle|by destruct (pending_head k)].
  - destruct (negb _ && _) eqn:C; [|done]. apply andb_true_iff in C as [Hi%negb_true_iff F%page_okb_spec].
    assert (kpc_of t ≠ KIdle) as Hi' by (intros Ei%is_kidle_spec; congruence).
    destruct (kthread_step _ _ _ _ _ _) as [[[s p] d]| |] eqn:T; [|done..].
    intros [= <-]. rewrite (insert_middle _ _ _ _ E). eapply kw_run; [exact Et|done|exact F|].
    eapply returns_at; [apply kthread_step_mono|exact T].
Qed.

Fixpoint kacts (l : list kaction) (w : kworld_i386) : option kworld_i386 :=
  match l with
  | [] => Some w
  | a :: l => w ← kact a w; kacts l w
  end.

Lemma kacts_rtc l w w' : kacts l w = Some w' -> rtc (kwstep true (fun _ => 0)) w w'.
Proof.
  revert w. induction l as [|a l IH]; intros w; simpl; [by intros [= <-]|].
  destruct (kact a w) as [w1|] eqn:E; simpl; [|done].
  intros E'. eapply rtc_l; [by eapply kact_step|by apply IH].
Qed.

Definition two_kthreads : kworld_i386 :=
  mk_kworld (mk_kstate boot [] []) [mk_kthread None KIdle; mk_kthread None KIdle] [].

Definition kafter (l : list kaction) : kworld_i386 := default two_kthreads (kacts l two_kthreads).

Lemma kafter_reachable l : kwreachable true (fun _ => 0) (kafter l).
Proof.
  exists two_kthreads. split.
  - split; [apply boot_init|]. split; [done|]. split; [by repeat constructor|done].
  - unfold kafter. destruct (kacts l two_kthreads) as [w|] eqn:E; [by eapply kacts_rtc|apply rtc_refl].
Qed.

(** One thread has an object in a slab page and frees it while the other, which
    already got a whole page, has found a block behind it in which its size is not
    yet stored. *)
Definition free_while_alloc : list kaction :=
  [KCall 0 100; KRun 0 frame1; KRun 0 frame1; KRun 0 frame3; KRun 0 frame3; KRun 0 frame3; KRun 0 frame3;
   KCall 1 4090; KRun 1 frame2;
   KCall 1 50; KRun 1 frame3; KRun 1 frame3; KRelease 0 1].

Lemma front_end_threads_are_safe_witness :
  kobjs (kafter free_while_alloc) = [Kpages 12288 4090] /\
  exists s', returns (fun fuel => kthread_step true (fun _ => 0) fuel (one_page frame3)
      (KFree (Kmalloc 8200 100)) (set_kcurrent None (ksh (kafter free_while_alloc))))
      (s', KIn (FSection 8192 108), None).
Proof.
  split; [by vm_compute|].
  destruct (front_end_threads_are_safe true (fun _ => 0) (kafter free_while_alloc) (kafter_reachable _)) as (_&H).
  destruct (H [] (mk_kthread None (KFree (Kmalloc 8200 100))) [mk_kthread None (KInit (WKmalloc 50) 8304)]
    (one_page frame3)) as (s'&p'&d&R&_&_&Hf&Hg);
    [by vm_compute|done|apply page_okb_spec; by vm_compute|].
  exists s'. simpl in Hf, Hg. subst p'. destruct d as [k|]; [destruct Hg as [_ []]|]. exact R.
Defined.
