(* ===== verification/Sstf.v ===== *)
(** The elevator of assignments/a2/sstf-iosched.c.

    A struct request is named by the address of the list node it embeds, as is
    struct sstf_data's queue (list_entry is the identity on these names). The
    position and the size of a request are read through its pointer: [rq_pos] and
    [rq_sectors] say what is found at an address. sstf_add_request also reads a
    position through the list head, which is not a request: [rq_pos] of the head
    is whatever the memory there holds. *)
From S2P Require Import Prelude ListHead.

Inductive dir : Type := DirF | DirB.     (* 'F' and 'B' *)

#[export] Instance dir_eq_dec : EqDecision dir.
Proof. solve_decision. Defined.

(** struct sstf_data, with the heap of list nodes it lives in. *)
Record sstf_data (L : Type) : Type := mk_sstf {
  heap : L;
  queue : Z;                 (* &nd->queue *)
  direction : dir;
  sector : Z;
}.
Arguments mk_sstf {L}. Arguments heap {L}. Arguments queue {L}.
Arguments direction {L}. Arguments sector {L}.

(** What the elevator uses of the block layer. elv_dispatch_add_tail(q, rq) puts
    a request at the tail of the dispatch queue of [q], a list of the same kind. *)
Class BlockLayer (L : Type) : Type := {
  elv_dispatch_add_tail : Z -> Z -> L -> L;   (* dispatch queue, request *)
  sector_bits : Z;                            (* width of sector_t *)
}.

Class BlockLayerLaws (L : Type) `{ListLaws L} `{BlockLayer L} : Prop := {
  elv_dispatch_law h q l rq :
    ring h (q :: l) -> ring h [rq] -> rq ∉ q :: l ->
    ring (elv_dispatch_add_tail q rq h) (q :: l ++ [rq]);
  elv_dispatch_frame h q l rq r :
    ring h (q :: l) -> ring h [rq] -> ring h r -> r ## q :: l -> rq ∉ r ->
    ring (elv_dispatch_add_tail q rq h) r;
}.

Section Sstf.
Context {L : Type} {LO : ListOps L} {BL : BlockLayer L}.
Variables (rq_pos rq_sectors : Z -> Z).

Definition blk_rq_pos (rq : Z) : Z := rq_pos rq.
Definition blk_rq_sectors (rq : Z) : Z := rq_sectors rq.

Definition set_heap (h : L) (nd : sstf_data L) : sstf_data L :=
  mk_sstf h (queue nd) (direction nd) (sector nd).

Definition sstf_merged_requests (rq next : Z) (nd : sstf_data L) : sstf_data L :=
  set_heap (list_del_init next (heap nd)) nd.

(** The request to dispatch from a queue that is not empty, and the direction. *)
Definition choose_request (prev next : Z) (nd : sstf_data L) : Z * dir :=
  if negb (prev =? next) then
    match direction nd with
    | DirB => if blk_rq_pos prev <=? sector nd then (prev, DirB) else (next, DirF)
    | DirF => if blk_rq_pos next <=? sector nd then (next, DirF) else (prev, DirB)
    end
  else (next, direction nd).

(** [q] is the dispatch queue of the request queue. *)
Definition sstf_dispatch (q : Z) (nd : sstf_data L) : sstf_data L * Z :=
  if negb (list_empty (queue nd) (heap nd)) then
    let prev := lprev (heap nd) (queue nd) in
    let next := lnext (heap nd) (queue nd) in
    let '(rq, d) := choose_request prev next nd in
    let h := list_del_init rq (heap nd) in
    let h := elv_dispatch_add_tail q rq h in
    (mk_sstf h (queue nd) d (wrapu sector_bits (blk_rq_sectors rq + blk_rq_pos rq)), 1)
  else (nd, 0).

(** while (blk_rq_pos(next) <= blk_rq_pos(rq)): the node to insert after. *)
Fixpoint add_loop (fuel : nat) (h : L) (rq prev next : Z) : res Z :=
  match fuel with
  | O => Fuel
  | S fuel =>
      if blk_rq_pos next <=? blk_rq_pos rq
      then add_loop fuel h rq (lprev h prev) (lnext h next)
      else Ret prev
  end.

Definition sstf_add_request (fuel : nat) (rq : Z) (nd : sstf_data L) : res (sstf_data L) :=
  let h := heap nd in
  if negb (list_empty (queue nd) h) then
    prev ← add_loop fuel h rq (lprev h (queue nd)) (lnext h (queue nd));
    Ret (set_heap (list_add rq prev h) nd)
  else Ret (set_heap (list_add rq (queue nd) h) nd).

Definition sstf_former_request (rq : Z) (nd : sstf_data L) : Z :=
  if lprev (heap nd) rq =? queue nd then NULL else lprev (heap nd) rq.

Definition sstf_latter_request (rq : Z) (nd : sstf_data L) : Z :=
  if lnext (heap nd) rq =? queue nd then NULL else lnext (heap nd) rq.

(** sstf_init_queue: [eq] and [nd] are what elevator_alloc and kmalloc_node
    returned. The result is the return value, the elevator data installed in the
    request queue, if any, and the kobjects that were put. *)
Definition ENOMEM : Z := 12.

Definition sstf_init_queue (eq nd : Z) (h : L) : Z * option (sstf_data L) * list Z :=
  if eq =? NULL then (- ENOMEM, None, [])
  else if nd =? NULL then (- ENOMEM, None, [eq])
  else (0, Some (mk_sstf (INIT_LIST_HEAD nd h) nd DirF 0), []).

(** sstf_exit_queue: the pointer passed to kfree. *)
Definition sstf_exit_queue (nd : sstf_data L) : res Z :=
  if negb (list_empty (queue nd) (heap nd)) then Bug else Ret (queue nd).

(** The elevator core calls these operations one at a time, under the queue lock. *)
Inductive sstf_op : Type :=
| Add (rq : Z)
| Merge (rq next : Z)
| Dispatch.

Definition sstf_step (fuel : nat) (q : Z) (o : sstf_op) (nd : sstf_data L) : res (sstf_data L) :=
  match o with
  | Add rq => sstf_add_request fuel rq nd
  | Merge rq next => Ret (sstf_merged_requests rq next nd)
  | Dispatch => Ret (fst (sstf_dispatch q nd))
  end.

Fixpoint sstf_run (fuel : nat) (q : Z) (ops : list sstf_op) (nd : sstf_data L) : res (sstf_data L) :=
  match ops with
  | [] => Ret nd
  | o :: ops => nd ← sstf_step fuel q o nd; sstf_run fuel q ops nd
  end.
End Sstf.
