(* ===== verification/SstfQueue.v ===== *)
(** The queue of the sstf elevator as a list, and the refinement of Sstf.v to
    it: where sstf_add_request inserts, what sstf_dispatch takes. *)
From S2P Require Import Prelude ListHead Sstf.

(** ** The abstract elevator *)
Record elevator : Type := mk_elev {
  waiting : list Z;          (* the queue, from nd->queue.next on *)
  e_dir : dir;
  e_sector : Z;
  dispatched : list Z;       (* the dispatch queue *)
}.

Section abstract.
Variables (rq_pos rq_sectors : Z -> Z) (bits hd : Z).

(** Length of the prefix of positions that are not above [x]. *)
Fixpoint lead (x : Z) (l : list Z) : nat :=
  match l with
  | y :: t => if rq_pos y <=? x then S (lead x t) else O
  | [] => O
  end.

(** sstf_add_request walks forward over [lead] requests but inserts as many
    places before the end. It does not stop if all positions are passed, the one
    read from the list head included. *)
Definition stuck (rq : Z) (l : list Z) : bool :=
  negb (bool_decide (l = [])) && (lead (rq_pos rq) l =? length l)%nat && (rq_pos hd <=? rq_pos rq).

Definition insert_mirrored (rq : Z) (l : list Z) : list Z :=
  let k := (length l - lead (rq_pos rq) l)%nat in take k l ++ rq :: drop k l.

Definition e_add (rq : Z) (e : elevator) : option elevator :=
  if stuck rq (waiting e) then None
  else Some (mk_elev (insert_mirrored rq (waiting e)) (e_dir e) (e_sector e) (dispatched e)).

Definition e_merge (next : Z) (e : elevator) : elevator :=
  mk_elev (filter (fun x => x ≠ next) (waiting e)) (e_dir e) (e_sector e) (dispatched e).

(** The end of the queue to take from: [true] for the front. *)
Definition e_choice (l : list Z) (d : dir) (sec : Z) : bool * dir :=
  match l with
  | [x] => (true, d)
  | _ =>
      match d with
      | DirB => if rq_pos (List.last l hd) <=? sec then (false, DirB) else (true, DirF)
      | DirF => if rq_pos (List.hd hd l) <=? sec then (true, DirF) else (false, DirB)
      end
  end.

Definition e_dispatch (e : elevator) : elevator :=
  match waiting e with
  | [] => e
  | l =>
      let '(front, d) := e_choice l (e_dir e) (e_sector e) in
      let rq := if front then List.hd hd l else List.last l hd in
      let l := if front then tail l else removelast l in
      mk_elev l d (wrapu bits (rq_sectors rq + rq_pos rq)) (dispatched e ++ [rq])
  end.

Definition e_step (o : sstf_op) (e : elevator) : option elevator :=
  match o with
  | Add rq => e_add rq e
  | Merge _ next => Some (e_merge next e)
  | Dispatch => Some (e_dispatch e)
  end.

Fixpoint e_run (ops : list sstf_op) (e : elevator) : option elevator :=
  match ops with
  | [] => Some e
  | o :: ops => match e_step o e with Some e => e_run ops e | None => None end
  end.
End abstract.

(** ** The insertion loop *)
Section refine.
Context {L : Type} {LO : ListOps L} {LL : ListLaws L} {BL : BlockLayer L} {BLL : BlockLayerLaws L}.
Variable rq_pos : Z -> Z.
Implicit Types (h : L) (nd : sstf_data L) (e : elevator).

Lemma lnext_first_of h (hd : Z) l : ring h (hd :: l) -> lnext h hd = List.hd hd l.
Proof. intros R. destruct l; [by apply ring_single|exact (ring_next _ _ _ _ R)]. Qed.

Lemma lprev_last_of h (hd : Z) l : ring h (hd :: l) -> lprev h hd = List.last l hd.
Proof.
  intros R. destruct (decide (l = [])) as [->|Hne]; [by apply ring_single|].
  destruct (exists_last Hne) as (l'&z&->). rewrite List.last_last. by eapply ring_last.
Qed.

Lemma lnext_after h (hd : Z) a y b : ring h (hd :: a ++ y :: b) -> lnext h y = List.hd hd b.
Proof.
  intros R. destruct b as [|z b]; [by eapply ring_next_last|].
  exact (ring_next_mid h (hd :: a) _ _ _ R).
Qed.

Lemma lprev_before h (hd : Z) a y b : ring h (hd :: a ++ y :: b) -> lprev h y = List.last a hd.
Proof.
  intros R. destruct (decide (a = [])) as [->|Hne]; [exact (ring_prev _ _ _ _ R)|].
  destruct (exists_last Hne) as (a'&z&->). rewrite List.last_last. rewrite <- app_assoc in R.
  exact (ring_prev_mid h (hd :: a') _ _ _ R).
Qed.

(** The queue split in front of the forward cursor and behind the backward one. *)
Lemma add_loop_at fuel h rq hd a b c d :
  ring h (hd :: a ++ b) -> a ++ b = c ++ d -> length b = length c ->
  (lead rq_pos (rq_pos rq) b < length b)%nat \/ rq_pos rq < rq_pos hd ->
  (length b < fuel)%nat ->
  add_loop rq_pos fuel h rq (List.last c hd) (List.hd hd b) =
    Ret (List.last (take (length b - lead rq_pos (rq_pos rq) b) c) hd).
Proof.
  revert fuel a c d. induction b as [|y b IH]; intros fuel a c d R E Hl Hstop Hf;
    (destruct fuel as [|fuel]; [simpl in Hf; lia|]); simpl add_loop; unfold blk_rq_pos.
  - destruct c; [|done]. simpl in *. destruct Hstop as [?|Hstop]; [lia|]. by zdec.
  - simpl lead in *. destruct (Z.leb_spec (rq_pos y) (rq_pos rq)) as [Hy|Hy].
    + assert (c ≠ []) as Hc by by destruct c. destruct (exists_last Hc) as (c'&z&->).
      rewrite List.last_last. rewrite (lnext_after _ _ _ _ _ R).
      assert (lprev h z = List.last c' hd) as ->.
      { rewrite E, <- app_assoc in R. by eapply lprev_before. }
      rewrite length_app in Hl. simpl in Hl, Hstop, Hf.
      rewrite (IH fuel (a ++ [y]) c' (z :: d)); try lia.
      * do 2 f_equal. simpl. rewrite take_app_le by lia. done.
      * by rewrite <- app_assoc.
      * rewrite <- app_assoc in E |- *. exact E.
    + simpl length. rewrite Nat.sub_0_r, firstn_all2 by (simpl in Hl; lia). done.
Qed.

(** A position that is nowhere exceeded is searched for ever. *)
Lemma add_loop_stuck fuel h rq r prev next :
  ring h r -> (forall x, x ∈ r -> rq_pos x <= rq_pos rq) -> next ∈ r ->
  add_loop rq_pos fuel h rq prev next = Fuel.
Proof.
  intros R Hr. revert prev next. induction fuel as [|fuel IH]; intros prev next Hn; [done|].
  simpl. unfold blk_rq_pos. rewrite (proj2 (Z.leb_le _ _)) by by apply Hr. apply IH.
  apply list_elem_of_split in Hn as (l1&l2&->). apply ring_rotate_app in R. simpl in R.
  rewrite (lnext_first_of _ _ _ R). destruct (l2 ++ l1) as [|z t] eqn:E; [set_solver|].
  assert (z ∈ l2 ++ l1) as Hz by (rewrite E; by left). simpl. set_solver.
Qed.

(** Inserting after the [k]-th node. *)
Lemma list_add_after h hd rq k l :
  ring h (hd :: l) -> rq ∉ hd :: l ->
  ring (list_add rq (List.last (take k l) hd) h) (hd :: take k l ++ rq :: drop k l).
Proof.
  intros R Hn. destruct (decide (take k l = [])) as [E|Hne].
  - rewrite E. simpl. pose proof (take_drop k l) as D. rewrite E in D. simpl in D. rewrite D.
    by apply ring_add.
  - destruct (exists_last Hne) as (p&z&E). rewrite E, List.last_last, <- app_assoc.
    rewrite <- (take_drop k l), E, <- app_assoc in R, Hn. by apply (ring_add_mid h rq (hd :: p)).
Qed.

(** *** Representation *)
Record represents (q : Z) nd e : Prop := {
  rep_queue : ring (heap nd) (queue nd :: waiting e);
  rep_dispatch : ring (heap nd) (q :: dispatched e);
  rep_disjoint : queue nd :: waiting e ## q :: dispatched e;
  rep_dir : direction nd = e_dir e;
  rep_sector : sector nd = e_sector e;
}.

(** What the block layer guarantees of the requests it passes. *)
Definition op_ok (q hd : Z) (o : sstf_op) e : Prop :=
  match o with
  | Add rq => rq ∉ hd :: waiting e /\ rq ∉ q :: dispatched e
  | Merge _ next => next ∈ waiting e
  | Dispatch => True
  end.

Section ops.
Variables (q : Z) (nd : sstf_data L) (e : elevator).
Hypothesis R : represents q nd e.

Lemma queue_empty : list_empty (queue nd) (heap nd) = bool_decide (waiting e = []).
Proof.
  pose proof (list_empty_spec _ _ _ (rep_queue _ _ _ R)) as H.
  case_bool_decide as E; [by apply H|]. destruct (list_empty _ _); [|done]. by destruct E; apply H.
Qed.

Lemma merge_spec rq next :
  next ∈ waiting e -> represents q (sstf_merged_requests rq next nd) (e_merge next e).
Proof.
  intros Hn. destruct R as [R1 R2 D E1 E2]. assert (N := ring_nodup _ _ R1).
  apply list_elem_of_split in Hn as (l1&l2&El). unfold sstf_merged_requests, e_merge.
  assert (filter (fun x => x ≠ next) (waiting e) = l1 ++ l2) as ->.
  { apply NoDup_cons in N as [_ N]. rewrite El in N |- *.
    apply NoDup_app in N as (_&D1&N2). apply NoDup_cons in N2 as [D2 _].
    rewrite filter_app, filter_cons. rewrite decide_False by tauto.
    rewrite !filter_ne; [done|done|]. intros Hx. apply (D1 next Hx). by left. }
  rewrite El in R1, D. split; simpl; try done.
  - by apply (ring_del_init_mid _ (queue nd :: l1)).
  - eapply ring_del_init_frame; [|exact R2|].
    + by apply (ring_rotate_app _ (queue nd :: l1) (next :: l2)).
    + intros x H1 H2. apply (D x); [|done]. set_solver.
  - intros x H1 H2. apply (D x); [|done]. set_solver.
Qed.

Lemma add_spec fuel rq e' :
  op_ok q (queue nd) (Add rq) e -> e_add rq_pos (queue nd) rq e = Some e' ->
  (length (waiting e) < fuel)%nat ->
  exists nd', sstf_add_request rq_pos fuel rq nd = Ret nd' /\ represents q nd' e' /\ queue nd' = queue nd.
Proof.
  intros [Hn Hn'] Ha Hf. destruct R as [R1 R2 D E1 E2]. unfold e_add in Ha.
  destruct (stuck _ _ _ _) eqn:S; [done|]. injection Ha as <-.
  set (l := waiting e) in *. set (k := (length l - lead rq_pos (rq_pos rq) l)%nat).
  exists (set_heap (list_add rq (List.last (take k l) (queue nd)) (heap nd)) nd). split.
  - unfold sstf_add_request. rewrite queue_empty. fold l.
    destruct (decide (l = [])) as [El|Hne].
    + rewrite bool_decide_eq_true_2 by done. unfold k. by rewrite El.
    + rewrite bool_decide_eq_false_2 by done. simpl.
      rewrite (lprev_last_of _ _ _ R1), (lnext_first_of _ _ _ R1).
      rewrite (add_loop_at fuel _ _ _ [] l l []); try done; [by rewrite app_nil_r|].
      unfold stuck in S. rewrite bool_decide_eq_false_2 in S by done. simpl in S.
      assert (lead rq_pos (rq_pos rq) l <= length l)%nat.
      { clear. induction l as [|y t IH]; simpl; [lia|]. destruct (_ <=? _); lia. }
      apply andb_false_iff in S as [S|S]; [left; apply Nat.eqb_neq in S; lia|right; lia].
  - split; [|done]. split; simpl; try done.
    + by apply list_add_after.
    + destruct (decide (take k l = [])) as [E|Hk].
      * rewrite E. eapply ring_add_frame; [exact R1|done|done|]. intros x H1 H2. by apply (D x).
      * destruct (exists_last Hk) as (p&z&E). rewrite E, List.last_last.
        rewrite <- (take_drop k l), E, <- app_assoc in R1, D.
        apply (ring_rotate_app _ (queue nd :: p) (z :: drop k l)) in R1.
        eapply (ring_add_frame _ rq z); [exact R1|done|done|].
        intros x H1 H2. apply (D x); [|done]. set_solver.
    + intros x H1 H2. unfold insert_mirrored in H1. fold k in H1.
      rewrite !elem_of_cons, elem_of_app, elem_of_cons in H1.
      destruct H1 as [->|[H1|[->|H1]]]; [apply (D (queue nd)); set_solver|..|done|];
        (apply (D x); [right|done]); rewrite <- (take_drop k l), elem_of_app; tauto.
Qed.

Lemma add_stuck fuel rq :
  stuck rq_pos (queue nd) rq (waiting e) = true -> sstf_add_request rq_pos fuel rq nd = Fuel.
Proof.
  intros [[H1 H2]%andb_true_iff H3]%andb_true_iff. apply negb_true_iff, bool_decide_eq_false in H1.
  apply Nat.eqb_eq in H2. apply Z.leb_le in H3. assert (R1 := rep_queue _ _ _ R).
  unfold sstf_add_request. rewrite queue_empty, bool_decide_eq_false_2 by done. simpl.
  rewrite (lprev_last_of _ _ _ R1), (lnext_first_of _ _ _ R1).
  rewrite (add_loop_stuck _ _ _ _ _ _ R1); [done| |destruct (waiting e); set_solver].
  assert (Forall (fun y => rq_pos y <= rq_pos rq) (waiting e)) as F.
  { clear -H2. induction (waiting e) as [|y t IH]; [done|]. simpl in H2.
    destruct (Z.leb_spec (rq_pos y) (rq_pos rq)); [|done]. constructor; [done|]. apply IH. lia. }
  intros x [->|Hx]%elem_of_cons; [done|]. rewrite Forall_forall in F. by apply F.
Qed.

End ops.

Section dispatch.
Variables (rq_sectors : Z -> Z) (q : Z) (nd : sstf_data L) (e : elevator).
Hypothesis R : represents q nd e.

Lemma dispatch_rings a rq b :
  waiting e = a ++ rq :: b ->
  let h := elv_dispatch_add_tail q rq (list_del_init rq (heap nd)) in
  ring h (queue nd :: a ++ b) /\ ring h (q :: dispatched e ++ [rq]) /\
  queue nd :: a ++ b ## q :: dispatched e ++ [rq].
Proof.
  intros El. destruct R as [R1 R2 D _ _]. rewrite El in R1, D. simpl.
  assert (rq ∉ queue nd :: a ++ b) as Hn.
  { apply ring_nodup in R1. intros H.
    assert (rq :: queue nd :: a ++ b ≡ₚ queue nd :: a ++ rq :: b) as P by solve_Permutation.
    rewrite <- P in R1. by apply NoDup_cons_1_1 in R1. }
  assert (R1' := ring_rotate_app _ (queue nd :: a) (rq :: b) R1). simpl in R1'.
  assert (rq ∉ q :: dispatched e) as Hq by (intros H; apply (D rq); set_solver).
  assert (ring (list_del_init rq (heap nd)) (q :: dispatched e)) as R2'.
  { eapply ring_del_init_frame; [exact R1'|done|]. intros x H1 H2. apply (D x); set_solver. }
  assert (queue nd :: a ++ b ## q :: dispatched e) as D'.
  { intros x H1 H2. apply (D x); [set_solver|done]. }
  pose proof (ring_del_init_self _ _ _ R1') as R3.
  split; [|split].
  - eapply elv_dispatch_frame; [exact R2'|done| |done|done].
    by apply (ring_del_init_mid _ (queue nd :: a)).
  - by apply elv_dispatch_law.
  - intros x H1 H2. rewrite app_comm_cons, elem_of_app, list_elem_of_singleton in H2.
    destruct H2 as [H2| ->]; [by apply (D' x)|done].
Qed.

Lemma choose_spec :
  waiting e ≠ [] ->
  choose_request rq_pos (List.last (waiting e) (queue nd)) (List.hd (queue nd) (waiting e)) nd =
    let '(front, d) := e_choice rq_pos (queue nd) (waiting e) (e_dir e) (e_sector e) in
    (if front then List.hd (queue nd) (waiting e) else List.last (waiting e) (queue nd), d).
Proof.
  intros Hne. destruct R as [R1 _ _ E1 E2]. apply ring_nodup, NoDup_cons in R1 as [_ N].
  unfold choose_request, e_choice, blk_rq_pos. rewrite E1, E2.
  destruct (waiting e) as [|x [|y l]]; [done|by rewrite Z.eqb_refl|].
  assert (List.last (x :: y :: l) (queue nd) ≠ x) as Hz.
  { destruct (exists_last (l := y :: l)) as (p&z&E); [done|]. rewrite E, app_comm_cons, List.last_last.
    rewrite E in N. intros ->. apply NoDup_cons_1_1 in N. set_solver. }
  simpl List.hd. rewrite (proj2 (Z.eqb_neq _ _) Hz). cbn [negb]. destruct (e_dir e); by destruct (_ <=? _).
Qed.

Lemma dispatch_spec :
  exists nd', sstf_dispatch rq_pos rq_sectors q nd = (nd', if bool_decide (waiting e = []) then 0 else 1) /\
    represents q nd' (e_dispatch rq_pos rq_sectors sector_bits (queue nd) e) /\ queue nd' = queue nd.
Proof.
  unfold sstf_dispatch. rewrite (queue_empty q nd e R). destruct (decide (waiting e = [])) as [El|Hne].
  { rewrite bool_decide_eq_true_2 by done. simpl. exists nd. split; [done|].
    unfold e_dispatch. rewrite El. split; [exact R|done]. }
  rewrite bool_decide_eq_false_2 by done. cbn [negb].
  assert (R1 := rep_queue _ _ _ R).
  rewrite (lprev_last_of _ _ _ R1), (lnext_first_of _ _ _ R1), choose_spec by done.
  unfold e_dispatch. destruct (waiting e) as [|x l] eqn:El; [done|]. rewrite <- El in *.
  destruct (e_choice _ _ _ _ _) as [front d]. unfold blk_rq_sectors, blk_rq_pos.
  destruct front.
  - rewrite El. destruct (dispatch_rings [] x l El) as (D1&D2&D3).
    eexists. split; [done|]. by split.
  - destruct (exists_last Hne) as (p&z&E). rewrite E, List.last_last, removelast_last.
    destruct (dispatch_rings p z [] E) as (D1&D2&D3). rewrite app_nil_r in D1, D3.
    eexists. split; [done|]. by split.
Qed.
End dispatch.

(** *** Runs *)
Section runs.
Variable rq_sectors : Z -> Z.

Lemma step_refines q nd e fuel o e' :
  represents q nd e -> op_ok q (queue nd) o e ->
  e_step rq_pos rq_sectors sector_bits (queue nd) o e = Some e' -> (length (waiting e) < fuel)%nat ->
  exists nd', sstf_step rq_pos rq_sectors fuel q o nd = Ret nd' /\ represents q nd' e' /\
    queue nd' = queue nd.
Proof.
  intros R Hok He Hf. destruct o as [rq|rq next|]; simpl in He |- *.
  - by apply (add_spec q nd e).
  - injection He as <-. eexists. split; [done|]. split; [by apply merge_spec|done].
  - injection He as <-. destruct (dispatch_spec rq_sectors q nd e R) as (nd'&->&R'&E). by exists nd'.
Qed.

Lemma add_loop_mono n n' h rq prev next x :
  add_loop rq_pos n h rq prev next = Ret x -> (n <= n')%nat ->
  add_loop rq_pos n' h rq prev next = Ret x.
Proof.
  revert n' prev next. induction n as [|n IH]; intros [|n'] prev next; simpl; intros E Hn; try done; [lia|].
  destruct (_ <=? _); [|done]. apply IH; [done|lia].
Qed.

Lemma sstf_add_mono rq nd : fuel_mono (fun fuel => sstf_add_request rq_pos fuel rq nd).
Proof.
  intros n n' x. unfold sstf_add_request. intros E Hn. destruct (negb _); [|done].
  destruct (add_loop rq_pos n _ _ _ _) as [p| |] eqn:P; [|done..].
  by rewrite (add_loop_mono _ _ _ _ _ _ _ P Hn).
Qed.

Lemma add_loop_cases n h rq prev next :
  add_loop rq_pos n h rq prev next = Fuel \/ exists p, add_loop rq_pos n h rq prev next = Ret p.
Proof.
  revert prev next. induction n as [|n IH]; intros prev next; simpl; [by left|].
  destruct (_ <=? _); [apply IH|right; by eexists].
Qed.

(** An operation runs out of fuel or returns the same as with more of it. *)
Lemma step_cases q o nd nd' n n' :
  sstf_step rq_pos rq_sectors n' q o nd = Ret nd' -> (n <= n')%nat ->
  sstf_step rq_pos rq_sectors n q o nd = Fuel \/ sstf_step rq_pos rq_sectors n q o nd = Ret nd'.
Proof.
  intros E Hn. destruct o as [rq|rq next|]; [|by right..]. simpl in *.
  assert (sstf_add_request rq_pos n rq nd = Fuel \/ exists x, sstf_add_request rq_pos n rq nd = Ret x) as [Ef|(x&Ex)].
  { unfold sstf_add_request. destruct (negb _); [|right; by eexists].
    destruct (add_loop_cases n (heap nd) rq (lprev (heap nd) (queue nd)) (lnext (heap nd) (queue nd))) as [->|(p&->)];
      [by left|right; by eexists]. }
  - by left.
  - right. rewrite Ex, <- E. symmetry. exact (sstf_add_mono rq nd n n' x Ex Hn).
Qed.

(** The requests of a sequence of operations are fresh when they are added and
    waiting when they are merged, up to an operation that does not return. *)
Fixpoint ops_ok (q hd : Z) (ops : list sstf_op) e : Prop :=
  match ops with
  | [] => True
  | o :: ops => op_ok q hd o e /\
      match e_step rq_pos rq_sectors sector_bits hd o e with
      | Some e' => ops_ok q hd ops e'
      | None => True
      end
  end.

Lemma waiting_step bits hd o e e' :
  e_step rq_pos rq_sectors bits hd o e = Some e' ->
  (length (waiting e') <= S (length (waiting e)))%nat.
Proof.
  destruct o as [rq|rq next|]; simpl.
  - unfold e_add. destruct (stuck _ _ _ _); [done|]. intros [= <-]. simpl. unfold insert_mirrored.
    rewrite length_app. simpl. rewrite length_take, length_drop. lia.
  - intros [= <-]. simpl. pose proof (length_filter (fun x => x ≠ next) (waiting e)). lia.
  - intros [= <-]. unfold e_dispatch. destruct (waiting e) as [|x l] eqn:E; [rewrite E; simpl; lia|].
    rewrite <- E. destruct (e_choice _ _ _ _ _) as [[] d]; simpl; rewrite E.
    + simpl. lia.
    + destruct (exists_last (l := x :: l)) as (p&z&El); [done|]. rewrite El, removelast_last, length_app. lia.
Qed.

(** A sequence of operations returns what the abstract operations compute, and it
    never returns when those get stuck. *)
Lemma run_refines q ops nd e :
  represents q nd e -> ops_ok q (queue nd) ops e ->
  match e_run rq_pos rq_sectors sector_bits (queue nd) ops e with
  | Some e' => forall fuel, (length (waiting e) + length ops < fuel)%nat ->
      exists nd', sstf_run rq_pos rq_sectors fuel q ops nd = Ret nd' /\ represents q nd' e' /\ queue nd' = queue nd
  | None => forall fuel, sstf_run rq_pos rq_sectors fuel q ops nd = Fuel
  end.
Proof.
  revert nd e. induction ops as [|o ops IH]; intros nd e R Hok; simpl in *; [by exists nd|].
  destruct Hok as [Ho Hok]. destruct (e_step _ _ _ _ o e) as [e1|] eqn:E1.
  - set (n := S (length (waiting e))).
    destruct (step_refines q nd e n o e1 R Ho E1) as (nd1&En&R1&Eq); [lia|].
    pose proof (waiting_step _ _ _ _ _ E1) as Hl. rewrite <- Eq in Hok. specialize (IH nd1 e1 R1 Hok).
    rewrite Eq in IH. destruct (e_run _ _ _ _ ops e1) as [e'|]; intros fuel.
    + intros Hf. destruct (step_refines q nd e fuel o e1 R Ho E1) as (nd2&E2&_); [lia|].
      destruct (step_cases q o nd nd2 n fuel E2) as [Ef|Er]; [lia|congruence|].
      rewrite E2. rewrite En in Er. injection Er as <-. apply IH. lia.
    + destruct (le_lt_dec fuel n) as [Hn|Hn].
      * destruct (step_cases q o nd nd1 fuel n En Hn) as [->| ->]; [done|apply IH].
      * destruct (step_refines q nd e fuel o e1 R Ho E1) as (nd2&E2&_); [lia|].
        destruct (step_cases q o nd nd2 n fuel E2) as [Ef|Er]; [lia|congruence|].
        rewrite E2. rewrite En in Er. injection Er as <-. apply IH.
  - intros fuel. destruct o as [rq|rq next|]; [|done..]. simpl in E1 |- *. unfold e_add in E1.
    destruct (stuck _ _ _ _) eqn:Es; [|done]. by rewrite (add_stuck q nd e R).
Qed.
End runs.
End refine.

(** ** Conservation *)
Section conservation.
Variables (rq_pos rq_sectors : Z -> Z) (bits hd : Z).

Definition added (ops : list sstf_op) : list Z :=
  flat_map (fun o => match o with Add rq => [rq] | _ => [] end) ops.
Definition merged (ops : list sstf_op) : list Z :=
  flat_map (fun o => match o with Merge _ next => [next] | _ => [] end) ops.

Lemma insert_mirrored_perm rq l : insert_mirrored rq_pos rq l ≡ₚ rq :: l.
Proof. unfold insert_mirrored. by rewrite <- Permutation_middle, take_drop. Qed.

Lemma filter_ne_perm (x : Z) l : NoDup l -> x ∈ l -> x :: filter (fun y => y ≠ x) l ≡ₚ l.
Proof.
  intros N Hx. apply list_elem_of_split in Hx as (l1&l2&->).
  rewrite <- Permutation_middle in N |- *. apply NoDup_cons in N as [Hn _].
  rewrite filter_cons, decide_False by tauto. by rewrite filter_ne.
Qed.

Lemma e_dispatch_perm e :
  waiting (e_dispatch rq_pos rq_sectors bits hd e) ++ dispatched (e_dispatch rq_pos rq_sectors bits hd e) ≡ₚ
    waiting e ++ dispatched e.
Proof.
  unfold e_dispatch. destruct (waiting e) as [|x l] eqn:E; [by rewrite E|]. rewrite <- E.
  destruct (e_choice _ _ _ _ _) as [[] d]; simpl; rewrite E.
  - simpl. solve_Permutation.
  - destruct (exists_last (l := x :: l)) as (p&z&->); [done|]. rewrite removelast_last, List.last_last.
    solve_Permutation.
Qed.

Lemma e_dispatch_nodup e : NoDup (waiting e) -> NoDup (waiting (e_dispatch rq_pos rq_sectors bits hd e)).
Proof.
  intros N. unfold e_dispatch. destruct (waiting e) as [|x l] eqn:E; [by rewrite E|]. rewrite <- E in *.
  destruct (e_choice _ _ _ _ _) as [[] d]; simpl; rewrite E in N |- *.
  - by apply NoDup_cons in N as [_ N].
  - destruct (exists_last (l := x :: l)) as (p&z&Ep); [done|]. rewrite Ep in N |- *.
    rewrite removelast_last. by apply NoDup_app in N as [N _].
Qed.

Lemma e_step_nodup q o e e1 :
  NoDup (waiting e) -> op_ok q hd o e -> e_step rq_pos rq_sectors bits hd o e = Some e1 ->
  NoDup (waiting e1).
Proof.
  intros N Ho. destruct o as [rq|rq next|]; simpl in *.
  - unfold e_add. destruct (stuck _ _ _ _); [done|]. intros [= <-]. cbn [waiting].
    rewrite insert_mirrored_perm. constructor; [set_solver|done].
  - intros [= <-]. by apply NoDup_filter.
  - intros [= <-]. by apply e_dispatch_nodup.
Qed.

Lemma e_run_perm (L : Type) (BL : BlockLayer L) q ops e e' :
  bits = sector_bits -> NoDup (waiting e) ->
  ops_ok rq_pos rq_sectors q hd ops e -> e_run rq_pos rq_sectors bits hd ops e = Some e' ->
  waiting e' ++ dispatched e' ++ merged ops ≡ₚ waiting e ++ dispatched e ++ added ops.
Proof.
  intros Hb. revert e. induction ops as [|o ops IH]; intros e N Hok He; simpl in *.
  { by injection He as ->. }
  rewrite Hb in *. destruct Hok as [Ho Hok]. destruct (e_step _ _ _ _ o e) as [e1|] eqn:E1; [|done].
  rewrite <- Hb in *.
  assert (NoDup (waiting e1)) as N1 by by eapply e_step_nodup.
  pose proof (IH e1 N1 Hok He) as P. clear IH Hok He.
  destruct o as [rq|rq next|]; simpl in E1, Ho |- *.
  - unfold e_add in E1. destruct (stuck _ _ _ _); [done|]. injection E1 as <-.
    rewrite P. cbn [waiting dispatched]. rewrite insert_mirrored_perm. solve_Permutation.
  - injection E1 as <-. rewrite <- (filter_ne_perm next (waiting e)) by done.
    rewrite <- (Permutation_middle (dispatched e')), <- Permutation_middle. by rewrite P.
  - injection E1 as <-. rewrite P, !app_assoc. by rewrite e_dispatch_perm.
Qed.
End conservation.
