(* ===== verification/SstfProps.v ===== *)
(** Properties of the sstf elevator (assignments/a2/sstf-iosched.c) and concrete
    instances of them. *)
From S2P Require Import Prelude ListHead Sstf SstfQueue.

Section SstfProps.
Context {L : Type} {LO : ListOps L} {LL : ListLaws L} {BL : BlockLayer L} {BLL : BlockLayerLaws L}.
Implicit Types (h : L) (nd : sstf_data L) (e : elevator).

(** Sstf_former_request and sstf_latter_request answer the neighbours of a
    waiting request in the queue, NULL at its ends. *)
Theorem sstf_neighbours_correct q nd e a rq b :
  represents q nd e -> waiting e = a ++ rq :: b ->
  sstf_former_request rq nd = List.last a NULL /\ sstf_latter_request rq nd = List.hd NULL b.
Proof.
  intros R E. assert (R1 := rep_queue _ _ _ R). rewrite E in R1. assert (N := ring_nodup _ _ R1).
  apply NoDup_cons in N as [N _]. unfold sstf_former_request, sstf_latter_request.
  rewrite (lprev_before _ _ _ _ _ R1), (lnext_after _ _ _ _ _ R1). split.
  - destruct (decide (a = [])) as [->|Ha]; [simpl; by rewrite Z.eqb_refl|].
    destruct (exists_last Ha) as (a'&z&->). rewrite !List.last_last.
    assert (z ≠ queue nd) by set_solver. by zdec.
  - destruct b as [|y b]; simpl; [by rewrite Z.eqb_refl|].
    assert (y ≠ queue nd) by set_solver. by zdec.
Qed.

(** Sstf_init_queue fails with -ENOMEM if the elevator queue or the data
    cannot be allocated, putting the elevator queue's kobject exactly if it was,
    and otherwise installs an elevator with nothing waiting, at sector 0, going
    forward. *)
Theorem sstf_init_queue_correct q eq ndp h disp :
  ring h (q :: disp) -> ndp ∉ q :: disp ->
  match sstf_init_queue eq ndp h with
  | (r, Some nd, puts) => eq ≠ NULL /\ ndp ≠ NULL /\ r = 0 /\ puts = [] /\ queue nd = ndp /\
      represents q nd (mk_elev [] DirF 0 disp)
  | (r, None, puts) => r = - ENOMEM /\ (eq = NULL /\ puts = [] \/ eq ≠ NULL /\ ndp = NULL /\ puts = [eq])
  end.
Proof.
  intros R Hn. unfold sstf_init_queue. destruct (Z.eqb_spec eq NULL); [by auto|].
  destruct (Z.eqb_spec ndp NULL); [by auto|]. do 5 (split; [done|]). split; simpl; try done.
  - apply ring_init.
  - by apply ring_init_frame.
  - intros x ->%list_elem_of_singleton. done.
Qed.
Variable rq_pos : Z -> Z.

(** C19: sstf_add_request puts the new request as many places before the end of
    the queue as there are leading requests whose position is not above its own,
    and keeps everything else; it never returns if every position it reads, that
    of the list head included, is not above the new one. *)
Theorem sstf_add_request_correct q nd e rq :
  represents q nd e -> op_ok q (queue nd) (Add rq) e ->
  let l := waiting e in
  let i := lead rq_pos (rq_pos rq) l in
  (l ≠ [] /\ i = length l /\ rq_pos (queue nd) <= rq_pos rq ->
     forall fuel, sstf_add_request rq_pos fuel rq nd = Fuel) /\
  (~ (l ≠ [] /\ i = length l /\ rq_pos (queue nd) <= rq_pos rq) ->
     exists nd', returns (fun fuel => sstf_add_request rq_pos fuel rq nd) nd' /\ queue nd' = queue nd /\
       represents q nd' (mk_elev (take (length l - i) l ++ rq :: drop (length l - i) l)
         (e_dir e) (e_sector e) (dispatched e))).
Proof.
  intros R Hok l i.
  assert (stuck rq_pos (queue nd) rq l = true <->
    l ≠ [] /\ i = length l /\ rq_pos (queue nd) <= rq_pos rq) as Hs.
  { unfold stuck. rewrite !andb_true_iff, negb_true_iff, bool_decide_eq_false, Nat.eqb_eq, Z.leb_le. tauto. }
  split; intros H.
  - apply Hs in H. intros fuel. by eapply add_stuck.
  - destruct (add_spec rq_pos q nd e R (S (length l)) rq
      (mk_elev (insert_mirrored rq_pos rq l) (e_dir e) (e_sector e) (dispatched e)) Hok) as (nd'&E&R'&Eq).
    + unfold e_add. fold l. destruct (stuck _ _ _ _); [tauto|done].
    + fold l. lia.
    + exists nd'. split; [|by split]. eapply returns_at; [apply sstf_add_mono|exact E].
Qed.

Variable rq_sectors : Z -> Z.

(** The handler sstf_dispatch answers 0 and changes nothing on an empty queue.
    Otherwise it answers 1, moves one end of the queue to the tail of the dispatch
    queue and records the sector behind it: the back when going backward and the
    back's position is not above the current sector, or when going forward and
    the front's is; the direction turns when the end changes. *)
Theorem sstf_dispatch_correct q nd e :
  represents q nd e ->
  exists nd', sstf_dispatch rq_pos rq_sectors q nd = (nd', if bool_decide (waiting e = []) then 0 else 1) /\
    represents q nd' (e_dispatch rq_pos rq_sectors sector_bits (queue nd) e) /\ queue nd' = queue nd.
Proof. apply dispatch_spec. Qed.

Lemma e_dispatch_length bits hd e :
  waiting e ≠ [] -> length (waiting e) = S (length (waiting (e_dispatch rq_pos rq_sectors bits hd e))).
Proof.
  intros Hne. unfold e_dispatch. destruct (waiting e) as [|x l] eqn:E; [done|]. rewrite <- E.
  destruct (e_choice _ _ _ _ _) as [[] d]; simpl; rewrite E; [done|].
  destruct (exists_last (l := x :: l)) as (p&z&->); [done|]. rewrite removelast_last, length_app. simpl. lia.
Qed.

Lemma drain_ok q hd n e : ops_ok rq_pos rq_sectors q hd (repeat Dispatch n) e.
Proof. revert e. induction n as [|n IH]; intros e; [done|]. split; [done|]. apply IH. Qed.

Lemma drain_run hd n e :
  (length (waiting e) <= n)%nat ->
  exists e', e_run rq_pos rq_sectors sector_bits hd (repeat Dispatch n) e = Some e' /\ waiting e' = [].
Proof.
  revert e. induction n as [|n IH]; intros e E; simpl.
  { exists e. split; [done|]. by destruct (waiting e); [|simpl in E; lia]. }
  apply IH. destruct (decide (waiting e = [])) as [Ew|Hne].
  - unfold e_dispatch. rewrite Ew. simpl. rewrite Ew. simpl. lia.
  - pose proof (e_dispatch_length sector_bits hd e Hne). lia.
Qed.

(** The waiting requests are distinct, as each is a node of the queue. *)
Lemma waiting_nodup q nd e : represents q nd e -> NoDup (waiting e).
Proof. intros R. pose proof (ring_nodup _ _ (rep_queue _ _ _ R)) as N. by apply NoDup_cons in N as [_ ?]. Qed.

(** A run, and what it does with the requests. *)
Definition run_outcome q ops nd e : Prop :=
  match e_run rq_pos rq_sectors sector_bits (queue nd) ops e with
  | Some e' =>
      (exists nd', sstf_run rq_pos rq_sectors (S (length (waiting e) + length ops)) q ops nd = Ret nd' /\
         represents q nd' e' /\ queue nd' = queue nd) /\
      waiting e' ++ dispatched e' ++ merged ops ≡ₚ waiting e ++ dispatched e ++ added ops
  | None => forall fuel, sstf_run rq_pos rq_sectors fuel q ops nd = Fuel
  end.

Lemma run_conserves q ops nd e :
  represents q nd e -> ops_ok rq_pos rq_sectors q (queue nd) ops e -> run_outcome q ops nd e.
Proof.
  intros R Hok. pose proof (run_refines rq_pos rq_sectors q ops nd e R Hok) as H. unfold run_outcome.
  destruct (e_run _ _ _ _ ops e) as [e'|] eqn:Ee; [|done]. split; [apply H; lia|].
  eapply (e_run_perm rq_pos rq_sectors sector_bits (queue nd)); [done|by eapply waiting_nodup|exact Hok|exact Ee].
Qed.

(** Dispatching at least as often as requests wait. *)
Lemma drain_all q nd e n :
  represents q nd e -> (length (waiting e) <= n)%nat ->
  exists nd' e', sstf_run rq_pos rq_sectors (S (n + n)) q (repeat Dispatch n) nd = Ret nd' /\
    represents q nd' e' /\ queue nd' = queue nd /\ waiting e' = [] /\ dispatched e' ≡ₚ waiting e ++ dispatched e.
Proof.
  intros R Hn. pose proof (drain_ok q (queue nd) n e) as Hok.
  pose proof (run_refines rq_pos rq_sectors q _ nd e R Hok) as H.
  destruct (drain_run (queue nd) n e Hn) as (e'&Ee&Hw). rewrite Ee in H.
  destruct (H (S (n + n))) as (nd'&E&R'&Eq); [rewrite repeat_length; lia|].
  exists nd', e'. do 4 (split; [done|]).
  pose proof (e_run_perm rq_pos rq_sectors sector_bits (queue nd) L BL q _ e e' eq_refl (waiting_nodup _ _ _ R) Hok Ee) as P.
  assert (merged (repeat Dispatch n) = [] /\ added (repeat Dispatch n) = []) as [E1 E2].
  { clear. induction n as [|n [IH1 IH2]]; by split. }
  by rewrite Hw, E1, E2, !app_nil_r in P.
Qed.

(** C18: the elevator refines an abstract one, whose state is the waiting requests
    in their order, the direction, the sector and the dispatched requests, and in
    which no request is lost or duplicated. A sequence of operations that adds fresh
    requests and merges waiting ones either returns, and then the state it leaves
    represents what the abstract operations compute, each dispatch taking the end of
    the queue that direction and position single out, and the waiting, dispatched and
    merged requests are those there before and the added ones; or it never returns,
    exactly when the abstract operations come to an insertion whose loop finds no
    position above the new one, that of the list head included. *)
Theorem sstf_conserves_requests q ops nd e :
  represents q nd e -> ops_ok rq_pos rq_sectors q (queue nd) ops e ->
  match e_run rq_pos rq_sectors sector_bits (queue nd) ops e with
  | Some e' =>
      (exists nd', sstf_run rq_pos rq_sectors (S (length (waiting e) + length ops)) q ops nd = Ret nd' /\
         represents q nd' e' /\ queue nd' = queue nd) /\
      waiting e' ++ dispatched e' ++ merged ops ≡ₚ waiting e ++ dispatched e ++ added ops
  | None => forall fuel, sstf_run rq_pos rq_sectors fuel q ops nd = Fuel
  end.
Proof. apply run_conserves. Qed.

(** C22: dispatching as often as there are waiting requests empties the queue,
    each of them having been dispatched exactly once; sstf_exit_queue's BUG_ON
    then does not fire, and it fires as long as a request is waiting. *)
Theorem sstf_drain_then_exit q nd e :
  represents q nd e ->
  let n := length (waiting e) in
  (exists nd' e', sstf_run rq_pos rq_sectors (S (n + n)) q (repeat Dispatch n) nd = Ret nd' /\
    represents q nd' e' /\ waiting e' = [] /\ dispatched e' ≡ₚ waiting e ++ dispatched e /\
    sstf_exit_queue nd' = Ret (queue nd)) /\
  (n <> O -> sstf_exit_queue nd = Bug).
Proof.
  intros R n. split.
  - destruct (drain_all q nd e n R ltac:(unfold n; lia)) as (nd'&e'&E&R'&Eq&Hw&P).
    exists nd', e'. do 4 (split; [done|]). unfold sstf_exit_queue. rewrite (queue_empty q nd' e' R'), Hw. simpl. by rewrite Eq.
  - intros Hn. unfold sstf_exit_queue. rewrite (queue_empty q nd e R), bool_decide_eq_false_2; [done|].
    intros E. apply Hn. unfold n. by rewrite E.
Qed.

End SstfProps.

(** ** A concrete block layer *)
Section concrete.
Context {L : Type} {LO : ListOps L} {LL : ListLaws L}.

(** list_add_tail(&rq->queuelist, &q->queue_head), with 32-bit sectors. *)
#[export] Instance tail_layer : BlockLayer L := {
  elv_dispatch_add_tail q rq h := list_add rq (lprev h q) h;
  sector_bits := 32;
}.

#[export] Instance tail_layer_laws : BlockLayerLaws L.
Proof.
  split; simpl.
  - intros h q l rq R _ Hn. rewrite (lprev_last_of _ _ _ R).
    pose proof (list_add_after h q rq (length l) l R Hn) as H. rewrite firstn_all in H.
    by rewrite drop_all in H.
  - intros h q l rq r R _ Rr D Hn. rewrite (lprev_last_of _ _ _ R).
    destruct (decide (l = [])) as [->|Hl]; [by eapply ring_add_frame|].
    destruct (exists_last Hl) as (p&z&->). rewrite List.last_last.
    apply (ring_rotate_app _ (q :: p) [z]) in R. eapply ring_add_frame; [exact R|done|done|].
    intros x H1 H2. apply (D x H1). set_solver.
Qed.
End concrete.
Import Links.

(** The elevator data is at address 1, the dispatch queue at 2; the request at
    address a > 2 is for one sector at position a. The memory behind the list
    head reads as position [sentinel]. *)
Definition demo_pos (sentinel rq : Z) : Z := if rq =? 1 then sentinel else rq.
Definition demo_sectors (rq : Z) : Z := 1.

Definition demo_heap (l : list Z) : links :=
  fold_left (fun h x => list_add x (lprev h 1) h) l
    (self_link 2 (self_link 1 (mk_links (fun _ => 0) (fun _ => 0)))).

Definition demo_nd (l : list Z) : sstf_data links := mk_sstf (demo_heap l) 1 DirF 0.

Lemma demo_represents : represents 2 (demo_nd [50; 20; 30]) (mk_elev [50; 20; 30] DirF 0 []).
Proof.
  split; try done.
  - split; [apply (bool_decide_unpack _)|]; by vm_compute.
  - split; [apply (bool_decide_unpack _)|]; by vm_compute.
  - intros x H1 H2. set_solver.
Qed.

(** Sstf_add_request is not an insertion sort and sstf_dispatch does not take
    the nearest request. Even if the list head reads as a position above all
    others, adding requests at 50, 20, 30 and 10 leaves the queue 50, 20, 30, 10,
    which is sorted in neither direction, and from sector 0 they are served in the
    order 10, 50, 20, 30, although 20 is the nearest to 11. *)
Theorem sstf_is_not_sorted_nor_nearest :
  exists nd1 nd2,
    sstf_run (demo_pos 1000) demo_sectors 9 2 [Add 50; Add 20; Add 30; Add 10] (demo_nd []) = Ret nd1 /\
    ring (heap nd1) [queue nd1; 50; 20; 30; 10] /\
    sstf_run (demo_pos 1000) demo_sectors 9 2 (repeat Dispatch 4) nd1 = Ret nd2 /\
    ring (heap nd2) [2; 10; 50; 20; 30].
Proof.
  eexists _, _. split; [reflexivity|]. split.
  { split; [apply (bool_decide_unpack _)|]; by vm_compute. }
  split; [reflexivity|]. split; [apply (bool_decide_unpack _)|]; by vm_compute.
Qed.

(** A request above all others, with a list head that reads as position 0, and
    one below all others. *)
Lemma sstf_add_request_correct_witness :
  (forall fuel, sstf_add_request (demo_pos 0) fuel 60 (demo_nd [50; 20; 30]) = Fuel) /\
  exists nd', returns (fun fuel => sstf_add_request (demo_pos 0) fuel 10 (demo_nd [50; 20; 30])) nd' /\
    represents 2 nd' (mk_elev [50; 20; 30; 10] DirF 0 []).
Proof.
  split.
  - apply (sstf_add_request_correct (demo_pos 0) 2 _ _ 60 demo_represents).
    + split; set_solver.
    + by vm_compute.
  - destruct (sstf_add_request_correct (demo_pos 0) 2 _ _ 10 demo_represents) as [_ H].
    + split; set_solver.
    + destruct H as (nd'&E&_&R); [by vm_compute; intros (_&?&_)|]. exists nd'. split; [exact E|exact R].
Defined.

Lemma sstf_dispatch_correct_witness :
  exists nd', sstf_dispatch (demo_pos 0) demo_sectors 2 (demo_nd [50; 20; 30]) = (nd', 1) /\
    represents 2 nd' (mk_elev [50; 20] DirB 31 [30]).
Proof.
  destruct (sstf_dispatch_correct (demo_pos 0) demo_sectors 2 _ _ demo_represents) as (nd'&E&R&_).
  exists nd'. split; [exact E|exact R].
Defined.

(** A run that returns, and one whose insertion never does: the list head
    reads as position 35 there. *)
Lemma sstf_conserves_requests_witness :
  (exists nd' e', sstf_run (demo_pos 1000) demo_sectors 8 2 [Add 40; Dispatch; Merge 40 20; Dispatch]
      (demo_nd [50; 20; 30]) = Ret nd' /\
    waiting e' ++ dispatched e' ++ [20] ≡ₚ [50; 20; 30; 40]) /\
  forall fuel, sstf_run (demo_pos 35) demo_sectors fuel 2 [Dispatch; Add 60; Dispatch] (demo_nd [50; 20; 30]) = Fuel.
Proof.
  split.
  - destruct (sstf_conserves_requests (demo_pos 1000) demo_sectors 2 [Add 40; Dispatch; Merge 40 20; Dispatch]
      _ _ demo_represents) as [(nd'&E&_) P].
    + vm_compute. set_solver.
    + eexists nd', _. split; [exact E|exact P].
  - apply (sstf_conserves_requests (demo_pos 35) demo_sectors 2 [Dispatch; Add 60; Dispatch] _ _ demo_represents).
    vm_compute. set_solver.
Defined.

Lemma sstf_drain_then_exit_witness :
  sstf_exit_queue (demo_nd [50; 20; 30]) = Bug /\
  exists nd', sstf_run (demo_pos 0) demo_sectors 7 2 (repeat Dispatch 3) (demo_nd [50; 20; 30]) = Ret nd' /\
    sstf_exit_queue nd' = Ret 1.
Proof.
  destruct (sstf_drain_then_exit (demo_pos 0) demo_sectors 2 _ _ demo_represents)
    as [(nd'&e'&E&_&_&_&X) B].
  split; [by apply B|]. exists nd'. split; [exact E|exact X].
Defined.

Lemma sstf_neighbours_correct_witness :
  sstf_former_request 50 (demo_nd [50; 20; 30]) = NULL /\
  sstf_latter_request 50 (demo_nd [50; 20; 30]) = 20.
Proof. exact (sstf_neighbours_correct 2 _ _ [] 50 [20; 30] demo_represents eq_refl). Defined.

Lemma sstf_init_queue_correct_witness :
  match sstf_init_queue 7 1 (self_link 2 (mk_links (fun _ => 0) (fun _ => 0))) with
  | (_, Some nd, _) => represents 2 nd (mk_elev [] DirF 0 [])
  | _ => False
  end.
Proof.
  apply (sstf_init_queue_correct 2 7 1 (self_link 2 (mk_links (fun _ => 0) (fun _ => 0))) []).
  - split; [apply NoDup_singleton|by vm_compute].
  - set_solver.
Defined.
