(* ===== verification/Ramdisk.v ===== *)
(** The encrypted RAM disk driver: assignments/a3/ramdisk.c, and the plain driver
    assignments/a3/sbd.c it was derived from (Module Sbd).

    Memory is a map from byte addresses to bytes. The crypto API and the block
    layer are interfaces: a cipher transforms blocks of bytes, a request queue
    hands out requests made of segments. *)
From S2P Require Import Prelude.

Abbreviation memory := (Z -> Z).

(** [n] bytes from address [a], and storing a list of bytes there. *)
Definition read_at (m : memory) (a n : Z) : list Z := (fun i => m (a + i)) <$> seqZ 0 n.

Fixpoint write_at (m : memory) (a : Z) (l : list Z) : memory :=
  match l with
  | [] => m
  | x :: l => write_at (<[a := x]> m) (a + 1) l
  end.

(** linux/crypto.h: single-block ciphers. crypto_cipher_encrypt_one(tfm, dst,
    src) reads and writes one block. *)
Class Crypto (C : Type) : Type := {
  crypto_cipher_setkey : C -> list Z -> Z -> Z * C;    (* 0 or -errno, the context *)
  crypto_cipher_blocksize : C -> Z;
  encrypt_block : C -> list Z -> list Z;
  decrypt_block : C -> list Z -> list Z;
}.

(** What the crypto API documents. [supported] is the set of key lengths of the
    algorithm. *)
Class CryptoLaws (C : Type) `{Crypto C} : Type := {
  supported : Z -> Prop;
  blocksize_pos c : 0 < crypto_cipher_blocksize c;
  setkey_blocksize c k n : crypto_cipher_blocksize (crypto_cipher_setkey c k n).2 = crypto_cipher_blocksize c;
  setkey_unsupported c k n : ~ supported n -> (crypto_cipher_setkey c k n).1 < 0 /\ (crypto_cipher_setkey c k n).2 = c;
  (* the context depends on the last key only *)
  setkey_twice c k n : (crypto_cipher_setkey (crypto_cipher_setkey c k n).2 k n).2 = (crypto_cipher_setkey c k n).2;
  encrypt_length c b : Z.of_nat (length b) = crypto_cipher_blocksize c -> length (encrypt_block c b) = length b;
  decrypt_length c b : Z.of_nat (length b) = crypto_cipher_blocksize c -> length (decrypt_block c b) = length b;
  decrypt_encrypt c b : Z.of_nat (length b) = crypto_cipher_blocksize c -> decrypt_block c (encrypt_block c b) = b;
}.

(** The request queue of the block layer, [Q], and its requests, [R]. A request
    has a current segment; ending it moves on to the next one. *)
Record segment : Type := mk_segment {
  seg_pos : Z;            (* blk_rq_pos *)
  seg_sectors : Z;        (* blk_rq_cur_sectors *)
  seg_buffer : Z;         (* req->buffer *)
  seg_write : bool;       (* rq_data_dir *)
}.

Class RequestQueue (Q R : Type) : Type := {
  blk_fetch_request : Q -> option R * Q;
  rq_type_fs : Q -> R -> bool;              (* req->cmd_type == REQ_TYPE_FS *)
  rq_segment : Q -> R -> segment;
  blk_end_request_cur : R -> Q -> bool * Q;
  blk_end_request_all : R -> Q -> Q;
}.

(** [waits q] is what blk_fetch_request will hand out, for each request whether it
    is a file system request and its segments; [current q r fs l] says that the
    segments [l] of the started request [r], of that type, remain. *)
Class RequestQueueLaws (Q R : Type) `{RequestQueue Q R} : Type := {
  waits : Q -> list (bool * list segment);
  current : Q -> R -> bool -> list segment -> Prop;
  fetch_none q : waits q = [] -> exists q', blk_fetch_request q = (None, q') /\ waits q' = [];
  fetch_some q fs l ls : waits q = (fs, l) :: ls -> exists r q',
    blk_fetch_request q = (Some r, q') /\ waits q' = ls /\ current q' r fs l;
  current_type q r fs l : current q r fs l -> rq_type_fs q r = fs;
  current_segment q r l : current q r true l -> exists s l', l = s :: l' /\ rq_segment q r = s;
  end_more q r s s' l : current q r true (s :: s' :: l) -> exists q',
    blk_end_request_cur r q = (true, q') /\ waits q' = waits q /\ current q' r true (s' :: l);
  end_last q r s : current q r true [s] -> exists q',
    blk_end_request_cur r q = (false, q') /\ waits q' = waits q;
}.

(** struct sbd_device; the lock and the gendisk leave no trace in transfers. *)
Record sbd_device : Type := mk_device { size : Z; data : Z }.

Definition KERNEL_SECTOR_SIZE : Z := 512.

Section Ramdisk.
Context {C : Type} {CR : Crypto C} {Q R : Type} {RQ : RequestQueue Q R}.
Variable ulong_bits : Z.                    (* width of unsigned long *)
Variable logical_block_size : Z.            (* module parameters *)
Variables (key : list Z) (key_len : Z).

(** for (i = 0; i < nbytes; i += blocksize): one block from [src + i] to
    [dst + i], through [f]. *)
Fixpoint crypt_loop (fuel : nat) (f : list Z -> list Z) (bs dst src nbytes i : Z) (m : memory) : res memory :=
  match fuel with
  | O => Fuel
  | S fuel =>
      if i <? nbytes
      then crypt_loop fuel f bs dst src nbytes (wrapu ulong_bits (i + bs))
             (write_at m (dst + i) (f (read_at m (src + i) bs)))
      else Ret m
  end.

Definition sbd_transfer (fuel : nat) (dev : sbd_device) (sector nsect buffer : Z) (write : bool)
    (c : C) (m : memory) : res (memory * C) :=
  let offset := wrapu ulong_bits (sector * logical_block_size) in
  let nbytes := wrapu ulong_bits (nsect * logical_block_size) in
  let loc := data dev + offset in
  let c := (crypto_cipher_setkey c key key_len).2 in
  let bs := crypto_cipher_blocksize c in
  if size dev <? wrapu ulong_bits (offset + nbytes) then Ret (m, c)
  else if write then
    m ← crypt_loop fuel (encrypt_block c) bs loc buffer nbytes 0 m; Ret (m, c)
  else
    m ← crypt_loop fuel (decrypt_block c) bs buffer loc nbytes 0 m; Ret (m, c).

Definition transfer_segment (fuel : nat) (dev : sbd_device) (s : segment) (c : C) (m : memory) :
    res (memory * C) :=
  sbd_transfer fuel dev (seg_pos s) (seg_sectors s) (seg_buffer s) (seg_write s) c m.

(** while (req != NULL). After a request that is not a file system request,
    "continue" keeps the same [req]. *)
Fixpoint request_loop (fuel : nat) (dev : sbd_device) (req : option R) (q : Q) (c : C) (m : memory) :
    res (Q * C * memory) :=
  match fuel with
  | O => Fuel
  | S fuel =>
      match req with
      | None => Ret (q, c, m)
      | Some r =>
          if negb (rq_type_fs q r) then request_loop fuel dev (Some r) (blk_end_request_all r q) c m
          else
            match transfer_segment fuel dev (rq_segment q r) c m with
            | Ret (m, c) =>
                let '(more, q) := blk_end_request_cur r q in
                if negb more then
                  let '(req, q) := blk_fetch_request q in request_loop fuel dev req q c m
                else request_loop fuel dev (Some r) q c m
            | Bug => Bug
            | Fuel => Fuel
            end
      end
  end.

Definition sbd_request (fuel : nat) (dev : sbd_device) (q : Q) (c : C) (m : memory) : res (Q * C * memory) :=
  let '(req, q) := blk_fetch_request q in request_loop fuel dev req q c m.

(** struct hd_geometry *)
Record hd_geometry : Type := mk_geometry { heads : Z; sectors : Z; cylinders : Z; start : Z }.

Definition sbd_getgeo (dev : sbd_device) : Z * hd_geometry :=
  let size := wraps ulong_bits (size dev * (logical_block_size / KERNEL_SECTOR_SIZE)) in
  (0, mk_geometry 4 16 (Z.shiftr (size .& Z.lnot 63) 6) 0).
End Ramdisk.

(** ** Loading and unloading the module *)

(** What the module can hold of the rest of the kernel. *)
Inductive resource : Type := Cipher | DataArea | RequestQ | Major (n : Z) | Disk.

#[export] Instance resource_eq_dec : EqDecision resource.
Proof. solve_decision. Defined.

(** What the allocation functions answer when they are called. *)
Record answers : Type := mk_answers {
  crypto_alloc_ok : bool;         (* otherwise crypto is an error pointer *)
  vmalloc : Z -> Z;               (* by size; NULL if there is no room *)
  blk_init_queue_ok : bool;
  register_blkdev : Z -> Z;       (* 0 or the new major number; -errno *)
  alloc_disk_ok : bool;
}.

Section init.
Variable a : answers.
Definition ENOMEM : Z := 12.

(** Device.size = nsectors * logical_block_size, an int, stored in an unsigned
    long; Device.data = vmalloc(Device.size). *)
Definition init_device (ulong_bits nsectors block_size : Z) : sbd_device :=
  let n := wrapu ulong_bits (wraps 32 (nsectors * block_size)) in mk_device n (vmalloc a n).

(** sbd_init: the return value, the major_num that is left behind, and what is
    held. What crypto_alloc_cipher answers is not looked at. The major number
    registered is the one asked for, or the answer if that is 0. *)
Definition sbd_init (dev : sbd_device) (major_num : Z) : Z * Z * list resource :=
  let got := if crypto_alloc_ok a then [Cipher] else [] in
  if data dev =? NULL then (- ENOMEM, major_num, got)
  else
    let got := DataArea :: got in
    let out got := filter (fun r => r ≠ DataArea) got in
    if negb (blk_init_queue_ok a) then (- ENOMEM, major_num, out got)
    else
      let got := RequestQ :: got in
      let r := register_blkdev a major_num in
      if r <? 0 then (- ENOMEM, r, out got)
      else
        let got := Major (if major_num =? 0 then r else major_num) :: got in
        if negb (alloc_disk_ok a)
        then (- ENOMEM, r, out (filter (fun x => x ≠ Major r) got))
        else (0, r, Disk :: got).

(** sbd_exit: what is still held afterwards, and what it gives back although it is
    not held. *)
Definition sbd_exit (major_num : Z) (got : list resource) : list resource * list resource :=
  let given := [Disk; Major major_num; RequestQ; DataArea; Cipher] in
  (filter (fun x => x ∉ given) got, filter (fun x => x ∉ got) given).
End init.

(** ** sbd.c *)
Module Sbd.

(** The older block layer sbd.c is written for: elv_next_request leaves the
    request at the head of the queue, end_request completes its current segment
    and removes the request after its last one. *)
Class OldQueue (Q R : Type) : Type := {
  elv_next_request : Q -> option R * Q;
  blk_fs_request : Q -> R -> bool;
  rq_fields : Q -> R -> segment;          (* sector, current_nr_sectors, buffer, rq_data_dir *)
  end_request : R -> bool -> Q -> Q;
}.

(** [pending q] are the requests: whether it is a file system request, its
    current segment and the ones that follow. [ended q] are the segments that were
    completed, with the success that was reported. *)
Definition pending_request : Type := (bool * segment * list segment)%type.

Definition pop_segment (ls : list pending_request) : list pending_request :=
  match ls with
  | [] => []
  | (fs, _, s :: l) :: ls => (fs, s, l) :: ls
  | (_, _, []) :: ls => ls
  end.

Class OldQueueLaws (Q R : Type) `{OldQueue Q R} : Type := {
  pending : Q -> list pending_request;
  ended : Q -> list (segment * bool);
  next_none q : pending q = [] -> exists q', elv_next_request q = (None, q') /\ pending q' = [] /\ ended q' = ended q;
  next_some q fs s l ls : pending q = (fs, s, l) :: ls -> exists r q',
    elv_next_request q = (Some r, q') /\ pending q' = pending q /\ ended q' = ended q /\
    blk_fs_request q' r = fs /\ (fs = true -> rq_fields q' r = s) /\
    forall ok, pending (end_request r ok q') = pop_segment (pending q) /\
               ended (end_request r ok q') = ended q ++ [(s, ok)];
}.

Section Sbd.
Variable ulong_bits : Z.
Variable hardsect_size : Z.

Definition memcpy (m : memory) (dst src n : Z) : memory := write_at m dst (read_at m src n).

Definition sbd_transfer (dev : sbd_device) (sector nsect buffer : Z) (write : bool) (m : memory) : memory :=
  let offset := wrapu ulong_bits (sector * hardsect_size) in
  let nbytes := wrapu ulong_bits (nsect * hardsect_size) in
  if size dev <? wrapu ulong_bits (offset + nbytes) then m
  else if write then memcpy m (data dev + offset) buffer nbytes
  else memcpy m buffer (data dev + offset) nbytes.

(** while ((req = elv_next_request(q)) != NULL) *)
Fixpoint sbd_request {Q R : Type} {OQ : OldQueue Q R} (fuel : nat) (dev : sbd_device) (q : Q) (m : memory) :
    res (Q * memory) :=
  match fuel with
  | O => Fuel
  | S fuel =>
      match elv_next_request q with
      | (None, q) => Ret (q, m)
      | (Some req, q) =>
          if negb (blk_fs_request q req) then sbd_request fuel dev (end_request req false q) m
          else
            let s := rq_fields q req in
            let m := sbd_transfer dev (seg_pos s) (seg_sectors s) (seg_buffer s) (seg_write s) m in
            sbd_request fuel dev (end_request req true q) m
      end
  end.

(** HDIO_GETGEO; other commands answer -ENOTTY. [copy_ok] says whether
    copy_to_user succeeds. *)
Definition HDIO_GETGEO : Z := 769.
Definition ENOTTY : Z := 25.
Definition EFAULT : Z := 14.

Definition sbd_ioctl (dev : sbd_device) (cmd : Z) (copy_ok : bool) : Z * option hd_geometry :=
  if cmd =? HDIO_GETGEO then
    let size := wraps ulong_bits (size dev * (hardsect_size / KERNEL_SECTOR_SIZE)) in
    let geo := mk_geometry 4 16 (Z.shiftr (size .& Z.lnot 63) 6) 4 in
    if copy_ok then (0, Some geo) else (- EFAULT, None)
  else (- ENOTTY, None).

(** sbd_init: no cipher, and register_blkdev must answer more than 0. *)
Definition sbd_init (a : answers) (dev : sbd_device) (major_num : Z) : Z * Z * list resource :=
  if data dev =? NULL then (- ENOMEM, major_num, [])
  else
    let out got := filter (fun r => r ≠ DataArea) got in
    if negb (blk_init_queue_ok a) then (- ENOMEM, major_num, out [DataArea])
    else
      let r := register_blkdev a major_num in
      let got := if r <? 0 then [RequestQ; DataArea]
                 else [Major (if major_num =? 0 then r else major_num); RequestQ; DataArea] in
      if r <=? 0 then (- ENOMEM, r, out got)
      else if negb (alloc_disk_ok a)
        then (- ENOMEM, r, out (filter (fun x => x ≠ Major r) got))
        else (0, r, Disk :: got).

(** sbd_exit: what is still held afterwards. *)
Definition sbd_exit (major_num : Z) (got : list resource) : list resource :=
  filter (fun x => x ∉ [Disk; Major major_num; RequestQ; DataArea]) got.
End Sbd.
End Sbd.
