(* ===== verification/RamdiskXfer.v ===== *)
(** Lemmas on the RAM disk's transfers: memory ranges and the block loop. *)
From S2P Require Import Prelude Ramdisk.

(** *** Memory ranges *)
Lemma read_at_length m a n : 0 <= n -> Z.of_nat (length (read_at m a n)) = n.
Proof. intros Hn. unfold read_at. rewrite length_fmap, length_seqZ. lia. Qed.

Lemma read_at_ext m m' a n :
  (forall i, 0 <= i < n -> m' (a + i) = m (a + i)) -> read_at m' a n = read_at m a n.
Proof.
  intros E. unfold read_at. apply list_fmap_ext. intros k i Hk.
  apply list_elem_of_lookup_2, elem_of_seqZ in Hk. by apply E.
Qed.

Lemma read_at_inj m m' a a' n :
  read_at m a n = read_at m' a' n -> forall i, 0 <= i < n -> m (a + i) = m' (a' + i).
Proof.
  unfold read_at. intros E i Hi.
  assert (seqZ 0 n !! Z.to_nat i = Some i) as Hk by (apply lookup_seqZ; lia).
  apply (f_equal (fun l => l !! Z.to_nat i)) in E. rewrite !list_lookup_fmap, Hk in E.
  by injection E.
Qed.

Lemma write_at_out m a l b : ~ (a <= b < a + Z.of_nat (length l)) -> write_at m a l b = m b.
Proof.
  revert m a. induction l as [|x l IH]; intros m a Hb; [done|]. cbn [length] in Hb. simpl.
  rewrite IH by lia. apply fn_lookup_insert_ne. lia.
Qed.

Lemma write_at_in m a l i x : l !! i = Some x -> write_at m a l (a + Z.of_nat i) = x.
Proof.
  revert m a i. induction l as [|y l IH]; intros m a [|i] Hi; try done; simpl in *.
  - injection Hi as ->. rewrite write_at_out by lia. rewrite Z.add_0_r. apply fn_lookup_insert.
  - rewrite <- (IH (<[a := y]> m) (a + 1) i Hi). f_equal. lia.
Qed.

Lemma read_write m a l n : Z.of_nat (length l) = n -> read_at (write_at m a l) a n = l.
Proof.
  intros Hn. apply list_eq. intros i. unfold read_at. rewrite list_lookup_fmap.
  destruct (decide (i < length l)%nat) as [Hi|Hi].
  - rewrite (proj2 (lookup_seqZ 0 n i (Z.of_nat i))) by lia. simpl.
    destruct (lookup_lt_is_Some_2 l i Hi) as [x Hx]. rewrite Hx. f_equal. by apply write_at_in.
  - rewrite (proj2 (lookup_ge_None l i)) by lia.
    rewrite (proj2 (lookup_ge_None (seqZ 0 n) i)); [done|]. rewrite length_seqZ. lia.
Qed.

(** Reading a range by blocks. *)
Definition same_blocks (f : list Z -> list Z) (bs : Z) (m m' : memory) (dst src k : Z) : Prop :=
  forall j, 0 <= j < k -> read_at m' (dst + j * bs) bs = f (read_at m (src + j * bs) bs).

Section loop.
Variables (W : Z) (f : list Z -> list Z) (bs dst src nbytes : Z).
Hypothesis HW : 0 <= W.
Hypothesis Hbs : 0 < bs.
Hypothesis Hf : forall b, Z.of_nat (length b) = bs -> Z.of_nat (length (f b)) = bs.
Hypothesis Hwrap : nbytes + bs <= 2 ^ W.

(** The number of blocks that are left at position [i]. *)
Lemma crypt_loop_spec (k : nat) i fuel m :
  0 <= i -> i + (Z.of_nat k - 1) * bs < nbytes <= i + Z.of_nat k * bs -> (k < fuel)%nat ->
  (dst + i + Z.of_nat k * bs <= src + i \/ src + i + Z.of_nat k * bs <= dst + i) ->
  exists m', crypt_loop W fuel f bs dst src nbytes i m = Ret m' /\
    same_blocks f bs m m' (dst + i) (src + i) (Z.of_nat k) /\
    (forall a, ~ (dst + i <= a < dst + i + Z.of_nat k * bs) -> m' a = m a).
Proof.
  revert i fuel m. induction k as [|k IH]; intros i [|fuel] m Hi Hn Hfu D; try lia.
  { exists m. simpl. zdec. split; [done|]. split; [intros j Hj; lia|done]. }
  cbn [crypt_loop]. assert (i < nbytes) by nia. zdec.
  set (l := f (read_at m (src + i) bs)).
  assert (Z.of_nat (length l) = bs) as Hl by (apply Hf, read_at_length; lia).
  rewrite wrapu_small by lia.
  destruct (IH (i + bs) fuel (write_at m (dst + i) l)) as (m'&->&HB&HO); [lia|nia|lia|nia|].
  exists m'. split; [done|]. split.
  - intros j Hj. destruct (decide (j = 0)) as [->|].
    + rewrite !Z.mul_0_l, !Z.add_0_r. transitivity (read_at (write_at m (dst + i) l) (dst + i) bs).
      * apply read_at_ext. intros j Hj'. apply HO. lia.
      * by apply read_write.
    + specialize (HB (j - 1) ltac:(lia)).
      replace (dst + (i + bs) + (j - 1) * bs) with (dst + i + j * bs) in HB by lia.
      replace (src + (i + bs) + (j - 1) * bs) with (src + i + j * bs) in HB by lia.
      rewrite HB. f_equal. apply read_at_ext. intros b Hb. apply write_at_out. nia.
  - intros a Ha. rewrite HO by nia. apply write_at_out. nia.
Qed.

(** The loop ends whatever the two ranges are, overlapping or not. *)
Lemma crypt_loop_ends fuel i m :
  0 <= i -> nbytes <= i + Z.of_nat fuel * bs ->
  exists m', crypt_loop W (S fuel) f bs dst src nbytes i m = Ret m'.
Proof.
  revert i m. induction fuel as [|fuel IH]; intros i m Hi Hn.
  { exists m. cbn [crypt_loop]. by zdec. }
  remember (S fuel) as n eqn:En. cbn [crypt_loop]. destruct (Z.ltb_spec i nbytes); [|by eexists].
  rewrite wrapu_small by lia. subst n. apply IH; [lia|nia].
Qed.

Lemma crypt_loop_whole (k : nat) fuel m :
  nbytes = Z.of_nat k * bs -> (k < fuel)%nat ->
  (dst + nbytes <= src \/ src + nbytes <= dst) ->
  exists m', crypt_loop W fuel f bs dst src nbytes 0 m = Ret m' /\
    same_blocks f bs m m' dst src (Z.of_nat k) /\
    (forall a, ~ (dst <= a < dst + nbytes) -> m' a = m a).
Proof.
  intros Hn Hfu D. destruct (crypt_loop_spec k 0 fuel m) as (m'&E&HB&HO); try lia.
  exists m'. rewrite !Z.add_0_r in *. split; [done|]. split; [done|].
  intros a Ha. apply HO. lia.
Qed.
End loop.

(** Blocks that are equal one by one are equal. *)
Lemma blocks_equal bs (k : nat) m m' a a' :
  0 < bs -> (forall j, 0 <= j < Z.of_nat k -> read_at m' (a' + j * bs) bs = read_at m (a + j * bs) bs) ->
  forall i, 0 <= i < Z.of_nat k * bs -> m' (a' + i) = m (a + i).
Proof.
  intros Hbs H i Hi. pose proof (Z.div_mod i bs). pose proof (Z.mod_pos_bound i bs).
  assert (0 <= i / bs < Z.of_nat k) as Hj.
  { split; [apply Z.div_pos; lia|apply Z.div_lt_upper_bound; lia]. }
  pose proof (read_at_inj _ _ _ _ _ (H _ Hj) (i mod bs) ltac:(lia)) as E.
  replace (a' + i / bs * bs + i mod bs) with (a' + i) in E by lia.
  by replace (a + i / bs * bs + i mod bs) with (a + i) in E by lia.
Qed.
