(* ===== verification/RamdiskProps.v ===== *)
(** Properties of the RAM disk drivers (assignments/a3/ramdisk.c and sbd.c) and
    concrete instances of them. *)
From S2P Require Import Prelude Ramdisk RamdiskXfer.

Section transfer.
Context {C : Type} {CR : Crypto C} {CL : CryptoLaws C}.
Variables (W lbs : Z) (key : list Z) (key_len : Z).
Implicit Types (c : C) (m : memory) (dev : sbd_device).

Definition keyed c : C := (crypto_cipher_setkey c key key_len).2.
Definition outside_of (a n : Z) (m m' : memory) : Prop := forall b, ~ (a <= b < a + n) -> m' b = m b.

(** [nsect] sectors from [sector] lie on the device, are [k] whole cipher blocks,
    and the buffer does not overlap the device. *)
Record transfer_ok dev (sector nsect buffer : Z) c (k : nat) : Prop := {
  ok_bits : 0 <= W;
  ok_sector : 0 <= sector * lbs;
  ok_count : nsect * lbs = Z.of_nat k * crypto_cipher_blocksize c;
  ok_end : sector * lbs + nsect * lbs <= size dev;
  ok_size : size dev + crypto_cipher_blocksize c <= 2 ^ W;
  ok_buffer : buffer + nsect * lbs <= data dev \/ data dev + size dev <= buffer;
}.

Lemma keyed_blocksize c : crypto_cipher_blocksize (keyed c) = crypto_cipher_blocksize c.
Proof. apply setkey_blocksize. Qed.

Lemma transfer_accepted dev sector nsect buffer c k :
  transfer_ok dev sector nsect buffer c k ->
  0 <= nsect * lbs /\
  wrapu W (sector * lbs) = sector * lbs /\ wrapu W (nsect * lbs) = nsect * lbs /\
  wrapu W (sector * lbs + nsect * lbs) = sector * lbs + nsect * lbs /\
  (size dev <? sector * lbs + nsect * lbs) = false.
Proof.
  intros [HW Hs Hc He Hz _]. pose proof (blocksize_pos c).
  assert (0 <= nsect * lbs) by nia. rewrite !wrapu_small by lia. do 4 (split; [done|]). zcase; [lia|done].
Qed.

Lemma transfer_spec fuel dev sector nsect buffer write c m k :
  transfer_ok dev sector nsect buffer c k -> (k < fuel)%nat ->
  let bs := crypto_cipher_blocksize c in
  let loc := data dev + sector * lbs in
  exists m', sbd_transfer W lbs key key_len fuel dev sector nsect buffer write c m = Ret (m', keyed c) /\
    if write
    then same_blocks (encrypt_block (keyed c)) bs m m' loc buffer (Z.of_nat k) /\
      outside_of loc (nsect * lbs) m m'
    else same_blocks (decrypt_block (keyed c)) bs m m' buffer loc (Z.of_nat k) /\
      outside_of buffer (nsect * lbs) m m'.
Proof.
  intros O Hf bs loc. assert (O' := O). destruct O' as [HW Hs Hc He Hz Hb].
  destruct (transfer_accepted _ _ _ _ _ _ O) as (Hn&E1&E2&E3&E4).
  pose proof (keyed_blocksize c) as Eb. assert (Hp := blocksize_pos c). fold bs in Hc, Hz, Eb, Hp.
  unfold sbd_transfer. fold (keyed c). rewrite E1, E2, E3, E4, Eb.
  destruct write.
  - destruct (crypt_loop_whole W (encrypt_block (keyed c)) bs loc buffer (nsect * lbs) HW Hp) with (k := k) (fuel := fuel) (m := m)
      as (m'&E&HB&HO); try done; try lia.
    { intros b Hl. by rewrite encrypt_length by by rewrite Eb. }
    exists m'. split; [|by split]. unfold loc in E. by rewrite E.
  - destruct (crypt_loop_whole W (decrypt_block (keyed c)) bs buffer loc (nsect * lbs) HW Hp) with (k := k) (fuel := fuel) (m := m)
      as (m'&E&HB&HO); try done; try lia.
    { intros b Hl. by rewrite decrypt_length by by rewrite Eb. }
    exists m'. split; [|by split]. unfold loc in E. by rewrite E.
Qed.

(** C24: an accepted transfer returns; a write stores the encryption of each block
    of the buffer in the corresponding block of the device, a read stores the
    decryption of each block of the device in the buffer, and no other byte
    changes. The range that is read or written is nsect * logical_block_size
    bytes, whatever KERNEL_SECTOR_SIZE is. *)
Theorem sbd_transfer_correct fuel dev sector nsect buffer write c m k :
  transfer_ok dev sector nsect buffer c k -> (k < fuel)%nat ->
  let bs := crypto_cipher_blocksize c in
  let loc := data dev + sector * lbs in
  exists m', sbd_transfer W lbs key key_len fuel dev sector nsect buffer write c m = Ret (m', keyed c) /\
    if write
    then same_blocks (encrypt_block (keyed c)) bs m m' loc buffer (Z.of_nat k) /\
      outside_of loc (nsect * lbs) m m'
    else same_blocks (decrypt_block (keyed c)) bs m m' buffer loc (Z.of_nat k) /\
      outside_of buffer (nsect * lbs) m m'.
Proof.
  exact (transfer_spec fuel dev sector nsect buffer write c m k).
Qed.

(** C23: what is written to the device is read back: writing a buffer to some
    sectors and reading them into another one copies the first buffer to the
    second, and leaves the first and the device range as the write left them. *)
Theorem sbd_write_read_roundtrip fuel dev sector nsect b1 b2 c m k :
  transfer_ok dev sector nsect b1 c k -> transfer_ok dev sector nsect b2 c k -> (k < fuel)%nat ->
  exists m1 m2,
    sbd_transfer W lbs key key_len fuel dev sector nsect b1 true c m = Ret (m1, keyed c) /\
    sbd_transfer W lbs key key_len fuel dev sector nsect b2 false (keyed c) m1 = Ret (m2, keyed c) /\
    (forall i, 0 <= i < nsect * lbs -> m2 (b2 + i) = m (b1 + i)) /\
    outside_of b2 (nsect * lbs) m1 m2 /\ outside_of (data dev + sector * lbs) (nsect * lbs) m m1.
Proof.
  intros O1 O2 Hf. destruct (transfer_spec fuel dev sector nsect b1 true c m k O1 Hf) as (m1&E1&B1&F1).
  assert (keyed (keyed c) = keyed c) as Ek by apply setkey_twice.
  pose proof (keyed_blocksize c) as Eb.
  assert (transfer_ok dev sector nsect b2 (keyed c) k) as O2'.
  { destruct O2. by split; rewrite ?Eb. }
  destruct (transfer_spec fuel dev sector nsect b2 false (keyed c) m1 k O2' Hf) as (m2&E2&B2&F2).
  rewrite Ek in E2, B2. rewrite Eb in B2. exists m1, m2. do 2 (split; [done|]). split; [|done].
  destruct O1 as [_ _ Hc _ _ _]. rewrite Hc. apply blocks_equal; [apply blocksize_pos|].
  intros j Hj. rewrite B2, B1 by done. rewrite decrypt_encrypt; [done|].
  rewrite Eb. apply read_at_length. pose proof (blocksize_pos c). lia.
Qed.

(** A transfer that reaches beyond the end of the device is rejected and
    changes no memory, as long as neither product nor the sum wraps around. *)
Theorem sbd_transfer_guard dev sector nsect buffer write c m :
  0 <= W -> 0 <= sector * lbs -> 0 <= nsect * lbs -> sector * lbs + nsect * lbs < 2 ^ W ->
  size dev < sector * lbs + nsect * lbs ->
  forall fuel, sbd_transfer W lbs key key_len fuel dev sector nsect buffer write c m = Ret (m, keyed c).
Proof.
  intros HW Hs Hn Hw Hsize fuel. unfold sbd_transfer.
  rewrite (wrapu_small W (sector * lbs)), (wrapu_small W (nsect * lbs)) by lia.
  rewrite wrapu_small by lia. by zdec.
Qed.

(** The key has no influence when the cipher does not support its length
    (AES has keys of 16, 24 and 32 bytes; key_len is 8): the error of
    crypto_cipher_setkey is not looked at, and every transfer is the same for all
    keys. *)
Theorem sbd_transfer_ignores_key key' fuel dev sector nsect buffer write c m :
  ~ supported key_len ->
  sbd_transfer W lbs key key_len fuel dev sector nsect buffer write c m =
  sbd_transfer W lbs key' key_len fuel dev sector nsect buffer write c m.
Proof.
  intros Hk. unfold sbd_transfer.
  by rewrite (proj2 (setkey_unsupported c key key_len Hk)), (proj2 (setkey_unsupported c key' key_len Hk)).
Qed.
End transfer.

(** The bounds check wraps around. With 32-bit longs and 512-byte blocks, a
    transfer of two sectors at sector 2^23 - 1 passes the check of a device of
    any size from 512 on, and its first sector is written beyond the end of the
    device, 2^32 - 512 bytes after its start. *)
Theorem sbd_transfer_wraps {C} {CR : Crypto C} {CL : CryptoLaws C} key key_len fuel dev buffer (c : C) m (k : nat) :
  512 <= size dev <= 2 ^ 31 -> 1024 = Z.of_nat k * crypto_cipher_blocksize c -> (k < fuel)%nat ->
  (buffer + 1024 <= data dev + (2 ^ 32 - 512) \/ data dev + 2 ^ 32 + 512 <= buffer) ->
  exists m', sbd_transfer 32 512 key key_len fuel dev (2 ^ 23 - 1) 2 buffer true c m = Ret (m', keyed key key_len c) /\
    same_blocks (encrypt_block (keyed key key_len c)) (crypto_cipher_blocksize c) m m'
      (data dev + (2 ^ 32 - 512)) buffer (Z.of_nat k).
Proof.
  intros Hs Hk Hf Hb. unfold sbd_transfer. fold (keyed key key_len c).
  change (wrapu 32 ((2 ^ 23 - 1) * 512)) with (2 ^ 32 - 512). change (wrapu 32 (2 * 512)) with 1024.
  change (wrapu 32 (2 ^ 32 - 512 + 1024)) with 512. zdec.
  pose proof (keyed_blocksize key key_len c) as Eb. rewrite Eb. pose proof (blocksize_pos c) as Hp.
  destruct (crypt_loop_whole 32 (encrypt_block (keyed key key_len c)) (crypto_cipher_blocksize c)
    (data dev + (2 ^ 32 - 512)) buffer 1024 ltac:(lia) Hp) with (k := k) (fuel := fuel) (m := m)
    as (m'&->&HB&_); try lia.
  - intros b Hl. by rewrite encrypt_length by by rewrite Eb.
  - assert (1 <= Z.of_nat k) by (destruct k; lia). nia.
  - exists m'. by split.
Qed.

(** ** Requests *)
Section requests.
Context {C : Type} {CR : Crypto C} {CL : CryptoLaws C} {Q R : Type} {RQ : RequestQueue Q R} {RL : RequestQueueLaws Q R}.
Variables (W lbs : Z) (key : list Z) (key_len : Z) (dev : sbd_device).
Implicit Types (l : list segment) (ls : list (list segment)) (c : C) (m : memory) (s : segment).

(** The transfers of a list of segments, one after the other. *)
Fixpoint transfers (fuel0 : nat) (l : list segment) (c : C) (m : memory) : res (memory * C) :=
  match l with
  | [] => Ret (m, c)
  | s :: l =>
      match transfer_segment W lbs key key_len fuel0 dev s c m with
      | Ret (m, c) => transfers fuel0 l c m
      | Bug => Bug
      | Fuel => Fuel
      end
  end.

(** The bytes of a segment can be counted in steps of a cipher block. *)
Definition countable c s : Prop :=
  wrapu W (seg_sectors s * lbs) + crypto_cipher_blocksize c <= 2 ^ W.

Lemma crypt_loop_mono n n' f bs dst src nbytes i m x :
  crypt_loop W n f bs dst src nbytes i m = Ret x -> (n <= n')%nat ->
  crypt_loop W n' f bs dst src nbytes i m = Ret x.
Proof.
  revert n' i m. induction n as [|n IH]; intros [|n'] i m; simpl; intros E Hn; try done; [lia|].
  destruct (_ <? _); [|done]. apply IH; [done|lia].
Qed.

Lemma crypt_loop_no_bug n f bs dst src nbytes i m : crypt_loop W n f bs dst src nbytes i m ≠ Bug.
Proof. revert i m. induction n as [|n IH]; intros i m; simpl; [done|]. destruct (_ <? _); [apply IH|done]. Qed.

Lemma transfer_mono n n' s (c : C) m x :
  transfer_segment W lbs key key_len n dev s c m = Ret x -> (n <= n')%nat ->
  transfer_segment W lbs key key_len n' dev s c m = Ret x.
Proof.
  unfold transfer_segment, sbd_transfer. intros E Hn. destruct (_ <? _); [done|].
  destruct (seg_write s);
    (destruct (crypt_loop W n _ _ _ _ _ _ _) as [m1| |] eqn:P; [|done..];
     by rewrite (crypt_loop_mono _ _ _ _ _ _ _ _ _ _ P Hn)).
Qed.

Lemma transfer_no_bug n s c m : transfer_segment W lbs key key_len n dev s c m ≠ Bug.
Proof.
  unfold transfer_segment, sbd_transfer. destruct (_ <? _); [done|].
  destruct (seg_write s); (destruct (crypt_loop W n _ _ _ _ _ _ _) eqn:E; [done| |done]);
    by apply crypt_loop_no_bug in E.
Qed.

Lemma transfers_mono l c m : fuel_mono (fun fuel => transfers fuel l c m).
Proof.
  intros n n' x. revert c m. induction l as [|s l IH]; intros c m; [done|]. cbn [transfers].
  destruct (transfer_segment W lbs key key_len n dev s c m) as [[m1 c1]| |] eqn:T; [|done..].
  intros E Hn. rewrite (transfer_mono _ n' _ _ _ _ T) by done. by apply IH.
Qed.

(** A transfer returns: the loop of an accepted one ends, a rejected one has none. *)
Lemma transfer_returns s c m :
  0 <= W -> countable c s ->
  exists n m1, transfer_segment W lbs key key_len n dev s c m = Ret (m1, keyed key key_len c).
Proof.
  intros HW Hs. unfold countable in Hs. unfold transfer_segment, sbd_transfer. fold (keyed key key_len c).
  set (nb := wrapu W (seg_sectors s * lbs)) in *. pose proof (keyed_blocksize key key_len c) as Eb.
  pose proof (blocksize_pos c) as Hp. destruct (_ <? _); [by exists O, m|]. rewrite Eb.
  exists (S (Z.to_nat nb)).
  destruct (seg_write s); [destruct (crypt_loop_ends W (encrypt_block (keyed key key_len c)) (crypto_cipher_blocksize c)
      (data dev + wrapu W (seg_pos s * lbs)) (seg_buffer s) nb HW Hp Hs (Z.to_nat nb) 0 m) as (m1&E)
    |destruct (crypt_loop_ends W (decrypt_block (keyed key key_len c)) (crypto_cipher_blocksize c)
      (seg_buffer s) (data dev + wrapu W (seg_pos s * lbs)) nb HW Hp Hs (Z.to_nat nb) 0 m) as (m1&E)];
    first [lia|nia|by exists m1; rewrite E].
Qed.

Lemma transfers_return l c m :
  0 <= W -> Forall (countable c) l -> exists n m' c', transfers n l c m = Ret (m', c').
Proof.
  intros HW. revert c m. induction l as [|s l IH]; intros c m F; [by exists O, m, c|].
  apply Forall_cons in F as [Hs F]. destruct (transfer_returns s c m HW Hs) as (n1&m1&E1).
  destruct (IH (keyed key key_len c) m1) as (n2&m2&c2&E2).
  { eapply Forall_impl; [exact F|]. intros s'. unfold countable. by rewrite keyed_blocksize. }
  exists (n1 `max` n2)%nat, m2, c2. cbn [transfers]. rewrite (transfer_mono _ (n1 `max` n2) _ _ _ _ E1) by lia.
  eapply transfers_mono; [exact E2|lia].
Qed.

Lemma transfers_app n l1 l2 c m m1 c1 :
  transfers n l1 c m = Ret (m1, c1) -> transfers n (l1 ++ l2) c m = transfers n l2 c1 m1.
Proof.
  revert c m. induction l1 as [|s l1 IH]; intros c m; simpl; [by intros [= -> ->]|].
  destruct (transfer_segment W lbs key key_len n dev s c m) as [[]| |]; [apply IH|done..].
Qed.

(** *** The loop of sbd_request *)

(** The segments of a started file system request are transferred, and then the
    loop is where a new call of sbd_request would be. *)
Lemma segments_served n l (q : Q) (r : R) c m m' c' :
  current q r true l -> transfers n l c m = Ret (m', c') ->
  exists k q', waits q' = waits q /\ forall fuel, (n <= fuel)%nat ->
    request_loop W lbs key key_len (k + fuel) dev (Some r) q c m = sbd_request W lbs key key_len fuel dev q' c' m'.
Proof.
  revert q c m. induction l as [|s l IH]; intros q c m Hcur Ht; destruct (current_segment q r _ Hcur) as (s1&l1&[= <- <-]&Hseg).
  pose proof (current_type q r _ _ Hcur) as Hfs. cbn [transfers] in Ht.
  destruct (transfer_segment W lbs key key_len n dev s c m) as [[m1 c1]| |] eqn:T; [|done..].
  destruct l as [|s' l].
  - destruct (end_last q r s Hcur) as (q1&E1&Hw). injection Ht as -> ->. exists 1%nat, q1. split; [done|].
    intros fuel Hf. simpl. rewrite Hfs, Hseg. simpl. rewrite (transfer_mono _ fuel _ _ _ _ T), E1 by lia. done.
  - destruct (end_more q r s s' l Hcur) as (q1&E1&Hw&Hc1). destruct (IH q1 c1 m1 Hc1 Ht) as (k&q'&Hw'&Hk).
    exists (S k), q'. split; [congruence|]. intros fuel Hf. simpl. rewrite Hfs, Hseg. simpl.
    rewrite (transfer_mono _ (k + fuel) _ _ _ _ T), E1 by lia. simpl. by apply Hk.
Qed.

Lemma requests_served n ls rest (q : Q) c m m' c' :
  waits q = (pair true <$> ls) ++ rest -> transfers n (concat ls) c m = Ret (m', c') ->
  exists k q', waits q' = rest /\ forall fuel, (n <= fuel)%nat ->
    sbd_request W lbs key key_len (k + fuel) dev q c m = sbd_request W lbs key key_len fuel dev q' c' m'.
Proof.
  revert q c m. induction ls as [|l ls IH]; intros q c m Hw Ht; simpl in Hw, Ht.
  { injection Ht as -> ->. by exists 0%nat, q. }
  destruct (fetch_some q true l _ Hw) as (r&q1&E1&Hw1&Hc1).
  assert (exists m1 c1, transfers n l c m = Ret (m1, c1)) as (m1&c1&T).
  { destruct (transfers n l c m) as [[m1 c1]| |] eqn:T; [by eauto|exfalso..].
    - clear -T. revert c m T. induction l as [|s l IH]; intros c m; simpl; [done|].
      destruct (transfer_segment W lbs key key_len n dev s c m) as [[]| |] eqn:E; [apply IH| |done].
      intros _. by apply transfer_no_bug in E.
    - clear -T Ht. revert c m T Ht. induction l as [|s l IH]; intros c m; simpl; [done|].
      destruct (transfer_segment W lbs key key_len n dev s c m) as [[]| |]; [apply IH|done..]. }
  rewrite (transfers_app _ _ _ _ _ _ _ T) in Ht.
  destruct (segments_served n l q1 r c m m1 c1 Hc1 T) as (k1&q2&Hw2&H1).
  destruct (IH q2 c1 m1) as (k2&q'&Hw'&H2); [by rewrite Hw2, Hw1|done|].
  exists (k1 + k2)%nat, q'. split; [done|]. intros fuel Hf. rewrite <- H2 by done.
  rewrite <- H1 by lia. rewrite <- Nat.add_assoc. unfold sbd_request at 1. by rewrite E1.
Qed.

Lemma request_loop_mono (req : option R) (q : Q) c m :
  fuel_mono (fun fuel => request_loop W lbs key key_len fuel dev req q c m).
Proof.
  intros n n' x. revert n' req q c m. induction n as [|n IH]; intros n' req q c m E Hn; [done|].
  destruct n' as [|n']; [lia|]. destruct req as [r|]; [|exact E]. cbn [request_loop] in E |- *.
  destruct (negb (rq_type_fs q r)); [apply IH; [exact E|lia]|].
  destruct (transfer_segment W lbs key key_len n dev (rq_segment q r) c m) as [[m1 c1]| |] eqn:T; [|done..].
  rewrite (transfer_mono _ n' _ _ _ _ T) by lia. destruct (blk_end_request_cur r q) as [more q1].
  destruct (negb more); [destruct (blk_fetch_request q1) as [req2 q2]|]; (apply IH; [exact E|lia]).
Qed.

Lemma request_loop_no_bug n (req : option R) (q : Q) c m : request_loop W lbs key key_len n dev req q c m ≠ Bug.
Proof.
  revert req q c m. induction n as [|n IH]; intros req q c m; [done|]. destruct req as [r|]; [|done].
  cbn [request_loop]. destruct (negb _); [apply IH|].
  destruct (transfer_segment W lbs key key_len n dev (rq_segment q r) c m) as [[m1 c1]| |] eqn:T; [| |done].
  - destruct (blk_end_request_cur r q) as [more q1].
    destruct (negb more); [destruct (blk_fetch_request q1)|]; apply IH.
  - by apply transfer_no_bug in T.
Qed.

Lemma request_mono (q : Q) c m : fuel_mono (fun fuel => sbd_request W lbs key key_len fuel dev q c m).
Proof.
  intros n n' x. unfold sbd_request. destruct (blk_fetch_request q) as [req q1].
  intros E Hn. by apply (request_loop_mono req q1 c m n n').
Qed.

Lemma request_no_bug n (q : Q) c m : sbd_request W lbs key key_len n dev q c m ≠ Bug.
Proof. unfold sbd_request. destruct (blk_fetch_request q). apply request_loop_no_bug. Qed.

(** File system requests only. *)
Lemma request_serves n ls (q : Q) c m m' c' :
  waits q = pair true <$> ls -> transfers n (concat ls) c m = Ret (m', c') ->
  exists q', returns (fun fuel => sbd_request W lbs key key_len fuel dev q c m) (q', c', m') /\ waits q' = [].
Proof.
  intros Hw Ht. destruct (requests_served n ls [] q c m m' c') as (k&q1&Hw1&H); [by rewrite app_nil_r|done|].
  destruct (fetch_none q1 Hw1) as (q'&E&Hw'). exists q'. split; [|done].
  eapply returns_at; [apply request_mono|]. rewrite (H (S n)) by lia. unfold sbd_request. by rewrite E.
Qed.

(** A request that is not a file system request makes sbd_request loop for
    ever: "continue" does not fetch the next request, so the same one is ended
    again and again (as long as ending it does not change its type). *)
Lemma request_loop_hangs (q : Q) (r : R) c m fuel :
  rq_type_fs q r = false ->
  (forall q, rq_type_fs q r = false -> rq_type_fs (blk_end_request_all r q) r = false) ->
  request_loop W lbs key key_len fuel dev (Some r) q c m = Fuel.
Proof.
  intros Hfs Hend. revert q Hfs. induction fuel as [|fuel IH]; intros q Hfs; [done|]. simpl. rewrite Hfs.
  simpl. by apply IH, Hend.
Qed.

(** C25: sbd_request transfers the segments of the waiting requests one after the
    other, and each of these transfers returns, whatever the segments are, as long as
    their bytes can be counted. If all of them belong to file system requests it
    returns with nothing left waiting and exactly the effect of these transfers.
    At the first request of another type, after the requests before it were served,
    it ends that request and goes on with the request it has just ended; it never
    returns if ending a request leaves its type as it is. *)
Theorem sbd_request_serves_all ls (q : Q) c m :
  0 <= W -> Forall (countable c) (concat ls) ->
  exists m' c', returns (fun fuel => transfers fuel (concat ls) c m) (m', c') /\
    (waits q = pair true <$> ls ->
       exists q', returns (fun fuel => sbd_request W lbs key key_len fuel dev q c m) (q', c', m') /\ waits q' = []) /\
    (forall l rest, waits q = (pair true <$> ls) ++ (false, l) :: rest ->
       exists r q' k n, waits q' = rest /\ rq_type_fs q' r = false /\
         (forall fuel, (n <= fuel)%nat -> sbd_request W lbs key key_len (k + S fuel) dev q c m =
            request_loop W lbs key key_len fuel dev (Some r) (blk_end_request_all r q') c' m') /\
         ((forall q, rq_type_fs q r = false -> rq_type_fs (blk_end_request_all r q) r = false) ->
            forall fuel, sbd_request W lbs key key_len fuel dev q c m = Fuel)).
Proof.
  intros HW F. destruct (transfers_return (concat ls) c m HW F) as (n&m'&c'&Ht). exists m', c'.
  split; [eapply returns_at; [apply transfers_mono|exact Ht]|].
  split; [intros Hw; by apply (request_serves n ls q c m)|]. intros l rest Hw.
  destruct (requests_served n ls _ q c m m' c' Hw Ht) as (k&q1&Hw1&H).
  destruct (fetch_some q1 _ _ _ Hw1) as (r&q'&E&Hw'&Hc). pose proof (current_type q' r _ _ Hc) as Hfs.
  assert (forall fuel, (n <= S fuel)%nat -> sbd_request W lbs key key_len (k + S fuel) dev q c m =
    request_loop W lbs key key_len (S fuel) dev (Some r) q' c' m') as H'.
  { intros fuel Hf. rewrite H by lia. unfold sbd_request. by rewrite E. }
  exists r, q', k, n. split; [done|]. split; [done|]. split.
  - intros fuel Hf. rewrite H' by lia. cbn [request_loop]. by rewrite Hfs.
  - intros Hend fuel. specialize (H' (n + fuel)%nat ltac:(lia)). rewrite (request_loop_hangs q' r) in H' by done.
    destruct (sbd_request W lbs key key_len fuel dev q c m) as [x| |] eqn:Er; [exfalso..|done].
    + pose proof (request_mono q c m fuel (k + S (n + fuel))%nat x Er ltac:(lia)) as E2. congruence.
    + by apply request_no_bug in Er.
Qed.
End requests.

(** ** Loading the module *)



(** ** The plain driver *)
Lemma memcpy_in m dst src n i : 0 <= i < n -> Sbd.memcpy m dst src n (dst + i) = m (src + i).
Proof.
  intros Hi. unfold Sbd.memcpy.
  replace i with (Z.of_nat (Z.to_nat i)) at 1 by lia. apply write_at_in. unfold read_at.
  rewrite list_lookup_fmap, (proj2 (lookup_seqZ 0 n (Z.to_nat i) i)) by lia. done.
Qed.

Lemma memcpy_out m dst src n b : 0 <= n -> ~ (dst <= b < dst + n) -> Sbd.memcpy m dst src n b = m b.
Proof. intros Hn Hb. apply write_at_out. by rewrite read_at_length. Qed.

Lemma copy_eq m m' dst src n :
  0 <= n -> (forall i, 0 <= i < n -> m' (dst + i) = m (src + i)) -> outside_of dst n m m' ->
  forall b, m' b = Sbd.memcpy m dst src n b.
Proof.
  intros Hn Hin Hout b. destruct (decide (dst <= b < dst + n)) as [Hb|Hb].
  - replace b with (dst + (b - dst)) by lia. rewrite Hin, memcpy_in; [done|lia..].
  - by rewrite memcpy_out, Hout.
Qed.

(** With a cipher that changes nothing, the encrypted driver transfers
    exactly what the plain driver of sbd.c, which copies with memcpy, does. *)
Theorem sbd_transfer_plain {C} {CR : Crypto C} {CL : CryptoLaws C} W lbs key key_len
    fuel dev sector nsect buffer write (c : C) m k :
  transfer_ok W lbs dev sector nsect buffer c k -> (k < fuel)%nat ->
  (forall b, encrypt_block (keyed key key_len c) b = b) ->
  (forall b, decrypt_block (keyed key key_len c) b = b) ->
  exists m', sbd_transfer W lbs key key_len fuel dev sector nsect buffer write c m = Ret (m', keyed key key_len c) /\
    forall b, m' b = Sbd.sbd_transfer W lbs dev sector nsect buffer write m b.
Proof.
  intros O Hf He Hd. destruct (transfer_accepted W lbs _ _ _ _ _ _ O) as (Hn&E1&E2&E3&E4).
  destruct (transfer_spec W lbs key key_len fuel dev sector nsect buffer write c m k O Hf) as (m'&E&HB).
  exists m'. split; [done|]. unfold Sbd.sbd_transfer. rewrite E1, E2, E3, E4.
  destruct O as [_ _ Hc _ _ _]. pose proof (blocksize_pos c) as Hp.
  destruct write; destruct HB as [HB HO]; (apply copy_eq; [done| |done]); rewrite Hc;
    (apply blocks_equal; [done|]; intros j Hj; rewrite HB by done; auto).
Qed.

(** ** Instances *)

(** A cipher on blocks of 16 bytes whose context is the first byte of the key. *)
#[export] Instance xor_cipher : Crypto Z := {
  crypto_cipher_setkey c k n := if (n =? 16) || (n =? 24) || (n =? 32) then (0, List.hd 0 k) else (-22, c);
  crypto_cipher_blocksize _ := 16;
  encrypt_block c b := Z.lxor c <$> b;
  decrypt_block c b := Z.lxor c <$> b;
}.

Lemma xor_twice c (b : list Z) : Z.lxor c <$> (Z.lxor c <$> b) = b.
Proof.
  rewrite <- list_fmap_compose. rewrite <- (list_fmap_id b) at 2. apply list_fmap_ext. intros i x _.
  simpl. by rewrite <- Z.lxor_assoc, Z.lxor_nilpotent, Z.lxor_0_l.
Qed.

#[export] Instance xor_laws : CryptoLaws Z.
Proof.
  unshelve esplit; [exact (fun n => n = 16 \/ n = 24 \/ n = 32)|..]; simpl.
  - done.
  - done.
  - intros c k n Hn. repeat zcase; simpl; try tauto. done.
  - intros c k n. by repeat zcase.
  - intros c b _. by rewrite length_fmap.
  - intros c b _. by rewrite length_fmap.
  - intros c b _. apply xor_twice.
Defined.

(** A request queue: the type and the remaining segments of the current request, and
    the requests that wait. Ending a request leaves its type as it is. *)
Definition demo_queue : Type := (bool * list segment) * list (bool * (segment * list segment)).

#[export] Instance demo_rq : RequestQueue demo_queue unit := {
  blk_fetch_request q := match q.2 with
    | [] => (None, q)
    | (fs, (s, l)) :: ls => (Some tt, ((fs, s :: l), ls))
    end;
  rq_type_fs q _ := q.1.1;
  rq_segment q _ := List.hd (mk_segment 0 0 0 false) q.1.2;
  blk_end_request_cur _ q := (negb (length (tail q.1.2) =? 0)%nat, ((q.1.1, tail q.1.2), q.2));
  blk_end_request_all _ q := ((q.1.1, []), q.2);
}.

#[export] Instance demo_rq_laws : RequestQueueLaws demo_queue unit.
Proof.
  unshelve esplit.
  - exact (fun q => (fun '(fs, (s, l)) => (fs, s :: l)) <$> q.2).
  - exact (fun q _ fs l => q.1 = (fs, l) /\ l ≠ []).
  - intros [cur ls] E. exists (cur, ls). simpl in *. by destruct ls.
  - intros [cur [|[fs' [s l]] ls]] fs l' ls' E; simpl in *; [done|]. injection E as <- <- <-.
    exists tt, ((fs', s :: l), ls). done.
  - intros [[fs' cur] ls] r fs l [E _]. simpl in *. by injection E.
  - intros [[fs' cur] ls] r l [E Hne]. simpl in *. injection E as -> ->. destruct l as [|s l]; [done|]. by exists s, l.
  - intros [[fs' cur] ls] r s s' l [E _]. simpl in *. injection E as -> ->. by eexists.
  - intros [[fs' cur] ls] r s [E _]. simpl in *. injection E as -> ->. by eexists.
Defined.

(** A device of 1024 sectors at address 10000000; buffers at 1000 and 5000. *)
Definition demo_dev : sbd_device := mk_device 524288 10000000.

Lemma demo_ok buffer : 0 <= buffer <= 5000 -> transfer_ok 32 512 demo_dev 7 2 buffer (0 : Z) 64.
Proof. intros Hb. split; simpl; lia. Qed.

Lemma sbd_transfer_correct_witness :
  exists m', sbd_transfer 32 512 [90] 16 65 demo_dev 7 2 1000 true (0 : Z) id = Ret (m', 90) /\
    read_at m' (10000000 + 3584) 16 = Z.lxor 90 <$> read_at id 1000 16.
Proof.
  destruct (sbd_transfer_correct 32 512 [90] 16 65 demo_dev 7 2 1000 true (0 : Z) id 64)
    as (m'&E&B&_); [apply demo_ok; lia|lia|].
  exists m'. split; [exact E|]. exact (B 0 ltac:(lia)).
Defined.

Lemma sbd_write_read_roundtrip_witness :
  exists m1 m2, sbd_transfer 32 512 [90] 16 65 demo_dev 7 2 1000 true (0 : Z) id = Ret (m1, 90) /\
    sbd_transfer 32 512 [90] 16 65 demo_dev 7 2 5000 false (90 : Z) m1 = Ret (m2, 90) /\
    m2 (5000 + 17) = 1000 + 17.
Proof.
  destruct (sbd_write_read_roundtrip 32 512 [90] 16 65 demo_dev 7 2 1000 5000 (0 : Z) id 64)
    as (m1&m2&E1&E2&H&_); [apply demo_ok; lia..|lia|].
  exists m1, m2. split; [exact E1|]. split; [exact E2|]. apply (H 17). lia.
Defined.

Lemma sbd_transfer_guard_witness :
  sbd_transfer 32 512 [90] 16 3 demo_dev 1023 2 1000 true (0 : Z) id = Ret (id, 90).
Proof.
  assert (H := sbd_transfer_guard 32 512 [90] 16 demo_dev 1023 2 1000 true (0 : Z) id).
  apply H; simpl; lia.
Defined.

(** A key of length 8, as in the module. *)
Lemma sbd_transfer_ignores_key_witness :
  sbd_transfer 32 512 [99; 115; 52; 52; 52; 104; 119; 51] 8 3 demo_dev 7 2 1000 true (0 : Z) id =
  sbd_transfer 32 512 [0; 0; 0; 0; 0; 0; 0; 0] 8 3 demo_dev 7 2 1000 true (0 : Z) id.
Proof. apply sbd_transfer_ignores_key. simpl. lia. Defined.

Lemma sbd_transfer_wraps_witness :
  exists m', sbd_transfer 32 512 [90] 16 65 demo_dev (2 ^ 23 - 1) 2 1000 true (0 : Z) id = Ret (m', 90) /\
    read_at m' (10000000 + (2 ^ 32 - 512)) 16 = Z.lxor 90 <$> read_at id 1000 16.
Proof.
  destruct (sbd_transfer_wraps [90] 16 65 demo_dev 1000 (0 : Z) id 64) as (m'&E&B);
    [simpl; lia|simpl; lia|lia|simpl; lia|].
  exists m'. split; [exact E|]. exact (B 0 ltac:(lia)).
Defined.

(** One request of two segments, one of a single segment; then a request of
    another type between them. *)
Definition demo_requests : demo_queue :=
  ((true, []), [(true, (mk_segment 0 1 1000 true, [mk_segment 1 1 2000 true])); (true, (mk_segment 0 1 5000 false, []))]).
Definition mixed_requests : demo_queue :=
  ((true, []), [(true, (mk_segment 0 1 1000 true, [mk_segment 1 1 2000 true])); (false, (mk_segment 0 0 0 true, []));
    (true, (mk_segment 0 1 5000 false, []))]).

Lemma sbd_request_serves_all_witness :
  (exists q' c' m', returns (fun fuel => sbd_request 32 512 [90] 16 fuel demo_dev demo_requests (0 : Z) id) (q', c', m') /\
    waits q' = []) /\
  forall fuel, sbd_request 32 512 [90] 16 fuel demo_dev mixed_requests (0 : Z) id = Fuel.
Proof.
  split.
  - destruct (sbd_request_serves_all 32 512 [90] 16 demo_dev
      [[mk_segment 0 1 1000 true; mk_segment 1 1 2000 true]; [mk_segment 0 1 5000 false]] demo_requests (0 : Z) id)
      as (m'&c'&_&H&_).
    + lia.
    + repeat constructor; unfold countable; by vm_compute.
    + destruct (H eq_refl) as (q'&E&Hw). exists q', c', m'. split; [exact E|exact Hw].
  - destruct (sbd_request_serves_all 32 512 [90] 16 demo_dev
      [[mk_segment 0 1 1000 true; mk_segment 1 1 2000 true]] mixed_requests (0 : Z) id) as (m'&c'&_&_&H).
    + lia.
    + repeat constructor; unfold countable; by vm_compute.
    + destruct (H [mk_segment 0 0 0 true] [(true, [mk_segment 0 1 5000 false])] eq_refl) as (r&q'&k&n&_&_&_&Hf).
      apply Hf. intros q. exact id.
Defined.

Lemma sbd_transfer_plain_witness :
  exists m', sbd_transfer 32 512 [0] 16 65 demo_dev 7 2 1000 true (0 : Z) id = Ret (m', 0) /\
    forall b, m' b = Sbd.sbd_transfer 32 512 demo_dev 7 2 1000 true id b.
Proof.
  destruct (sbd_transfer_plain 32 512 [0] 16 65 demo_dev 7 2 1000 true (0 : Z) id 64) as (m'&E&H).
  - apply demo_ok. lia.
  - lia.
  - intros b. simpl. rewrite <- (list_fmap_id b) at 2. by apply list_fmap_ext.
  - intros b. simpl. rewrite <- (list_fmap_id b) at 2. by apply list_fmap_ext.
  - exists m'. split; [exact E|exact H].
Defined.


