(* ===== verification/SbdProps.v ===== *)
(** The plain RAM disk driver, assignments/a3/sbd.c: what its request loop does
    with a queue of requests, and when the module can be loaded at all. *)
From S2P Require Import Prelude Ramdisk.
Import Sbd.

(** ** Requests *)
Section requests.
Context {Q R : Type} {OQ : OldQueue Q R} {OL : OldQueueLaws Q R}.
Variables (W hs : Z) (dev : sbd_device).

(** The transfer of one segment; the segments of a request, with the type of the
    request. *)
Definition serve (m : memory) (x : bool * segment) : memory :=
  let s := x.2 in
  if x.1 then Sbd.sbd_transfer W hs dev (seg_pos s) (seg_sectors s) (seg_buffer s) (seg_write s) m else m.

Definition segments_of (p : pending_request) : list (bool * segment) :=
  let '(fs, s, l) := p in pair fs <$> (s :: l).

Definition all_segments (ls : list pending_request) : list (bool * segment) := ls ≫= segments_of.

Lemma pop_segments fs s l ls :
  all_segments ((fs, s, l) :: ls) = (fs, s) :: all_segments (pop_segment ((fs, s, l) :: ls)).
Proof. by destruct l. Qed.

Lemma all_segments_nil ls : all_segments ls = [] -> ls = [].
Proof. by destruct ls as [|[[fs s] l] ls]. Qed.

(** C27: the plain driver's request loop returns whatever is queued. Every segment
    of a file system request is transferred, in order, the others have no effect
    on memory; every segment is ended once, as a success exactly if it belongs to a
    file system request (a transfer beyond the end of the device included), and
    nothing is left in the queue. *)
Theorem plain_request_serves_all fuel (q : Q) m :
  (length (all_segments (pending q)) < fuel)%nat ->
  exists q', Sbd.sbd_request W hs fuel dev q m = Ret (q', foldl serve m (all_segments (pending q))) /\
    pending q' = [] /\ ended q' = ended q ++ (prod_swap <$> all_segments (pending q)).
Proof.
  revert q m. induction fuel as [|fuel IH]; intros q m Hf; [lia|]. cbn [Sbd.sbd_request].
  destruct (pending q) as [|[[fs s] l] ls] eqn:E.
  - destruct (next_none q E) as (q'&->&Hp&He). exists q'. simpl. by rewrite app_nil_r.
  - destruct (next_some q fs s l ls E) as (r&q'&->&_&_&->&Hs&He).
    rewrite pop_segments in Hf |- *. cbn [length] in Hf. destruct (He fs) as [Ep Ee]. rewrite E in Ep.
    destruct (IH (end_request r fs q') (serve m (fs, s))) as (q2&E2&Hp2&He2); [rewrite Ep; exact (proj2 (Nat.succ_lt_mono _ _) Hf)|].
    exists q2. rewrite Ep in E2, He2. rewrite Ee, <- app_assoc in He2. split; [|by split].
    destruct fs; cbn [negb]; [rewrite Hs by done|]; exact E2.
Qed.
End requests.

(** ** Loading the module *)

(** Sbd.c can only be loaded with a dynamic major number. register_blkdev
    answers 0 to a requested number it registers, which sbd_init takes for a
    failure: it answers -ENOMEM although the number is now registered, and keeps
    it and the request queue. With a dynamic number, a successful sbd_init holds
    four things and sbd_exit gives all of them back. *)
Theorem plain_init_needs_dynamic_major a dev major_num :
  data dev ≠ NULL -> blk_init_queue_ok a = true ->
  (major_num ≠ 0 -> register_blkdev a major_num = 0 ->
     Sbd.sbd_init a dev major_num = (- ENOMEM, 0, [Major major_num; RequestQ])) /\
  (0 < register_blkdev a 0 -> alloc_disk_ok a = true ->
     exists major' got, Sbd.sbd_init a dev 0 = (0, major', got) /\ Major major' ∈ got /\ length got = 4%nat /\
       Sbd.sbd_exit major' got = []).
Proof.
  intros Hd Hq. unfold Sbd.sbd_init. rewrite (proj2 (Z.eqb_neq _ _) Hd), Hq. cbn [negb]. split.
  - intros Hm ->. cbn [Z.ltb Z.leb Z.compare]. rewrite (proj2 (Z.eqb_neq _ _) Hm).
    do 2 (rewrite filter_cons_True by done). by rewrite filter_cons_False by tauto.
  - intros Hr ->. rewrite (proj2 (Z.leb_gt _ _) Hr), (proj2 (Z.ltb_ge _ _) (Z.lt_le_incl _ _ Hr)).
    cbn [negb]. rewrite Z.eqb_refl. eexists _, _. split; [done|]. split; [set_solver|]. split; [done|].
    unfold Sbd.sbd_exit. repeat (rewrite filter_cons_False; [|set_solver]). done.
Qed.

(** ** Instances *)

(** A queue of requests, and the list of the completed segments. *)
Definition plain_queue : Type := list pending_request * list (segment * bool).

#[export] Instance plain_oq : OldQueue plain_queue unit := {
  elv_next_request q := match q.1 with [] => (None, q) | _ => (Some tt, q) end;
  blk_fs_request q _ := match q.1 with (fs, _, _) :: _ => fs | [] => false end;
  rq_fields q _ := match q.1 with (_, s, _) :: _ => s | [] => mk_segment 0 0 0 false end;
  end_request _ ok q := match q.1 with
    | (_, s, _) :: _ => (pop_segment q.1, q.2 ++ [(s, ok)])
    | [] => q
    end;
}.

#[export] Instance plain_laws : OldQueueLaws plain_queue unit.
Proof.
  unshelve esplit; [exact fst|exact snd|..].
  - intros [ls e] E. simpl in E. subst ls. by exists ([], e).
  - intros [ls e] fs s l ls' E. simpl in E. subst ls. by exists tt, ((fs, s, l) :: ls', e).
Defined.

Definition plain_dev : sbd_device := mk_device 1024 10000000.

(** A write of one sector, a request of another type, and a read beyond the end. *)
Definition plain_requests : plain_queue :=
  ([(true, mk_segment 1 1 1000 true, []); (false, mk_segment 0 1 1000 true, []);
    (true, mk_segment 2 1 5000 false, [])], []).

Lemma plain_request_serves_all_witness :
  exists q m, Sbd.sbd_request 32 512 4 plain_dev plain_requests id = Ret (q, m) /\
    m 10000512 = 1000 /\ m 5000 = 5000 /\ q.2.*2 = [true; false; true].
Proof.
  destruct (plain_request_serves_all 32 512 plain_dev 4 plain_requests id) as (q&E&_&He); [exact (le_n 4)|].
  eexists q, _. split; [exact E|]. split; [by vm_compute|]. split; [by vm_compute|].
  change (ended q) with q.2 in He. rewrite He. reflexivity.
Defined.

Definition plain_answers : answers := mk_answers true (fun _ => 10000000) true (fun n => if n =? 0 then 252 else 0) true.

Lemma plain_init_needs_dynamic_major_witness :
  Sbd.sbd_init plain_answers plain_dev 7 = (- ENOMEM, 0, [Major 7; RequestQ]).
Proof.
  exact (proj1 (plain_init_needs_dynamic_major plain_answers plain_dev 7 ltac:(done) eq_refl) ltac:(done) eq_refl).
Defined.
