(* ===== verification/BlockStack.v ===== *)
(** The elevator of assignments/a2 on top of the RAM disk of assignments/a3, the
    way the block layer puts them together: requests are added to the elevator, it
    moves them to the dispatch queue in an order of its own, and sbd_request fetches
    them from there. *)
From S2P Require Import Prelude ListHead Sstf SstfQueue SstfProps Ramdisk RamdiskXfer RamdiskProps.

(** ** Writes to different sectors *)

(** A symmetric relation between any two elements does not depend on the order. *)
Lemma pairs_perm {A} (R : A -> A -> Prop) l l' :
  (forall x y, R x y -> R y x) -> l ≡ₚ l' -> ForallOrdPairs R l -> ForallOrdPairs R l'.
Proof.
  intros Sym E. induction E as [|x l l' E IH|x y l|l1 l2 l3 _ IH1 _ IH2]; intros F; [done|..].
  - inversion F as [|? ? Fx Fl]; subst. constructor; [by rewrite <- E|by apply IH].
  - inversion F as [|? ? Fy Fl]; subst. inversion Fl as [|? ? Fx Fr]; subst. inversion Fy; subst.
    constructor; [constructor; [by apply Sym|done]|by constructor].
  - by apply IH2, IH1.
Qed.

Section writes.
Context {C : Type} {CR : Crypto C} {CL : CryptoLaws C}.
Variables (W lbs : Z) (key : list Z) (key_len : Z) (dev : sbd_device).
Hypothesis Hlbs : 0 <= lbs.
Implicit Types (c : C) (m : memory) (s : segment) (l : list segment).

Notation keyed := (keyed key key_len).

(** A write of whole cipher blocks to sectors of the device, from a buffer outside
    of it, of at most [n] blocks. *)
Definition write_ok c (n : nat) s : Prop :=
  seg_write s = true /\ exists k, (k < n)%nat /\
    transfer_ok W lbs dev (seg_pos s) (seg_sectors s) (seg_buffer s) c k.

(** Different sectors. *)
Definition apart s s' : Prop :=
  seg_pos s + seg_sectors s <= seg_pos s' \/ seg_pos s' + seg_sectors s' <= seg_pos s.

Definition in_segment s (a : Z) : Prop :=
  data dev + seg_pos s * lbs <= a < data dev + (seg_pos s + seg_sectors s) * lbs.

(** The sectors of [s] hold the encryption of what was in its buffer. *)
Definition stored c m m' s : Prop :=
  let bs := crypto_cipher_blocksize c in
  same_blocks (encrypt_block (keyed c)) bs m m' (data dev + seg_pos s * lbs) (seg_buffer s)
    (seg_sectors s * lbs / bs).

Lemma apart_sym s s' : apart s s' -> apart s' s.
Proof. unfold apart. tauto. Qed.

Lemma apart_bytes s s' a : apart s s' -> in_segment s a -> in_segment s' a -> False.
Proof. unfold apart, in_segment. intros [H|H] H1 H2; nia. Qed.

Lemma write_ok_keyed c n s : write_ok c n s -> write_ok (keyed c) n s.
Proof.
  intros (Hw&k&Hk&O). split; [done|]. exists k. split; [done|].
  destruct O. by split; rewrite ?keyed_blocksize.
Qed.

Lemma keyed_twice c : keyed (keyed c) = keyed c.
Proof. apply setkey_twice. Qed.

Lemma stored_keyed c m m' s : stored (keyed c) m m' s <-> stored c m m' s.
Proof. unfold stored. by rewrite keyed_twice, keyed_blocksize. Qed.

(** One write. *)
Lemma write_one n c m s :
  write_ok c n s ->
  exists m1, transfer_segment W lbs key key_len n dev s c m = Ret (m1, keyed c) /\
    stored c m m1 s /\ forall a, ~ in_segment s a -> m1 a = m a.
Proof.
  intros (Hw&k&Hk&O). destruct (transfer_spec W lbs key key_len n dev _ _ _ true c m k O Hk) as (m1&E&B&F).
  exists m1. unfold transfer_segment. rewrite Hw. split; [exact E|]. destruct O as [_ _ Hc _ _ _].
  pose proof (blocksize_pos c). split.
  - unfold stored. rewrite Hc, Z.div_mul by lia. exact B.
  - intros a Ha. apply F. unfold in_segment in Ha. lia.
Qed.

(** Where a write finds its data, no other write stores. *)
Lemma buffer_outside c n s s' i :
  write_ok c n s -> write_ok c n s' -> 0 <= i < seg_sectors s' * lbs -> ~ in_segment s (seg_buffer s' + i).
Proof.
  intros (_&k&_&[_ P _ E _ _]) (_&k'&_&[_ _ _ _ _ B]) Hi Ha. unfold in_segment in Ha. lia.
Qed.

(** What is stored stays the same if its bytes and its buffer do. *)
Lemma stored_ext c n m m1 m2 s m' :
  write_ok c n s -> (forall a, in_segment s a -> m' a = m2 a) ->
  (forall i, 0 <= i < seg_sectors s * lbs -> m1 (seg_buffer s + i) = m (seg_buffer s + i)) ->
  stored c m1 m2 s -> stored c m m' s.
Proof.
  intros (_&k&_&[_ _ Hc _ _ _]) H1 H2 S j Hj. pose proof (blocksize_pos c) as Hp.
  rewrite Hc, Z.div_mul in Hj by lia. assert (j * crypto_cipher_blocksize c + crypto_cipher_blocksize c <= seg_sectors s * lbs) by nia.
  assert (0 <= j * crypto_cipher_blocksize c) by nia.
  transitivity (read_at m2 (data dev + seg_pos s * lbs + j * crypto_cipher_blocksize c) (crypto_cipher_blocksize c)).
  { apply read_at_ext. intros i Hi. apply H1. unfold in_segment. lia. }
  rewrite (S j) by (rewrite Hc, Z.div_mul by lia; done). f_equal. apply read_at_ext. intros i Hi.
  rewrite <- Z.add_assoc. apply H2. lia.
Qed.

(** Writes to different sectors, in any order. *)
Lemma transfers_writes n l c m :
  Forall (write_ok c n) l -> ForallOrdPairs apart l ->
  exists m' c', transfers W lbs key key_len dev n l c m = Ret (m', c') /\ keyed c' = keyed c /\
    Forall (stored c m m') l /\ forall a, Forall (fun s => ~ in_segment s a) l -> m' a = m a.
Proof.
  revert c m. induction l as [|s l IH]; intros c m F P; [by exists m, c|].
  apply Forall_cons in F as [Hs F]. inversion P as [|? ? Ps Pl]; subst. simpl.
  destruct (write_one n c m s Hs) as (m1&->&S1&O1).
  destruct (IH (keyed c) m1) as (m'&c'&->&Ec&Sl&Ol); [|done|].
  { eapply Forall_impl; [exact F|]. intros s'. apply write_ok_keyed. }
  exists m', c'. split; [done|]. split; [by rewrite Ec, keyed_twice|]. rewrite Forall_forall in F, Ps, Sl.
  split; [constructor|].
  - apply (stored_ext c n m m m1); [done| |done|done]. intros a Ha. apply Ol, Forall_forall. intros s' Hs' Ha'.
    by eapply apart_bytes; [apply (Ps s')|..].
  - apply Forall_forall. intros s' Hs'. apply (stored_ext c n m m1 m'); [by apply F|done| |].
    + intros i Hi. apply O1. eapply (buffer_outside c n s s'); [done|by apply F|done].
    + by apply stored_keyed, Sl.
  - intros a Ha. apply Forall_cons in Ha as [Ha1 Ha2]. by rewrite Ol, O1.
Qed.

(** What was stored is read back. *)
Lemma read_back n c c' m m' s b :
  keyed c' = keyed c -> crypto_cipher_blocksize c' = crypto_cipher_blocksize c ->
  write_ok c n s -> stored c m m' s ->
  b + seg_sectors s * lbs <= data dev \/ data dev + size dev <= b ->
  exists m2, sbd_transfer W lbs key key_len n dev (seg_pos s) (seg_sectors s) b false c' m' = Ret (m2, keyed c) /\
    forall i, 0 <= i < seg_sectors s * lbs -> m2 (b + i) = m (seg_buffer s + i).
Proof.
  intros Ek Eb (_&k&Hk&[H1 H2 Hc H4 H5 H6]) S Hb.
  assert (transfer_ok W lbs dev (seg_pos s) (seg_sectors s) b c' k) as O by (split; by rewrite ?Eb).
  destruct (transfer_spec W lbs key key_len n dev _ _ _ false c' m' k O Hk) as (m2&E&B&_).
  rewrite Ek in E, B. rewrite Eb in B. exists m2. split; [exact E|]. pose proof (blocksize_pos c).
  rewrite Hc. apply blocks_equal; [done|]. intros j Hj. rewrite B by done.
  unfold stored in S. rewrite Hc, Z.div_mul in S by lia. rewrite S by done.
  rewrite decrypt_encrypt; [done|]. rewrite keyed_blocksize. apply read_at_length. lia.
Qed.
End writes.

(** ** The stack *)
Section stack.
Context {L : Type} {LO : ListOps L} {LL : ListLaws L} {BL : BlockLayer L} {BLL : BlockLayerLaws L}.
Context {C : Type} {CR : Crypto C} {CL : CryptoLaws C} {Q R : Type} {RQ : RequestQueue Q R} {RL : RequestQueueLaws Q R}.
Variables (rq_pos rq_sectors : Z -> Z).
Variables (W lbs : Z) (key : list Z) (key_len : Z) (dev : sbd_device).

(** The elevator drains: what was added, but for what was merged, is dispatched. *)
Lemma drain_added q nd e ops e1 :
  represents q nd e -> waiting e = [] -> dispatched e = [] -> ops_ok rq_pos rq_sectors q (queue nd) ops e ->
  e_run rq_pos rq_sectors sector_bits (queue nd) ops e = Some e1 ->
  let n := length (added ops) in
  exists nd1 nd2 e2, sstf_run rq_pos rq_sectors (S (length ops)) q ops nd = Ret nd1 /\
    sstf_run rq_pos rq_sectors (S (n + n)) q (repeat Dispatch n) nd1 = Ret nd2 /\
    represents q nd2 e2 /\ waiting e2 = [] /\ dispatched e2 ++ merged ops ≡ₚ added ops.
Proof.
  intros Rp Ew Ed Hok Ee n. pose proof (run_conserves rq_pos rq_sectors q ops nd e Rp Hok) as H.
  unfold run_outcome in H. rewrite Ee in H. destruct H as [(nd1&E1&R1&_) P1].
  rewrite Ew in E1, P1. rewrite Ed in P1. simpl in E1, P1.
  assert (length (waiting e1) <= n)%nat as Hn.
  { apply Permutation_length in P1. rewrite !length_app in P1. unfold n. lia. }
  destruct (drain_all rq_pos rq_sectors q nd1 e1 n R1 Hn) as (nd2&e2&E2&R2&_&Hw&P2).
  exists nd1, nd2, e2. do 4 (split; [done|]). rewrite P2, <- (assoc (++)). exact P1.
Qed.

Lemma concat_bind {A B} (f : A -> list B) (l : list A) : concat (f <$> l) = l ≫= f.
Proof. induction l as [|x l IH]; [done|]. rewrite fmap_cons, bind_cons, <- IH. done. Qed.

(** C26: what is written through the elevator and the driver can be read back,
    whatever order the elevator chose, unless the elevator is stuck in an
    insertion for ever. Requests, all of them file system requests, are added to an
    idle elevator, in between it dispatches and merges requests; then the rest is
    dispatched. If the requests that were not merged away, [live], write different
    sectors from buffers outside of the device, [segs] being the segments of a
    request with those of the requests merged into it, then the loop of sbd_request,
    which fetches them in the order in which they were dispatched, serves all of
    them: afterwards reading the sectors of any of them returns what was in its
    buffer, and no memory outside of these sectors has changed. *)
Theorem elevator_then_driver q nd e ops live segs (c : C) m n :
  represents q nd e -> waiting e = [] -> dispatched e = [] -> ops_ok rq_pos rq_sectors q (queue nd) ops e ->
  0 <= lbs -> live ++ merged ops ≡ₚ added ops ->
  Forall (write_ok W lbs dev c n) (live ≫= segs) -> ForallOrdPairs apart (live ≫= segs) ->
  let k := length (added ops) in
  match e_run rq_pos rq_sectors sector_bits (queue nd) ops e with
  | None => forall fuel, sstf_run rq_pos rq_sectors fuel q ops nd = Fuel
  | Some _ =>
  exists nd1 nd2 e2, sstf_run rq_pos rq_sectors (S (length ops)) q ops nd = Ret nd1 /\
    sstf_run rq_pos rq_sectors (S (k + k)) q (repeat Dispatch k) nd1 = Ret nd2 /\
    represents q nd2 e2 /\ dispatched e2 ≡ₚ live /\
    forall dq : Q, waits dq = (fun rq => (true, segs rq)) <$> dispatched e2 ->
    exists dq' c' m', returns (fun fuel => sbd_request W lbs key key_len fuel dev dq c m) (dq', c', m') /\
      waits dq' = [] /\
      (forall s b, s ∈ live ≫= segs -> b + seg_sectors s * lbs <= data dev \/ data dev + size dev <= b ->
        exists m2, sbd_transfer W lbs key key_len n dev (seg_pos s) (seg_sectors s) b false c' m' =
            Ret (m2, keyed key key_len c) /\
          forall i, 0 <= i < seg_sectors s * lbs -> m2 (b + i) = m (seg_buffer s + i)) /\
      (forall a, Forall (fun s => ~ in_segment lbs dev s a) (live ≫= segs) -> m' a = m a)
  end.
Proof.
  intros Rp Ew Ed Hok Hlbs El F P k. destruct (e_run _ _ _ _ ops e) as [e1|] eqn:Ee.
  2:{ pose proof (run_conserves rq_pos rq_sectors q ops nd e Rp Hok) as H. unfold run_outcome in H. by rewrite Ee in H. }
  destruct (drain_added q nd e ops e1 Rp Ew Ed Hok Ee) as (nd1&nd2&e2&E1&E2&R2&_&Pd).
  rewrite <- El in Pd. apply Permutation_app_inv_r in Pd.
  exists nd1, nd2, e2. do 4 (split; [done|]). intros dq Hw.
  assert (live ≫= segs ≡ₚ dispatched e2 ≫= segs) as Ps by by rewrite Pd.
  assert (Forall (write_ok W lbs dev c n) (dispatched e2 ≫= segs)) as F' by by rewrite <- Ps.
  apply (pairs_perm _ _ _ apart_sym Ps) in P.
  destruct (transfers_writes W lbs key key_len dev Hlbs n _ c m F' P) as (m'&c'&Et&Ec&St&Out).
  destruct (request_serves W lbs key key_len dev n (segs <$> dispatched e2) dq c m m' c') as (dq'&Er&Hw').
  { by rewrite Hw, <- list_fmap_compose. }
  { by rewrite concat_bind. }
  exists dq', c', m'. split; [exact Er|]. split; [done|]. split.
  - intros s b Hin Hb. rewrite Ps in Hin. rewrite Forall_forall in F', St. apply (read_back W lbs key key_len dev n c c' m m' s b);
      [done| |by apply F'|by apply St|done].
    by rewrite <- (keyed_blocksize key key_len c'), Ec, keyed_blocksize.
  - intros a Ha. apply Out. by rewrite <- Ps.
Qed.
End stack.

(** ** An instance *)
Import Links.

(** Requests for one sector each, at the sector that names them, from buffers of
    512 bytes each; the elevator serves them in the order 50, 10, 30, 20. *)
Definition one_sector (rq : Z) : list segment := [mk_segment rq 1 (1000 + 512 * rq) true].

Definition demo_ops : list sstf_op := [Add 50; Add 20; Dispatch; Add 30; Add 10].

Lemma idle_represents : represents 2 (demo_nd []) (mk_elev [] DirF 0 []).
Proof.
  split; try done.
  - split; [apply (bool_decide_unpack _)|]; by vm_compute.
  - split; [apply (bool_decide_unpack _)|]; by vm_compute.
  - intros x H1 H2. set_solver.
Qed.

Lemma one_sector_ok rq : 0 <= rq < 1024 -> write_ok 32 512 demo_dev (0 : Z) 33 (mk_segment rq 1 (1000 + 512 * rq) true).
Proof.
  intros Hrq. split; [done|]. exists 32%nat. split; [lia|].
  split; simpl; unfold demo_dev; simpl; lia.
Qed.

Definition driver_queue (l : list Z) : demo_queue :=
  ((true, []), (fun rq => (true, (mk_segment rq 1 (1000 + 512 * rq) true, []))) <$> l).

Lemma driver_queue_waits l : waits (driver_queue l) = (fun rq => (true, one_sector rq)) <$> l.
Proof. unfold driver_queue. simpl. rewrite <- list_fmap_compose. done. Qed.

(** Whatever the order [l] is, sector 30 is read back into a buffer at 400. *)
Lemma elevator_then_driver_witness :
  exists nd1 nd2 l dq' c' m' m2, l ≡ₚ [50; 20; 30; 10] /\
    sstf_run (demo_pos 1000) demo_sectors 6 2 demo_ops (demo_nd []) = Ret nd1 /\
    sstf_run (demo_pos 1000) demo_sectors 9 2 (repeat Dispatch 4) nd1 = Ret nd2 /\
    returns (fun fuel => sbd_request 32 512 [90] 16 fuel demo_dev (driver_queue l) (0 : Z) id) (dq', c', m') /\
    sbd_transfer 32 512 [90] 16 33 demo_dev 30 1 400 false c' m' = Ret (m2, 90) /\ m2 407 = 16367.
Proof.
  destruct (elevator_then_driver (Q := demo_queue) (demo_pos 1000) demo_sectors 32 512 [90] 16 demo_dev 2 _ _ demo_ops
    [50; 20; 30; 10] one_sector (0 : Z) id 33 idle_represents eq_refl eq_refl) as (nd1&nd2&e2&E1&E2&_&P&H).
  - vm_compute. set_solver.
  - done.
  - simpl. solve_Permutation.
  - repeat (constructor; [apply one_sector_ok; lia|]). constructor.
  - simpl. repeat constructor; unfold apart; simpl; lia.
  - destruct (H (driver_queue (dispatched e2)) (driver_queue_waits _)) as (dq'&c'&m'&R&_&Hr&_).
    destruct (Hr (mk_segment 30 1 (1000 + 512 * 30) true) 400) as (m2&T&V).
    { do 2 right. by left. }
    { left. simpl. lia. }
    exists nd1, nd2, (dispatched e2), dq', c', m', m2.
    split; [exact P|]. split; [exact E1|]. split; [exact E2|]. split; [exact R|]. split; [exact T|].
    assert (0 <= 7 < seg_sectors (mk_segment 30 1 (1000 + 512 * 30) true) * 512) as H7 by (simpl; lia).
    exact (V 7 H7).
Defined.
