(* ===== verification/Threads.v ===== *)
(** Interleaved threads: a program is a function that executes the next action of
    thread [k], or answers None if that thread is blocked or done. *)
From S2P Require Import Prelude.

(** Semaphores (sem_wait blocks while the value is 0). *)
Definition sem_wait (v : Z) : option Z := if 0 <? v then Some (v - 1) else None.
Definition sem_post (v : Z) : Z := v + 1.

Lemma sem_wait_Some v v' : sem_wait v = Some v' -> 0 < v /\ v' = v - 1.
Proof. unfold sem_wait. zcase; [|done]. by intros [= <-]. Qed.

Section Threads.
Context {A S : Type} (exec : A -> S -> option S).

Definition tstep (s s' : S) : Prop := exists k, exec k s = Some s'.

(** No thread can act. *)
Definition halted (s : S) : Prop := forall k, exec k s = None.

Lemma reach_inv (I : S -> Prop) s0 s :
  (forall k s s', I s -> exec k s = Some s' -> I s') -> I s0 -> rtc tstep s0 s -> I s.
Proof. intros HI H0 R. induction R as [|s1 s2 s3 [k E] _ IH]; [done|]. apply IH. by eapply HI. Qed.

(** A run of a given schedule. *)
Fixpoint exec_all (ks : list A) (s : S) : option S :=
  match ks with
  | [] => Some s
  | k :: ks => match exec k s with Some s => exec_all ks s | None => None end
  end.

Lemma exec_all_nsteps ks s s' : exec_all ks s = Some s' -> nsteps tstep (length ks) s s'.
Proof.
  revert s. induction ks as [|k ks IH]; intros s; simpl; [intros [= ->]; constructor|].
  destruct (exec k s) as [s1|] eqn:E; [|done]. intros H. eapply nsteps_l; [by exists k|by apply IH].
Qed.

Lemma exec_all_reach ks s s' : exec_all ks s = Some s' -> rtc tstep s s'.
Proof. intros E. by eapply rtc_nsteps_2, exec_all_nsteps. Qed.

(** The run of a schedule exists and ends in a state that satisfies [P]. *)
Definition ends_in (ks : list A) (s : S) (P : S -> bool) : bool :=
  match exec_all ks s with Some s => P s | None => false end.

Lemma ends_in_spec ks s P : ends_in ks s P = true -> exists s', exec_all ks s = Some s' /\ P s' = true.
Proof. unfold ends_in. destruct (exec_all ks s) as [s'|]; [|done]. eauto. Qed.

(** If every action decreases a natural number, runs are finite, and from every
    state of the invariant all of them lead to a halted state. *)
Section measure.
Variables (I : S -> Prop) (mu : S -> nat).
Hypothesis HI : forall k s s', I s -> exec k s = Some s' -> I s'.
Hypothesis Hmu : forall k s s', I s -> exec k s = Some s' -> (mu s' < mu s)%nat.

Lemma run_bound s n s' : I s -> nsteps tstep n s s' -> (n + mu s' <= mu s)%nat.
Proof.
  intros Hs R. induction R as [|n s1 s2 s3 [k E] _ IH]; [lia|].
  pose proof (Hmu _ _ _ Hs E). specialize (IH (HI _ _ _ Hs E)). lia.
Qed.
End measure.
End Threads.
