(* ===== verification/Philosopher.v ===== *)
(** The dining philosophers of recitations/philosopher.c: four (in general, [n])
    threads, a fork semaphore each, and a lock that lets all but one sit down. *)
From S2P Require Import Prelude Threads.

(** Where a philosopher is in the loop body of phil: before sem_wait(lock),
    before each fork, eating (before the first sem_post), before the second and
    third sem_post, and after pthread_exit. *)
Inductive pc : Type := WaitLock | WaitLeft | WaitRight | Eating | PostRight | PostLock | Exited.

Record phil : Type := mk_phil { at_pc : pc; rounds : nat (* the loop variable i *) }.

Record table : Type := mk_table { lock : Z; forks : nat -> Z; phils : nat -> phil }.

Section Philosopher.
Variable num_phil : nat.

(** (self.pos + 1) % self.count *)
Definition right (k : nat) : nat := ((k + 1) mod num_phil)%nat.

Definition goto (p : pc) (k : nat) (s : table) : table :=
  mk_table (lock s) (forks s) (<[k := mk_phil p (rounds (phils s k))]> (phils s)).
Definition set_lock (v : Z) (s : table) : table := mk_table v (forks s) (phils s).
Definition set_fork (i : nat) (v : Z) (s : table) : table := mk_table (lock s) (<[i := v]> (forks s)) (phils s).

(** The head of the loop: for (i = 0; i < 3; i++). *)
Definition loop_head (k i : nat) (s : table) : table :=
  mk_table (lock s) (forks s) (<[k := mk_phil (if (i <? 3)%nat then WaitLock else Exited) i]> (phils s)).

Definition wait_fork (i : nat) (s : table) : option table :=
  match sem_wait (forks s i) with Some v => Some (set_fork i v s) | None => None end.
Definition post_fork (i : nat) (s : table) : table := set_fork i (sem_post (forks s i)) s.

(** The next action of philosopher [k]. *)
Definition phil_step (k : nat) (s : table) : option table :=
  if (k <? num_phil)%nat then
    match at_pc (phils s k) with
    | WaitLock =>
        match sem_wait (lock s) with Some v => Some (goto WaitLeft k (set_lock v s)) | None => None end
    | WaitLeft => match wait_fork k s with Some s => Some (goto WaitRight k s) | None => None end
    | WaitRight => match wait_fork (right k) s with Some s => Some (goto Eating k s) | None => None end
    | Eating => Some (goto PostRight k (post_fork k s))
    | PostRight => Some (goto PostLock k (post_fork (right k) s))
    | PostLock => Some (loop_head k (S (rounds (phils s k))) (set_lock (sem_post (lock s)) s))
    | Exited => None
    end
  else None.

(** init and run: forks at 1, the lock at num_phil - 1, all threads at the loop. *)
Definition init : table :=
  mk_table (Z.of_nat num_phil - 1) (fun _ => 1) (fun _ => mk_phil WaitLock 0).

(** *** The invariant *)
Definition b2z (b : bool) : Z := if b then 1 else 0.
Definition seated (t : phil) : Z := match at_pc t with WaitLock | Exited => 0 | _ => 1 end.
Definition has_left (t : phil) : Z := match at_pc t with WaitRight | Eating => 1 | _ => 0 end.
Definition has_right (t : phil) : Z := match at_pc t with Eating | PostRight => 1 | _ => 0 end.

Definition seats (s : table) : Z := sumZ (fun k => seated (phils s k)) (seq 0 num_phil).

Record inv (s : table) : Prop := {
  inv_lock : 0 <= lock s;
  inv_seats : lock s + seats s = Z.of_nat num_phil - 1;
  inv_forks k : (k < num_phil)%nat ->
    0 <= forks s (right k) /\
    forks s (right k) = 1 - has_left (phils s (right k)) - has_right (phils s k);
  inv_rounds k : (at_pc (phils s k) = Exited <-> rounds (phils s k) = 3%nat) /\ (rounds (phils s k) <= 3)%nat;
}.

Hypothesis two : (2 <= num_phil)%nat.

Lemma right_lt k : (right k < num_phil)%nat.
Proof. apply Nat.mod_upper_bound. lia. Qed.

Lemma right_cases k : (k < num_phil)%nat -> right k = S k /\ (S k < num_phil)%nat \/ right k = O /\ S k = num_phil.
Proof.
  intros Hk. unfold right. destruct (decide (S k = num_phil)) as [E|E].
  - right. split; [|done]. replace (k + 1)%nat with num_phil by lia. apply Nat.Div0.mod_same.
  - left. split; [|lia]. rewrite Nat.mod_small; lia.
Qed.

Lemma right_ne k : (k < num_phil)%nat -> right k ≠ k.
Proof. intros Hk. destruct (right_cases k Hk); lia. Qed.

Lemma right_inj j k : (j < num_phil)%nat -> (k < num_phil)%nat -> right j = right k -> j = k.
Proof. intros Hj Hk. destruct (right_cases j Hj), (right_cases k Hk); lia. Qed.

Lemma right_onto i : (i < num_phil)%nat -> exists j, (j < num_phil)%nat /\ right j = i.
Proof.
  intros Hi. destruct i as [|i].
  - exists (num_phil - 1)%nat. split; [lia|]. destruct (right_cases (num_phil - 1)); lia.
  - exists i. split; [lia|]. destruct (right_cases i); lia.
Qed.

Lemma sum_update (f : phil -> Z) (ph : nat -> phil) k t l :
  NoDup l -> k ∈ l ->
  sumZ (fun j => f (<[k := t]> ph j)) l = sumZ (fun j => f (ph j)) l - f (ph k) + f t.
Proof.
  induction l as [|x l IH]; intros N Hk; [set_solver|].
  apply NoDup_cons in N as [Nx N]. simpl. destruct (decide (k = x)) as [<-|Hne].
  - rewrite fn_lookup_insert. rewrite (sumZ_ext (fun j => f (<[k := t]> ph j)) (fun j => f (ph j)) l); [lia|].
    intros y Hy. rewrite fn_lookup_insert_ne; [done|]. by intros <-.
  - rewrite fn_lookup_insert_ne by congruence. rewrite IH; [lia|done|set_solver].
Qed.

Lemma in_seq k : (k < num_phil)%nat -> k ∈ seq 0 num_phil.
Proof. intros Hk. apply elem_of_seq. lia. Qed.

(** One philosopher moves to [t'], taking and giving back what [t'] says. *)
Lemma inv_move s k t' lock' forks' :
  inv s -> (k < num_phil)%nat ->
  let t := phils s k in
  0 <= lock' -> lock' + seated t' = lock s + seated t ->
  (forall i, 0 <= forks s i -> 0 <= forks' i) ->
  forks' k = forks s k - (has_left t' - has_left t) ->
  forks' (right k) = forks s (right k) - (has_right t' - has_right t) ->
  (forall i, i ≠ k -> i ≠ right k -> forks' i = forks s i) ->
  ((at_pc t' = Exited <-> rounds t' = 3%nat) /\ (rounds t' <= 3)%nat) ->
  inv (mk_table lock' forks' (<[k := t']> (phils s))).
Proof.
  intros [I1 I2 I3 I4] Hk t Hl Hs Hnn Hfk Hfr Hfo Hr. split; simpl; [done|..].
  - unfold seats in *. simpl. rewrite sum_update; [|apply NoDup_seq|by apply in_seq]. fold t. lia.
  - intros j Hj. destruct (I3 j Hj) as [H0 H1]. split; [by apply Hnn|].
    pose proof (right_ne k Hk). destruct (decide (j = k)) as [->|Hjk].
    + rewrite Hfr, fn_lookup_insert, fn_lookup_insert_ne by congruence. fold t in H1. lia.
    + rewrite (fn_lookup_insert_ne _ k j) by congruence. destruct (decide (right j = k)) as [E|E].
      * rewrite E in *. rewrite fn_lookup_insert, Hfk. fold t in H1. lia.
      * rewrite fn_lookup_insert_ne by congruence. rewrite Hfo; [done|done|].
        intros E'. by apply Hjk, right_inj.
  - intros j. destruct (decide (k = j)) as [<-|]; [by rewrite fn_lookup_insert|].
    rewrite fn_lookup_insert_ne by congruence. apply I4.
Qed.

Lemma seats_all (f : nat -> Z) l : (forall k, k ∈ l -> f k = 1) -> sumZ f l = Z.of_nat (length l).
Proof.
  induction l as [|x l IH]; intros H; [done|]. cbn [sumZ length]. rewrite H by by left.
  rewrite IH; [lia|]. intros k Hk. apply H. by right.
Qed.

Lemma seats_none (f : nat -> Z) l : (forall k, k ∈ l -> f k = 0) -> sumZ f l = 0.
Proof.
  induction l as [|x l IH]; intros H; [done|]. cbn [sumZ]. rewrite H by by left.
  rewrite IH; [lia|]. intros k Hk. apply H. by right.
Qed.

Lemma table_inv_init : inv init.
Proof.
  split; simpl; [lia| | |by intros k; split; [split|lia]].
  - unfold seats. rewrite seats_none; [simpl; lia|done].
  - unfold has_left, has_right. simpl. lia.
Qed.

(** The side conditions of [inv_move] for one action: fork [i] changed or none. *)
Ltac fork_values :=
  match goal with
  | |- forall i, 0 <= _ -> 0 <= <[?x := _]> _ i =>
      let i := fresh "i" in intros i ?; destruct (decide (x = i)) as [<-|];
      [rewrite fn_lookup_insert; lia|by rewrite fn_lookup_insert_ne by congruence]
  | |- <[?x := _]> _ ?x = _ => rewrite fn_lookup_insert; lia
  | |- <[_ := _]> _ _ = _ => rewrite fn_lookup_insert_ne by congruence; lia
  | |- forall i, _ -> _ -> <[_ := _]> _ i = _ => intros; by rewrite fn_lookup_insert_ne by congruence
  end.

Ltac move_phil s k P :=
  apply (inv_move s k); simpl; try done; unfold seated, has_left, has_right, sem_post; rewrite ?P; simpl;
  try lia; try fork_values.

Lemma table_inv_step k s s' : inv s -> phil_step k s = Some s' -> inv s'.
Proof.
  intros I. unfold phil_step. destruct (Nat.ltb_spec k num_phil) as [Hk|]; [|done].
  assert (I0 := I). destruct I0 as [I1 _ _ I4]. specialize (I4 k).
  pose proof (right_ne k Hk) as Hne.
  assert (at_pc (phils s k) ≠ Exited -> rounds (phils s k) ≠ 3%nat) as Hr.
  { intros H E. apply H, I4, E. }
  assert (forall p, p ≠ Exited -> at_pc (phils s k) ≠ Exited ->
    (p = Exited <-> rounds (phils s k) = 3%nat) /\ (rounds (phils s k) <= 3)%nat) as Hp.
  { intros p ? ?. split; [|apply I4]. split; [done|]. intros E. by apply Hr in E. }
  destruct (at_pc (phils s k)) eqn:P; [| | | | | |done].
  - destruct (sem_wait (lock s)) as [v|] eqn:W; [|done]. apply sem_wait_Some in W as [? ->].
    intros [= <-]. move_phil s k P. by apply Hp.
  - unfold wait_fork. destruct (sem_wait (forks s k)) as [v|] eqn:W; [|done].
    apply sem_wait_Some in W as [? ->]. intros [= <-]. move_phil s k P. by apply Hp.
  - unfold wait_fork. destruct (sem_wait (forks s (right k))) as [v|] eqn:W; [|done].
    apply sem_wait_Some in W as [? ->]. intros [= <-]. move_phil s k P. by apply Hp.
  - intros [= <-]. move_phil s k P. by apply Hp.
  - intros [= <-]. move_phil s k P. by apply Hp.
  - intros [= <-]. specialize (Hr ltac:(done)).
    move_phil s k P; destruct (Nat.ltb_spec (S (rounds (phils s k))) 3); simpl; try lia.
    + split; [|lia]. split; [done|lia].
    + split; [|lia]. split; [lia|done].
Qed.

(** *** Progress *)
(** A blocked philosopher waits for the lock or for the right fork. *)
Lemma blocked_cases s k :
  inv s -> (k < num_phil)%nat -> halted phil_step s ->
  at_pc (phils s k) = Exited \/ at_pc (phils s k) = WaitLock /\ lock s = 0 \/
  at_pc (phils s k) = WaitRight /\ at_pc (phils s (right k)) = WaitRight.
Proof.
  intros I Hk Hh.
  assert (forall j, (j < num_phil)%nat ->
    at_pc (phils s j) ≠ Eating /\ at_pc (phils s j) ≠ PostRight) as Hnone.
  { intros j Hj. pose proof (Hh j) as E. unfold phil_step in E. rewrite (proj2 (Nat.ltb_lt _ _) Hj) in E.
    by destruct (at_pc (phils s j)). }
  pose proof (Hh k) as E. unfold phil_step in E. rewrite (proj2 (Nat.ltb_lt _ _) Hk) in E.
  destruct (at_pc (phils s k)) eqn:P; try done; [right; left|exfalso|right; right|by left].
  - split; [done|]. unfold sem_wait in E. pose proof (inv_lock _ I). revert E. zcase; [done|lia].
  - destruct (right_onto k Hk) as (j&Hj&Ej). destruct (inv_forks _ I j Hj) as [_ F].
    destruct (Hnone j Hj). rewrite Ej in F. unfold has_left, has_right in F. rewrite P in F.
    unfold wait_fork, sem_wait in E. destruct (at_pc (phils s j)); try done; rewrite F in E; done.
  - split; [done|]. destruct (inv_forks _ I k Hk) as [_ F]. unfold has_left, has_right in F.
    rewrite P in F. destruct (Hnone (right k) (right_lt k)). unfold wait_fork, sem_wait in E.
    destruct (at_pc (phils s (right k))); try done; rewrite F in E; done.
Qed.

Lemma halted_exited s : inv s -> halted phil_step s -> forall k, (k < num_phil)%nat -> at_pc (phils s k) = Exited.
Proof.
  intros I Hh.
  assert (forall k, (k < num_phil)%nat -> at_pc (phils s k) = WaitRight ->
    forall d, at_pc (phils s ((k + d) mod num_phil)) = WaitRight) as Hall.
  { intros k Hk P d. induction d as [|d IH].
    - by rewrite Nat.add_0_r, Nat.mod_small.
    - set (j := ((k + d) mod num_phil)%nat) in *.
      assert (j < num_phil)%nat as Hj by (apply Nat.mod_upper_bound; lia).
      destruct (blocked_cases s j I Hj Hh) as [H|[[H _]|[_ H]]]; [congruence..|].
      replace ((k + S d) mod num_phil)%nat with (right j); [done|]. unfold right, j.
      rewrite Nat.Div0.add_mod_idemp_l. f_equal. lia. }
  assert (forall k, (k < num_phil)%nat -> at_pc (phils s k) ≠ WaitRight) as Hno.
  { intros k Hk P. pose proof (inv_seats _ I) as Hs. pose proof (inv_lock _ I). unfold seats in Hs.
    rewrite seats_all in Hs; [rewrite length_seq in Hs; lia|].
    intros j Hj%elem_of_seq. specialize (Hall k Hk P (j + (num_phil - k))%nat).
    replace (k + (j + (num_phil - k)))%nat with (j + 1 * num_phil)%nat in Hall by lia.
    rewrite Nat.Div0.mod_add, Nat.mod_small in Hall by lia. unfold seated. by rewrite Hall. }
  intros k Hk. destruct (blocked_cases s k I Hk Hh) as [H|[[_ H]|[H _]]]; [done| |by apply Hno in H].
  pose proof (inv_seats _ I) as Hs. rewrite H in Hs. unfold seats in Hs. rewrite seats_none in Hs; [lia|].
  intros j Hj%elem_of_seq. unfold seated.
  destruct (blocked_cases s j I ltac:(lia) Hh) as [->|[[-> _]|[E _]]]; [done..|].
  exfalso. apply (Hno j); [lia|done].
Qed.

(** *** Termination *)

(** Actions that are left to a philosopher: six per round. *)
Definition left_to_do (t : phil) : nat :=
  match at_pc t with
  | Exited => 0
  | p => (3 - rounds t) * 6 -
      match p with
      | WaitLock => 0 | WaitLeft => 1 | WaitRight => 2 | Eating => 3 | PostRight => 4 | _ => 5
      end
  end.

Definition work (s : table) : nat := Z.to_nat (sumZ (fun k => Z.of_nat (left_to_do (phils s k))) (seq 0 num_phil)).

Lemma work_sum s : Z.of_nat (work s) = sumZ (fun k => Z.of_nat (left_to_do (phils s k))) (seq 0 num_phil).
Proof. unfold work. rewrite Z2Nat.id; [done|]. apply sumZ_nonneg. lia. Qed.

Lemma work_update s s' k t' :
  (k < num_phil)%nat -> phils s' = <[k := t']> (phils s) ->
  (left_to_do t' < left_to_do (phils s k))%nat -> (work s' < work s)%nat.
Proof.
  intros Hk E Hlt. apply Nat2Z.inj_lt. rewrite !work_sum, E.
  rewrite (sum_update (fun t => Z.of_nat (left_to_do t))); [lia|apply NoDup_seq|by apply in_seq].
Qed.

Lemma step_work k s s' : inv s -> phil_step k s = Some s' -> (work s' < work s)%nat.
Proof.
  intros I. unfold phil_step. destruct (Nat.ltb_spec k num_phil) as [Hk|]; [|done].
  destruct (inv_rounds _ I k) as [Hr1 Hr2].
  destruct (at_pc (phils s k)) eqn:P; [| | | | | |done];
    assert (rounds (phils s k) ≠ 3%nat) as Hr by (intros E; apply Hr1 in E; done).
  - destruct (sem_wait (lock s)) as [v|]; [|done]. intros [= <-].
    eapply work_update; [done|done|]. unfold left_to_do. rewrite P. simpl. lia.
  - unfold wait_fork. destruct (sem_wait (forks s k)) as [v|]; [|done]. intros [= <-].
    eapply work_update; [done|done|]. unfold left_to_do. rewrite P. simpl. lia.
  - unfold wait_fork. destruct (sem_wait (forks s (right k))) as [v|]; [|done]. intros [= <-].
    eapply work_update; [done|done|]. unfold left_to_do. rewrite P. simpl. lia.
  - intros [= <-]. eapply work_update; [done|done|]. unfold left_to_do. rewrite P. simpl. lia.
  - intros [= <-]. eapply work_update; [done|done|]. unfold left_to_do. rewrite P. simpl. lia.
  - intros [= <-]. eapply work_update; [done|done|]. unfold left_to_do. rewrite P. simpl.
    destruct (Nat.ltb_spec (S (rounds (phils s k))) 3); simpl; lia.
Qed.

Lemma work_init : work init = (18 * num_phil)%nat.
Proof.
  apply Nat2Z.inj. rewrite work_sum. simpl.
  assert (forall l : list nat, sumZ (fun _ => Z.of_nat (left_to_do (mk_phil WaitLock 0))) l = 18 * Z.of_nat (length l)) as H.
  { intros l. induction l as [|x l IH]; cbn [sumZ length]; [done|]. rewrite IH.
    change (left_to_do (mk_phil WaitLock 0)) with 18%nat. lia. }
  rewrite H, length_seq. lia.
Qed.

(** *** Properties *)

(** C29: two neighbours never eat at the same time, and nobody eats without both
    forks being taken. *)
Theorem philosophers_mutual_exclusion s k :
  rtc (tstep phil_step) init s -> (k < num_phil)%nat -> at_pc (phils s k) = Eating ->
  at_pc (phils s (right k)) ≠ Eating /\ forks s k = 0 /\ forks s (right k) = 0.
Proof.
  intros R Hk P. pose proof (reach_inv phil_step inv _ _ table_inv_step table_inv_init R) as I.
  destruct (inv_forks _ I k Hk) as [H1 H2]. destruct (right_onto k Hk) as (j&Hj&Ej).
  destruct (inv_forks _ I j Hj) as [H3 H4]. rewrite Ej in *.
  unfold has_left, has_right in *. rewrite P in *.
  destruct (at_pc (phils s (right k))); destruct (at_pc (phils s j)); try lia; (split; [done|lia]).
Qed.

(** C28: the program terminates on every schedule and never deadlocks: a run has
    at most 18 actions per philosopher, and when nobody can act any more, all
    philosophers have eaten three times and exited, and all semaphores have their
    initial values. *)
Theorem philosophers_terminate s n :
  nsteps (tstep phil_step) n init s ->
  (n <= 18 * num_phil)%nat /\
  (halted phil_step s -> lock s = Z.of_nat num_phil - 1 /\
    forall k, (k < num_phil)%nat -> phils s k = mk_phil Exited 3 /\ forks s k = 1).
Proof.
  intros R. split.
  - pose proof (run_bound phil_step inv work table_inv_step step_work _ _ _ table_inv_init R). rewrite work_init in *. lia.
  - intros Hh. pose proof (reach_inv phil_step inv _ _ table_inv_step table_inv_init (rtc_nsteps_2 _ _ _ R)) as I.
    pose proof (halted_exited s I Hh) as He. split.
    + pose proof (inv_seats _ I) as Hs. unfold seats in Hs. rewrite seats_none in Hs; [lia|].
      intros j Hj%elem_of_seq. unfold seated. by rewrite He by lia.
    + intros k Hk. split.
      * pose proof (proj1 (proj1 (inv_rounds _ I k)) (He k Hk)). specialize (He k Hk).
        destruct (phils s k); simpl in *. congruence.
      * destruct (right_onto k Hk) as (j&Hj&Ej). destruct (inv_forks _ I j Hj) as [_ F].
        rewrite Ej in F. rewrite F. unfold has_left, has_right. by rewrite !He.
Qed.
End Philosopher.

(** The four philosophers of the program: one eats. *)
Definition one_eats : option table := exec_all (phil_step 4) [0; 0; 0]%nat (init 4).

Lemma philosophers_mutual_exclusion_witness :
  exists s, rtc (tstep (phil_step 4)) (init 4) s /\ at_pc (phils s 0) = Eating /\ at_pc (phils s 1) ≠ Eating.
Proof.
  destruct one_eats as [s|] eqn:E; [|done]. exists s.
  assert (at_pc (phils s 0) = Eating) as P by (vm_compute in E; by injection E as <-).
  assert (rtc (tstep (phil_step 4)) (init 4) s) as R by (eapply exec_all_reach; exact E).
  split; [exact R|]. split; [exact P|].
  exact (proj1 (philosophers_mutual_exclusion 4 ltac:(lia) s 0 R ltac:(lia) P)).
Defined.

(** All of them, one after the other. *)
Definition turns : list nat := (replicate 18 0 ++ replicate 18 1 ++ replicate 18 2 ++ replicate 18 3)%nat.

Definition halted_b (s : table) : bool :=
  forallb (fun k => match phil_step 4 k s with None => true | _ => false end) (seq 0 4).

Lemma halted_b_halted s : halted_b s = true -> halted (phil_step 4) s.
Proof.
  intros H k. destruct (Nat.ltb_spec k 4) as [Hk|Hk].
  - unfold halted_b in H. rewrite forallb_forall in H. specialize (H k ltac:(apply List.in_seq; lia)).
    by destruct (phil_step 4 k s).
  - unfold phil_step. by rewrite (proj2 (Nat.ltb_ge _ _) Hk).
Qed.

Lemma philosophers_terminate_witness :
  exists s, nsteps (tstep (phil_step 4)) 72 (init 4) s /\ lock s = 3 /\ phils s 2 = mk_phil Exited 3.
Proof.
  assert (match exec_all (phil_step 4) turns (init 4) with Some s => halted_b s | None => false end = true)
    as Hb by by vm_compute.
  destruct (exec_all (phil_step 4) turns (init 4)) as [s|] eqn:E; [|done].
  pose proof (exec_all_nsteps _ _ _ _ E) as R. exists s. split; [exact R|].
  destruct (proj2 (philosophers_terminate 4 ltac:(lia) s 72 R) (halted_b_halted s Hb)) as [Hl Hp].
  split; [exact Hl|]. apply (Hp 2%nat). lia.
Defined.
