(* ===== verification/Producer.v ===== *)
(** The producer/consumer program of assignments/a1/producer.c: [nc] consumers and
    [np] producers share a stack of 32 items. Each step is one statement, or one
    access to the shared items where a statement has several; the statements inside
    the mutex are separate steps too. *)
From S2P Require Import Prelude Threads.

Record buff_item : Type := mk_item { item : Z; wait : Z }.

(** consumer(): at while (1), testing last_item, reading the time to sleep for printf
    and for sleep, reading the item and its time for printf (the item [it] is read),
    locking, clearing the two fields, decrementing, signalling, unlocking; at
    pthread_exit, behind it. *)
Inductive cpc : Type :=
| CWhile | CTest | CShow | CSleep | CItem | CPrint (it : Z) | CLock | CClearItem | CClearWait | CDec
| CSignal | CUnlock | CEnd | CExited.

(** producer(): at while (1), sleeping, locking, testing for space, blocked in
    pthread_cond_wait, re-locking in it, storing the item, incrementing last_item,
    printing, unlocking; at pthread_exit, behind it. *)
Inductive ppc : Type :=
| PWhile | PSleep | PLock | PCheck | PBlocked | PRelock | PStore | PInc | PPrint | PUnlock | PEnd | PExited.

Inductive thread : Type := TC (k : nat) | TP (k : nat).

Record buffer_state : Type := mk_buffer {
  items : Z -> buff_item;
  last_item : Z;
  lock : option thread;       (* the owner of buffer.lock *)
  cons : nat -> cpc;
  prods : nat -> ppc;
  printed : list buff_item;   (* "Consumed" lines, last first *)
  taken : list buff_item;     (* items cleared by consumers, last first *)
  outside : bool;             (* an index outside of items[32] was used *)
}.

(** An action: consumer [k] acts (a signal wakes producer [w]); producer [k] acts,
    [it] being what produce_item returned; producer [k] wakes up spuriously. *)
Inductive action : Type := Cons (k : nat) (w : nat) | Prod (k : nat) (it : buff_item) | Spurious (k : nat).

Section Producer.
Variables (nc np : nat).

Definition bad_index (i : Z) : bool := (i <? 0) || (31 <? i).

Definition goto_c (k : nat) (p : cpc) (s : buffer_state) : buffer_state :=
  mk_buffer (items s) (last_item s) (lock s) (<[k := p]> (cons s)) (prods s) (printed s) (taken s) (outside s).
Definition goto_p (k : nat) (p : ppc) (s : buffer_state) : buffer_state :=
  mk_buffer (items s) (last_item s) (lock s) (cons s) (<[k := p]> (prods s)) (printed s) (taken s) (outside s).
Definition set_lock (o : option thread) (s : buffer_state) : buffer_state :=
  mk_buffer (items s) (last_item s) o (cons s) (prods s) (printed s) (taken s) (outside s).
Definition set_last (n : Z) (s : buffer_state) : buffer_state :=
  mk_buffer (items s) n (lock s) (cons s) (prods s) (printed s) (taken s) (outside s).

(** An access to items[i]. *)
Definition use (i : Z) (s : buffer_state) : buffer_state :=
  mk_buffer (items s) (last_item s) (lock s) (cons s) (prods s) (printed s) (taken s) (outside s || bad_index i).
Definition store (i : Z) (it : buff_item) (s : buffer_state) : buffer_state :=
  let s := use i s in
  mk_buffer (<[i := it]> (items s)) (last_item s) (lock s) (cons s) (prods s) (printed s) (taken s) (outside s).
Definition log_printed (it : buff_item) (s : buffer_state) : buffer_state :=
  mk_buffer (items s) (last_item s) (lock s) (cons s) (prods s) (it :: printed s) (taken s) (outside s).
Definition log_taken (it : buff_item) (s : buffer_state) : buffer_state :=
  mk_buffer (items s) (last_item s) (lock s) (cons s) (prods s) (printed s) (it :: taken s) (outside s).

(** pthread_mutex_lock blocks while somebody owns the mutex. *)
Definition mutex_lock (t : thread) (s : buffer_state) : option buffer_state :=
  match lock s with None => Some (set_lock (Some t) s) | Some _ => None end.

(** pthread_cond_signal: unblocks a blocked producer, if there is one. *)
Definition cond_signal (w : nat) (s : buffer_state) : option buffer_state :=
  if forallb (fun k => match prods s k with PBlocked => false | _ => true end) (seq 0 np) then Some s
  else if (w <? np)%nat then
    match prods s w with PBlocked => Some (goto_p w PRelock s) | _ => None end
  else None.

(** while (1) *)
Definition while_condition : Z := 1.

Definition consumer_step (k w : nat) (s : buffer_state) : option buffer_state :=
  let i := last_item s in
  match cons s k with
  | CWhile => Some (goto_c k (if while_condition =? 0 then CEnd else CTest) s)
  | CTest => Some (goto_c k (if -1 <? i then CShow else CWhile) s)
  | CShow => Some (goto_c k CSleep (use i s))
  | CSleep => Some (goto_c k CItem (use i s))
  | CItem => Some (goto_c k (CPrint (item (items s i))) (use i s))
  | CPrint it => Some (goto_c k CLock (log_printed (mk_item it (wait (items s i))) (use i s)))
  | CLock => match mutex_lock (TC k) s with Some s => Some (goto_c k CClearItem s) | None => None end
  | CClearItem =>
      Some (goto_c k CClearWait (log_taken (items s i) (store i (mk_item 0 (wait (items s i))) s)))
  | CClearWait => Some (goto_c k CDec (store i (mk_item (item (items s i)) 0) s))
  | CDec => Some (goto_c k CSignal (set_last (i - 1) s))
  | CSignal => match cond_signal w s with Some s => Some (goto_c k CUnlock s) | None => None end
  | CUnlock => Some (goto_c k CWhile (set_lock None s))
  | CEnd => Some (goto_c k CExited s)
  | CExited => None
  end.

Definition producer_step (k : nat) (it : buff_item) (s : buffer_state) : option buffer_state :=
  match prods s k with
  | PWhile => Some (goto_p k (if while_condition =? 0 then PEnd else PSleep) s)
  | PSleep => Some (goto_p k PLock s)
  | PLock => match mutex_lock (TP k) s with Some s => Some (goto_p k PCheck s) | None => None end
  | PCheck =>
      if last_item s =? 31 then Some (goto_p k PBlocked (set_lock None s)) else Some (goto_p k PStore s)
  | PBlocked => None
  | PRelock => match mutex_lock (TP k) s with Some s => Some (goto_p k PCheck s) | None => None end
  | PStore => Some (goto_p k PInc (store (last_item s + 1) it s))
  | PInc => Some (goto_p k PPrint (set_last (last_item s + 1) s))
  | PPrint => Some (goto_p k PUnlock (use (last_item s) s))
  | PUnlock => Some (goto_p k PWhile (set_lock None s))
  | PEnd => Some (goto_p k PExited s)
  | PExited => None
  end.

Definition exec (a : action) (s : buffer_state) : option buffer_state :=
  match a with
  | Cons k w => if (k <? nc)%nat then consumer_step k w s else None
  | Prod k it => if (k <? np)%nat then producer_step k it s else None
  | Spurious k =>
      if (k <? np)%nat then
        match prods s k with PBlocked => Some (goto_p k PRelock s) | _ => None end
      else None
  end.

(** main, before the threads start. *)
Definition initial : buffer_state :=
  mk_buffer (fun _ => mk_item 0 0) (-1) None (fun _ => CWhile) (fun _ => PWhile) [] [] false.
End Producer.

(** produce_item from two random numbers, and a producer's time to sleep from one. *)
Definition produce_item (r1 r2 : Z) : buff_item := mk_item (r2 mod 50 + 1) (r1 mod 8 + 2).
Definition sleep_time (r : Z) : Z := r mod 5 + 3.

(** ** One consumer and one producer

    main starts a pair of threads and joins it before it starts the next one. *)
Section one_pair.
Definition c_owns (p : cpc) : bool := match p with CClearItem | CClearWait | CDec | CSignal | CUnlock => true | _ => false end.
Definition p_owns (p : ppc) : bool :=
  match p with PCheck | PStore | PInc | PPrint | PUnlock => true | _ => false end.
Definition c_inside (p : cpc) : bool :=
  match p with CShow | CSleep | CItem | CPrint _ | CLock | CClearItem | CClearWait | CDec => true | _ => false end.
Definition c_left (p : cpc) : bool := match p with CEnd | CExited => true | _ => false end.
Definition p_left (p : ppc) : bool := match p with PEnd | PExited => true | _ => false end.

Record pair_inv (s : buffer_state) : Prop := {
  pi_lock : match lock s with
    | None => c_owns (cons s 0) = false /\ p_owns (prods s 0) = false
    | Some (TC k) => k = O /\ c_owns (cons s 0) = true /\ p_owns (prods s 0) = false
    | Some (TP k) => k = O /\ c_owns (cons s 0) = false /\ p_owns (prods s 0) = true
    end;
  pi_last : -1 <= last_item s <= 31;
  pi_room : match prods s 0 with PStore | PInc => last_item s <= 30 | _ => True end;
  pi_some : c_inside (cons s 0) = true -> 0 <= last_item s;
  pi_print : prods s 0 = PPrint -> 0 <= last_item s;
  pi_blocked : prods s 0 = PBlocked -> last_item s = 31 \/ cons s 0 = CSignal;
  pi_outside : outside s = false;
  pi_loops : c_left (cons s 0) = false /\ p_left (prods s 0) = false;
}.

Lemma bad_index_false i : 0 <= i <= 31 -> bad_index i = false.
Proof. intros Hi. unfold bad_index. by repeat zdec. Qed.

Lemma pair_inv_init : pair_inv initial.
Proof. split; simpl; try done; lia. Qed.

Ltac pair_field :=
  simpl in *; rewrite ?fn_lookup_insert; simpl in *; intros;
  repeat match goal with H : ?x = ?x -> _ |- _ => specialize (H eq_refl) end;
  rewrite ?bad_index_false, ?orb_false_r by lia;
  repeat match goal with
    | H : prods ?s 0 = _ |- context [prods ?s 0] => rewrite H
    | H : context [match lock ?s with _ => _ end] |- _ => destruct (lock s) as [[]|]
    end; simpl in *;
  intuition (try congruence; try lia).

Lemma pair_inv_consumer w s s' : pair_inv s -> consumer_step 1 0 w s = Some s' -> pair_inv s'.
Proof.
  intros [I1 I2 I3 I4 I5 I6 I7 I8]. unfold consumer_step, mutex_lock, cond_signal. simpl forallb.
  destruct (cons s 0) eqn:C.
  - intros [= <-]. split; pair_field.
  - destruct (Z.ltb_spec (-1) (last_item s)); intros [= <-]; split; pair_field.
  - intros [= <-]. split; pair_field.
  - intros [= <-]. split; pair_field.
  - intros [= <-]. split; pair_field.
  - intros [= <-]. split; pair_field.
  - destruct (lock s) as [t|] eqn:E; [done|]. intros [= <-]. split; pair_field.
  - intros [= <-]. split; pair_field.
  - intros [= <-]. split; pair_field.
  - intros [= <-]. split; destruct (prods s 0) eqn:P; pair_field.
  - destruct (prods s 0) eqn:P; simpl; try (intros [= <-]; split; rewrite ?P; pair_field).
    destruct w as [|w]; simpl; [|done]. rewrite P. intros [= <-]. split; pair_field.
  - intros [= <-]. split; pair_field.
  - destruct I8; done.
  - done.
Qed.

Lemma pair_inv_producer it s s' : pair_inv s -> producer_step 0 it s = Some s' -> pair_inv s'.
Proof.
  intros [I1 I2 I3 I4 I5 I6 I7 I8]. unfold producer_step, mutex_lock.
  destruct (prods s 0) eqn:P.
  - intros [= <-]. split; pair_field.
  - intros [= <-]. split; pair_field.
  - destruct (lock s) as [t|] eqn:E; [done|]. intros [= <-]. split; pair_field.
  - destruct (Z.eqb_spec (last_item s) 31); intros [= <-]; split; pair_field.
  - done.
  - destruct (lock s) as [t|] eqn:E; [done|]. intros [= <-]. split; pair_field.
  - intros [= <-]. split; pair_field.
  - intros [= <-]. split; pair_field.
  - intros [= <-]. split; pair_field.
  - intros [= <-]. split; pair_field.
  - destruct I8; done.
  - done.
Qed.

Lemma pair_inv_step a s s' : pair_inv s -> exec 1 1 a s = Some s' -> pair_inv s'.
Proof.
  intros I. destruct a as [k w|k it|k]; unfold exec;
    (destruct (Nat.ltb_spec k 1) as [Hk|]; [|done]); assert (k = O) as -> by lia; clear Hk.
  - by apply pair_inv_consumer.
  - by apply pair_inv_producer.
  - destruct I as [I1 I2 I3 I4 I5 I6 I7 I8]. destruct (prods s 0) eqn:P; try done. intros [= <-].
    split; pair_field.
Qed.

Lemma pair_inv_safe s : pair_inv s ->
  -1 <= last_item s <= 31 /\ outside s = false /\
  ~ (c_owns (cons s 0) = true /\ p_owns (prods s 0) = true) /\
  (prods s 0 = PBlocked -> last_item s = 31 \/ cons s 0 = CSignal).
Proof.
  intros [I1 I2 I3 I4 I5 I6 I7 I8]. split; [done|]. split; [done|]. split; [|done].
  intros [H1 H2]. destruct (lock s) as [[]|]; intuition congruence.
Qed.
End one_pair.

(** ** main

    The loop that starts the threads: testing i, creating a producer after its
    consumer, joining the two. pthread_join returns once the thread is behind its
    pthread_exit. *)
Inductive mpc : Type := MLoop (i : nat) | MProducer (i : nat) | MJoin1 (i : nat) | MJoin2 (i : nat) | MDone (n : nat).

Record program : Type := mk_program { main : mpc; buffer : buffer_state }.

Definition has_exited (t : thread) (s : buffer_state) : bool :=
  match t with
  | TC k => match cons s k with CExited => true | _ => false end
  | TP k => match prods s k with PExited => true | _ => false end
  end.

Definition main_step (num_threads : Z) (p : program) : option program :=
  let goto m := Some (mk_program m (buffer p)) in
  match main p with
  | MLoop i => goto (if Z.of_nat i <? num_threads then MProducer i else MDone i)
  | MProducer i => goto (MJoin1 i)
  | MJoin1 i => if has_exited (TP i) (buffer p) then goto (MJoin2 i) else None
  | MJoin2 i => if has_exited (TC i) (buffer p) then goto (MLoop (S i)) else None
  | MDone _ => None
  end.

(** The threads that exist: consumers are created on the way to [MProducer]. *)
Definition consumers (m : mpc) : nat :=
  match m with MLoop i | MDone i => i | MProducer i | MJoin1 i | MJoin2 i => S i end.
Definition producers (m : mpc) : nat :=
  match m with MLoop i | MDone i | MProducer i => i | MJoin1 i | MJoin2 i => S i end.

Inductive program_action : Type := Main | Thread (a : action).

Definition program_exec (num_threads : Z) (a : program_action) (p : program) : option program :=
  match a with
  | Main => main_step num_threads p
  | Thread a =>
      match exec (consumers (main p)) (producers (main p)) a (buffer p) with
      | Some s => Some (mk_program (main p) s)
      | None => None
      end
  end.

Definition program_initial : program := mk_program (MLoop 0) initial.

(** Before the producer exists, the consumer does nothing it would not do later. *)
Lemma exec_no_producer a s s' :
  prods s 0 = PWhile -> exec 1 0 a s = Some s' -> exec 1 1 a s = Some s' /\ prods s' 0 = PWhile.
Proof.
  intros P. destruct a as [k w|k it|k]; simpl; [|done..]. destruct (k <? 1)%nat; [|done].
  unfold consumer_step, mutex_lock, cond_signal. simpl. rewrite P.
  destruct (cons s k); try destruct (lock s); try done; intros [= <-]; done.
Qed.

Definition first_round (m : mpc) : bool :=
  match m with MLoop O | MProducer O | MJoin1 O | MDone O => true | _ => false end.

Record program_inv (n : Z) (p : program) : Prop := {
  gi_pair : pair_inv (buffer p);
  gi_main : first_round (main p) = true;
  gi_idle : producers (main p) = O -> prods (buffer p) 0 = PWhile;
  gi_done : match main p with MDone _ => n <= 0 | _ => True end;
}.

Lemma program_inv_step n a p p' : program_inv n p -> program_exec n a p = Some p' -> program_inv n p'.
Proof.
  intros [I1 I2 I3 I4]. destruct p as [m s], a as [|a]; simpl in *.
  - unfold main_step, has_exited. simpl. destruct (pi_loops _ I1) as [_ Hp].
    destruct m as [[|i]|[|i]|[|i]|[|i]|[|i]]; try done; try (by destruct (prods s 0)); intros [= <-]; split; simpl; auto;
      destruct (Z.ltb_spec (Z.of_nat 0) n); done || lia.
  - destruct (exec _ _ a s) as [s'|] eqn:E; [|done]. intros [= <-].
    destruct m as [[|i]|[|i]|[|i]|[|i]|[|i]]; try done; simpl in *.
    + by destruct a.
    + destruct (exec_no_producer a s s' (I3 eq_refl) E) as [E' P]. split; simpl; [by eapply pair_inv_step|done|done|done].
    + split; simpl; [by eapply pair_inv_step|done|done|done].
    + by destruct a.
Qed.

Lemma program_reachable n p : rtc (tstep (program_exec n)) program_initial p -> program_inv n p.
Proof.
  apply (reach_inv (program_exec n) (program_inv n)); [apply program_inv_step|].
  split; [apply pair_inv_init|done|done|done].
Qed.

(** The pair can always go on: who waits for the mutex, waits for the other one. *)
Lemma pair_goes_on s : pair_inv s -> exists a, is_Some (exec 1 1 a s).
Proof.
  intros [I1 _ _ _ _ _ _ [Hc _]]. destruct (cons s 0) eqn:C.
  14: done.
  7: destruct (lock s) as [[k|k]|] eqn:L;
    [simpl in I1; intuition congruence| |exists (Cons 0 0); simpl; unfold consumer_step, mutex_lock; by rewrite C, L].
  7: { exists (Prod 0 (mk_item 0 0)). simpl. unfold producer_step. destruct I1 as (_&_&Hp).
    destruct (prods s 0); try done. by destruct (_ =? _). }
  all: exists (Cons 0 0); simpl; unfold consumer_step, cond_signal; rewrite C; simpl; try done.
  by destruct (prods s 0) eqn:P; rewrite ?P.
Qed.

(** C34: whatever number of threads is asked for, no thread ever leaves its loop, so
    that main never gets past its first pair, and in every interleaving (spurious
    wake-ups included) the buffer stays within its bounds, no statement uses an index outside of the array, consumer
    and producer are never both in their critical sections, a blocked producer is
    not forgotten (the buffer is full or the consumer is about to signal), and
    some thread can go on. *)
Theorem program_is_safe num_threads p :
  0 < num_threads ->
  rtc (tstep (program_exec num_threads)) program_initial p ->
  let s := buffer p in
  (forall k, (k < consumers (main p))%nat -> has_exited (TC k) s = false) /\
  (forall k, (k < producers (main p))%nat -> has_exited (TP k) s = false) /\
  (consumers (main p) <= 1)%nat /\ (producers (main p) <= 1)%nat /\
  -1 <= last_item s <= 31 /\ outside s = false /\
  ~ (c_owns (cons s 0) = true /\ p_owns (prods s 0) = true) /\
  (prods s 0 = PBlocked -> last_item s = 31 \/ cons s 0 = CSignal) /\
  ~ halted (program_exec num_threads) p.
Proof.
  intros Hn R%program_reachable s. destruct R as [I Im _ Id]. destruct (pair_inv_safe _ I) as (?&?&?&?).
  assert (~ halted (program_exec num_threads) p) as G.
  { destruct (main p) as [i|i|i|i|i] eqn:M; [..|lia].
    1-2: intros H'; specialize (H' Main); simpl in H'; unfold main_step in H'; by rewrite M in H'.
    all: destruct i as [|i]; [|done]. 2: done.
    intros H'. destruct (pair_goes_on _ I) as (a&s'&E). specialize (H' (Thread a)).
    simpl in H'. rewrite M in H'. simpl in H'. by rewrite E in H'. }
  destruct (pi_loops _ I) as [Lc Lp]. fold s in Lc, Lp.
  assert (consumers (main p) <= 1 /\ producers (main p) <= 1)%nat as [Nc Np]
    by (destruct (main p) as [[|i]|[|i]|[|i]|[|i]|[|i]]; try done; simpl; lia).
  split; [|split; [|done]]; intros k Hk; assert (k = O) as -> by lia; simpl.
  - by destruct (cons s 0).
  - by destruct (prods s 0).
Qed.

(** ** Runs that go wrong *)
Definition item_a : buff_item := mk_item 10 2.
Definition item_b : buff_item := mk_item 20 3.

(** Producer 0 stores [it]. *)
Definition produce (it : buff_item) : list action := replicate 8 (Prod 0 it).

Lemma run_ends_reach nc np l P :
  ends_in (exec nc np) l initial P = true -> exists s, rtc (tstep (exec nc np)) initial s /\ P s = true.
Proof. intros (s&E&H)%ends_in_spec. exists s. split; [by eapply exec_all_reach|done]. Qed.

(** Both consumers see one item; both take one. *)
Definition underflow : list action :=
  produce item_a ++ [Cons 0 0; Cons 0 0; Cons 1 0; Cons 1 0] ++ replicate 10 (Cons 0 0) ++ replicate 8 (Cons 1 0).

(** Consumer() tests last_item before it locks and not again after. With two
    consumers a run is reachable in which both pass the test for one item: the
    second one writes to items[-1] and leaves last_item at -2. *)
Theorem two_consumers_underflow :
  exists s, rtc (tstep (exec 2 1)) initial s /\ outside s = true /\ last_item s = -2.
Proof.
  destruct (run_ends_reach 2 1 underflow (fun s => outside s && (last_item s =? -2))) as (s&R&H);
    [by vm_compute|].
  exists s. split; [exact R|]. apply andb_true_iff in H as [H1 H2]. split; [done|by apply Z.eqb_eq].
Qed.

(** The consumer prints an item; before it locks, the producer stores another. *)
Definition overtaken : list action :=
  produce item_a ++ replicate 6 (Cons 0 0) ++ produce item_b ++ replicate 2 (Cons 0 0).

Definition is_item (a b : buff_item) : bool := (item a =? item b) && (wait a =? wait b).

(** Even with one pair, the item a consumer reports as consumed need not be
    the one it removes: it prints before it locks. A run is reachable in which
    item A is printed and item B, stored in between, is cleared unseen. *)
Theorem printed_is_not_taken :
  exists s, rtc (tstep (exec 1 1)) initial s /\ printed s = [item_a] /\ taken s = [item_b].
Proof.
  destruct (run_ends_reach 1 1 overtaken (fun s =>
    match printed s, taken s with [a], [b] => is_item a item_a && is_item b item_b | _, _ => false end))
    as (s&R&H); [by vm_compute|].
  exists s. split; [exact R|]. destruct (printed s) as [|[a1 a2] [|]], (taken s) as [|[b1 b2] [|]]; try done.
  unfold is_item in H. simpl in H. rewrite !andb_true_iff, !Z.eqb_eq in H. unfold item_a, item_b.
  destruct H as [[-> ->] [-> ->]]. done.
Qed.

(** The buffer is full and the producer blocks. *)
Definition fill : list action := concat (replicate 32 (produce item_a)) ++ replicate 4 (Prod 0 item_a).

Lemma program_is_safe_witness :
  exists p, rtc (tstep (program_exec 2)) program_initial p /\ prods (buffer p) 0 = PBlocked /\
    outside (buffer p) = false /\ (last_item (buffer p) = 31 \/ cons (buffer p) 0 = CSignal).
Proof.
  assert (ends_in (program_exec 2) (Main :: Main :: (Thread <$> fill)) program_initial
    (fun p => match prods (buffer p) 0 with PBlocked => true | _ => false end) = true) as H by by vm_compute.
  apply ends_in_spec in H as (p&E&H). apply exec_all_reach in E. exists p. split; [exact E|].
  assert (prods (buffer p) 0 = PBlocked) as P by by destruct (prods (buffer p) 0).
  destruct (program_is_safe 2 p eq_refl E) as (_&_&_&_&_&Ho&_&Hb&_). split; [exact P|]. split; [exact Ho|exact (Hb P)].
Defined.
