(* ===== verification/SearchList.v ===== *)
(** The search-insert-delete list of recitations/concurrency3.c: a singly linked
    list on the heap and its three operations, each as one function. ListThreads.v
    has them step by step.

    remov and find read lst->head before they wait for their semaphores; that
    pointer is an argument of their bodies. The heap maps the addresses of
    allocated nodes to their contents; reading or freeing anything else is [Bug]. *)
From stdpp Require Import gmap.
From S2P Require Import Prelude.

Record node : Type := mk_node { n_data : Z; n_next : Z }.

Abbreviation heap := (gmap Z node).

Record list_t : Type := mk_list { nodes : heap; head : Z; tail_ptr : Z }.

Definition load (h : heap) (p : Z) : res node := match h !! p with Some n => Ret n | None => Bug end.
Definition free (h : heap) (p : Z) : res heap :=
  match h !! p with Some _ => Ret (delete p h) | None => Bug end.

(** print_list: the numbers printed. *)
Fixpoint print_list (fuel : nat) (h : heap) (cur : Z) : res (list Z) :=
  match fuel with
  | O => Fuel
  | S fuel =>
      if cur =? NULL then Ret []
      else n ← load h cur; l ← print_list fuel h (n_next n); Ret (n_data n :: l)
  end.

(** while (cur != NULL) in remov. *)
Fixpoint remov_loop (fuel : nat) (val : Z) (s : list_t) (prev cur : Z) : res (bool * list_t) :=
  match fuel with
  | O => Fuel
  | S fuel =>
      if cur =? NULL then Ret (false, s)
      else
        n ← load (nodes s) cur;
        if n_data n =? val then
          p ← load (nodes s) prev;
          let h := <[prev := mk_node (n_data p) (n_next n)]> (nodes s) in
          let t := if tail_ptr s =? cur then prev else tail_ptr s in
          h ← free h cur;
          Ret (true, mk_list h (head s) t)
        else remov_loop fuel val s cur (n_next n)
  end.

(** remov after its semaphores; [start] is the head it read before. The numbers
    printed, if the value was found. *)
Definition remov (fuel : nat) (val start : Z) (s : list_t) : res (option (list Z) * list_t) :=
  let other : res (bool * list_t) := remov_loop fuel val s start start in
  r ← (if negb (head s =? NULL) then
         n ← load (nodes s) (head s);
         if n_data n =? val then
           h ← free (nodes s) (head s);
           Ret (true, mk_list h (n_next n) (tail_ptr s))
         else other
       else other);
  let '(found, s) := r in
  if (found : bool) then l ← print_list fuel (nodes s) (head s); Ret (Some l, s) else Ret (None, s).

(** find after its semaphore: was the value found? *)
Fixpoint find_from (fuel : nat) (val : Z) (h : heap) (tmp : Z) : res bool :=
  match fuel with
  | O => Fuel
  | S fuel =>
      if tmp =? NULL then Ret false
      else n ← load h tmp; if n_data n =? val then Ret true else find_from fuel val h (n_next n)
  end.

(** while (cur->next != NULL) in create: the last node. *)
Fixpoint last_node (fuel : nat) (h : heap) (cur : Z) : res Z :=
  match fuel with
  | O => Fuel
  | S fuel => n ← load h cur; if n_next n =? NULL then Ret cur else last_node fuel h (n_next n)
  end.

(** create; [new] is what malloc returned. The numbers printed. *)
Definition create (fuel : nat) (val new : Z) (s : list_t) : res (list Z * list_t) :=
  if new =? NULL then Bug
  else
    let h := <[new := mk_node val NULL]> (nodes s) in
    s ← (if head s =? NULL then Ret (mk_list h new (tail_ptr s))
         else
           cur ← last_node fuel h (head s);
           n ← load h cur;
           Ret (mk_list (<[cur := mk_node (n_data n) new]> h) (head s) (tail_ptr s)));
    l ← print_list fuel (nodes s) (head s);
    Ret (l, s).

Definition initialize : list_t := mk_list ∅ NULL NULL.

(** ** List segments *)

(** From [p], the nodes [l] (address, data) lead to [q]. *)
Fixpoint lseg (h : heap) (p : Z) (l : list (Z * Z)) (q : Z) : Prop :=
  match l with
  | [] => p = q
  | (a, d) :: t => p = a /\ a ≠ NULL /\ exists nx, h !! a = Some (mk_node d nx) /\ lseg h nx t q
  end.

(** The list of a list_t. *)
Definition holds_list (s : list_t) (l : list (Z * Z)) : Prop :=
  NoDup l.*1 /\ lseg (nodes s) (head s) l NULL.

Lemma lseg_app h p l1 l2 q : lseg h p (l1 ++ l2) q <-> exists m, lseg h p l1 m /\ lseg h m l2 q.
Proof.
  revert p. induction l1 as [|[a d] l1 IH]; intros p; simpl.
  - split; [by exists p|by intros (m&->&?)].
  - split.
    + intros (->&Ha&nx&E&S). apply IH in S as (m&S1&S2). exists m. split; [|done].
      do 2 (split; [done|]). by exists nx.
    + intros (m&(->&Ha&nx&E&S1)&S2). do 2 (split; [done|]). exists nx. split; [done|].
      apply IH. by exists m.
Qed.

Lemma lseg_ext h h' p l q : (forall a, a ∈ l.*1 -> h' !! a = h !! a) -> lseg h p l q -> lseg h' p l q.
Proof.
  revert p. induction l as [|[b d] l IH]; intros p Hh; simpl; [done|].
  intros (->&Hb&nx&E&S). do 2 (split; [done|]). exists nx. split.
  - rewrite Hh; [done|]. by left.
  - apply IH; [|done]. intros a Ha. apply Hh. by right.
Qed.

Lemma lseg_insert h p l q a n : a ∉ l.*1 -> lseg h p l q -> lseg (<[a := n]> h) p l q.
Proof. intros Ha. apply lseg_ext. intros b Hb. apply lookup_insert_ne. by intros ->. Qed.

Lemma lseg_delete h p l q a : a ∉ l.*1 -> lseg h p l q -> lseg (delete a h) p l q.
Proof. intros Ha. apply lseg_ext. intros b Hb. apply lookup_delete_ne. by intros ->. Qed.

Lemma lseg_null h p l : lseg h p l NULL -> p = NULL <-> l = [].
Proof. destruct l as [|[a d] l]; simpl; [done|]. intros (->&Ha&_). done. Qed.

Lemma print_spec fuel h p l : lseg h p l NULL -> (length l < fuel)%nat -> print_list fuel h p = Ret l.*2.
Proof.
  revert fuel p. induction l as [|[a d] l IH]; intros [|fuel] p S Hf; simpl in *; try lia; [by subst|].
  destruct S as (->&Ha&nx&E&S). zdec. unfold load. rewrite E. simpl. rewrite (IH fuel nx S) by lia. done.
Qed.

Lemma find_spec fuel val h p l :
  lseg h p l NULL -> (length l < fuel)%nat -> find_from fuel val h p = Ret (bool_decide (val ∈ l.*2)).
Proof.
  revert fuel p. induction l as [|[a d] l IH]; intros [|fuel] p S Hf; simpl in *; try lia.
  - by subst.
  - destruct S as (->&Ha&nx&E&S). zdec. unfold load. rewrite E. simpl.
    destruct (Z.eqb_spec d val) as [->|Hd].
    + rewrite bool_decide_eq_true_2; [done|]. by left.
    + rewrite (IH fuel nx S) by lia. f_equal. apply bool_decide_ext. rewrite elem_of_cons. naive_solver.
Qed.

Lemma last_node_spec fuel h p l a d q :
  lseg h p (l ++ [(a, d)]) q -> q = NULL -> (length l < fuel)%nat -> last_node fuel h p = Ret a.
Proof.
  intros S ->. revert fuel p S. induction l as [|[b e] l IH]; intros [|fuel] p S Hf; simpl in *; try lia.
  - destruct S as (->&Ha&nx&E&->). unfold load. rewrite E. done.
  - destruct S as (->&Hb&nx&E&S). unfold load. rewrite E. simpl.
    assert (nx ≠ NULL) by (intros ->; apply lseg_null in S; destruct l; discriminate (proj1 S eq_refl)).
    zdec. by apply IH; [|lia].
Qed.

(** The list after the first node with value [val] is taken out. *)
Fixpoint delete_first (val : Z) (l : list (Z * Z)) : list (Z * Z) :=
  match l with
  | [] => []
  | (a, d) :: t => if d =? val then t else (a, d) :: delete_first val t
  end.

(** The address of that node. *)
Fixpoint first_with (val : Z) (l : list (Z * Z)) : option Z :=
  match l with
  | [] => None
  | (a, d) :: t => if d =? val then Some a else first_with val t
  end.

Lemma delete_first_sub val l : delete_first val l `sublist_of` l.
Proof.
  induction l as [|[a d] l IH]; simpl; [done|]. destruct (d =? val); [by apply sublist_cons|by apply sublist_skip].
Qed.

(** What remov leaves: the value's first node is freed, if there is one. *)
Definition removed (val : Z) (s s' : list_t) (l : list (Z * Z)) (found : bool) : Prop :=
  holds_list s' (delete_first val l) /\
  (found = true <-> val ∈ l.*2) /\
  (forall a, first_with val l = Some a -> nodes s' !! a = None) /\
  (found = false -> s' = s).

(** The loop, once it is past the first node. *)
Lemma remov_loop_spec fuel val s pre pa pd post cur :
  NoDup (pre ++ (pa, pd) :: post).*1 ->
  lseg (nodes s) (head s) pre pa -> nodes s !! pa = Some (mk_node pd cur) -> pa ≠ NULL ->
  lseg (nodes s) cur post NULL -> (length post < fuel)%nat ->
  exists found s', remov_loop fuel val s pa cur = Ret (found, s') /\
    holds_list s' (pre ++ (pa, pd) :: delete_first val post) /\
    (found = true <-> val ∈ post.*2) /\
    (forall a, first_with val post = Some a -> nodes s' !! a = None) /\
    (found = false -> s' = s).
Proof.
  revert fuel pre pa pd cur. induction post as [|[a d] post IH]; intros [|fuel] pre pa pd cur N S1 Ep Hpa S2 Hf;
    cbn [length] in Hf; try lia; simpl.
  { simpl in S2. subst cur. exists false, s. split; [done|]. split; [|split; [|done]].
    - split; [done|]. apply lseg_app. exists pa. split; [done|]. simpl. do 2 (split; [done|]). by exists NULL.
    - split; [done|]. by intros ?%elem_of_nil. }
  destruct S2 as (->&Ha&nx&Ea&S2). zdec. unfold load. rewrite Ea. simpl.
  rewrite fmap_app in N. cbn [fmap list_fmap fst] in N.
  apply NoDup_app in N as (N1&D&N2). apply NoDup_cons in N2 as [Np N2]. apply NoDup_cons in N2 as [Na N3].
  apply not_elem_of_cons in Np as [Hap Np].
  destruct (Z.eqb_spec d val) as [->|Hd].
  - rewrite Ep. simpl. unfold free. rewrite lookup_insert_ne by congruence. rewrite Ea. simpl.
    eexists true, _. split; [done|]. split; [split|split; [|split; [|done]]].
    + rewrite fmap_app. cbn [fmap list_fmap fst]. apply NoDup_app. split; [done|]. split.
      * intros x Hx [->|Hx']%elem_of_cons; [apply (D pa Hx); by left|]. apply (D x Hx). by do 2 right.
      * by constructor.
    + simpl. apply lseg_app. exists pa. split.
      * apply lseg_delete; [intros Hx; apply (D a Hx); by right; left|].
        apply lseg_insert; [intros Hx; apply (D pa Hx); by left|done].
      * simpl. do 2 (split; [done|]). exists nx. rewrite lookup_delete_ne by congruence.
        rewrite lookup_insert_eq. split; [done|]. apply lseg_delete; [done|]. by apply lseg_insert.
    + split; [by left|done].
    + intros a' [= <-]. apply lookup_delete_eq.
  - destruct (IH fuel (pre ++ [(pa, pd)]) a d nx) as (found&s'&->&H1&H2&H3&H4).
    + rewrite <- app_assoc. simpl. rewrite fmap_app. cbn [fmap list_fmap fst]. apply NoDup_app.
      split; [done|]. split; [done|]. constructor; [by apply not_elem_of_cons|by constructor].
    + apply lseg_app. exists pa. split; [done|]. simpl. do 2 (split; [done|]). by exists a.
    + done.
    + done.
    + done.
    + lia.
    + exists found, s'. split; [done|]. rewrite <- app_assoc in H1. split; [exact H1|].
      split; [|split; done]. rewrite H2, elem_of_cons. naive_solver.
Qed.

Lemma remov_spec fuel val s l :
  holds_list s l -> (length l < fuel)%nat ->
  exists found s', removed val s s' l found /\
    remov fuel val (head s) s = Ret (if found : bool then Some (delete_first val l).*2 else None, s').
Proof.
  intros [N S] Hf. unfold remov.
  enough (exists found s', removed val s s' l found /\
    (if negb (head s =? NULL) then
       n ← load (nodes s) (head s);
       if n_data n =? val then
         h ← free (nodes s) (head s); Ret (true, mk_list h (n_next n) (tail_ptr s))
       else remov_loop fuel val s (head s) (head s)
     else remov_loop fuel val s (head s) (head s)) = Ret (found, s')) as (found&s'&R&E).
  { exists found, s'. split; [done|]. rewrite E. simpl. destruct found; [|done].
    destruct R as [[_ S'] _]. erewrite print_spec; [done|exact S'|].
    pose proof (sublist_length _ _ (delete_first_sub val l)). lia. }
  destruct l as [|[a d] l].
  - simpl in S. rewrite S. simpl. destruct fuel as [|fuel]; [simpl in Hf; lia|]. exists false, s.
    split; [|done]. split; [by split|]. split; [|done]. split; [done|by intros ?%elem_of_nil].
  - simpl in S. destruct S as (Eh&Ha&nx&Ea&S). rewrite Eh. zdec. cbn [negb]. unfold load. rewrite Ea. simpl.
    simpl in N. apply NoDup_cons in N as [Na N]. destruct (Z.eqb_spec d val) as [->|Hd].
    + unfold free. rewrite Ea. simpl. eexists true, _. split; [|done]. unfold removed. simpl.
      rewrite Z.eqb_refl. split; [|split; [|split; [|done]]].
      * split; [done|]. by apply lseg_delete.
      * split; [by left|done].
      * intros a' [= <-]. apply lookup_delete_eq.
    + destruct fuel as [|fuel]; [lia|]. simpl. zdec. unfold load. rewrite Ea. simpl. zdec.
      destruct (remov_loop_spec fuel val s [] a d l nx) as (found&s'&->&H1&H2&H3&H4); try done.
      * simpl. by constructor.
      * simpl in Hf. lia.
      * exists found, s'. split; [|done]. unfold removed. simpl. zdec. split; [exact H1|].
        split; [|split; done]. rewrite H2, elem_of_cons. naive_solver.
Qed.

(** An allocated node that is not in the list is linked at its end. *)
Lemma holds_first h t new d :
  new ≠ NULL -> h !! new = Some (mk_node d NULL) -> holds_list (mk_list h new t) [(new, d)].
Proof.
  intros Hn E. split; [by apply NoDup_singleton|]. simpl. do 2 (split; [done|]). by exists NULL.
Qed.

Lemma holds_append h p t l a d new val :
  holds_list (mk_list h p t) (l ++ [(a, d)]) -> new ≠ NULL -> new ∉ (l ++ [(a, d)]).*1 ->
  h !! new = Some (mk_node val NULL) ->
  holds_list (mk_list (<[a := mk_node d new]> h) p t) ((l ++ [(a, d)]) ++ [(new, val)]).
Proof.
  intros [N S] Hn Hl E. simpl in S. apply lseg_app in S as (m&S1&S2). simpl in S2. destruct S2 as (->&Ha&_).
  assert (a ∉ l.*1 /\ a ≠ new) as [Hal Han].
  { rewrite fmap_app in N, Hl. apply NoDup_app in N as (_&D&_). set_solver. }
  split.
  - rewrite fmap_app. apply NoDup_app. split; [done|]. split; [|apply NoDup_singleton].
    intros x Hx ->%list_elem_of_singleton. done.
  - simpl. rewrite <- app_assoc. apply lseg_app. exists a. split; [by apply lseg_insert|].
    simpl. do 2 (split; [done|]). exists new. rewrite lookup_insert_eq. split; [done|].
    do 2 (split; [done|]). exists NULL. by rewrite lookup_insert_ne.
Qed.

(** The node at [a] in a list. *)
Lemma lseg_node h p l a :
  lseg h p l NULL -> a ∈ l.*1 ->
  exists l1 d nx l2, l = l1 ++ (a, d) :: l2 /\ h !! a = Some (mk_node d nx) /\ lseg h nx l2 NULL.
Proof.
  intros S Ha. apply list_elem_of_fmap in Ha as ([a' d]&->&Hin). apply list_elem_of_split in Hin as (l1&l2&->).
  apply lseg_app in S as (m&_&S2). simpl in S2. destruct S2 as (->&_&nx&E&S2). by exists l1, d, nx, l2.
Qed.

Lemma lseg_start h p l : lseg h p l NULL -> p = NULL \/ p ∈ l.*1.
Proof. destruct l as [|[a d] l]; simpl; [by left|]. intros (->&_). right. by left. Qed.

Lemma create_spec fuel val new s l :
  holds_list s l -> new ≠ NULL -> nodes s !! new = None -> (S (length l) < fuel)%nat ->
  exists s', create fuel val new s = Ret ((l ++ [(new, val)]).*2, s') /\ holds_list s' (l ++ [(new, val)]).
Proof.
  intros [N S] Hn Hfree Hf. unfold create. zdec. set (h := <[new:=mk_node val NULL]> (nodes s)).
  assert (new ∉ l.*1) as Hl by (intros (l1&d&nx&l2&_&E&_)%(lseg_node _ _ _ _ S); congruence).
  assert (h !! new = Some (mk_node val NULL)) as En by apply lookup_insert_eq.
  assert (lseg h (head s) l NULL) as S' by by apply lseg_insert.
  enough (exists s', holds_list s' (l ++ [(new, val)]) /\
    (if head s =? NULL then Ret (mk_list h new (tail_ptr s))
     else
       cur ← last_node fuel h (head s);
       n ← load h cur;
       Ret (mk_list (<[cur:=mk_node (n_data n) new]> h) (head s) (tail_ptr s))) = Ret s') as (s'&H&E).
  { exists s'. split; [|done]. rewrite E. simpl. destruct H as [_ S2]. erewrite print_spec; [done|exact S2|].
    rewrite length_app. simpl. lia. }
  destruct (decide (l = [])) as [->|Hne].
  - simpl in S. rewrite S. simpl. eexists. split; [|done]. by apply holds_first.
  - assert (head s ≠ NULL) by (intros E; by apply (lseg_null _ _ _ S) in E). zdec.
    destruct (exists_last Hne) as (l0&[a d]&->).
    rewrite (last_node_spec fuel _ _ l0 a d NULL S' eq_refl); [|rewrite length_app in Hf; lia]. simpl.
    assert (h !! a = Some (mk_node d NULL)) as Ea.
    { apply lseg_app in S' as (m&_&S2). simpl in S2. by destruct S2 as (_&_&nx&Ea&->). }
    unfold load. rewrite Ea. simpl. eexists. split; [|done]. by apply holds_append.
Qed.

(** ** One operation at a time *)
Inductive list_op : Type := Create (val : Z) | Remov (val : Z) | Find (val : Z).

(** What the threads print: the numbers of the list after an insertion, those
    after a removal that found its value, whether a search was successful. *)
Inductive output : Type := Inserted (l : list Z) | Deleted (l : option (list Z)) | Found (b : bool).

Definition do_op (malloc : heap -> Z) (fuel : nat) (o : list_op) (s : list_t) : res (output * list_t) :=
  match o with
  | Create val => '(l, s) ← create fuel val (malloc (nodes s)) s; Ret (Inserted l, s)
  | Remov val => '(l, s) ← remov fuel val (head s) s; Ret (Deleted l, s)
  | Find val => b ← find_from fuel val (nodes s) (head s); Ret (Found b, s)
  end.

Fixpoint do_ops (malloc : heap -> Z) (fuel : nat) (ops : list list_op) (s : list_t) : res (list output * list_t) :=
  match ops with
  | [] => Ret ([], s)
  | o :: ops =>
      '(x, s) ← do_op malloc fuel o s;
      '(xs, s) ← do_ops malloc fuel ops s;
      Ret (x :: xs, s)
  end.

(** The same on a list of numbers. *)
Fixpoint remove_first (val : Z) (l : list Z) : list Z :=
  match l with [] => [] | d :: t => if d =? val then t else d :: remove_first val t end.

Definition spec_op (o : list_op) (l : list Z) : output * list Z :=
  match o with
  | Create val => (Inserted (l ++ [val]), l ++ [val])
  | Remov val =>
      if bool_decide (val ∈ l) then (Deleted (Some (remove_first val l)), remove_first val l)
      else (Deleted None, l)
  | Find val => (Found (bool_decide (val ∈ l)), l)
  end.

Fixpoint spec_ops (ops : list list_op) (l : list Z) : list output * list Z :=
  match ops with
  | [] => ([], l)
  | o :: ops => let '(x, l) := spec_op o l in let '(xs, l) := spec_ops ops l in (x :: xs, l)
  end.

Lemma delete_first_data val l : (delete_first val l).*2 = remove_first val l.*2.
Proof.
  induction l as [|[a d] l IH]; [done|]. cbn [delete_first fmap list_fmap remove_first snd].
  destruct (d =? val); [done|]. by rewrite fmap_cons, IH.
Qed.

Lemma remove_first_none val l : val ∉ l -> remove_first val l = l.
Proof.
  induction l as [|d l IH]; intros H; [done|]. apply not_elem_of_cons in H as [H1 H2]. simpl. zdec. by rewrite IH.
Qed.

Section sequential.
Variable malloc : heap -> Z.
Hypothesis malloc_fresh : forall h, malloc h ≠ NULL /\ h !! malloc h = None.

Lemma do_op_spec fuel o s l :
  holds_list s l -> (S (length l) < fuel)%nat ->
  exists s' l', do_op malloc fuel o s = Ret ((spec_op o l.*2).1, s') /\ holds_list s' l' /\
    l'.*2 = (spec_op o l.*2).2 /\ (length l' <= S (length l))%nat.
Proof.
  intros H Hf. destruct o as [val|val|val]; simpl.
  - destruct (malloc_fresh (nodes s)) as [Hn Hm].
    destruct (create_spec fuel val _ s l H Hn Hm Hf) as (s'&->&H'). simpl.
    exists s', (l ++ [(malloc (nodes s), val)]). rewrite fmap_app. split; [done|]. split; [done|].
    split; [done|]. rewrite length_app. simpl. lia.
  - destruct (remov_spec fuel val s l H) as (found&s'&(R1&R2&R3&R4)&->); [lia|].
    pose proof (sublist_length _ _ (delete_first_sub val l)). exists s', (delete_first val l).
    pose proof (delete_first_data val l) as Ed. destruct found; simpl.
    + rewrite bool_decide_eq_true_2 by by apply R2. simpl. rewrite Ed. do 3 (split; [done|]). lia.
    + assert (val ∉ l.*2) as Hv by (intros Hv; by apply R2 in Hv).
      rewrite bool_decide_eq_false_2 by done. simpl. do 2 (split; [done|]).
      split; [rewrite Ed; by apply remove_first_none|lia].
  - destruct H as [N S]. rewrite (find_spec fuel val (nodes s) (head s) l S) by lia. simpl.
    exists s, l. split; [done|]. split; [done|]. split; [done|lia].
Qed.

(** C36: one at a time, any sequence of insertions, removals and searches behaves
    as on a list of numbers: insertion appends, removal takes out the first
    occurrence, search reports membership, every thread prints what it should; no
    operation touches a node that is not allocated, and all of them return. *)
Theorem list_operations_correct ops s l fuel :
  holds_list s l -> (S (length l + length ops) < fuel)%nat ->
  exists s' l', do_ops malloc fuel ops s = Ret ((spec_ops ops l.*2).1, s') /\ holds_list s' l' /\
    l'.*2 = (spec_ops ops l.*2).2.
Proof.
  revert s l. induction ops as [|o ops IH]; intros s l H Hf; simpl; [by exists s, l|].
  simpl in Hf. destruct (do_op_spec fuel o s l H) as (s1&l1&->&H1&E1&Hl1); [lia|]. simpl.
  destruct (spec_op o l.*2) as [x d1]. simpl in *. subst d1.
  destruct (IH s1 l1 H1) as (s2&l2&->&H2&E2); [lia|]. simpl.
  destruct (spec_ops ops l1.*2) as [xs d2]. simpl in *. by exists s2, l2.
Qed.
End sequential.

(** ** Threads

    The bodies exclude each other where they conflict; a remov or find thread is
    between its read of lst->head and its semaphore when it has a pointer. *)
Record conc : Type := mk_conc { lst : list_t; remov_at : nat -> Z; find_at : nat -> Z }.

Inductive list_action : Type :=
| Insert (val new : Z)
| RemovReads (k : nat)
| RemovRuns (k : nat) (val : Z)
| FindReads (k : nat)
| FindRuns (k : nat) (val : Z).

Definition act (fuel : nat) (a : list_action) (c : conc) : res conc :=
  match a with
  | Insert val new => '(_, s) ← create fuel val new (lst c); Ret (mk_conc s (remov_at c) (find_at c))
  | RemovReads k => Ret (mk_conc (lst c) (<[k := head (lst c)]> (remov_at c)) (find_at c))
  | RemovRuns k val =>
      '(_, s) ← remov fuel val (remov_at c k) (lst c); Ret (mk_conc s (remov_at c) (find_at c))
  | FindReads k => Ret (mk_conc (lst c) (remov_at c) (<[k := head (lst c)]> (find_at c)))
  | FindRuns k val => _ ← find_from fuel val (nodes (lst c)) (find_at c k); Ret c
  end.

Fixpoint acts (fuel : nat) (l : list list_action) (c : conc) : res conc :=
  match l with [] => Ret c | a :: l => c ← act fuel a c; acts fuel l c end.

Definition conc_init : conc := mk_conc initialize (fun _ => NULL) (fun _ => NULL).

(** Remov and find read lst->head before they own a semaphore. If another
    thread removes that node in between, they go on with a freed node: two
    interleavings of the program's threads that access freed memory. *)
Theorem stale_head_is_used :
  acts 9 [Insert 5 100; Insert 7 200; RemovReads 0; RemovReads 1; RemovRuns 0 5; RemovRuns 1 9] conc_init = Bug /\
  acts 9 [Insert 5 100; Insert 7 200; FindReads 0; RemovReads 1; RemovRuns 1 5; FindRuns 0 7] conc_init = Bug.
Proof. split; reflexivity. Qed.

Lemma holds_initialize : holds_list initialize [].
Proof. split; [apply NoDup_nil_2|done]. Qed.

(** malloc: one more than the largest address in use. *)
Definition next_free (h : heap) : Z := 1 + foldr Z.max 0 (map_to_list h).*1.

Lemma next_free_fresh h : next_free h ≠ NULL /\ h !! next_free h = None.
Proof.
  unfold next_free. assert (forall l a, a ∈ l -> a <= foldr Z.max 0 l) as H.
  { intros l. induction l as [|b l IH]; intros a; simpl; [by intros ?%elem_of_nil|].
    intros [->|Ha]%elem_of_cons; [lia|]. specialize (IH a Ha). lia. }
  assert (forall l, 0 <= foldr Z.max 0 l) as H0 by (intros l; induction l; simpl; lia).
  split; [pose proof (H0 (map_to_list h).*1); lia|].
  destruct (h !! _) as [n|] eqn:E; [|done]. exfalso. apply elem_of_map_to_list in E.
  assert (1 + foldr Z.max 0 (map_to_list h).*1 ∈ (map_to_list h).*1) as Hin.
  { apply list_elem_of_fmap. by eexists (_, _). }
  apply H in Hin. lia.
Qed.

Lemma list_operations_correct_witness :
  exists s', do_ops next_free 9 [Create 5; Create 7; Create 5; Find 7; Remov 5; Find 8] initialize =
    Ret ([Inserted [5]; Inserted [5; 7]; Inserted [5; 7; 5]; Found true; Deleted (Some [7; 5]); Found false], s').
Proof.
  destruct (list_operations_correct next_free next_free_fresh
    [Create 5; Create 7; Create 5; Find 7; Remov 5; Find 8] initialize [] 9 holds_initialize)
    as (s'&l'&E&_); [simpl; lia|]. exists s'. exact E.
Defined.
