(* ===== verification/ListThreads.v ===== *)
(** The threads of recitations/concurrency3.c, step by step: searchers, inserters
    and deleters on one list, under the semaphores no_searcher, no_inserter and
    inserter. Each step is one semaphore call or the accesses to one node or to the
    list_t; printing a list is a walk over it, one node per step. An access to
    memory that is not allocated sets [crashed] and ends the run. *)
From stdpp Require Import gmap.
From S2P Require Import Prelude Threads SearchList.

(** find(): reading lst->head and choosing val; sem_wait(no_searcher); the loop;
    sem_post.
    create(): malloc and filling the node; the two sem_waits; testing lst->head;
    setting it; the loop; linking the node; printing the list; the two sem_posts.
    remov(): reading lst->head and choosing val; the two sem_waits; testing the
    first node; freeing it; setting lst->head; the loop; unlinking cur; moving
    lst->tail; freeing cur; printing; the two sem_posts. *)
Inductive lpc : Type :=
| FStart | FWait (tmp val : Z) | FLoop (tmp val : Z) | FPost (val : Z) (found : bool)
| IStart | IWait1 (new : Z) | IWait2 (new : Z) | IHead (new : Z) | ISetHead (new : Z)
| IWalk (new cur : Z) | ILink (new cur : Z) | IPrintHead | IPrint (cur : Z) | IPost1 | IPost2
| RStart | RWait1 (start val : Z) | RWait2 (start val : Z) | RTest (start val : Z)
| RFreeHead (tmp : Z) | RSetHead (tmp : Z) | RLoop (prev cur val : Z) | RUnlink (prev cur : Z)
| RTail (prev cur : Z) | RFree (cur : Z) | RPrintHead | RPrint (cur : Z) | RPost1 | RPost2.

Record world : Type := mk_world {
  lst : list_t;
  no_searcher : Z;
  no_inserter : Z;
  inserter : Z;
  pcs : nat -> lpc;
  crashed : bool;
}.

Definition set_pc (k : nat) (p : lpc) (s : world) : world :=
  mk_world (lst s) (no_searcher s) (no_inserter s) (inserter s) (<[k := p]> (pcs s)) (crashed s).
Definition set_lst (l : list_t) (s : world) : world :=
  mk_world l (no_searcher s) (no_inserter s) (inserter s) (pcs s) (crashed s).
Definition crash (s : world) : world :=
  mk_world (lst s) (no_searcher s) (no_inserter s) (inserter s) (pcs s) true.

Definition set_ns (v : Z) (s : world) : world :=
  mk_world (lst s) v (no_inserter s) (inserter s) (pcs s) (crashed s).
Definition set_ni (v : Z) (s : world) : world :=
  mk_world (lst s) (no_searcher s) v (inserter s) (pcs s) (crashed s).
Definition set_in (v : Z) (s : world) : world :=
  mk_world (lst s) (no_searcher s) (no_inserter s) v (pcs s) (crashed s).

Definition set_nodes (h : heap) (s : world) : world := set_lst (mk_list h (head (lst s)) (tail_ptr (lst s))) s.
Definition set_head (p : Z) (s : world) : world := set_lst (mk_list (nodes (lst s)) p (tail_ptr (lst s))) s.
Definition set_tail (p : Z) (s : world) : world := set_lst (mk_list (nodes (lst s)) (head (lst s)) p) s.

(** Reading the node at [p]; free(p). *)
Definition deref (p : Z) (f : node -> world) (s : world) : world :=
  match nodes (lst s) !! p with Some n => f n | None => crash s end.
Definition free_node (p : Z) (f : world -> world) (s : world) : world :=
  deref p (fun _ => f (set_nodes (delete p (nodes (lst s))) s)) s.

(** find(&list, i); [val] is what random_gen returned. *)
Definition find_step (k : nat) (val : Z) (s : world) : option world :=
  match pcs s k with
  | FStart => Some (set_pc k (FWait (head (lst s)) val) s)
  | FWait tmp val => (fun v => set_pc k (FLoop tmp val) (set_ns v s)) <$> sem_wait (no_searcher s)
  | FLoop tmp val =>
      Some (if tmp =? NULL then set_pc k (FPost val false) s
            else deref tmp (fun n =>
              if n_data n =? val then set_pc k (FPost val true) s else set_pc k (FLoop (n_next n) val) s) s)
  | FPost _ _ => Some (set_pc k FStart (set_ns (sem_post (no_searcher s)) s))
  | _ => None
  end.

(** create(&list, i); [new] is what malloc returned: no node that is in use. *)
Definition create_step (k : nat) (val new : Z) (s : world) : option world :=
  let h := nodes (lst s) in
  match pcs s k with
  | IStart =>
      if new =? NULL then Some (crash s)
      else match h !! new with
        | Some _ => None
        | None => Some (set_pc k (IWait1 new) (set_nodes (<[new := mk_node val NULL]> h) s))
        end
  | IWait1 new => (fun v => set_pc k (IWait2 new) (set_ni v s)) <$> sem_wait (no_inserter s)
  | IWait2 new => (fun v => set_pc k (IHead new) (set_in v s)) <$> sem_wait (inserter s)
  | IHead new => Some (set_pc k (if head (lst s) =? NULL then ISetHead new else IWalk new (head (lst s))) s)
  | ISetHead new => Some (set_pc k IPrintHead (set_head new s))
  | IWalk new cur =>
      Some (deref cur (fun n =>
        set_pc k (if negb (n_next n =? NULL) then IWalk new (n_next n) else ILink new cur) s) s)
  | ILink new cur =>
      Some (deref cur (fun n => set_pc k IPrintHead (set_nodes (<[cur := mk_node (n_data n) new]> h) s)) s)
  | IPrintHead => Some (set_pc k (IPrint (head (lst s))) s)
  | IPrint cur =>
      Some (if negb (cur =? NULL) then deref cur (fun n => set_pc k (IPrint (n_next n)) s) s
            else set_pc k IPost1 s)
  | IPost1 => Some (set_pc k IPost2 (set_in (sem_post (inserter s)) s))
  | IPost2 => Some (set_pc k IStart (set_ni (sem_post (no_inserter s)) s))
  | _ => None
  end.

(** remov(&list, i); [val] is what random_gen returned. *)
Definition remov_step (k : nat) (val : Z) (s : world) : option world :=
  let h := nodes (lst s) in
  match pcs s k with
  | RStart => Some (set_pc k (RWait1 (head (lst s)) val) s)
  | RWait1 start val => (fun v => set_pc k (RWait2 start val) (set_ns v s)) <$> sem_wait (no_searcher s)
  | RWait2 start val => (fun v => set_pc k (RTest start val) (set_ni v s)) <$> sem_wait (no_inserter s)
  | RTest start val =>
      Some (if negb (head (lst s) =? NULL) then
              deref (head (lst s)) (fun n =>
                set_pc k (if n_data n =? val then RFreeHead (n_next n) else RLoop start start val) s) s
            else set_pc k (RLoop start start val) s)
  | RFreeHead tmp => Some (free_node (head (lst s)) (set_pc k (RSetHead tmp)) s)
  | RSetHead tmp => Some (set_pc k RPrintHead (set_head tmp s))
  | RLoop prev cur val =>
      Some (if negb (cur =? NULL) then
              deref cur (fun n =>
                set_pc k (if n_data n =? val then RUnlink prev cur else RLoop cur (n_next n) val) s) s
            else set_pc k RPost1 s)
  | RUnlink prev cur =>
      Some (deref cur (fun n => deref prev (fun p =>
        set_pc k (RTail prev cur) (set_nodes (<[prev := mk_node (n_data p) (n_next n)]> h) s)) s) s)
  | RTail prev cur =>
      Some (set_pc k (RFree cur) (if tail_ptr (lst s) =? cur then set_tail prev s else s))
  | RFree cur => Some (free_node cur (set_pc k RPrintHead) s)
  | RPrintHead => Some (set_pc k (RPrint (head (lst s))) s)
  | RPrint cur =>
      Some (if negb (cur =? NULL) then deref cur (fun n => set_pc k (RPrint (n_next n)) s) s
            else set_pc k RPost1 s)
  | RPost1 => Some (set_pc k RPost2 (set_ns (sem_post (no_searcher s)) s))
  | RPost2 => Some (set_pc k RStart (set_ni (sem_post (no_inserter s)) s))
  | _ => None
  end.

(** The three kinds of threads; each runs its operation for ever. *)
Inductive kind : Type := Searcher | Inserter | Deleter.

Definition start_of (r : kind) : lpc := match r with Searcher => FStart | Inserter => IStart | Deleter => RStart end.

Record list_step : Type := mk_act { who : nat; random : Z; malloced : Z }.

Section ListThreads.
Variables (threads : nat) (role : nat -> kind).

Definition exec (a : list_step) (s : world) : option world :=
  let k := who a in
  if crashed s || negb (k <? threads)%nat then None
  else match role k with
    | Searcher => find_step k (random a) s
    | Inserter => create_step k (random a) (malloced a) s
    | Deleter => remov_step k (random a) s
    end.

Definition initial : world := mk_world initialize 1 1 1 (fun k => start_of (role k)) false.

(** ** The semaphores *)
Definition holds_ns (p : lpc) : bool :=
  match p with
  | FLoop _ _ | FPost _ _ | RWait2 _ _ | RTest _ _ | RFreeHead _ | RSetHead _ | RLoop _ _ _ | RUnlink _ _
  | RTail _ _ | RFree _ | RPrintHead | RPrint _ | RPost1 => true
  | _ => false
  end.
Definition holds_in (p : lpc) : bool :=
  match p with
  | IHead _ | ISetHead _ | IWalk _ _ | ILink _ _ | IPrintHead | IPrint _ | IPost1 => true
  | _ => false
  end.
Definition holds_ni (p : lpc) : bool :=
  match p with
  | IWait2 _ | IPost2 | RTest _ _ | RFreeHead _ | RSetHead _ | RLoop _ _ _ | RUnlink _ _
  | RTail _ _ | RFree _ | RPrintHead | RPrint _ | RPost1 | RPost2 => true
  | p => holds_in p
  end.

(** A semaphore that starts at 1 and is held by the threads in [h]. *)
Definition sem_ok (v : Z) (h : lpc -> bool) (p : nat -> lpc) : Prop :=
  (v = 1 /\ forall k, h (p k) = false) \/
  (v = 0 /\ exists k, h (p k) = true /\ forall j, h (p j) = true -> j = k).

Lemma sem_ok_same v h p k q : sem_ok v h p -> h q = h (p k) -> sem_ok v h (<[k := q]> p).
Proof.
  intros S E. assert (forall j, h (<[k := q]> p j) = h (p j)) as W.
  { intros j. destruct (decide (k = j)) as [<-|]; [by rewrite fn_lookup_insert|by rewrite fn_lookup_insert_ne]. }
  destruct S as [[-> H]|[-> (i&Hi&H)]]; [left|right]; (split; [done|]).
  - intros j. by rewrite W.
  - exists i. rewrite W. split; [done|]. intros j. rewrite W. apply H.
Qed.

Lemma sem_ok_acquire v v' h p k q :
  sem_ok v h p -> sem_wait v = Some v' -> h q = true -> sem_ok v' h (<[k := q]> p).
Proof.
  intros S W Hq. apply sem_wait_Some in W as [Hv ->]. destruct S as [[-> H]|[-> _]]; [|lia].
  right. split; [done|]. exists k. rewrite fn_lookup_insert. split; [done|]. intros j Hj.
  destruct (decide (k = j)) as [->|]; [done|]. rewrite fn_lookup_insert_ne in Hj by done. by rewrite H in Hj.
Qed.

Lemma sem_ok_release v h p k q :
  sem_ok v h p -> h (p k) = true -> h q = false -> sem_ok (sem_post v) h (<[k := q]> p).
Proof.
  intros S Hk Hq. destruct S as [[_ H]|[-> (i&_&H)]]; [by rewrite H in Hk|].
  left. split; [done|]. intros j. destruct (decide (k = j)) as [<-|]; [by rewrite fn_lookup_insert|].
  rewrite fn_lookup_insert_ne by done. destruct (h (p j)) eqn:E; [|done].
  apply H in E as ->. apply H in Hk as ->. done.
Qed.

Lemma sem_ok_unique v h p j k : sem_ok v h p -> h (p j) = true -> h (p k) = true -> j = k.
Proof.
  intros [[_ H]|[_ (i&_&H)]] Hj Hk; [by rewrite H in Hj|]. by rewrite (H j Hj), (H k Hk).
Qed.

(** Which operation a program counter belongs to. *)
Definition kind_of (p : lpc) : kind :=
  match p with
  | FStart | FWait _ _ | FLoop _ _ | FPost _ _ => Searcher
  | IStart | IWait1 _ | IWait2 _ | IHead _ | ISetHead _ | IWalk _ _ | ILink _ _ | IPrintHead | IPrint _
  | IPost1 | IPost2 => Inserter
  | _ => Deleter
  end.

Record excl (s : world) : Prop := {
  ex_ns : sem_ok (no_searcher s) holds_ns (pcs s);
  ex_ni : sem_ok (no_inserter s) holds_ni (pcs s);
  ex_in : sem_ok (inserter s) holds_in (pcs s);
  ex_role k : kind_of (pcs s k) = role k;
  ex_idle k : (threads <= k)%nat -> pcs s k = start_of (role k);
}.

Lemma excl_init : excl initial.
Proof.
  split; try (left; split; [done|]; intros k; simpl; by destruct (role k)); simpl; [|done].
  intros k. by destruct (role k).
Qed.

(** A step of thread [k] from [pcs s k] to [q] that leaves the semaphores as they
    should be. *)
Lemma excl_move s s' k q :
  excl s -> (k < threads)%nat -> pcs s' = <[k := q]> (pcs s) -> kind_of q = kind_of (pcs s k) ->
  sem_ok (no_searcher s') holds_ns (pcs s') -> sem_ok (no_inserter s') holds_ni (pcs s') ->
  sem_ok (inserter s') holds_in (pcs s') -> excl s'.
Proof.
  intros E Hk Ep Hq S1 S2 S3. split; try done; rewrite Ep.
  - intros j. destruct (decide (k = j)) as [<-|].
    + rewrite fn_lookup_insert, Hq. apply E.
    + rewrite fn_lookup_insert_ne by done. apply E.
  - intros j Hj. rewrite fn_lookup_insert_ne by lia. by apply E.
Qed.

Lemma excl_crash s : excl s -> excl (crash s).
Proof. by intros []. Qed.

Lemma deref_inv (P : world -> Prop) a f s : P (crash s) -> (forall n, P (f n)) -> P (deref a f s).
Proof. intros Hc Hf. unfold deref. by destruct (_ !! _). Qed.

(** Steps of thread [k] at a known program counter [C : pcs s k = _]. *)
Ltac excl_move E C :=
  eapply excl_move; [exact E|done|reflexivity|by rewrite C|..]; simpl;
  first [ apply sem_ok_same; [apply E|by rewrite C]
        | eapply sem_ok_acquire; [apply E|eassumption|done]
        | apply sem_ok_release; [apply E|by rewrite C|done] ].

Ltac excl_steps E C :=
  intros [= <-]; repeat first
    [ apply excl_crash; exact E
    | apply deref_inv; [by apply excl_crash|intros ?]
    | match goal with |- context [if ?b then _ else _] => destruct b end ];
  excl_move E C.

Ltac excl_wait E C :=
  match goal with |- _ <$> ?w = _ -> _ => destruct w eqn:?; simpl; [intros [= <-]; excl_move E C|done] end.

Lemma excl_find k val s s' : excl s -> (k < threads)%nat -> find_step k val s = Some s' -> excl s'.
Proof.
  intros E Hk. unfold find_step. destruct (pcs s k) eqn:C; try done; first [excl_wait E C|excl_steps E C].
Qed.

Lemma excl_create k val new s s' : excl s -> (k < threads)%nat -> create_step k val new s = Some s' -> excl s'.
Proof.
  intros E Hk. unfold create_step. destruct (pcs s k) eqn:C; try done; [|first [excl_wait E C|excl_steps E C]..].
  destruct (new =? NULL); [intros [= <-]; by apply excl_crash|]. destruct (_ !! _); [done|]. excl_steps E C.
Qed.

Lemma excl_remov k val s s' : excl s -> (k < threads)%nat -> remov_step k val s = Some s' -> excl s'.
Proof.
  intros E Hk. unfold remov_step, free_node.
  destruct (pcs s k) eqn:C; try done; first [excl_wait E C|excl_steps E C].
Qed.

Lemma excl_step a s s' : excl s -> exec a s = Some s' -> excl s'.
Proof.
  intros E. unfold exec. destruct (crashed s); [done|]. destruct (Nat.ltb_spec (who a) threads); [|done].
  simpl. destruct (role (who a)); [by apply excl_find|by apply excl_create|by apply excl_remov].
Qed.

Lemma excl_reachable s : rtc (tstep exec) initial s -> excl s.
Proof. apply (reach_inv exec excl initial s excl_step excl_init). Qed.

(** *** Nobody waits for ever *)
Definition waits (s : world) (p : lpc) : Prop :=
  match p with
  | FWait _ _ | RWait1 _ _ => no_searcher s = 0
  | IWait1 _ | RWait2 _ _ => no_inserter s = 0
  | IWait2 _ => inserter s = 0
  | _ => False
  end.

Lemma sem_wait_blocked v h p : sem_ok v h p -> sem_wait v = None -> v = 0.
Proof. intros [[-> _]|[-> _]]; done. Qed.

Lemma halted_waits s k :
  excl s -> crashed s = false -> halted exec s -> (k < threads)%nat -> waits s (pcs s k).
Proof.
  intros E Hc H Hk. pose proof (next_free_fresh (nodes (lst s))) as [Hn Hf].
  specialize (H (mk_act k 0 (next_free (nodes (lst s))))). unfold exec in H. rewrite Hc in H.
  simpl in H. rewrite (proj2 (Nat.ltb_lt _ _) Hk) in H. simpl in H. rewrite <- (ex_role _ E k) in H.
  unfold find_step, create_step, remov_step in H.
  destruct (pcs s k); simpl in H |- *; try done;
    try (match type of H with _ <$> ?w = None => destruct w eqn:W end; [done|]; by eapply sem_wait_blocked; [apply E|]).
  rewrite (proj2 (Z.eqb_neq _ _) Hn), Hf in H. done.
Qed.

(** Who holds a semaphore is one of the threads. *)
Lemma holder_exists s k (h : lpc -> bool) :
  excl s -> (forall r, h (start_of r) = false) -> h (pcs s k) = true -> (k < threads)%nat.
Proof.
  intros E H Hk. destruct (Nat.ltb_spec k threads) as [?|Hge]; [done|].
  by rewrite (ex_idle _ E k Hge), H in Hk.
Qed.

Lemma list_not_halted s : (0 < threads)%nat -> excl s -> crashed s = false -> ~ halted exec s.
Proof.
  intros Ht E Hc H. assert (forall k, (k < threads)%nat -> waits s (pcs s k)) as W by by intros; apply halted_waits.
  assert (inserter s = 1) as V3.
  { destruct (ex_in _ E) as [[? _]|[_ (k&Hk&_)]]; [done|].
    pose proof (W k (holder_exists s k holds_in E ltac:(by intros []) Hk)) as Wk. by destruct (pcs s k). }
  assert (no_inserter s = 1) as V2.
  { destruct (ex_ni _ E) as [[? _]|[_ (k&Hk&_)]]; [done|].
    pose proof (W k (holder_exists s k holds_ni E ltac:(by intros []) Hk)) as Wk.
    destruct (pcs s k); simpl in *; try done; congruence. }
  assert (no_searcher s = 1) as V1.
  { destruct (ex_ns _ E) as [[? _]|[_ (k&Hk&_)]]; [done|].
    pose proof (W k (holder_exists s k holds_ns E ltac:(by intros []) Hk)) as Wk.
    destruct (pcs s k); simpl in *; try done; congruence. }
  specialize (W 0%nat Ht). destruct (pcs s 0); simpl in W; try done; congruence.
Qed.

(** C37: in every interleaving of any number of searchers, inserters and deleters,
    the threads between the waits and the posts of a semaphore exclude each other:
    a deleter in its body excludes every searcher and every inserter in theirs. As
    long as no thread has accessed freed memory there is no deadlock: some thread
    can go on. *)
Theorem list_threads_exclude s :
  rtc (tstep exec) initial s ->
  (forall j k, holds_ns (pcs s j) = true -> holds_ns (pcs s k) = true -> j = k) /\
  (forall j k, holds_ni (pcs s j) = true -> holds_ni (pcs s k) = true -> j = k) /\
  ((0 < threads)%nat -> crashed s = false -> ~ halted exec s).
Proof.
  intros E%excl_reachable. split; [|split].
  - intros j k. apply (sem_ok_unique _ holds_ns _ _ _ (ex_ns _ E)).
  - intros j k. apply (sem_ok_unique _ holds_ni _ _ _ (ex_ni _ E)).
  - intros Ht Hc. by apply list_not_halted.
Qed.

(** ** Searchers and inserters *)

(** The node an inserter has yet to link. *)
Definition unlinked (p : lpc) : option Z :=
  match p with
  | IWait1 new | IWait2 new | IHead new | ISetHead new | IWalk new _ | ILink new _ => Some new
  | _ => None
  end.

(** What a thread at [p] knows of the list [l]. *)
Definition knows (l : list (Z * Z)) (p : lpc) : Prop :=
  match p with
  | FWait tmp _ | FLoop tmp _ | IPrint tmp => tmp = NULL \/ tmp ∈ l.*1
  | FPost val found => found = true -> val ∈ l.*2
  | ISetHead _ => l = []
  | IWalk _ cur => cur ∈ l.*1
  | ILink _ cur => exists l0 d, l = l0 ++ [(cur, d)]
  | p => kind_of p = Deleter -> p = RStart
  end.

Record grown (s : world) (l : list (Z * Z)) : Prop := {
  gr_list : holds_list (lst s) l;
  gr_ok : crashed s = false;
  gr_knows k : knows l (pcs s k);
  gr_new k a : unlinked (pcs s k) = Some a ->
    a ≠ NULL /\ a ∉ l.*1 /\ exists d, nodes (lst s) !! a = Some (mk_node d NULL);
  gr_own j k a : unlinked (pcs s j) = Some a -> unlinked (pcs s k) = Some a -> j = k;
}.

(** A step that changes neither the heap nor the list, and no node becomes unlinked. *)
Lemma grown_move s s' k q l :
  grown s l -> lst s' = lst s -> crashed s' = crashed s -> pcs s' = <[k := q]> (pcs s) -> knows l q ->
  (unlinked q = None \/ unlinked q = unlinked (pcs s k)) -> grown s' l.
Proof.
  intros [G1 G2 G3 G4 G5] El Ec Ep Hq Hu.
  assert (forall j a, unlinked (pcs s' j) = Some a -> unlinked (pcs s j) = Some a) as U.
  { intros j a. rewrite Ep. destruct (decide (k = j)) as [<-|]; [|by rewrite fn_lookup_insert_ne].
    rewrite fn_lookup_insert. destruct Hu as [-> | ->]; done. }
  split; rewrite ?El, ?Ec; try done.
  - intros j. rewrite Ep. destruct (decide (k = j)) as [<-|]; [by rewrite fn_lookup_insert|by rewrite fn_lookup_insert_ne].
  - intros j a Hj%U. by apply (G4 j).
  - intros i j a Hi%U Hj%U. by eapply G5.
Qed.

(** malloc gives thread [k] a node. *)
Lemma grown_malloc s k val new l :
  grown s l -> new ≠ NULL -> nodes (lst s) !! new = None -> unlinked (pcs s k) = None ->
  grown (set_pc k (IWait1 new) (set_nodes (<[new := mk_node val NULL]> (nodes (lst s))) s)) l.
Proof.
  intros [[N S] G2 G3 G4 G5] Hn Hf Hk.
  assert (new ∉ l.*1) as Hl by (intros (l1&d&nx&l2&_&E&_)%(lseg_node _ _ _ _ S); congruence).
  assert (forall j, unlinked (pcs s j) ≠ Some new) as Hu.
  { intros j (_&_&d&E)%G4. congruence. }
  split; simpl.
  - split; [done|]. by apply lseg_insert.
  - done.
  - intros j. destruct (decide (k = j)) as [<-|]; [by rewrite fn_lookup_insert|by rewrite fn_lookup_insert_ne].
  - intros j a. destruct (decide (k = j)) as [<-|].
    + rewrite fn_lookup_insert. intros [= <-]. do 2 (split; [done|]). exists val. apply lookup_insert_eq.
    + rewrite fn_lookup_insert_ne by done. intros Hj. destruct (G4 j a Hj) as (?&?&d&E).
      do 2 (split; [done|]). exists d. rewrite lookup_insert_ne; [done|]. intros ->. by apply (Hu j).
  - intros i j a. destruct (decide (k = i)) as [<-|], (decide (k = j)) as [<-|];
      rewrite ?fn_lookup_insert, ?fn_lookup_insert_ne by done; [done|..].
    + intros [= <-] Hj. by destruct (Hu j).
    + intros Hi [= <-]. by destruct (Hu i).
    + apply G5.
Qed.

(** Thread [k], alone among the inserters, links its node: the list grows. *)
Lemma grown_link s k new l h p d :
  grown s l -> excl s -> holds_in (pcs s k) = true -> unlinked (pcs s k) = Some new ->
  nodes (lst s) !! new = Some (mk_node d NULL) ->
  holds_list (mk_list h p (tail_ptr (lst s))) (l ++ [(new, d)]) ->
  (forall a, a ∉ l.*1 -> h !! a = nodes (lst s) !! a) ->
  grown (set_pc k IPrintHead (set_lst (mk_list h p (tail_ptr (lst s))) s)) (l ++ [(new, d)]).
Proof.
  intros [G1 G2 G3 G4 G5] E Hk Hu En Hl Hh. split; simpl; try done.
  - intros j. destruct (decide (k = j)) as [<-|Hj]; [by rewrite fn_lookup_insert|].
    rewrite fn_lookup_insert_ne by done.
    assert (holds_in (pcs s j) = false) as Nj.
    { destruct (holds_in (pcs s j)) eqn:Hin; [|done]. by pose proof (sem_ok_unique _ _ _ _ _ (ex_in _ E) Hk Hin). }
    pose proof (G3 j) as Kj. destruct (pcs s j); simpl in *; rewrite ?fmap_app; try done; try set_solver.
  - intros j a. destruct (decide (k = j)) as [<-|Hj]; [by rewrite fn_lookup_insert|].
    rewrite fn_lookup_insert_ne by done. intros Ua. destruct (G4 j a Ua) as (Ha&Hal&e&Ea).
    assert (a ≠ new) as Hne by (intros ->; apply Hj; by eapply G5).
    split; [done|]. rewrite fmap_app. split; [set_solver|]. exists e. by rewrite Hh.
  - intros i j a. destruct (decide (k = i)) as [<-|]; [by rewrite fn_lookup_insert|].
    destruct (decide (k = j)) as [<-|]; [by rewrite fn_lookup_insert|].
    rewrite !fn_lookup_insert_ne by done. apply G5.
Qed.

(** Reading a node of the list: what it holds, and where its successor is. *)
Lemma grown_deref s l a f :
  grown s l -> a ∈ l.*1 ->
  exists n, deref a f s = f n /\ n_data n ∈ l.*2 /\ (n_next n = NULL \/ n_next n ∈ l.*1) /\
    nodes (lst s) !! a = Some n /\ (n_next n = NULL -> exists l0, l = l0 ++ [(a, n_data n)]).
Proof.
  intros G Ha. destruct (gr_list _ _ G) as [_ S]. destruct (lseg_node _ _ _ _ S Ha) as (l1&d&nx&l2&->&E&S2).
  exists (mk_node d nx). unfold deref. rewrite E. do 1 (split; [done|]). rewrite !fmap_app. simpl.
  split; [set_solver|]. split; [destruct (lseg_start _ _ _ S2); set_solver|]. split; [done|].
  intros ->. exists l1. by rewrite (proj1 (lseg_null _ _ _ S2) eq_refl).
Qed.

Ltac grown_step G C := intros [= <-]; eapply grown_move; [exact G|done..| |rewrite C; by auto].
Ltac grown_wait G C :=
  match goal with |- _ <$> ?w = _ -> _ => destruct w; simpl; [grown_step G C|done] end.

Lemma grown_find k val s s' l : grown s l -> find_step k val s = Some s' -> grown s' l.
Proof.
  intros G. pose proof (gr_knows _ _ G k) as K. unfold find_step. destruct (pcs s k) eqn:C; try done; simpl in K.
  - grown_step G C. simpl. destruct (gr_list _ _ G) as [_ S]. by apply lseg_start in S.
  - grown_wait G C. done.
  - zcase; [grown_step G C; done|]. destruct K as [?|K]; [done|].
    match goal with |- context [deref _ ?f _] => destruct (grown_deref s l tmp f G K) as (x&->&Hd&Hn&_) end.
    destruct (Z.eqb_spec (n_data x) val0) as [<-|]; grown_step G C; simpl; auto.
  - grown_step G C. done.
Qed.

Lemma grown_create k val new s s' l :
  grown s l -> excl s -> new ≠ NULL -> create_step k val new s = Some s' ->
  exists l', grown s' l' /\ l `prefix_of` l'.
Proof.
  intros G E Hn. pose proof (gr_knows _ _ G k) as K. destruct (gr_list _ _ G) as [N S].
  assert (grown s' l -> exists l', grown s' l' /\ l `prefix_of` l') as Same by by exists l.
  assert (forall new d, l `prefix_of` l ++ [(new, d)]) as Grow by (intros; by apply prefix_app_r).
  unfold create_step. destruct (pcs s k) as [| | | | |new0|new0|new0|new0|new0 cur|new0 cur| |cur| | | | | | | | | | | | | | | |] eqn:C;
    try done; simpl in K.
  - zdec. destruct (_ !! _) eqn:F; [done|]. intros [= <-]. apply Same. apply grown_malloc; try done. by rewrite C.
  - intros H. apply Same. revert H. grown_wait G C. done.
  - intros H. apply Same. revert H. grown_wait G C. done.
  - intros H. apply Same. revert H. destruct (Z.eqb_spec (head (lst s)) NULL) as [Hh|Hh]; grown_step G C; simpl.
    + by apply (lseg_null _ _ _ S).
    + by destruct (lseg_start _ _ _ S).
  - intros [= <-]. subst l. destruct (gr_new _ _ G k new0) as (?&?&d&En); [by rewrite C|].
    eexists. split; [|apply (Grow new0 d)]. eapply grown_link; try done; [by rewrite C..|]. by apply holds_first.
  - intros H. apply Same. revert H.
    match goal with |- context [deref _ ?f _] => destruct (grown_deref s l cur f G K) as (x&->&_&Hx&_&Hl) end.
    destruct (Z.eqb_spec (n_next x) NULL) as [E0|]; simpl; grown_step G C; simpl.
    + destruct (Hl E0) as (l0&El). eauto.
    + by destruct Hx.
  - destruct K as (l0&e&El). destruct (gr_new _ _ G k new0) as (Hn0&Hl0&d&En); [by rewrite C|].
    assert (cur ∈ l.*1) as Hcur by (subst l; rewrite fmap_app; set_solver).
    match goal with |- context [deref _ ?f _] => destruct (grown_deref s l cur f G Hcur) as (x&->&_&_&Ec&_) end.
    intros [= <-]. exists (l ++ [(new0, d)]). split; [|apply Grow].
    assert (n_data x = e) as ->.
    { rewrite El in S. apply lseg_app in S as (m&_&S2). simpl in S2. destruct S2 as (_&_&nx&E2&_). by simplify_eq. }
    eapply grown_link; try done; [by rewrite C..| |].
    + subst l. apply holds_append; try done.
    + intros a Ha. apply lookup_insert_ne. by intros ->.
  - intros H. apply Same. revert H. grown_step G C. simpl. by apply lseg_start in S.
  - intros H. apply Same. revert H. destruct (Z.eqb_spec cur NULL); simpl; [grown_step G C; done|].
    destruct K as [?|K]; [done|].
    match goal with |- context [deref _ ?f _] => destruct (grown_deref s l cur f G K) as (x&->&_&Hx&_) end.
    grown_step G C. done.
  - intros H. apply Same. revert H. grown_step G C. done.
  - intros H. apply Same. revert H. grown_step G C. done.
Qed.

(** malloc does not fail. *)
Definition exec_mem (a : list_step) (s : world) : option world :=
  if malloced a =? NULL then None else exec a s.

Section no_deleters.
Hypothesis no_deleter : forall k, role k ≠ Deleter.

Lemma grown_init : grown initial [].
Proof.
  assert (forall k, pcs initial k = FStart \/ pcs initial k = IStart) as P.
  { intros k. simpl. pose proof (no_deleter k). destruct (role k); auto. done. }
  split; [split; [apply NoDup_nil_2|done]|done|..].
  - intros k. by destruct (P k) as [-> | ->].
  - intros k a. by destruct (P k) as [-> | ->].
  - intros j k a. by destruct (P j) as [-> | ->].
Qed.

Lemma grown_step a s s' l :
  grown s l -> excl s -> exec_mem a s = Some s' -> exists l', grown s' l' /\ l `prefix_of` l'.
Proof.
  intros G E. unfold exec_mem, exec. destruct (Z.eqb_spec (malloced a) NULL) as [|Hm]; [done|].
  rewrite (gr_ok _ _ G). destruct (who a <? threads)%nat; [|done]. simpl.
  pose proof (no_deleter (who a)). destruct (role (who a)); [|by apply grown_create|done].
  intros H'. exists l. split; [by eapply grown_find|done].
Qed.

(** C38: searchers and inserters alone, however many and however interleaved, never
    touch memory that is not allocated and always leave a well-formed list. What a
    searcher reports as found is in the list, and from each state on, the list only
    grows at its end. *)
Theorem insert_and_search_are_safe s :
  rtc (tstep exec_mem) initial s ->
  crashed s = false /\ exists l, holds_list (lst s) l /\
    (forall k val, pcs s k = FPost val true -> val ∈ l.*2) /\
    forall s', rtc (tstep exec_mem) s s' ->
      crashed s' = false /\ exists l', holds_list (lst s') l' /\ l `prefix_of` l'.
Proof.
  assert (forall s0 s1 l0, rtc (tstep exec_mem) s0 s1 -> excl s0 -> grown s0 l0 ->
    exists l1, excl s1 /\ grown s1 l1 /\ l0 `prefix_of` l1) as Run.
  { intros s0 s1 l0 R. revert l0. induction R as [s0|s0 s1 s2 [a Ea] _ IH]; intros l0 E G; [by exists l0|].
    destruct (grown_step a s0 s1 l0 G E Ea) as (l1&G1&P1).
    assert (excl s1) as E1 by (unfold exec_mem in Ea; destruct (_ =? _); [done|by eapply excl_step]).
    destruct (IH l1 E1 G1) as (l2&E2&G2&P2). exists l2. do 2 (split; [done|]). by etrans. }
  intros R. destruct (Run _ _ [] R excl_init grown_init) as (l&E&G&_).
  split; [apply G|]. exists l. split; [apply G|]. split.
  - intros k val Hk. pose proof (gr_knows _ _ G k) as K. rewrite Hk in K. by apply K.
  - intros s' R'. destruct (Run _ _ l R' E G) as (l'&_&G'&P). split; [apply G'|]. exists l'. split; [apply G'|done].
Qed.
End no_deleters.
End ListThreads.

(** ** main: two threads of each kind *)
Definition program_role (k : nat) : kind :=
  if (k <? 2)%nat then Inserter else if (k <? 4)%nat then Searcher else Deleter.

Definition steps (k n : nat) (val new : Z) : list list_step := replicate n (mk_act k val new).

(** An insertion into an empty list takes 10 steps. *)
Definition insert_first : list list_step := steps 0 10 5 100.

(** Thread 2 reads lst->head, thread 4 removes that node, thread 2 goes on. *)
Definition stale_search : list list_step := insert_first ++ steps 2 1 7 0 ++ steps 4 9 5 0 ++ steps 2 2 7 0.

(** In the program a thread that uses freed memory is reachable: find reads lst->head
    before it waits for its semaphore. *)
Lemma stale_search_crashes :
  exists s, rtc (tstep (exec 6 program_role)) (initial program_role) s /\ crashed s = true.
Proof.
  assert (ends_in (exec 6 program_role) stale_search (initial program_role) crashed = true) as H by by vm_compute.
  apply ends_in_spec in H as (s&E&H). exists s. split; [by eapply exec_all_reach|done].
Qed.

(** A deleter in its loop, a searcher and an inserter that want in. *)
Lemma list_threads_exclude_witness :
  exists s, rtc (tstep (exec 6 program_role)) (initial program_role) s /\ holds_ns (pcs s 4) = true /\
    (forall j, holds_ns (pcs s j) = true -> j = 4%nat) /\ ~ halted (exec 6 program_role) s.
Proof.
  assert (ends_in (exec 6 program_role) (insert_first ++ steps 2 1 7 0 ++ steps 0 1 6 200 ++ steps 4 4 9 0)
    (initial program_role) (fun s => holds_ns (pcs s 4) && negb (crashed s)) = true) as H by by vm_compute.
  apply ends_in_spec in H as (s&E&H). apply exec_all_reach in E. apply andb_true_iff in H as [H1 H2].
  destruct (list_threads_exclude 6 program_role s E) as (X&_&Y). exists s. split; [exact E|]. split; [exact H1|].
  split; [intros j Hj; exact (X j 4%nat Hj H1)|]. apply Y; [lia|]. by destruct (crashed s).
Defined.

(** Two inserters, two searchers. *)
Definition growing_role (k : nat) : kind := if (k <? 2)%nat then Inserter else Searcher.

Lemma insert_and_search_are_safe_witness :
  exists s, rtc (tstep (exec_mem 4 growing_role)) (initial growing_role) s /\ pcs s 2 = FPost 5 true /\
    crashed s = false /\ exists l, holds_list (lst s) l /\ 5 ∈ l.*2.
Proof.
  assert (forall k, growing_role k ≠ Deleter) as D
    by (intros k; unfold growing_role; by destruct (k <? 2)%nat).
  assert (ends_in (exec_mem 4 growing_role) (insert_first ++ steps 1 6 6 200 ++ steps 2 3 5 1)
    (initial growing_role) (fun s => match pcs s 2 with FPost v true => v =? 5 | _ => false end) = true) as H
    by by vm_compute.
  apply ends_in_spec in H as (s&E&H). apply exec_all_reach in E.
  assert (pcs s 2 = FPost 5 true) as P.
  { destruct (pcs s 2) as [| | |v found| | | | | | | | | | | | | | | | | | | | | | | | |]; try done.
    destruct found; [|done]. by apply Z.eqb_eq in H as ->. }
  destruct (insert_and_search_are_safe 4 growing_role D s E) as (C&l&Hl&F&_).
  exists s. split; [exact E|]. split; [exact P|]. split; [exact C|]. exists l. split; [exact Hl|exact (F 2%nat 5 P)].
Defined.
