(* ===== verification/Barber.v ===== *)
(** The sleeping barber of recitations/concurrency4.c: a barber, a thread that
    creates customers, and the customers, who come again for ever. Each step is
    one access to shared data or one call of the pthread library; printing and
    sleeping leave no trace. current is changed by customers under queue_mutex and
    by the barber under no lock, so its loads and stores are separate steps. *)
From S2P Require Import Prelude Threads.

Definition seats : Z := 4.

(** barber_shop(): the test of current, then locking sleep_mutex, setting
    sleeping, pthread_cond_wait, blocked in it, re-locking, clearing sleeping,
    unlocking; or loading current, storing it decremented, signalling. *)
Inductive bpc : Type :=
| BTest | BLock | BSetSleeping | BWait | BBlocked | BRelock | BClear | BUnlock
| BLoad | BStore (v : Z) | BSignal.

(** waitingRoom() and checkQueue(): locking queue_mutex, loading and storing
    current incremented, the first test; waking the barber, unlocking, locking
    wait_mutex, pthread_cond_wait, blocked in it, re-locking, unlocking; or the
    second test, loading and storing current decremented, unlocking; sleeping. *)
Inductive kpc : Type :=
| KLock | KLoad | KStore (v : Z) | KTest
| KWake | KUnlock | KLockWait | KWait | KBlocked | KRelock | KUnlockWait
| KTest2 | KLeaveLoad | KLeaveStore (v : Z) | KLeaveUnlock
| KSleep.

Record shop : Type := mk_shop {
  current : Z;
  sleeping : Z;
  queue_mutex : option nat;   (* the customer that owns it *)
  wait_mutex : option nat;
  sleep_mutex : bool;         (* only the barber takes it *)
  barber : bpc;
  customer : nat -> kpc;      (* by index in customer[], for the created ones *)
  maker : Z;                  (* i of customer_thread_func *)
  making : bool;              (* customer[i] is yet to be created *)
  outside : bool;             (* an index outside of customer[seats+1] was used *)
}.

(** The barber acts (waking customer [w] if he signals), customer [k] acts, the
    maker of customers acts (finding rand()%2 equal to 1 or not), a thread wakes up
    spuriously. *)
Inductive action : Type := Barber (w : nat) | Customer (k : nat) | Maker (go : bool) | Spurious (k : option nat).

Definition set_current (v : Z) (s : shop) : shop :=
  mk_shop v (sleeping s) (queue_mutex s) (wait_mutex s) (sleep_mutex s) (barber s) (customer s) (maker s) (making s) (outside s).
Definition set_sleeping (v : Z) (s : shop) : shop :=
  mk_shop (current s) v (queue_mutex s) (wait_mutex s) (sleep_mutex s) (barber s) (customer s) (maker s) (making s) (outside s).
Definition set_queue (o : option nat) (s : shop) : shop :=
  mk_shop (current s) (sleeping s) o (wait_mutex s) (sleep_mutex s) (barber s) (customer s) (maker s) (making s) (outside s).
Definition set_wait (o : option nat) (s : shop) : shop :=
  mk_shop (current s) (sleeping s) (queue_mutex s) o (sleep_mutex s) (barber s) (customer s) (maker s) (making s) (outside s).
Definition set_sleep_mutex (b : bool) (s : shop) : shop :=
  mk_shop (current s) (sleeping s) (queue_mutex s) (wait_mutex s) b (barber s) (customer s) (maker s) (making s) (outside s).
Definition goto_b (p : bpc) (s : shop) : shop :=
  mk_shop (current s) (sleeping s) (queue_mutex s) (wait_mutex s) (sleep_mutex s) p (customer s) (maker s) (making s) (outside s).
Definition goto_k (k : nat) (p : kpc) (s : shop) : shop :=
  mk_shop (current s) (sleeping s) (queue_mutex s) (wait_mutex s) (sleep_mutex s) (barber s)
    (<[k := p]> (customer s)) (maker s) (making s) (outside s).

(** Customer [k] was created. *)
Definition last_created (s : shop) : Z := if making s then maker s - 1 else maker s.
Definition created (k : nat) (s : shop) : bool := (0 <? Z.of_nat k) && (Z.of_nat k <=? last_created s).

Definition lock_queue (k : nat) (s : shop) : option shop :=
  match queue_mutex s with None => Some (set_queue (Some k) s) | Some _ => None end.
Definition lock_wait (k : nat) (s : shop) : option shop :=
  match wait_mutex s with None => Some (set_wait (Some k) s) | Some _ => None end.

(** pthread_cond_signal(&barber_active_cond): unblocks a blocked customer, if there is one. *)
Definition is_blocked (p : kpc) : bool := match p with KBlocked => true | _ => false end.
Definition signal_customer (w : nat) (s : shop) : option shop :=
  if existsb (fun k => created k s && is_blocked (customer s k)) (seq 1 (Z.to_nat (last_created s))) then
    if created w s && is_blocked (customer s w) then Some (goto_k w KRelock s) else None
  else Some s.

(** pthread_cond_signal(&barberSleep_cond). *)
Definition signal_barber (s : shop) : shop :=
  match barber s with BBlocked => goto_b BRelock s | _ => s end.

Definition barber_shop (w : nat) (s : shop) : option shop :=
  match barber s with
  | BTest => Some (goto_b (if current s =? 0 then BLock else BLoad) s)
  | BLock => if sleep_mutex s then None else Some (goto_b BSetSleeping (set_sleep_mutex true s))
  | BSetSleeping => Some (goto_b BWait (set_sleeping 1 s))
  | BWait => Some (goto_b BBlocked (set_sleep_mutex false s))
  | BBlocked => None
  | BRelock => if sleep_mutex s then None else Some (goto_b BClear (set_sleep_mutex true s))
  | BClear => Some (goto_b BUnlock (set_sleeping 0 s))
  | BUnlock => Some (goto_b BTest (set_sleep_mutex false s))
  | BLoad => Some (goto_b (BStore (current s - 1)) s)
  | BStore v => Some (goto_b BSignal (set_current v s))
  | BSignal => match signal_customer w s with Some s => Some (goto_b BTest s) | None => None end
  end.

Definition waitingRoom (k : nat) (s : shop) : option shop :=
  match customer s k with
  | KLock => match lock_queue k s with Some s => Some (goto_k k KLoad s) | None => None end
  | KLoad => Some (goto_k k (KStore (current s + 1)) s)
  | KStore v => Some (goto_k k KTest (set_current v s))
  | KTest => Some (goto_k k (if current s <? seats then KWake else KTest2) s)
  | KWake => Some (goto_k k KUnlock (if sleeping s =? 1 then signal_barber s else s))
  | KUnlock => Some (goto_k k KLockWait (set_queue None s))
  | KLockWait => match lock_wait k s with Some s => Some (goto_k k KWait s) | None => None end
  | KWait => Some (goto_k k KBlocked (set_wait None s))
  | KBlocked => None
  | KRelock => match lock_wait k s with Some s => Some (goto_k k KUnlockWait s) | None => None end
  | KUnlockWait => Some (goto_k k KSleep (set_wait None s))
  | KTest2 => Some (goto_k k (if seats <=? current s then KLeaveLoad else KSleep) s)
  | KLeaveLoad => Some (goto_k k (KLeaveStore (current s - 1)) s)
  | KLeaveStore v => Some (goto_k k KLeaveUnlock (set_current v s))
  | KLeaveUnlock => Some (goto_k k KSleep (set_queue None s))
  | KSleep => Some (goto_k k KLock s)
  end.

(** An access to customer[i] or customerAttr[i], arrays of seats + 1 elements. *)
Definition bad_index (i : Z) : bool := (i <? 0) || (seats + 1 <=? i).

(** The loop of customer_thread_func: i++ and pthread_attr_init(&customerAttr[i]),
    then pthread_create(&customer[i], ...) once rand()%2 is 1. *)
Definition customer_thread_func (go : bool) (s : shop) : option shop :=
  let set_maker i m o :=
    mk_shop (current s) (sleeping s) (queue_mutex s) (wait_mutex s) (sleep_mutex s) (barber s) (customer s) i m o in
  if making s then
    Some (if go then set_maker (maker s) false (outside s || bad_index (maker s)) else s)
  else if maker s <? seats + 1 then
    let i := maker s + 1 in Some (set_maker i true (outside s || bad_index i))
  else None.

Definition spurious (k : option nat) (s : shop) : option shop :=
  match k with
  | None => match barber s with BBlocked => Some (goto_b BRelock s) | _ => None end
  | Some k => if created k s && is_blocked (customer s k) then Some (goto_k k KRelock s) else None
  end.

Definition exec (a : action) (s : shop) : option shop :=
  match a with
  | Barber w => barber_shop w s
  | Customer k => if created k s then waitingRoom k s else None
  | Maker go => customer_thread_func go s
  | Spurious k => spurious k s
  end.

(** Without spurious wake-ups. *)
Definition exec_signalled (a : action) (s : shop) : option shop :=
  match a with Spurious _ => None | _ => exec a s end.

Definition initial : shop := mk_shop 0 0 None None false BTest (fun _ => KLock) 0 false false.

(** ** What always holds *)
Definition holds_queue (p : kpc) : bool :=
  match p with
  | KLoad | KStore _ | KTest | KWake | KUnlock | KTest2 | KLeaveLoad | KLeaveStore _ | KLeaveUnlock => true
  | _ => false
  end.
Definition holds_wait (p : kpc) : bool := match p with KWait | KUnlockWait => true | _ => false end.
Definition holds_sleep (p : bpc) : bool :=
  match p with BSetSleeping | BWait | BClear | BUnlock => true | _ => false end.
Definition asleep (p : bpc) : bool := match p with BWait | BBlocked | BRelock | BClear => true | _ => false end.

Record shop_inv (s : shop) : Prop := {
  si_queue k : holds_queue (customer s k) = true -> queue_mutex s = Some k;
  si_wait k : holds_wait (customer s k) = true <-> wait_mutex s = Some k;
  si_sleep : sleep_mutex s = holds_sleep (barber s);
  si_flag : sleeping s = if asleep (barber s) then 1 else 0;
  si_maker : 0 <= last_created s /\ maker s <= seats + 1;
  si_outside : outside s = (seats + 1 <=? maker s);
}.

Lemma shop_inv_init : shop_inv initial.
Proof. by split. Qed.

(** One thread at [k] moves, possibly with a mutex. *)
Ltac at_customer k :=
  intros j; destruct (decide (k = j)) as [<-|];
  rewrite ?fn_lookup_insert, ?fn_lookup_insert_ne by done.

Lemma inv_signal w s s' : shop_inv s -> signal_customer w s = Some s' ->
  shop_inv s' /\ barber s' = barber s /\ sleep_mutex s' = sleep_mutex s /\ sleeping s' = sleeping s.
Proof.
  intros [I1 I2 I3 I4 I5 I6]. unfold signal_customer. destruct (existsb _ _); [|by intros [= <-]].
  destruct (created w s && is_blocked (customer s w)) eqn:E; [|done]. intros [= <-].
  apply andb_true_iff in E as [_ E]. split; [|done]. split; simpl; try done.
  - at_customer w; [done|apply I1].
  - at_customer w; [|apply I2]. specialize (I2 w). destruct (customer s w); simpl in *; try done.
Qed.

Lemma inv_barber w s s' : shop_inv s -> barber_shop w s = Some s' -> shop_inv s'.
Proof.
  intros I E. assert (I' := I). destruct I' as [I1 I2 I3 I4 I5 I6]. unfold barber_shop in E.
  destruct (barber s) eqn:B.
  11: { destruct (signal_customer w s) as [s1|] eqn:G; [|done]. injection E as <-.
    destruct (inv_signal _ _ _ I G) as ([J1 J2 J3 J4 J5 J6]&Eb&Em&Es).
    split; simpl; rewrite ?Em, ?Es; done. }
  all: try destruct (current s =? 0); try destruct (sleep_mutex s) eqn:Sm; try done.
  all: injection E as <-; by split.
Qed.

Lemma inv_wake s : shop_inv s -> shop_inv (signal_barber s).
Proof.
  intros [I1 I2 I3 I4 I5 I6]. unfold signal_barber. destruct (barber s) eqn:B; by split; rewrite ?B.
Qed.

Lemma customer_wake s k : customer (signal_barber s) k = customer s k.
Proof. unfold signal_barber. by destruct (barber s). Qed.

(** A customer that owns the queue, or does not care, moves inside. *)
Lemma inv_goto s k p :
  shop_inv s -> (holds_queue p = true -> queue_mutex s = Some k) ->
  holds_wait p = holds_wait (customer s k) -> shop_inv (goto_k k p s).
Proof.
  intros [I1 I2 I3 I4 I5 I6] Hq Hw. split; simpl; try done.
  - at_customer k; [done|apply I1].
  - at_customer k; [rewrite Hw|]; apply I2.
Qed.

Lemma inv_current s v : shop_inv s -> shop_inv (set_current v s).
Proof. intros []. by split. Qed.

(** A customer takes the queue and goes in, or comes out and gives it back. *)
Lemma inv_enter s k p :
  shop_inv s -> queue_mutex s = None -> holds_wait p = holds_wait (customer s k) ->
  shop_inv (goto_k k p (set_queue (Some k) s)).
Proof.
  intros [I1 I2 I3 I4 I5 I6] Q Hw. split; simpl; try done.
  - at_customer k; [done|]. intros Hj. apply I1 in Hj. congruence.
  - at_customer k; [rewrite Hw|]; apply I2.
Qed.

Lemma inv_leave s k p :
  shop_inv s -> holds_queue (customer s k) = true -> holds_queue p = false ->
  holds_wait p = holds_wait (customer s k) -> shop_inv (goto_k k p (set_queue None s)).
Proof.
  intros [I1 I2 I3 I4 I5 I6] H Hp Hw. specialize (I1 k H) as Hq. split; simpl; try done.
  - at_customer k; [by rewrite Hp|]. intros Hj. apply I1 in Hj. congruence.
  - at_customer k; [rewrite Hw|]; apply I2.
Qed.

(** The same with wait_mutex. *)
Lemma inv_wait s k p :
  shop_inv s -> wait_mutex s = None -> holds_queue p = false -> holds_wait p = true ->
  shop_inv (goto_k k p (set_wait (Some k) s)).
Proof.
  intros [I1 I2 I3 I4 I5 I6] W Hp Hw. split; simpl; try done.
  - at_customer k; [by rewrite Hp|apply I1].
  - at_customer k; [by rewrite Hw|]. rewrite I2, W. split; congruence.
Qed.

Lemma inv_unwait s k p :
  shop_inv s -> holds_wait (customer s k) = true -> holds_queue p = false -> holds_wait p = false ->
  shop_inv (goto_k k p (set_wait None s)).
Proof.
  intros [I1 I2 I3 I4 I5 I6] H%I2 Hp Hw. split; simpl; try done.
  - at_customer k; [by rewrite Hp|apply I1].
  - at_customer k; [by rewrite Hw|]. rewrite I2, H. split; [congruence|done].
Qed.

Lemma inv_customer k s s' : shop_inv s -> waitingRoom k s = Some s' -> shop_inv s'.
Proof.
  intros I E. pose proof (si_queue _ I k) as Hq. unfold waitingRoom, lock_queue, lock_wait in E.
  destruct (customer s k) eqn:C; simpl in Hq; try specialize (Hq eq_refl); try done.
  - destruct (queue_mutex s) eqn:Q; [done|]. injection E as <-. apply inv_enter; [done|done|by rewrite C].
  - injection E as <-. apply inv_goto; [done|done|by rewrite C].
  - injection E as <-. apply inv_goto; [by apply inv_current|done|simpl; by rewrite C].
  - injection E as <-. destruct (_ <? _); (apply inv_goto; [done|done|by rewrite C]).
  - injection E as <-. destruct (_ =? _); [|apply inv_goto; [done|done|by rewrite C]].
    apply inv_goto; [by apply inv_wake| |by rewrite customer_wake, C].
    intros _. unfold signal_barber. by destruct (barber s).
  - injection E as <-. apply inv_leave; [done|by rewrite C|done|by rewrite C].
  - destruct (wait_mutex s) eqn:W; [done|]. injection E as <-. by apply inv_wait.
  - injection E as <-. apply inv_unwait; [done|by rewrite C|done|done].
  - destruct (wait_mutex s) eqn:W; [done|]. injection E as <-. by apply inv_wait.
  - injection E as <-. apply inv_unwait; [done|by rewrite C|done|done].
  - injection E as <-. destruct (seats <=? current s); (apply inv_goto; [done|done|by rewrite C]).
  - injection E as <-. apply inv_goto; [done|done|by rewrite C].
  - injection E as <-. apply inv_goto; [by apply inv_current|done|simpl; by rewrite C].
  - injection E as <-. apply inv_leave; [done|by rewrite C|done|by rewrite C].
  - injection E as <-. apply inv_goto; [done|done|by rewrite C].
Qed.

Lemma inv_maker go s s' : shop_inv s -> customer_thread_func go s = Some s' -> shop_inv s'.
Proof.
  intros [I1 I2 I3 I4 I5 I6]. unfold customer_thread_func, last_created, bad_index, seats in *.
  destruct (making s) eqn:Mk.
  - destruct go; intros [= <-]; [|split; unfold last_created; rewrite ?Mk; done].
    split; unfold last_created, seats; simpl; try done; [lia|]. rewrite I6. repeat zcase; done || lia.
  - destruct (Z.ltb_spec (maker s) (4 + 1)) as [H|]; [|done]. intros [= <-].
    split; unfold last_created, seats; simpl; try done; [lia|]. rewrite I6. repeat zcase; done || lia.
Qed.

Lemma inv_exec a s s' : shop_inv s -> exec a s = Some s' -> shop_inv s'.
Proof.
  intros I. destruct a as [w|k|go|[k|]]; simpl.
  - by apply inv_barber.
  - destruct (created k s); [by apply inv_customer|done].
  - by apply inv_maker.
  - destruct (created k s && is_blocked (customer s k)) eqn:E; [|done]. intros [= <-].
    apply andb_true_iff in E as [_ E]. apply inv_goto; [done|done|]. by destruct (customer s k).
  - destruct I as [I1 I2 I3 I4 I5 I6]. destruct (barber s) eqn:B; try done. intros [= <-].
    by split.
Qed.

(** C32: in every interleaving at most one customer is between locking and
    unlocking queue_mutex in checkQueue and at most one between those of
    wait_mutex, sleeping says whether the barber is inside pthread_cond_wait or
    about to be, and the index of customer[] leaves the array exactly when the
    fifth customer is made. *)
Theorem barber_shop_invariant s :
  rtc (tstep exec) initial s ->
  (forall j k, holds_queue (customer s j) = true -> holds_queue (customer s k) = true -> j = k) /\
  (forall j k, holds_wait (customer s j) = true -> holds_wait (customer s k) = true -> j = k) /\
  (sleeping s = 1 <-> asleep (barber s) = true) /\
  (outside s = true <-> maker s = 5).
Proof.
  intros R. destruct (reach_inv exec shop_inv _ _ inv_exec shop_inv_init R) as [I1 I2 I3 I4 I5 I6].
  split; [|split; [|split]].
  - intros j k Hj%I1 Hk%I1. congruence.
  - intros j k Hj%I2 Hk%I2. congruence.
  - rewrite I4. by destruct (asleep _).
  - rewrite I6. unfold seats in *. zcase; split; intros; (done || lia).
Qed.

(** ** The lost wake-up *)

Definition arrive (k : nat) : list action := replicate 8 (Customer k).

(** The barber has seen an empty shop; three customers come and wait; only then
    does he lie down. *)
Definition oversleep : list action :=
  replicate 6 (Maker true) ++ [Barber 0] ++ arrive 1 ++ arrive 2 ++ arrive 3 ++ replicate 3 (Barber 0).

(** current while its owner is at [p], three customers waiting. *)
Definition current_at (p : kpc) : Z :=
  match p with KTest | KTest2 | KLeaveLoad | KLeaveStore _ => 4 | _ => 3 end.

(** A customer that finds four in the shop turns away. *)
Definition turned_away (p : kpc) : bool :=
  match p with
  | KLock | KLoad | KTest | KTest2 | KLeaveLoad | KLeaveUnlock | KSleep => true
  | KStore v => v =? 4
  | KLeaveStore v => v =? 3
  | _ => false
  end.

Record overslept (s : shop) : Prop := {
  ov_barber : barber s = BBlocked;
  ov_waiting k : (k <= 3)%nat -> created k s = true -> customer s k = KBlocked;
  ov_others k : (3 < k)%nat -> turned_away (customer s k) = true;
  ov_queue k : (3 < k)%nat -> (queue_mutex s = Some k <-> holds_queue (customer s k) = true);
  ov_owner : match queue_mutex s with
    | None => current s = 3
    | Some k => (3 < k)%nat /\ current s = current_at (customer s k)
    end;
  ov_made : 3 <= last_created s;
}.

Lemma created_goto j k p s : created j (goto_k k p s) = created j s.
Proof. done. Qed.

(** The customer [k] moves within the queue's critical section. *)
Lemma overslept_inside s k p v :
  overslept s -> (3 < k)%nat -> queue_mutex s = Some k -> turned_away p = true -> holds_queue p = true ->
  v = current_at p -> overslept (goto_k k p (set_current v s)).
Proof.
  intros [O1 O2 O3 O4 O5 O6] Hk Q Ht Hq ->. split; simpl; try done.
  - intros j Hj. rewrite fn_lookup_insert_ne by lia. by apply O2.
  - at_customer k; auto.
  - at_customer k; [|apply O4]. by rewrite Q, Hq.
  - rewrite Q. by rewrite fn_lookup_insert.
Qed.

(** The customer [k] takes the queue, gives it back, or moves without it. *)
Lemma overslept_enter s k p :
  overslept s -> (3 < k)%nat -> queue_mutex s = None -> turned_away p = true -> holds_queue p = true ->
  current_at p = 3 -> overslept (goto_k k p (set_queue (Some k) s)).
Proof.
  intros [O1 O2 O3 O4 O5 O6] Hk Q Ht Hp Hc. rewrite Q in O5. split; simpl; try done.
  - intros j Hj. rewrite fn_lookup_insert_ne by lia. by apply O2.
  - at_customer k; auto.
  - at_customer k; [done|]. intros Hj. rewrite <- O4, Q by done. split; congruence.
  - by rewrite fn_lookup_insert, Hc.
Qed.

Lemma overslept_leave s k p :
  overslept s -> (3 < k)%nat -> queue_mutex s = Some k -> current s = 3 ->
  turned_away p = true -> holds_queue p = false -> overslept (goto_k k p (set_queue None s)).
Proof.
  intros [O1 O2 O3 O4 O5 O6] Hk Q Hc Ht Hp. split; simpl; try done.
  - intros j Hj. rewrite fn_lookup_insert_ne by lia. by apply O2.
  - at_customer k; auto.
  - at_customer k; [by rewrite Hp|]. intros Hj. rewrite <- O4, Q by done. split; congruence.
Qed.

Lemma overslept_outside s k p :
  overslept s -> (3 < k)%nat -> holds_queue (customer s k) = false -> turned_away p = true -> holds_queue p = false ->
  overslept (goto_k k p s).
Proof.
  intros [O1 O2 O3 O4 O5 O6] Hk H Ht Hp. assert (queue_mutex s ≠ Some k) as Hne by (rewrite O4, H by done; done).
  split; simpl; try done.
  - intros j Hj. rewrite fn_lookup_insert_ne by lia. by apply O2.
  - at_customer k; auto.
  - at_customer k; [rewrite Hp; split; congruence|apply O4].
  - destruct (queue_mutex s) as [j|]; [|done]. by rewrite fn_lookup_insert_ne by congruence.
Qed.

Lemma overslept_customer s k s' : overslept s -> created k s = true -> waitingRoom k s = Some s' -> overslept s'.
Proof.
  intros O Hc E. assert (O' := O). destruct O' as [O1 O2 O3 O4 O5 O6].
  destruct (decide (k <= 3)%nat) as [Hk|Hk]; [unfold waitingRoom in E; by rewrite O2 in E|].
  assert (3 < k)%nat as Hk' by lia. pose proof (O3 k Hk') as Ht.
  assert (set_current (current s) s = s) as Eid by by destruct s.
  assert (holds_queue (customer s k) = true ->
    queue_mutex s = Some k /\ current s = current_at (customer s k)) as Own.
  { intros H. apply O4 in H; [|done]. rewrite H in O5. tauto. }
  unfold waitingRoom, lock_queue, seats in E. destruct (customer s k) eqn:C; simpl in Ht, Own; try done;
    try (destruct (Own eq_refl) as [Q Ec]).
  - destruct (queue_mutex s) eqn:Q; [done|]. injection E as <-. by apply overslept_enter.
  - injection E as <-. rewrite <- Eid. apply overslept_inside; try done. simpl. by rewrite Ec.
  - injection E as <-. apply overslept_inside; try done. simpl. by apply Z.eqb_eq.
  - injection E as <-. rewrite Ec. simpl. rewrite <- Eid. by apply overslept_inside.
  - injection E as <-. rewrite Ec. simpl. rewrite <- Eid. by apply overslept_inside.
  - injection E as <-. rewrite <- Eid. apply overslept_inside; try done. simpl. by rewrite Ec.
  - injection E as <-. apply overslept_inside; try done. simpl. by apply Z.eqb_eq.
  - injection E as <-. by apply overslept_leave.
  - injection E as <-. apply overslept_outside; [done|done|by rewrite C|done|done].
Qed.

Lemma overslept_step a s s' : overslept s -> exec_signalled a s = Some s' -> overslept s'.
Proof.
  intros O. destruct a as [w|k|go|k]; simpl; [| | |done].
  - unfold barber_shop. by rewrite (ov_barber _ O).
  - destruct (created k s) eqn:Hc; [by apply overslept_customer|done].
  - destruct O as [O1 O2 O3 O4 O5 O6]. unfold customer_thread_func, last_created in *.
    assert (forall k, (k <= 3)%nat -> (0 < k)%nat -> customer s k = KBlocked) as W.
    { intros k H3 H0. apply O2; [done|]. unfold created, last_created. do 2 zdec. done. }
    assert (forall k, (0 <? Z.of_nat k) = true -> (0 < k)%nat) as Pos by (intros k H; lia).
    destruct (making s) eqn:Mk.
    + destruct go; intros [= <-]; split; simpl; try done; unfold last_created; rewrite ?Mk; simpl; try done; try lia.
      * intros k Hk Hc. apply andb_true_iff in Hc as [Hc _]. auto.
    + destruct (_ <? _); [|done]. intros [= <-].
      split; simpl; try done; unfold last_created; simpl; try lia.
      intros k Hk Hc. apply andb_true_iff in Hc as [Hc _]. auto.
Qed.

(** Actions of others leave customer [k] where it is. *)
Definition concerns (k : nat) (a : action) : bool :=
  match a with
  | Barber w => bool_decide (w = k)
  | Customer j => bool_decide (j = k)
  | Maker _ => false
  | Spurious o => bool_decide (o = Some k)
  end.

Lemma exec_other a k s s' : concerns k a = false -> exec a s = Some s' -> customer s' k = customer s k.
Proof.
  destruct a as [w|j|go|[j|]]; simpl; intros Hc E; try apply bool_decide_eq_false in Hc.
  - unfold barber_shop, signal_customer in E. destruct (barber s); try destruct (sleep_mutex s);
      try destruct (existsb _ _); try destruct (created w s && _); try done; injection E as <-; try done;
      simpl; by rewrite fn_lookup_insert_ne.
  - destruct (created j s); [|done]. unfold waitingRoom, lock_queue, lock_wait in E.
    assert (forall s0 p, customer (goto_k j p s0) k = customer s0 k) as G
      by (intros s0 p; simpl; by rewrite fn_lookup_insert_ne).
    destruct (customer s j); try destruct (queue_mutex s); try destruct (wait_mutex s);
      try destruct (sleeping s =? 1); try done; injection E as <-; rewrite G; try done; apply customer_wake.
  - unfold customer_thread_func in E. destruct (making s), go; try destruct (_ <? _); by inversion E.
  - destruct (created j s && _); [|done]. injection E as <-. simpl.
    rewrite fn_lookup_insert_ne; [done|]. intros ->. by apply Hc.
  - by destruct (barber s); inversion E.
Qed.

Lemma exec_all_other l k s s' :
  forallb (fun a => negb (concerns k a)) l = true -> exec_all exec l s = Some s' ->
  customer s' k = customer s k.
Proof.
  revert s. induction l as [|a l IH]; intros s H E; simpl in *; [by injection E as ->|].
  apply andb_true_iff in H as [Ha%negb_true_iff H]. destruct (exec a s) as [s1|] eqn:E1; [|done].
  rewrite (IH s1 H E). by eapply exec_other.
Qed.

Lemma run_to l P :
  ends_in exec l initial P = true ->
  exists s, rtc (tstep exec) initial s /\ P s = true /\
    forall k, forallb (fun a => negb (concerns k a)) l = true -> customer s k = KLock.
Proof.
  intros (s&E&H)%ends_in_spec. exists s. split; [by eapply exec_all_reach|]. split; [done|].
  intros k Hk. by rewrite (exec_all_other l k initial s).
Qed.

(** C33: the wake-up can be lost. A state is reachable in which three customers
    wait for the barber, who is blocked waiting for a customer, and it stays so in
    every continuation, however long, as long as nobody wakes up spuriously: the
    customers that come later find four in the shop and leave without looking
    whether he sleeps. *)
Theorem barber_sleeps_forever :
  exists s, rtc (tstep exec) initial s /\ current s = 3 /\
    forall s', rtc (tstep exec_signalled) s s' ->
      barber s' = BBlocked /\ customer s' 1 = KBlocked /\ customer s' 2 = KBlocked /\ customer s' 3 = KBlocked.
Proof.
  destruct (run_to oversleep (fun s =>
    match barber s, queue_mutex s with BBlocked, None => true | _, _ => false end &&
    forallb (fun k => is_blocked (customer s k)) [1; 2; 3]%nat && (current s =? 3) && (last_created s =? 3)))
    as (s&R&H&Others); [by vm_compute|]. exists s. split; [exact R|].
  rewrite !andb_true_iff in H. destruct H as [[[H1 H2] Hc%Z.eqb_eq] Hl%Z.eqb_eq]. split; [done|].
  destruct (barber s) eqn:B; try done. destruct (queue_mutex s) eqn:Q; [done|].
  simpl in H2. rewrite !andb_true_iff in H2. destruct H2 as (W1&W2&W3&_).
  assert (forall k, (3 < k)%nat -> customer s k = KLock) as Later.
  { intros k Hk. apply Others. clear - Hk.
    unfold oversleep, arrive. rewrite !forallb_app. simpl. repeat case_bool_decide; (lia || done). }
  assert (overslept s) as O.
  { split; rewrite ?Q; try done; [| | |lia].
    - intros k Hk Hcr. unfold created in Hcr. apply andb_true_iff in Hcr as [Hcr _].
      assert (forall j, is_blocked (customer s j) = true -> customer s j = KBlocked) as X
        by (intros j; by destruct (customer s j)).
      assert (k = 1 \/ k = 2 \/ k = 3)%nat as [->|[->| ->]] by lia; auto.
    - intros k Hk. by rewrite Later.
    - intros k Hk. by rewrite Later. }
  intros s' R'. pose proof (reach_inv exec_signalled overslept _ _ overslept_step O R') as [O1 O2 _ _ _ O6].
  split; [done|]. unfold created in O2. split; [|split]; apply O2; try lia; do 2 zdec; done.
Qed.

(** ** The queue that stays locked *)

(** The fourth customer finds four in the shop, then three. *)
Definition keep_queue : list action :=
  replicate 8 (Maker true) ++ arrive 1 ++ [Barber 0] ++ arrive 2 ++ arrive 3 ++
  replicate 4 (Customer 4) ++ replicate 2 (Barber 0) ++ replicate 2 (Customer 4).

Definition queue_stuck (s : shop) : Prop := queue_mutex s = Some 4%nat /\ customer s 4 = KLock.

Lemma queue_stuck_step a s s' :
  shop_inv s /\ queue_stuck s -> exec a s = Some s' -> shop_inv s' /\ queue_stuck s'.
Proof.
  intros [I [Q C]] E. split; [by eapply inv_exec|].
  assert (forall j, holds_queue (customer s j) = false) as Out.
  { intros j. destruct (holds_queue (customer s j)) eqn:H; [|done]. pose proof (si_queue _ I j H) as Qj.
    assert (j = 4)%nat as -> by congruence. by rewrite C in H. }
  unfold queue_stuck. destruct a as [w|k|go|[k|]]; simpl in E.
  - unfold barber_shop, signal_customer in E. destruct (barber s); try destruct (sleep_mutex s);
      try destruct (existsb _ _); try destruct (created w s && is_blocked (customer s w)) eqn:W;
      try done; injection E as <-; try done;
      (split; [done|]; simpl; apply andb_true_iff in W as [_ W]; rewrite fn_lookup_insert_ne; [done|];
       intros ->; by rewrite C in W).
  - destruct (created k s); [|done]. pose proof (Out k) as Hk. unfold waitingRoom, lock_queue, lock_wait in E.
    rewrite Q in E. assert (k ≠ 4%nat) as Hne by (intros ->; by rewrite C in E).
    destruct (customer s k); try done; try destruct (wait_mutex s); try done; injection E as <-;
      simpl; rewrite fn_lookup_insert_ne by done; done.
  - unfold customer_thread_func in E. destruct (making s), go; try destruct (_ <? _); inversion E; by subst.
  - destruct (created k s && is_blocked (customer s k)) eqn:W; [|done]. injection E as <-. simpl.
    apply andb_true_iff in W as [_ W]. rewrite fn_lookup_insert_ne; [done|]. intros ->. by rewrite C in W.
  - destruct (barber s); inversion E; by subst.
Qed.

(** CheckQueue tests current twice and forgets to unlock when the second test
    finds a free chair: a state is reachable in which customer 4 owns queue_mutex
    and waits to lock it, and whatever happens from there on, it stays locked, so
    that no customer enters the shop any more. *)
Theorem queue_stays_locked :
  exists s, rtc (tstep exec) initial s /\
    forall s', rtc (tstep exec) s s' ->
      queue_mutex s' = Some 4%nat /\ customer s' 4 = KLock /\ forall k, lock_queue k s' = None.
Proof.
  destruct (run_to keep_queue (fun s =>
    match queue_mutex s, customer s 4 with Some 4%nat, KLock => true | _, _ => false end))
    as (s&R&H&_); [by vm_compute|]. exists s. split; [done|]. intros s' R'.
  assert (queue_stuck s) as Qs.
  { unfold queue_stuck. destruct (queue_mutex s) as [[|[|[|[|[|]]]]]|]; try done.
    by destruct (customer s 4). }
  destruct (reach_inv exec (fun s => shop_inv s /\ queue_stuck s) s s' queue_stuck_step) as [_ [Q C]].
  - split; [|done]. by apply (reach_inv exec shop_inv initial s inv_exec shop_inv_init).
  - done.
  - split; [done|]. split; [done|]. intros k. unfold lock_queue. by rewrite Q.
Qed.

(** ** The lost update *)

(** The barber's store of a stale value, then a customer who turns away. *)
Definition lose_update : list action :=
  replicate 8 (Maker true) ++ arrive 1 ++ replicate 2 (Barber 0) ++ arrive 2 ++ arrive 3 ++
  replicate 5 (Customer 4) ++ [Barber 0] ++ replicate 2 (Customer 4).

(** current can become negative: the barber decrements it without queue_mutex. The
    barber then takes it for a shop with customers. *)
Lemma current_negative :
  exists s, rtc (tstep exec) initial s /\ current s = -1.
Proof.
  destruct (run_to lose_update (fun s => current s =? -1)) as (s&R&H&_); [by vm_compute|].
  exists s. split; [exact R|by apply Z.eqb_eq].
Qed.

(** After one customer has come. *)
Lemma barber_shop_invariant_witness :
  exists s, rtc (tstep exec) initial s /\ current s = 1 /\ (sleeping s = 1 <-> asleep (barber s) = true).
Proof.
  destruct (run_to (replicate 2 (Maker true) ++ arrive 1) (fun s => current s =? 1))
    as (s&R&H&_); [by vm_compute|].
  destruct (barber_shop_invariant s R) as (_&_&Hs&_).
  exists s. split; [exact R|]. split; [by apply Z.eqb_eq|exact Hs].
Defined.
