(* ===== verification/Smokers.v ===== *)
(** The cigarette smokers of recitations/concurrency5.cpp: six smokers (two of a
    kind), three agents who put two items each on the table, and three admins who
    pass an item on. Each step is one call on a semaphore, or an admin's decision
    while it holds admin_lock. Sleeping leaves no trace; of the output, the lines
    "Now making the a cigarette" and "giving out" are kept. The clock is read from a
    set of times that stays a parameter. *)
From S2P Require Import Prelude Threads.

(** smoker(): at sem_timedwait, at sem_post(&agent_lock). *)
Inductive spc : Type := SWait | SPost.
(** agent(): at sem_wait(&agent_lock), at the two sem_posts, at printf. *)
Inductive apc : Type := AWait | APost1 | APost2 | AReport.
(** admin(): at sem_wait on its semaphore, at sem_wait(&admin_lock), at the table,
    at sem_post(&admin_lock). *)
Inductive dpc : Type := DWait | DLock | DTable | DUnlock.

(** [rolled] is not printed: whether sem_timedwait took a unit before. *)
Inductive line : Type := Making (smoker_id : nat) (rolled : bool) | Giving (agent_id : nat).

Record room : Type := mk_room {
  agent_lock : Z;
  admin_lock : Z;
  smoker_semaphors : nat -> Z;
  admin_semaphores : nat -> Z;
  items_available : nat -> bool;
  smokers : nat -> spc;
  agents : nat -> apc;
  admins : nat -> dpc;
  output : list line;       (* last first *)
}.

(** Smoker [k] acts, the clock reading [t] seconds; agent or admin [k] acts. *)
Inductive action : Type := Smoker (k : nat) (t : Z) | Agent (k : nat) | Admin (k : nat).

(** ts.tv_sec: an absolute time, as sem_timedwait takes it. *)
Definition ts : Z := 10.

(** sem_timedwait takes a unit if there is one. Otherwise it blocks until the deadline
    and fails with ETIMEDOUT; the caller does not look at the result, here the boolean. *)
Definition sem_timedwait (v deadline now : Z) : option (Z * bool) :=
  if 0 <? v then Some (v - 1, true) else if deadline <=? now then Some (v, false) else None.

Section Smokers.
(** The times the clock may read while the program runs. *)
Variable times : Z -> bool.

Definition smoker (k : nat) (t : Z) (s : room) : option room :=
  let object_num := (k mod 3)%nat in
  match smokers s k with
  | SWait =>
      match sem_timedwait (smoker_semaphors s object_num) ts t with
      | Some (v, rolled) =>
          Some (mk_room (agent_lock s) (admin_lock s) (<[object_num := v]> (smoker_semaphors s))
            (admin_semaphores s) (items_available s) (<[k := SPost]> (smokers s)) (agents s) (admins s)
            (Making k rolled :: output s))
      | None => None
      end
  | SPost =>
      Some (mk_room (sem_post (agent_lock s)) (admin_lock s) (smoker_semaphors s) (admin_semaphores s)
        (items_available s) (<[k := SWait]> (smokers s)) (agents s) (admins s) (output s))
  end.

Definition agent (k : nat) (s : room) : option room :=
  let goto p lock sems out :=
    mk_room lock (admin_lock s) (smoker_semaphors s) sems (items_available s) (smokers s)
      (<[k := p]> (agents s)) (admins s) out in
  let post i := <[i := sem_post (admin_semaphores s i)]> (admin_semaphores s) in
  match agents s k with
  | AWait =>
      match sem_wait (agent_lock s) with
      | Some v => Some (goto APost1 v (admin_semaphores s) (output s))
      | None => None
      end
  | APost1 => Some (goto APost2 (agent_lock s) (post k) (output s))
  | APost2 => Some (goto AReport (agent_lock s) (post ((k + 1) mod 3)%nat) (output s))
  | AReport => Some (goto AWait (agent_lock s) (admin_semaphores s) (Giving k :: output s))
  end.

(** The decision at the table: the items and the smokers' semaphores after it. *)
Definition admin_table (k : nat) (items : nat -> bool) (sems : nat -> Z) : (nat -> bool) * (nat -> Z) :=
  let i1 := ((k + 1) mod 3)%nat in
  let i2 := ((k + 2) mod 3)%nat in
  if items i1 then (<[i1 := false]> items, <[i2 := sem_post (sems i2)]> sems)
  else if items i2 then (<[i2 := false]> items, <[i1 := sem_post (sems i1)]> sems)
  else (<[k := true]> items, sems).

Definition admin (k : nat) (s : room) : option room :=
  let goto p lock dsems items ssems :=
    mk_room (agent_lock s) lock ssems dsems items (smokers s) (agents s) (<[k := p]> (admins s)) (output s) in
  match admins s k with
  | DWait =>
      match sem_wait (admin_semaphores s k) with
      | Some v => Some (goto DLock (admin_lock s) (<[k := v]> (admin_semaphores s)) (items_available s) (smoker_semaphors s))
      | None => None
      end
  | DLock =>
      match sem_wait (admin_lock s) with
      | Some v => Some (goto DTable v (admin_semaphores s) (items_available s) (smoker_semaphors s))
      | None => None
      end
  | DTable =>
      let '(items, sems) := admin_table k (items_available s) (smoker_semaphors s) in
      Some (goto DUnlock (admin_lock s) (admin_semaphores s) items sems)
  | DUnlock =>
      Some (goto DWait (sem_post (admin_lock s)) (admin_semaphores s) (items_available s) (smoker_semaphors s))
  end.

Definition exec (a : action) (s : room) : option room :=
  match a with
  | Smoker k t => if (k <? 6)%nat && times t then smoker k t s else None
  | Agent k => if (k <? 3)%nat then agent k s else None
  | Admin k => if (k <? 3)%nat then admin k s else None
  end.

(** main, before the threads start. *)
Definition initial : room :=
  mk_room 1 1 (fun _ => 0) (fun _ => 0) (fun _ => false) (fun _ => SWait) (fun _ => AWait) (fun _ => DWait) [].

(** ** What is counted *)
Definition b2z (b : bool) : Z := if b then 1 else 0.
Definition is_posting (p : spc) : Z := match p with SPost => 1 | SWait => 0 end.
Definition is_busy (p : apc) : Z := match p with AWait => 0 | _ => 1 end.
Definition has_item (p : dpc) : Z := match p with DLock | DTable => 1 | _ => 0 end.
Definition at_table (p : dpc) : Z := match p with DTable | DUnlock => 1 | _ => 0 end.

(** Agent [k] still has to put item [i] on the table. *)
Definition pending (i k : nat) (p : apc) : Z :=
  match p with
  | APost1 => b2z ((i =? k)%nat || (i =? (k + 1) mod 3)%nat)
  | APost2 => b2z (i =? (k + 1) mod 3)%nat
  | _ => 0
  end.

Definition sum3 (f : nat -> Z) : Z := f 0%nat + f 1%nat + f 2%nat.
Definition sum6 (f : nat -> Z) : Z := sum3 f + f 3%nat + f 4%nat + f 5%nat.

(** Copies of item [i] on their way from an agent to a smoker. *)
Definition on_the_way (s : room) (i : nat) : Z :=
  admin_semaphores s i + has_item (admins s i) + b2z (items_available s i) +
  sum3 (fun k => pending i k (agents s k)).

(** Copies of item [i] in front of an admin, in the hand of one, on the table. *)
Definition here (s : room) (i : nat) : Z :=
  admin_semaphores s i + has_item (admins s i) + b2z (items_available s i).

(** Agent [k] gives item [i]; it has already put it down. *)
Definition gives (i k : nat) : Z := b2z ((i =? k)%nat || (i =? (k + 1) mod 3)%nat).
Definition posted (i k : nat) (p : apc) : Z :=
  match p with APost2 => b2z (i =? k)%nat | AReport => gives i k | _ => 0 end.

(** The copies of item [i] that the agents have put down. *)
Definition given (l : list line) (i : nat) : Z :=
  sumZ (fun x => match x with Giving k => gives i k | _ => 0 end) l.
Definition items_put (s : room) (i : nat) : Z :=
  given (output s) i + sum3 (fun k => posted i k (agents s k)).

(** Cigarettes of the smokers that have item [j], made from the two other items. *)
Definition rolled (l : list line) (j : nat) : Z :=
  sumZ (fun x => match x with Making k true => b2z (j =? k mod 3)%nat | _ => 0 end) l.

(** The copies of item [i] that went to smokers, who have another item. *)
Definition used (s : room) (i : nat) : Z :=
  sum3 (fun j => if (j =? i)%nat then 0 else smoker_semaphors s j + rolled (output s) j).

Definition cigarettes (l : list line) : Z := sumZ (fun x => match x with Making _ _ => 1 | _ => 0 end) l.
Definition pairs_given (l : list line) : Z := sumZ (fun x => match x with Giving _ => 1 | _ => 0 end) l.

(** *** Sums over the threads *)
Lemma sum3_update {A} (f : nat -> A -> Z) (g : nat -> A) k x :
  (k < 3)%nat -> sum3 (fun j => f j (<[k := x]> g j)) = sum3 (fun j => f j (g j)) - f k (g k) + f k x.
Proof.
  intros Hk. assert (k = 0 \/ k = 1 \/ k = 2)%nat as [->|[->| ->]] by lia; unfold sum3;
    rewrite fn_lookup_insert, !fn_lookup_insert_ne by lia; lia.
Qed.

Lemma sum3_insert (f : nat -> Z) k x : (k < 3)%nat -> sum3 (<[k := x]> f) = sum3 f - f k + x.
Proof. exact (sum3_update (fun _ v => v) f k x). Qed.

Lemma sum6_update {A} (f : A -> Z) (g : nat -> A) k x :
  (k < 6)%nat -> sum6 (fun j => f (<[k := x]> g j)) = sum6 (fun j => f (g j)) - f (g k) + f x.
Proof.
  intros Hk. assert (k = 0 \/ k = 1 \/ k = 2 \/ k = 3 \/ k = 4 \/ k = 5)%nat
    as [->|[->|[->|[->|[->| ->]]]]] by lia; unfold sum6, sum3;
    rewrite fn_lookup_insert, !fn_lookup_insert_ne by lia; lia.
Qed.

Lemma sum3_at f k : (k < 3)%nat -> (forall j, 0 <= f j) -> 0 <= f k <= sum3 f.
Proof.
  intros Hk H. pose proof (H 0%nat). pose proof (H 1%nat). pose proof (H 2%nat). unfold sum3.
  assert (k = 0 \/ k = 1 \/ k = 2)%nat as [->|[->| ->]] by lia; lia.
Qed.

Lemma sum3_nonneg f : (forall j, 0 <= f j) -> 0 <= sum3 f.
Proof. intros H. pose proof (sum3_at f 0 ltac:(lia) H). lia. Qed.

Lemma sum6_nonneg f : (forall j, 0 <= f j) -> 0 <= sum6 f.
Proof.
  intros H. pose proof (sum3_nonneg f H). pose proof (H 3%nat). pose proof (H 4%nat). pose proof (H 5%nat).
  unfold sum6. lia.
Qed.

Lemma b2z_01 b : 0 <= b2z b <= 1.
Proof. by destruct b. Qed.

Lemma pending_01 i k p : 0 <= pending i k p <= 1.
Proof. destruct p; unfold pending; try apply b2z_01; lia. Qed.

Lemma is_posting_01 p : 0 <= is_posting p <= 1.
Proof. by destruct p. Qed.
Lemma has_item_01 p : 0 <= has_item p <= 1.
Proof. by destruct p. Qed.
Lemma at_table_01 p : 0 <= at_table p <= 1.
Proof. by destruct p. Qed.
Lemma is_busy_01 p : 0 <= is_busy p <= 1.
Proof. by destruct p. Qed.

(** *** Whatever the clock reads *)
Record rounds_inv (s : room) : Prop := {
  ri_rounds : agent_lock s + pairs_given (output s) + sum3 (fun k => is_busy (agents s k)) +
    sum6 (fun k => is_posting (smokers s k)) = 1 + cigarettes (output s);
  ri_admins : admin_lock s + sum3 (fun k => at_table (admins s k)) = 1;
  ri_lock : 0 <= agent_lock s;
  ri_admin_lock : 0 <= admin_lock s;
  ri_smoker_sems i : 0 <= smoker_semaphors s i;
  ri_admin_sems i : 0 <= admin_semaphores s i;
}.

Lemma rounds_init : rounds_inv initial.
Proof. by split. Qed.

Lemma sem_timedwait_Some v d t v' b :
  sem_timedwait v d t = Some (v', b) -> 0 <= v ->
  0 <= v' /\ (v' = v - 1 /\ b = true \/ v' = v /\ b = false /\ d <= t).
Proof. unfold sem_timedwait. zcase; [intros [= <- <-]; lia|]. zcase; [|done]. intros [= <- <-]. lia. Qed.

Lemma insert_nonneg (f : nat -> Z) k v : (forall i, 0 <= f i) -> 0 <= v -> forall i, 0 <= <[k := v]> f i.
Proof.
  intros Hf Hv i. destruct (decide (k = i)) as [<-|]; [by rewrite fn_lookup_insert|].
  by rewrite fn_lookup_insert_ne.
Qed.

Lemma admin_table_nonneg k items sems :
  (forall i, 0 <= sems i) -> forall i, 0 <= (admin_table k items sems).2 i.
Proof.
  intros H. unfold admin_table, sem_post. destruct (items ((k + 1) mod 3)%nat); [|destruct (items _)]; simpl;
    try done; apply insert_nonneg; try done; match goal with |- context [sems ?i] => pose proof (H i) end; lia.
Qed.

Lemma rounds_step a s s' : rounds_inv s -> exec a s = Some s' -> rounds_inv s'.
Proof.
  intros [R1 R2 R3 R4 R5 R6]. destruct a as [k t|k|k]; simpl.
  - destruct (Nat.ltb_spec k 6); [|done]. destruct (times t); [|done]. simpl. unfold smoker.
    destruct (smokers s k) eqn:E.
    + destruct (sem_timedwait _ _ _) as [[v b]|] eqn:W; [|done]. intros [= <-].
      apply sem_timedwait_Some in W as [Hv _]; [|done].
      split; simpl; try done; [|by apply insert_nonneg].
      rewrite (sum6_update is_posting), E by done. simpl. lia.
    + intros [= <-]. unfold sem_post. split; simpl; try done; [|lia].
      rewrite (sum6_update is_posting), E by done. simpl. lia.
  - destruct (Nat.ltb_spec k 3); [|done]. unfold agent. destruct (agents s k) eqn:E.
    + destruct (sem_wait (agent_lock s)) as [v|] eqn:W; [|done]. apply sem_wait_Some in W as [? ->].
      intros [= <-]. split; simpl; try done; [|lia].
      rewrite (sum3_update (fun _ => is_busy)), E by done. simpl. lia.
    + intros [= <-]. pose proof (R6 k). unfold sem_post. split; simpl; try done; [|by apply insert_nonneg; [|lia]].
      rewrite (sum3_update (fun _ => is_busy)), E by done. simpl. lia.
    + generalize ((k + 1) mod 3)%nat. intros j [= <-]. pose proof (R6 j). unfold sem_post.
      split; simpl; try done; [|by apply insert_nonneg; [|lia]].
      rewrite (sum3_update (fun _ => is_busy)), E by done. simpl. lia.
    + intros [= <-]. split; simpl; try done.
      rewrite (sum3_update (fun _ => is_busy)), E by done. simpl. lia.
  - destruct (Nat.ltb_spec k 3); [|done]. unfold admin. destruct (admins s k) eqn:E.
    + destruct (sem_wait (admin_semaphores s k)) as [v|] eqn:W; [|done]. apply sem_wait_Some in W as [? ->].
      intros [= <-]. split; simpl; try done; [|by apply insert_nonneg; [|lia]].
      rewrite (sum3_update (fun _ => at_table)), E by done. simpl. lia.
    + destruct (sem_wait (admin_lock s)) as [v|] eqn:W; [|done]. apply sem_wait_Some in W as [? ->].
      intros [= <-]. split; simpl; try done; [|lia].
      rewrite (sum3_update (fun _ => at_table)), E by done. simpl. lia.
    + destruct (admin_table _ _ _) as [items sems] eqn:T. intros [= <-]. split; simpl; try done.
      * rewrite (sum3_update (fun _ => at_table)), E by done. simpl. lia.
      * pose proof (admin_table_nonneg k (items_available s) _ R5) as Hs. by rewrite T in Hs.
    + intros [= <-]. unfold sem_post. split; simpl; try done; [|lia].
      rewrite (sum3_update (fun _ => at_table)), E by done. simpl. lia.
Qed.

(** *** The items, whatever the clock reads *)
Definition one_kind (s : room) : Prop := forall i j, (i < 3)%nat -> (j < 3)%nat -> i ≠ j ->
  items_available s i = true -> items_available s j = false.

Definition balance (s : room) (i : nat) : Z := items_put s i - here s i - used s i.

(** No admin is at the table with an item that lies there already. *)
Definition no_double (s : room) : Prop :=
  forall k, (k < 3)%nat -> admins s k = DTable -> items_available s k = false.

Ltac three k := assert (k = 0 \/ k = 1 \/ k = 2)%nat as [->|[->| ->]] by lia.

Ltac lookups := rewrite ?fn_lookup_insert, ?fn_lookup_insert_ne by lia.

Lemma rolled_making k b l j : rolled (Making k b :: l) j = (if b then b2z (j =? k mod 3)%nat else 0) + rolled l j.
Proof. by destruct b. Qed.
Lemma rolled_giving k l j : rolled (Giving k :: l) j = rolled l j.
Proof. done. Qed.
Lemma given_making k b l i : given (Making k b :: l) i = given l i.
Proof. done. Qed.
Lemma given_giving k l i : given (Giving k :: l) i = gives i k + given l i.
Proof. done. Qed.

Lemma balance_smoker k t s s' i :
  rounds_inv s -> smoker k t s = Some s' -> (i < 3)%nat -> balance s' i = balance s i.
Proof.
  intros R E Hi. assert (k mod 3 < 3)%nat as Hm by (apply Nat.mod_upper_bound; lia).
  unfold smoker in E. cbv zeta in E. remember (k mod 3)%nat as j eqn:Ej. destruct (smokers s k).
  - destruct (sem_timedwait _ _ _) as [[v b]|] eqn:W; [|done]. injection E as <-.
    apply sem_timedwait_Some in W as [_ W]; [|apply R].
    unfold balance, items_put, used, here, sum3. cbn [output agents admins smoker_semaphors admin_semaphores items_available].
    rewrite given_making, !rolled_making, <- !Ej. clear Ej.
    three j; three i; lookups; destruct W as [[-> ->]|(->&->&_)]; simpl; lia.
  - by injection E as <-.
Qed.

Lemma balance_agent k s s' i :
  agent k s = Some s' -> (k < 3)%nat -> (i < 3)%nat -> balance s' i = balance s i.
Proof.
  intros E Hk Hi. unfold agent in E. destruct (agents s k) eqn:Ek.
  - destruct (sem_wait (agent_lock s)); [|done]. injection E as <-.
    unfold balance, items_put, used, here. simpl. rewrite (sum3_update (posted i)), Ek by done. simpl. lia.
  - injection E as <-. unfold balance, items_put, used, here, sem_post. simpl.
    rewrite (sum3_update (posted i)), Ek by done. simpl. three k; three i; lookups; simpl; lia.
  - injection E as <-. unfold balance, items_put, used, here, sem_post. cbn [output agents admins smoker_semaphors admin_semaphores items_available].
    rewrite (sum3_update (posted i)), Ek by done. three k; three i;
      simpl; lookups; unfold gives; simpl; lia.
  - injection E as <-. unfold balance, items_put, used, here, sum3.
    cbn [output agents admins smoker_semaphors admin_semaphores items_available]. rewrite given_giving, !rolled_giving.
    pose proof (sum3_update (posted i) (agents s) k AWait Hk) as U. rewrite Ek in U. unfold sum3 in U. simpl posted in U. lia.
Qed.

(** *** While the deadline is ahead *)
Record tokens_inv (s : room) : Prop := {
  ti_total : sum3 (on_the_way s) +
    2 * (agent_lock s + sum3 (smoker_semaphors s) + sum6 (fun k => is_posting (smokers s k))) = 2;
  ti_one i : (i < 3)%nat -> on_the_way s i <= 1;
  ti_table i j : (i < 3)%nat -> (j < 3)%nat -> i ≠ j ->
    items_available s i = true -> items_available s j = false;
}.

Lemma tokens_init : tokens_inv initial.
Proof. by split. Qed.

Lemma on_the_way_nonneg s i : rounds_inv s -> 0 <= on_the_way s i.
Proof.
  intros R. unfold on_the_way. pose proof (ri_admin_sems _ R i). pose proof (has_item_01 (admins s i)).
  pose proof (b2z_01 (items_available s i)).
  pose proof (sum3_nonneg (fun k => pending i k (agents s k)) (fun k => proj1 (pending_01 i k _))). lia.
Qed.

(** All parts of the total are known not to be negative. *)
Lemma tokens_parts s :
  rounds_inv s -> tokens_inv s ->
  0 <= sum3 (on_the_way s) /\ 0 <= agent_lock s /\ 0 <= sum3 (smoker_semaphors s) /\
  0 <= sum6 (fun k => is_posting (smokers s k)).
Proof.
  intros R T. split; [apply sum3_nonneg; intros; by apply on_the_way_nonneg|].
  split; [apply R|]. split; [apply sum3_nonneg, R|]. apply sum6_nonneg. intros k. apply is_posting_01.
Qed.

(** Where agent [k]'s items are, item by item. *)
Lemma pending_start k : (k < 3)%nat ->
  sum3 (fun i => pending i k APost1) = 2 /\ (forall i, pending i k APost1 <= 1).
Proof.
  intros Hk. split; [|intros i; apply pending_01].
  by assert (k = 0 \/ k = 1 \/ k = 2)%nat as [->|[->| ->]] by lia.
Qed.

Lemma pending_move (sems : nat -> Z) k i : (k < 3)%nat -> (i < 3)%nat ->
  <[k := sems k + 1]> sems i + pending i k APost2 = sems i + pending i k APost1 /\
  <[((k + 1) mod 3)%nat := sems ((k + 1) mod 3)%nat + 1]> sems i + pending i k AReport =
    sems i + pending i k APost2.
Proof.
  intros Hk Hi.
  assert (k = 0 \/ k = 1 \/ k = 2)%nat as [->|[->| ->]] by lia;
  assert (i = 0 \/ i = 1 \/ i = 2)%nat as [->|[->| ->]] by lia;
  repeat match goal with |- context [((?a + 1) mod 3)%nat] =>
    let v := eval vm_compute in ((a + 1) mod 3)%nat in change ((a + 1) mod 3)%nat with v end;
  rewrite ?fn_lookup_insert, ?fn_lookup_insert_ne by lia; simpl; lia.
Qed.

(** The state after a step of an agent, the parts that count. *)
Lemma tokens_agent s k s' :
  rounds_inv s -> tokens_inv s -> (k < 3)%nat -> agent k s = Some s' -> tokens_inv s'.
Proof.
  intros R T Hk E. assert (R' := R). assert (T' := T). destruct T' as [T1 T2 T3], (tokens_parts s R T) as (P1&P2&P3&P4).
  assert (forall s1 p i, agents s1 = <[k := p]> (agents s) -> admins s1 = admins s ->
    items_available s1 = items_available s ->
    on_the_way s1 i = on_the_way s i - admin_semaphores s i - pending i k (agents s k) +
      admin_semaphores s1 i + pending i k p) as W.
  { intros s1 p i Ea Ed Ei. unfold on_the_way. rewrite Ea, Ed, Ei.
    rewrite (sum3_update (pending i)) by done. lia. }
  unfold agent in E. destruct (agents s k) eqn:Ek.
  - destruct (sem_wait (agent_lock s)) as [v|] eqn:Ev; [|done]. apply sem_wait_Some in Ev as [Hv ->].
    injection E as <-. destruct (pending_start k Hk) as [S1 S2].
    assert (forall i, (i < 3)%nat -> on_the_way s i = 0) as Z0.
    { intros i Hi. pose proof (sum3_at (on_the_way s) i Hi (fun j => on_the_way_nonneg s j R)). lia. }
    set (s1 := mk_room _ _ _ _ _ _ _ _ _).
    assert (forall i, (i < 3)%nat -> on_the_way s1 i = pending i k APost1) as W1.
    { intros i Hi. rewrite (W s1 APost1 i) by done. rewrite Z0 by done. simpl. lia. }
    split; [|intros i Hi; rewrite W1; auto|done].
    unfold sum3 at 1. rewrite !W1 by lia. unfold sum3 in S1. rewrite S1. simpl. lia.
  - injection E as <-. set (s1 := mk_room _ _ _ _ _ _ _ _ _).
    assert (forall i, (i < 3)%nat -> on_the_way s1 i = on_the_way s i) as W1.
    { intros i Hi. rewrite (W s1 APost2 i) by done.
      change (admin_semaphores s1 i) with (<[k := admin_semaphores s k + 1]> (admin_semaphores s) i).
      pose proof (pending_move (admin_semaphores s) k i Hk Hi). lia. }
    split; [|intros i Hi; rewrite W1; auto|done].
    unfold sum3 at 1. rewrite !W1 by lia. unfold sum3 at 1 in T1. exact T1.
  - injection E as <-. set (s1 := mk_room _ _ _ _ _ _ _ _ _).
    assert (forall i, (i < 3)%nat -> on_the_way s1 i = on_the_way s i) as W1.
    { intros i Hi. rewrite (W s1 AReport i) by done.
      change (admin_semaphores s1 i) with
        (<[((k + 1) mod 3)%nat := admin_semaphores s ((k + 1) mod 3)%nat + 1]> (admin_semaphores s) i).
      pose proof (pending_move (admin_semaphores s) k i Hk Hi). lia. }
    split; [|intros i Hi; rewrite W1; auto|done].
    unfold sum3 at 1. rewrite !W1 by lia. unfold sum3 at 1 in T1. exact T1.
  - injection E as <-. set (s1 := mk_room _ _ _ _ _ _ _ _ _).
    assert (forall i, on_the_way s1 i = on_the_way s i) as W1.
    { intros i. rewrite (W s1 AWait i) by done. simpl. lia. }
    split; [|intros i Hi; rewrite W1; auto|done].
    unfold sum3 at 1. rewrite !W1 by lia. unfold sum3 at 1 in T1. exact T1.
Qed.

Lemma tokens_same s s1 :
  tokens_inv s -> (forall i, on_the_way s1 i = on_the_way s i) ->
  agent_lock s1 + sum3 (smoker_semaphors s1) + sum6 (fun k => is_posting (smokers s1 k)) =
    agent_lock s + sum3 (smoker_semaphors s) + sum6 (fun k => is_posting (smokers s k)) ->
  items_available s1 = items_available s -> tokens_inv s1.
Proof.
  intros [T1 T2 T3] W E Ei. split.
  - unfold sum3 at 1. rewrite !W, E. unfold sum3 at 1 in T1. exact T1.
  - intros i Hi. rewrite W. auto.
  - rewrite Ei. exact T3.
Qed.

Lemma tokens_smoker s k t s' :
  rounds_inv s -> tokens_inv s -> (k < 6)%nat -> t < ts -> smoker k t s = Some s' -> tokens_inv s'.
Proof.
  intros R T Hk Ht. assert (k mod 3 < 3)%nat as Hm by (apply Nat.mod_upper_bound; lia).
  unfold smoker. cbv zeta. revert Hm. generalize (k mod 3)%nat. intros j Hm. destruct (smokers s k) eqn:E.
  - destruct (sem_timedwait _ _ _) as [[v b]|] eqn:W; [|done]. intros [= <-].
    apply sem_timedwait_Some in W as [Hv [[-> ?]|(_&_&?)]]; [|lia|apply R].
    apply (tokens_same s); [done|done| |done].
    cbn [agent_lock smoker_semaphors smokers].
    rewrite (sum6_update is_posting), E by done. rewrite sum3_insert by done. simpl. lia.
  - intros [= <-]. apply (tokens_same s); [done|done| |done].
    cbn [agent_lock smoker_semaphors smokers]. unfold sem_post.
    rewrite (sum6_update is_posting), E by done. simpl. lia.
Qed.

(** An admin moves outside of the table. *)
Lemma tokens_admin_move s k p lock sems :
  tokens_inv s -> (forall i, sems i + (if decide (k = i) then has_item p else has_item (admins s i)) =
    admin_semaphores s i + has_item (admins s i)) ->
  tokens_inv (mk_room (agent_lock s) lock (smoker_semaphors s) sems (items_available s) (smokers s) (agents s)
    (<[k := p]> (admins s)) (output s)).
Proof.
  intros T H. apply (tokens_same s); [done| |done|done]. intros i. unfold on_the_way. simpl.
  specialize (H i). destruct (decide (k = i)) as [<-|]; [rewrite fn_lookup_insert|rewrite fn_lookup_insert_ne by done];
    lia.
Qed.

(** The decision at the table, for the third item [j]. *)
Lemma admin_table_cases k items sems : (k < 3)%nat ->
  (exists x j, (x < 3)%nat /\ (j < 3)%nat /\ x ≠ k /\ j ≠ k /\ j ≠ x /\ items x = true /\
     admin_table k items sems = (<[x := false]> items, <[j := sems j + 1]> sems)) \/
  (forall x, (x < 3)%nat -> x ≠ k -> items x = false) /\ admin_table k items sems = (<[k := true]> items, sems).
Proof.
  intros Hk. unfold admin_table, sem_post. set (i1 := ((k + 1) mod 3)%nat). set (i2 := ((k + 2) mod 3)%nat).
  assert ((i1 < 3)%nat /\ (i2 < 3)%nat /\ i1 ≠ k /\ i2 ≠ k /\ i1 ≠ i2 /\
    forall x, (x < 3)%nat -> x ≠ k -> x = i1 \/ x = i2) as (H1&H2&H3&H4&H5&H6).
  { assert (k = 0 /\ i1 = 1 /\ i2 = 2 \/ k = 1 /\ i1 = 2 /\ i2 = 0 \/ k = 2 /\ i1 = 0 /\ i2 = 1)%nat; [|repeat split; intros; lia].
    unfold i1, i2. assert (k = 0 \/ k = 1 \/ k = 2)%nat as [->|[->| ->]] by lia; auto 10. }
  destruct (items i1) eqn:E1; [left; exists i1, i2; auto 10|].
  destruct (items i2) eqn:E2; [left; exists i2, i1; auto 10|right].
  split; [|done]. intros x Hx Hxk. destruct (H6 x Hx Hxk) as [->| ->]; done.
Qed.

Lemma sum3_two f g k x : (k < 3)%nat -> (x < 3)%nat -> x ≠ k ->
  f k = g k - 1 -> f x = g x - 1 -> (forall i, (i < 3)%nat -> i ≠ k -> i ≠ x -> f i = g i) ->
  sum3 f = sum3 g - 2.
Proof.
  intros Hk Hx Hne Ek Ex H. unfold sum3.
  assert (k = 0 \/ k = 1 \/ k = 2)%nat as [->|[->| ->]] by lia;
  assert (x = 0 \/ x = 1 \/ x = 2)%nat as [->|[->| ->]] by lia; try done;
  pose proof (H 0%nat); pose proof (H 1%nat); pose proof (H 2%nat); lia.
Qed.

Lemma tokens_table s k items sems :
  rounds_inv s -> tokens_inv s -> (k < 3)%nat -> admins s k = DTable ->
  admin_table k (items_available s) (smoker_semaphors s) = (items, sems) ->
  tokens_inv (mk_room (agent_lock s) (admin_lock s) sems (admin_semaphores s) items (smokers s) (agents s)
    (<[k := DUnlock]> (admins s)) (output s)).
Proof.
  intros R [T1 T2 T3] Hk Ek E. set (s1 := mk_room _ _ _ _ _ _ _ _ _).
  assert (items_available s k = false) as Fk.
  { specialize (T2 k Hk). unfold on_the_way in T2. rewrite Ek in T2. simpl in T2.
    pose proof (ri_admin_sems _ R k). pose proof (sum3_nonneg (fun j => pending k j (agents s j))
      (fun j => proj1 (pending_01 k j _))). destruct (items_available s k); [simpl in T2; lia|done]. }
  destruct (admin_table_cases k (items_available s) (smoker_semaphors s) Hk)
    as [(x&j&Hx&Hj&Hxk&Hjk&Hjx&Fx&E')|[F E']]; rewrite E in E'; injection E' as -> ->.
  - assert (on_the_way s1 k = on_the_way s k - 1) as Wk.
    { unfold on_the_way. simpl. rewrite fn_lookup_insert, fn_lookup_insert_ne by done. rewrite Ek. simpl. lia. }
    assert (on_the_way s1 x = on_the_way s x - 1) as Wx.
    { unfold on_the_way. simpl. rewrite fn_lookup_insert, fn_lookup_insert_ne by done. rewrite Fx. simpl. lia. }
    assert (forall i, i ≠ k -> i ≠ x -> on_the_way s1 i = on_the_way s i) as Wi.
    { intros i Hik Hix. unfold on_the_way. simpl. by rewrite !fn_lookup_insert_ne by done. }
    split.
    + rewrite (sum3_two (on_the_way s1) (on_the_way s) k x) by auto. cbn [agent_lock smoker_semaphors smokers s1].
      rewrite sum3_insert by done. lia.
    + intros i Hi. pose proof (T2 i Hi). destruct (decide (i = k)) as [->|]; [lia|].
      destruct (decide (i = x)) as [->|]; [lia|]. by rewrite Wi.
    + simpl. intros i i' Hi Hi' Hne. destruct (decide (x = i)) as [<-|]; [by rewrite fn_lookup_insert|].
      rewrite fn_lookup_insert_ne by done. intros Fi. specialize (T3 i x Hi Hx). rewrite Fx in T3.
      assert (true = false) by (apply T3; [congruence|done]). done.
  - assert (forall i, on_the_way s1 i = on_the_way s i) as W.
    { intros i. unfold on_the_way. simpl. destruct (decide (k = i)) as [<-|];
        [rewrite !fn_lookup_insert, Ek, Fk; simpl; lia|by rewrite !fn_lookup_insert_ne]. }
    split.
    + unfold sum3 at 1. rewrite !W. unfold sum3 at 1 in T1. exact T1.
    + intros i Hi. rewrite W. auto.
    + simpl. intros i i' Hi Hi' Hne. destruct (decide (k = i)) as [<-|].
      * intros _. rewrite fn_lookup_insert_ne by done. auto.
      * rewrite fn_lookup_insert_ne by done. rewrite F; done.
Qed.

Lemma tokens_admin s k s' :
  rounds_inv s -> tokens_inv s -> (k < 3)%nat -> admin k s = Some s' -> tokens_inv s'.
Proof.
  intros R T Hk. unfold admin. destruct (admins s k) eqn:E.
  - destruct (sem_wait (admin_semaphores s k)) as [v|] eqn:W; [|done]. apply sem_wait_Some in W as [? ->].
    intros [= <-]. apply tokens_admin_move; [done|]. intros i.
    destruct (decide (k = i)) as [<-|]; [rewrite fn_lookup_insert, E; simpl; lia|by rewrite fn_lookup_insert_ne].
  - destruct (sem_wait (admin_lock s)) as [v|]; [|done]. intros [= <-].
    apply tokens_admin_move; [done|]. intros i. by destruct (decide (k = i)) as [<-|]; [rewrite E|].
  - destruct (admin_table _ _ _) as [items sems] eqn:Et. intros [= <-]. by eapply tokens_table.
  - intros [= <-]. apply tokens_admin_move; [done|]. intros i.
    by destruct (decide (k = i)) as [<-|]; [rewrite E|].
Qed.

Lemma rounds_reachable s : rtc (tstep exec) initial s -> rounds_inv s.
Proof. apply (reach_inv exec rounds_inv initial s rounds_step rounds_init). Qed.

Definition deadline_ahead : Prop := forall t, times t = true -> t < ts.

Lemma tokens_step a s s' :
  deadline_ahead -> rounds_inv s /\ tokens_inv s -> exec a s = Some s' -> rounds_inv s' /\ tokens_inv s'.
Proof.
  intros D [R T] E. split; [by eapply rounds_step|]. destruct a as [k t|k|k]; simpl in E;
    destruct (Nat.ltb_spec k 6), (Nat.ltb_spec k 3); simpl in E; try done; try lia.
  - destruct (times t) eqn:Ht; [|done]. by eapply tokens_smoker; eauto.
  - destruct (times t) eqn:Ht; [|done]. by eapply tokens_smoker; eauto.
  - by eapply tokens_agent.
  - by eapply tokens_admin.
Qed.

Lemma tokens_reachable s : deadline_ahead -> rtc (tstep exec) initial s -> rounds_inv s /\ tokens_inv s.
Proof.
  intros D R. apply (reach_inv exec (fun s => rounds_inv s /\ tokens_inv s) initial s).
  - intros a s1 s2. by apply tokens_step.
  - split; [apply rounds_init|apply tokens_init].
  - done.
Qed.

(** *** No deadlock *)
Section halted.
Variables (s : room) (t : Z).
Hypothesis Ht : times t = true.
Hypothesis H : halted exec s.
Hypothesis R : rounds_inv s.

Lemma halted_agent k : (k < 3)%nat -> agents s k = AWait.
Proof.
  intros Hk. specialize (H (Agent k)). simpl in H. rewrite (proj2 (Nat.ltb_lt _ _) Hk) in H.
  unfold agent in H. by destruct (agents s k).
Qed.

Lemma halted_lock : agent_lock s = 0.
Proof.
  pose proof (ri_lock _ R). pose proof (H (Agent 0)) as HS. simpl in HS. unfold agent in HS.
  rewrite halted_agent in HS by lia. unfold sem_wait in HS. destruct (Z.ltb_spec 0 (agent_lock s)); [done|lia].
Qed.

Lemma halted_smoker k : (k < 6)%nat -> smokers s k = SWait.
Proof.
  intros Hk. specialize (H (Smoker k t)). simpl in H. rewrite (proj2 (Nat.ltb_lt _ _) Hk), Ht in H.
  simpl in H. unfold smoker in H. by destruct (smokers s k).
Qed.

Lemma halted_smoker_sem k : (k < 3)%nat -> smoker_semaphors s k = 0.
Proof.
  intros Hk. pose proof (ri_smoker_sems _ R k). pose proof (H (Smoker k t)) as HS. simpl in HS.
  rewrite (proj2 (Nat.ltb_lt k 6)), Ht in HS by lia. unfold smoker in HS. cbv zeta in HS.
  rewrite Nat.mod_small, halted_smoker in HS by lia. simpl in HS. unfold sem_timedwait in HS.
  destruct (Z.ltb_spec 0 (smoker_semaphors s k)); [done|lia].
Qed.

Lemma halted_admin k : (k < 3)%nat -> admins s k = DWait.
Proof.
  intros Hk. assert (forall j, (j < 3)%nat -> at_table (admins s j) = 0) as Z0.
  { intros j Hj. pose proof (H (Admin j)) as HS. simpl in HS. rewrite (proj2 (Nat.ltb_lt _ _) Hj) in HS.
    unfold admin in HS. destruct (admins s j); try done. by destruct (admin_table _ _ _). }
  pose proof (ri_admins _ R) as Ra. unfold sum3 in Ra. rewrite !Z0 in Ra by lia.
  pose proof (Z0 k Hk). pose proof (H (Admin k)) as HS. simpl in HS.
  rewrite (proj2 (Nat.ltb_lt _ _) Hk) in HS. unfold admin in HS.
  destruct (admins s k); try done. unfold sem_wait in HS. by destruct (Z.ltb_spec 0 (admin_lock s)); [|lia].
Qed.

Lemma halted_admin_sem k : (k < 3)%nat -> admin_semaphores s k = 0.
Proof.
  intros Hk. pose proof (ri_admin_sems _ R k). pose proof (H (Admin k)) as HS. simpl in HS.
  rewrite (proj2 (Nat.ltb_lt _ _) Hk) in HS. unfold admin in HS. rewrite halted_admin in HS by done.
  unfold sem_wait in HS. destruct (Z.ltb_spec 0 (admin_semaphores s k)); [done|lia].
Qed.

Lemma halted_way k : (k < 3)%nat -> on_the_way s k = b2z (items_available s k).
Proof.
  intros Hk. unfold on_the_way, sum3. rewrite halted_admin_sem, halted_admin, !halted_agent by lia. simpl. lia.
Qed.
End halted.

Lemma not_halted s t : times t = true -> rounds_inv s -> tokens_inv s -> ~ halted exec s.
Proof.
  intros Ht R [T1 _ T3] H. unfold sum6, sum3 in T1.
  rewrite !(halted_way s) in T1 by (done || lia).
  rewrite (halted_lock s), !(halted_smoker_sem s t), !(halted_smoker s t) in T1 by (done || lia).
  pose proof (T3 0%nat 1%nat ltac:(lia) ltac:(lia) ltac:(lia)).
  pose proof (T3 0%nat 2%nat ltac:(lia) ltac:(lia) ltac:(lia)).
  pose proof (T3 1%nat 2%nat ltac:(lia) ltac:(lia) ltac:(lia)).
  destruct (items_available s 0%nat), (items_available s 1%nat), (items_available s 2%nat);
    simpl in T1; try lia; intuition done.
Qed.

(** *** The admins and the items *)
Lemma balance_admin k s s' i :
  admin k s = Some s' -> (k < 3)%nat -> (i < 3)%nat ->
  balance s i <= balance s' i /\ (no_double s -> balance s' i = balance s i).
Proof.
  intros E Hk Hi. unfold admin in E. destruct (admins s k) eqn:Ek.
  - destruct (sem_wait (admin_semaphores s k)) as [v|] eqn:W; [|done]. apply sem_wait_Some in W as [_ ->].
    injection E as <-. unfold balance, items_put, used, here. simpl.
    destruct (decide (k = i)) as [<-|]; [rewrite !fn_lookup_insert, Ek|rewrite !fn_lookup_insert_ne by done]; simpl; lia.
  - destruct (sem_wait (admin_lock s)); [|done]. injection E as <-. unfold balance, items_put, used, here. simpl.
    destruct (decide (k = i)) as [<-|]; [rewrite !fn_lookup_insert, Ek|rewrite !fn_lookup_insert_ne by done]; simpl; lia.
  - destruct (admin_table _ _ _) as [items sems] eqn:T. injection E as <-.
    destruct (admin_table_cases k (items_available s) (smoker_semaphors s) Hk)
      as [(x&j&Hx&Hj&Hxk&Hjk&Hjx&Fx&E')|[_ E']]; rewrite T in E'; injection E' as -> ->;
      unfold balance, items_put, used, here, sum3; cbn [output agents admins smoker_semaphors admin_semaphores items_available].
    + three k; three x; try done; three j; try done; three i; lookups; rewrite ?Ek, ?Fx; simpl; lia.
    + destruct (decide (k = i)) as [<-|]; [rewrite !fn_lookup_insert, Ek|rewrite !fn_lookup_insert_ne by done]; [|lia].
      pose proof (b2z_01 (items_available s k)). simpl. split; [lia|].
      intros D. rewrite (D k Hk Ek). simpl. lia.
  - injection E as <-. unfold balance, items_put, used, here. simpl.
    destruct (decide (k = i)) as [<-|]; [rewrite !fn_lookup_insert, Ek|rewrite !fn_lookup_insert_ne by done]; simpl; lia.
Qed.

Lemma balance_step a s s' i :
  rounds_inv s -> exec a s = Some s' -> (i < 3)%nat ->
  balance s i <= balance s' i /\ (no_double s -> balance s' i = balance s i).
Proof.
  intros R E Hi. destruct a as [k t|k|k]; simpl in E.
  - destruct (_ && _); [|done]. rewrite (balance_smoker k t s s' i) by done. lia.
  - destruct (Nat.ltb_spec k 3); [|done]. rewrite (balance_agent k s s' i) by done. lia.
  - destruct (Nat.ltb_spec k 3); [|done]. by apply (balance_admin k).
Qed.

Lemma one_kind_step a s s' : one_kind s -> exec a s = Some s' -> one_kind s'.
Proof.
  intros O E. destruct a as [k t|k|k]; simpl in E.
  - destruct (_ && _); [|done]. unfold smoker in E. destruct (smokers s k); [|by injection E as <-].
    destruct (sem_timedwait _ _ _) as [[]|]; [|done]. by injection E as <-.
  - destruct (k <? 3)%nat; [|done]. unfold agent in E.
    destruct (agents s k); [destruct (sem_wait _); [|done]|..]; by injection E as <-.
  - destruct (Nat.ltb_spec k 3) as [Hk|]; [|done]. unfold admin in E. destruct (admins s k).
    1-2: destruct (sem_wait _); [|done]. 1, 2, 4: by injection E as <-.
    destruct (admin_table _ _ _) as [items sems] eqn:T. injection E as <-.
    destruct (admin_table_cases k (items_available s) (smoker_semaphors s) Hk)
      as [(x&j&Hx&_&_&_&_&Fx&E')|[F E']]; rewrite T in E'; injection E' as -> ->; intros i i' Hi Hi' Hne; simpl.
    + destruct (decide (x = i)) as [<-|]; [by rewrite fn_lookup_insert|]. rewrite fn_lookup_insert_ne by done.
      intros Fi. pose proof (O i x Hi Hx) as C. rewrite Fx in C. discriminate C; congruence.
    + destruct (decide (k = i)) as [<-|].
      * intros _. rewrite fn_lookup_insert_ne by done. auto.
      * rewrite fn_lookup_insert_ne by done. rewrite F; done.
Qed.

(** What holds in every reachable state, and what does while the deadline is ahead. *)
Record items_inv (s : room) : Prop := {
  it_rounds : rounds_inv s;
  it_kind : one_kind s;
  it_balance i : (i < 3)%nat -> 0 <= balance s i;
}.

Lemma items_reachable s : rtc (tstep exec) initial s -> items_inv s.
Proof.
  apply (reach_inv exec items_inv initial s).
  - intros a s1 s2 [R O B] E. split; [by eapply rounds_step|by eapply one_kind_step|].
    intros i Hi. pose proof (B i Hi). pose proof (balance_step a s1 s2 i R E Hi). lia.
  - split; [apply rounds_init|done|]. intros i Hi. by three i.
Qed.

Lemma tokens_no_double s : rounds_inv s -> tokens_inv s -> no_double s.
Proof.
  intros R T k Hk Ek. pose proof (ti_one _ T k Hk) as T2. unfold on_the_way in T2. rewrite Ek in T2. simpl in T2.
  pose proof (ri_admin_sems _ R k). pose proof (sum3_nonneg (fun j => pending k j (agents s j))
    (fun j => proj1 (pending_01 k j _))). destruct (items_available s k); [simpl in T2; lia|done].
Qed.

(** Every cigarette was made with a unit of the smoker's semaphore. *)
Definition all_rolled (s : room) : Prop := sum3 (rolled (output s)) = cigarettes (output s).

Lemma all_rolled_step a s s' :
  deadline_ahead -> rounds_inv s -> all_rolled s -> exec a s = Some s' -> all_rolled s'.
Proof.
  intros D R A E. unfold all_rolled in *. destruct a as [k t|k|k]; simpl in E.
  - destruct (_ && _) eqn:Ht; [|done]. apply andb_true_iff in Ht as [_ Ht]. specialize (D t Ht).
    assert (k mod 3 < 3)%nat as Hm by (apply Nat.mod_upper_bound; lia).
    unfold smoker in E. cbv zeta in E. destruct (smokers s k); [|by injection E as <-].
    destruct (sem_timedwait _ _ _) as [[v b]|] eqn:W; [|done]. injection E as <-.
    apply sem_timedwait_Some in W as [_ [[_ ->]|(_&_&?)]]; [|lia|apply R].
    cbn [output]. unfold sum3 in *. rewrite !rolled_making. change (cigarettes (Making k true :: output s)) with (1 + cigarettes (output s)).
    rewrite <- A. revert Hm. generalize (k mod 3)%nat. intros j Hm. three j; simpl; lia.
  - destruct (k <? 3)%nat; [|done]. unfold agent in E.
    destruct (agents s k); [destruct (sem_wait _); [|done]|..]; injection E as <-; exact A.
  - destruct (k <? 3)%nat; [|done]. unfold admin in E. destruct (admins s k).
    1-2: destruct (sem_wait _); [|done]. 3: destruct (admin_table _ _ _). all: injection E as <-; exact A.
Qed.

Lemma exact_reachable s : deadline_ahead -> rtc (tstep exec) initial s ->
  rounds_inv s /\ tokens_inv s /\ all_rolled s /\ forall i, (i < 3)%nat -> balance s i = 0.
Proof.
  intros D Hr. apply (reach_inv exec (fun s => rounds_inv s /\ tokens_inv s /\ all_rolled s /\
    forall i, (i < 3)%nat -> balance s i = 0) initial s); [| |done].
  - intros a s1 s2 (R&T&A&B) E. destruct (tokens_step a s1 s2 D (conj R T) E) as [R' T'].
    split; [done|]. split; [done|]. split; [by apply (all_rolled_step a s1 s2)|]. intros i Hi.
    rewrite <- (B i Hi). apply (balance_step a s1 s2 i R E Hi). by apply tokens_no_double.
  - split; [apply rounds_init|]. split; [apply tokens_init|]. split; [done|]. intros i Hi. by three i.
Qed.

(** C30: whatever the clock reads, in every interleaving: at most one admin is at the
    table, and at most one kind of item lies on it; of every kind of item, the copies
    that wait for an admin, are in the hand of one or lie on the table, together with
    those passed on, one for each cigarette made or about to be made by the two kinds
    of smokers who lack it, are no more than the agents have put down: but for
    cigarettes made after a timeout, none is made of items that were not there; and
    the turns of agent_lock are accounted for, one per cigarette and one to start
    with. While the deadline of sem_timedwait is ahead, moreover, no item is ever lost,
    every cigarette is made of two items, agent_lock is at most 1, and there is no
    deadlock. *)
Theorem smokers_conserve_items s :
  rtc (tstep exec) initial s ->
  (admin_lock s + sum3 (fun k => at_table (admins s k)) = 1 /\ 0 <= admin_lock s) /\
  (forall i j, (i < 3)%nat -> (j < 3)%nat -> i ≠ j ->
     items_available s i = true -> items_available s j = false) /\
  (forall i, (i < 3)%nat -> 0 <= here s i /\ 0 <= used s i /\ here s i + used s i <= items_put s i) /\
  agent_lock s + pairs_given (output s) + sum3 (fun k => is_busy (agents s k)) +
    sum6 (fun k => is_posting (smokers s k)) = 1 + cigarettes (output s) /\
  (deadline_ahead ->
     (forall i, (i < 3)%nat -> here s i + used s i = items_put s i) /\
     sum3 (rolled (output s)) = cigarettes (output s) /\
     0 <= agent_lock s <= 1 /\
     (forall t, times t = true -> ~ halted exec s)).
Proof.
  intros Hr. destruct (items_reachable s Hr) as [R O B].
  split; [split; apply R|]. split; [exact O|]. split; [|split; [apply R|]].
  - intros i Hi. specialize (B i Hi). unfold balance in B.
    assert (forall j, 0 <= rolled (output s) j) as Hrl.
    { intros j. apply sumZ_nonneg. intros [k [] |k] _; [apply b2z_01|done..]. }
    pose proof (ri_admin_sems _ R i). pose proof (has_item_01 (admins s i)). pose proof (b2z_01 (items_available s i)).
    split; [unfold here; lia|]. split; [|lia]. apply sum3_nonneg. intros j.
    pose proof (ri_smoker_sems _ R j). pose proof (Hrl j). destruct (j =? i)%nat; lia.
  - intros D. destruct (exact_reachable s D Hr) as (_&T&A&Z0). split; [|split; [exact A|split]].
    + intros i Hi. specialize (Z0 i Hi). unfold balance in Z0. lia.
    + destruct (tokens_parts s R T) as (?&?&?&?). pose proof (ti_total _ T). lia.
    + intros t Ht. by eapply not_halted.
Qed.

(** One smoker alone, the deadline passed. *)
Lemma smoker_alone t s n :
  times t = true -> ts <= t ->
  agent_lock s = 1 + Z.of_nat n -> smokers s 0 = SWait -> smoker_semaphors s 0 = 0 -> output s = replicate n (Making 0 false) ->
  exists s', exec_all exec [Smoker 0 t; Smoker 0 t] s = Some s' /\
    agent_lock s' = 1 + Z.of_nat (S n) /\ smokers s' 0 = SWait /\ smoker_semaphors s' 0 = 0 /\
    output s' = replicate (S n) (Making 0 false).
Proof.
  intros Ht Hts El Es Em Eo. simpl. rewrite Ht. simpl. unfold smoker at 1. rewrite Es. simpl. rewrite Em.
  unfold sem_timedwait. rewrite (proj2 (Z.leb_le _ _) Hts). simpl. unfold smoker. simpl.
  eexists. split; [done|]. simpl. rewrite ?fn_lookup_insert, Eo. unfold sem_post.
  split; [lia|done].
Qed.

(** C31: once ten seconds have passed since the Epoch, as they have, no smoker ever
    waits: sem_timedwait fails at once and its result is not looked at. A smoker
    makes any number of cigarettes without a single item, and each of them lets one
    more agent in (up to the largest value of a semaphore). *)
Theorem smokers_do_not_wait t :
  times t = true -> ts <= t ->
  (forall s k, (k < 6)%nat -> exec (Smoker k t) s ≠ None) /\
  forall n : nat, Z.of_nat n < 2 ^ 31 - 1 -> exists s, rtc (tstep exec) initial s /\
    cigarettes (output s) = Z.of_nat n /\ pairs_given (output s) = 0 /\ agent_lock s = 1 + Z.of_nat n.
Proof.
  intros Ht Hts. split.
  - intros s k Hk. simpl. rewrite (proj2 (Nat.ltb_lt _ _) Hk), Ht. simpl. unfold smoker.
    destruct (smokers s k); [|done]. unfold sem_timedwait. destruct (_ <? _); [done|].
    by rewrite (proj2 (Z.leb_le _ _) Hts).
  - intros n Hn. enough (exists s, rtc (tstep exec) initial s /\ agent_lock s = 1 + Z.of_nat n /\
      smokers s 0 = SWait /\ smoker_semaphors s 0 = 0 /\ output s = replicate n (Making 0 false))
      as (s&R&El&_&_&Eo).
    { exists s. split; [done|]. rewrite Eo. split; [|split; [|done]]; clear; induction n; simpl in *; lia. }
    clear Hn. induction n as [|n (s&R&El&Es&Em&Eo)]; [by exists initial|].
    destruct (smoker_alone t s n Ht Hts El Es Em Eo) as (s'&E&?&?&?&?).
    exists s'. split; [|done]. etrans; [exact R|by eapply exec_all_reach].
Qed.
End Smokers.

(** Agent 0 puts down items 0 and 1, and the admins pass them on to smoker 2; the
    clock is at 5 seconds. *)
Lemma smokers_conserve_items_witness :
  exists s, rtc (tstep (exec (fun t => t =? 5))) initial s /\ output s = [Making 2 true; Giving 0] /\
    here s 1 + used s 1 = items_put s 1 /\ items_put s 1 = 1 /\ ~ halted (exec (fun t => t =? 5)) s.
Proof.
  destruct (ends_in_spec (exec (fun t => t =? 5))
    (replicate 4 (Agent 0) ++ replicate 4 (Admin 0) ++ replicate 4 (Admin 1) ++ [Smoker 2 5]) initial
    (fun s => match output s with [Making 2 true; Giving 0] => items_put s 1 =? 1 | _ => false end)) as (s&E&H);
    [by vm_compute|].
  assert (rtc (tstep (exec (fun t => t =? 5))) initial s) as R by (eapply exec_all_reach; exact E).
  destruct (smokers_conserve_items (fun t => t =? 5) s R) as (_&_&_&_&Hd).
  destruct Hd as (He&_&_&Hh).
  - intros t Ht. apply Z.eqb_eq in Ht. unfold ts. lia.
  - exists s. split; [exact R|].
    destruct (output s) as [|[[|[|[|]]] []|] [|[|[]] []]]; try discriminate H.
    split; [reflexivity|]. split; [apply (He 1%nat); lia|]. split; [by apply Z.eqb_eq|]. by apply (Hh 5).
Defined.

(** The year is 2015; three cigarettes without an item. *)
Lemma smokers_do_not_wait_witness :
  exists s, rtc (tstep (exec (fun t => t =? 1430000000))) initial s /\
    cigarettes (output s) = 3 /\ pairs_given (output s) = 0 /\ agent_lock s = 4.
Proof.
  destruct (smokers_do_not_wait (fun t => t =? 1430000000) 1430000000) as [_ H].
  - by vm_compute.
  - unfold ts. lia.
  - apply (H 3%nat). lia.
Defined.
