(* ===== verification/Bits.v ===== *)
(** Words of at most [n] bits, and functions that are linear over exclusive or:
    two linear functions that agree on the powers of two below 2^n agree on all
    words of [n] bits. *)
From S2P Require Import Prelude.

Definition word (n x : Z) : Prop := 0 <= x < 2 ^ n.

Lemma word_mod n x : 0 <= n -> word n x <-> x mod 2 ^ n = x.
Proof.
  intros Hn. split; [apply Z.mod_small|]. intros <-. apply Z.mod_pos_bound. lia.
Qed.

(** A word has no bit from [n] on. *)
Lemma word_bits n x : 0 <= n -> (word n x <-> 0 <= x /\ forall i, n <= i -> Z.testbit x i = false).
Proof.
  intros Hn. split.
  - intros [H0 H1]. split; [done|]. intros i Hi. rewrite <- (Z.mod_small x (2 ^ n)) by done.
    by apply Z.mod_pow2_bits_high; lia.
  - intros [H0 H]. apply word_mod; [done|]. apply Z.bits_inj'. intros i Hi.
    destruct (decide (i < n)) as [Hlt|Hge].
    + by apply Z.mod_pow2_bits_low.
    + rewrite H by lia. apply Z.mod_pow2_bits_high. lia.
Qed.

Lemma word_lxor n x y : 0 <= n -> word n x -> word n y -> word n (x .^ y).
Proof.
  intros Hn Hx Hy. apply word_bits in Hx as [X0 X], Hy as [Y0 Y]; [|done..]. apply word_bits; [done|].
  split; [by apply Z.lxor_nonneg|]. intros i Hi. by rewrite Z.lxor_spec, X, Y.
Qed.

Lemma word_land n x y : 0 <= n -> 0 <= x -> word n y -> word n (x .& y).
Proof.
  intros Hn X0 Hy. apply word_bits in Hy as [Y0 Y]; [|done]. apply word_bits; [done|].
  split; [apply Z.land_nonneg; by left|]. intros i Hi. by rewrite Z.land_spec, Y, andb_false_r.
Qed.

Lemma word_lor n x y : 0 <= n -> word n x -> word n y -> word n (x .| y).
Proof.
  intros Hn Hx Hy. apply word_bits in Hx as [X0 X], Hy as [Y0 Y]; [|done..]. apply word_bits; [done|].
  split; [by apply Z.lor_nonneg|]. intros i Hi. by rewrite Z.lor_spec, X, Y.
Qed.

Lemma word_shiftr n x k : 0 <= k -> word n x -> word n (Z.shiftr x k).
Proof.
  intros Hk [H0 H1]. rewrite Z.shiftr_div_pow2 by done. pose proof (Z.pow_pos_nonneg 2 k).
  split; [apply Z.div_pos; lia|]. apply Z.div_lt_upper_bound; nia.
Qed.

(** ** Linear functions *)
Definition linear (f : Z -> Z) : Prop := f 0 = 0 /\ forall x y, f (x .^ y) = f x .^ f y.

Lemma linear_id : linear (fun x => x).
Proof. done. Qed.

Lemma linear_lxor f g : linear f -> linear g -> linear (fun x => f x .^ g x).
Proof.
  intros [F0 F] [G0 G]. split; [by rewrite F0, G0|]. intros x y. rewrite F, G.
  rewrite !Z.lxor_assoc. f_equal. rewrite <- !Z.lxor_assoc. f_equal. apply Z.lxor_comm.
Qed.

Lemma linear_land f m : linear f -> linear (fun x => f x .& m).
Proof.
  intros [F0 F]. split; [by rewrite F0|]. intros x y. rewrite F. apply Z.bits_inj'. intros i Hi.
  rewrite !Z.lxor_spec, !Z.land_spec, Z.lxor_spec. by do 3 destruct (Z.testbit _ _).
Qed.

Lemma linear_shiftr f k : linear f -> linear (fun x => Z.shiftr (f x) k).
Proof. intros [F0 F]. split; [by rewrite F0, Z.shiftr_0_l|]. intros x y. rewrite F. apply Z.shiftr_lxor. Qed.

Lemma linear_shiftl f k : linear f -> linear (fun x => Z.shiftl (f x) k).
Proof. intros [F0 F]. split; [by rewrite F0, Z.shiftl_0_l|]. intros x y. rewrite F. apply Z.shiftl_lxor. Qed.

Lemma linear_wrapu f w : 0 <= w -> linear f -> linear (fun x => wrapu w (f x)).
Proof.
  intros Hw [F0 F]. split; [rewrite F0; unfold wrapu; apply Zmod_0_l|]. intros x y. rewrite F. unfold wrapu.
  rewrite <- !Z.land_ones by done. apply Z.bits_inj'. intros i Hi.
  rewrite !Z.lxor_spec, !Z.land_spec, Z.lxor_spec. by do 3 destruct (Z.testbit _ _).
Qed.

Lemma linear_compose f g : linear f -> linear g -> linear (fun x => f (g x)).
Proof. intros [F0 F] [G0 G]. split; [by rewrite G0, F0|]. intros x y. by rewrite G, F. Qed.

(** A word is its lower bits and its top bit. *)
Lemma word_split (n : nat) x :
  word (Z.of_nat (S n)) x ->
  x = x mod 2 ^ Z.of_nat n .^ (if Z.testbit x (Z.of_nat n) then 2 ^ Z.of_nat n else 0).
Proof.
  intros Hx. apply word_bits in Hx as [H0 Hh]; [|lia]. apply Z.bits_inj'. intros i Hi.
  rewrite Z.lxor_spec. destruct (Z.lt_trichotomy i (Z.of_nat n)) as [Hlt|[->|Hgt]].
  - rewrite Z.mod_pow2_bits_low by lia. destruct (Z.testbit x (Z.of_nat n)).
    + rewrite Z.pow2_bits_false by lia. by rewrite xorb_false_r.
    + by rewrite Z.bits_0, xorb_false_r.
  - rewrite Z.mod_pow2_bits_high by lia. destruct (Z.testbit x (Z.of_nat n)) eqn:E.
    + by rewrite Z.pow2_bits_true by lia.
    + by rewrite Z.bits_0.
  - rewrite Z.mod_pow2_bits_high by lia. rewrite Hh by lia. destruct (Z.testbit x (Z.of_nat n)).
    + by rewrite Z.pow2_bits_false by lia.
    + by rewrite Z.bits_0.
Qed.

Definition agree_on_basis (n : nat) (f g : Z -> Z) : bool :=
  forallb (fun i => f (2 ^ Z.of_nat i) =? g (2 ^ Z.of_nat i)) (seq 0 n).

Lemma linear_agree (n : nat) f g x :
  linear f -> linear g -> agree_on_basis n f g = true -> word (Z.of_nat n) x -> f x = g x.
Proof.
  intros [F0 F] [G0 G]. revert x. induction n as [|n IH]; intros x B Hx.
  - unfold word in Hx. simpl in Hx. assert (x = 0) as -> by lia. congruence.
  - unfold agree_on_basis in B. rewrite seq_S, forallb_app in B. apply andb_true_iff in B as [B1 B2].
    simpl in B2. rewrite andb_true_r in B2. apply Z.eqb_eq in B2.
    rewrite (word_split n x Hx), F, G. f_equal.
    + apply IH; [done|]. apply Z.mod_pos_bound. lia.
    + by destruct (Z.testbit x (Z.of_nat n)); [|rewrite F0].
Qed.
