(* ===== verification/Mt19937.v ===== *)
(** The Mersenne twister of assignments/a1/mt19937ar.c, and random_gen of
    producer.c that draws from it. An unsigned long has [w] bits, 32 or more; a
    state is the array mt[] and the index mti. SpecFloat is the Standard Library's
    specification of binary64, against which the rounding is compared. *)
From Stdlib Require Import Znumtheory Floats.SpecFloat.
From S2P Require Import Prelude Bits.

Definition N : nat := 624.
Definition M : nat := 397.
Definition MATRIX_A : Z := 0x9908b0df.
Definition UPPER_MASK : Z := 0x80000000.
Definition LOWER_MASK : Z := 0x7fffffff.
Definition MASK32 : Z := 0xffffffff.

Record mt_state : Type := mk_mt { mt : list Z; mti : nat }.

(** mt[i] *)
Definition word_at (l : list Z) (i : nat) : Z := l !!! i.

Section Mt19937.
Variable w : Z.

(** One step of the loop of init_genrand. *)
Definition seed_word (prev : Z) (i : nat) : Z :=
  wrapu w (wrapu w (1812433253 * (prev .^ Z.shiftr prev 30)) + Z.of_nat i) .& MASK32.

Definition init_genrand (s : Z) (l : list Z) : mt_state :=
  let l := <[O := s .& MASK32]> l in
  mk_mt (fold_left (fun l i => <[i := seed_word (word_at l (i - 1)) i]> l) (seq 1 (N - 1)) l) N.

(** (mt[i] ^ ((mt[i-1] ^ (mt[i-1] >> 30)) * mult)) *)
Definition mix (mult prev cur : Z) : Z := cur .^ wrapu w ((prev .^ Z.shiftr prev 30) * mult).

(** i++, with the wrap-around of both loops of init_by_array. *)
Definition next_i (i : nat) (l : list Z) : nat * list Z :=
  let i := (i + 1)%nat in
  if (N <=? i)%nat then (1%nat, <[O := word_at l (N - 1)]> l) else (i, l).

Fixpoint key_loop (k : nat) (key : list Z) (i j : nat) (l : list Z) : nat * list Z :=
  match k with
  | O => (i, l)
  | S k =>
      let x := wrapu w (wrapu w (mix 1664525 (word_at l (i - 1)) (word_at l i) + word_at key j) + Z.of_nat j) in
      let l := <[i := x .& MASK32]> l in
      let '(i, l) := next_i i l in
      let j := (j + 1)%nat in
      let j := if (length key <=? j)%nat then O else j in
      key_loop k key i j l
  end.

Fixpoint stir_loop (k i : nat) (l : list Z) : nat * list Z :=
  match k with
  | O => (i, l)
  | S k =>
      let x := wrapu w (mix 1566083941 (word_at l (i - 1)) (word_at l i) - Z.of_nat i) in
      let l := <[i := x .& MASK32]> l in
      let '(i, l) := next_i i l in
      stir_loop k i l
  end.

Definition init_by_array (key : list Z) (l : list Z) : mt_state :=
  let s := init_genrand 19650218 l in
  let '(i, l) := key_loop (Nat.max N (length key)) key 1 0 (mt s) in
  let '(_, l) := stir_loop (N - 1) i l in
  mk_mt (<[O := 0x80000000]> l) (mti s).

Definition mag01 (x : Z) : Z := if x =? 0 then 0 else MATRIX_A.

(** mt[kk] from mt[kk], mt[kk+1] and the word [far] places on. *)
Definition twist_word (a b far : Z) : Z :=
  let y := (a .& UPPER_MASK) .| (b .& LOWER_MASK) in
  (far .^ Z.shiftr y 1) .^ mag01 (y .& 1).

Definition twist (l : list Z) : list Z :=
  let l := fold_left (fun l kk =>
    <[kk := twist_word (word_at l kk) (word_at l (kk + 1)) (word_at l (kk + M))]> l) (seq 0 (N - M)) l in
  let l := fold_left (fun l kk =>
    <[kk := twist_word (word_at l kk) (word_at l (kk + 1)) (word_at l (kk + M - N))]> l)
    (seq (N - M) (M - 1)) l in
  <[(N - 1)%nat := twist_word (word_at l (N - 1)) (word_at l 0) (word_at l (M - 1))]> l.

Definition temper (y : Z) : Z :=
  let y := y .^ Z.shiftr y 11 in
  let y := y .^ (wrapu w (Z.shiftl y 7) .& 0x9d2c5680) in
  let y := y .^ (wrapu w (Z.shiftl y 15) .& 0xefc60000) in
  y .^ Z.shiftr y 18.

Definition genrand_int32 (s : mt_state) : mt_state * Z :=
  let s :=
    if (N <=? mti s)%nat then
      let s := if (mti s =? N + 1)%nat then init_genrand 5489 (mt s) else s in
      mk_mt (twist (mt s)) 0
    else s in
  (mk_mt (mt s) (mti s + 1), temper (word_at (mt s) (mti s))).

Definition genrand_int31 (s : mt_state) : mt_state * Z :=
  let '(s, y) := genrand_int32 s in (s, Z.shiftr y 1).

(** The doubles: a pair [(n, d)] is n / 2^d. A product with a power of two and a sum
    below 2^53 are exact; the product of genrand_real1 is rounded. *)

(** n / 2^k and n / m, to the nearest integer, and to the even one in the middle. *)
Definition round_div (n m : Z) : Z :=
  let q := n / m in
  let r := n mod m in
  if 2 * r <? m then q else if m <? 2 * r then q + 1 else if Z.even q then q else q + 1.

(** The double nearest to n / 2^d: 53 significant bits. *)
Definition round53 (n d : Z) : Z * Z :=
  let k := Z.log2 n - 52 in
  if k <=? 0 then (n, d) else (round_div n (2 ^ k), d - k).

(** 1.0/4294967295.0, whose exponent is -84. *)
Definition inv_max : Z := round_div (2 ^ 84) 4294967295.

Definition genrand_real1 (s : mt_state) : mt_state * (Z * Z) :=
  let '(s, y) := genrand_int32 s in (s, round53 (y * inv_max) 84).

Definition genrand_real2 (s : mt_state) : mt_state * (Z * Z) :=
  let '(s, y) := genrand_int32 s in (s, (y, 32)).

Definition genrand_real3 (s : mt_state) : mt_state * (Z * Z) :=
  let '(s, y) := genrand_int32 s in (s, (2 * y + 1, 33)).

Definition genrand_res53 (s : mt_state) : mt_state * (Z * Z) :=
  let '(s, y) := genrand_int32 s in
  let a := Z.shiftr y 5 in
  let '(s, y) := genrand_int32 s in
  let b := Z.shiftr y 6 in
  (s, (a * 67108864 + b, 53)).

(** random_gen of producer.c: [ecx] is what cpuid answers, [rd] what rdrand
    delivers, [seed] what the variable seed, which is never set, contains. *)
Definition random_gen (ecx rd seed : Z) (s : mt_state) : mt_state * Z :=
  if negb (ecx .& 0x40000000 =? 0) then (s, rd)
  else
    let s := init_genrand seed (mt s) in
    let '(s, y) := genrand_int32 s in
    (s, wrapu w (wraps 32 (Z.abs (wraps 32 y)))).
End Mt19937.

(** static unsigned long mt[N]; static int mti = N+1 *)
Definition mt_static : mt_state := mk_mt (replicate N 0) (N + 1).

(** The inverse of the tempering. *)
Definition untemper (y : Z) : Z :=
  let y := y .^ Z.shiftr y 18 in
  let y := y .^ (Z.shiftl y 15 .& 0xefc60000) in
  let step x := y .^ (Z.shiftl x 7 .& 0x9d2c5680) in
  let y := step (step (step (step y))) in
  y .^ Z.shiftr (y .^ Z.shiftr y 11) 11.

(** ** Ranges *)
Definition mt_ok (l : list Z) : Prop := length l = N /\ Forall (word 32) l.

Lemma word_at_ok l i : mt_ok l -> word 32 (word_at l i).
Proof.
  intros [_ F]. unfold word_at. destruct (decide (i < length l)%nat) as [Hi|Hi].
  - rewrite Forall_forall in F. apply F. by apply list_elem_of_lookup_total_2.
  - rewrite list_lookup_total_alt, (proj2 (lookup_ge_None l i)) by lia. done.
Qed.

Lemma mt_ok_insert l i x : mt_ok l -> word 32 x -> mt_ok (<[i := x]> l).
Proof. intros [H F] Hx. split; [by rewrite length_insert|by apply Forall_insert]. Qed.

Lemma fold_ok (f : list Z -> nat -> list Z) js l :
  (forall l i, mt_ok l -> mt_ok (f l i)) -> mt_ok l -> mt_ok (fold_left f js l).
Proof. intros Hf. revert l. induction js as [|i js IH]; intros l Hl; simpl; [done|]. by apply IH, Hf. Qed.

Lemma mask32_ok x : word 32 (x .& MASK32).
Proof. unfold MASK32. change 0xffffffff with (Z.ones 32). rewrite Z.land_ones by done. by apply Z.mod_pos_bound. Qed.

Lemma init_ok w s l : mt_ok l -> mt_ok (mt (init_genrand w s l)).
Proof.
  intros Hl. unfold init_genrand. cbn [mt]. apply fold_ok.
  - intros l' i Hl'. apply mt_ok_insert; [done|apply mask32_ok].
  - apply mt_ok_insert; [done|apply mask32_ok].
Qed.

Lemma twist_word_ok a b far : word 32 a -> word 32 b -> word 32 far -> word 32 (twist_word a b far).
Proof.
  intros Ha Hb Hf. unfold twist_word.
  assert (word 32 ((a .& UPPER_MASK) .| (b .& LOWER_MASK))) as Hy.
  { apply word_lor; [done|..]; (apply word_land; [done| |done]); [apply Ha|apply Hb]. }
  apply word_lxor; [done|..]; [apply word_lxor; [done|done|by apply word_shiftr]|].
  unfold mag01. by destruct (_ =? 0).
Qed.

Lemma twist_ok l : mt_ok l -> mt_ok (twist l).
Proof.
  assert (forall l i j k, mt_ok l -> word 32 (twist_word (word_at l i) (word_at l j) (word_at l k))) as Ht.
  { intros l' i j k Hl. by apply twist_word_ok; apply word_at_ok. }
  intros Hl. unfold twist. apply mt_ok_insert; [|apply Ht].
  all: repeat (apply fold_ok; [intros; by apply mt_ok_insert; [|apply Ht]|]); done.
Qed.

(** *** Tempering *)
Ltac linear_solve :=
  repeat first
    [ apply linear_lxor | apply linear_land | apply linear_shiftr | apply linear_shiftl
    | apply linear_wrapu; [lia|] | apply linear_id ].

Lemma temper_linear w : 0 <= w -> linear (temper w).
Proof. intros Hw. unfold temper. linear_solve. Qed.

Lemma untemper_linear : linear untemper.
Proof. unfold untemper. linear_solve. Qed.

Lemma wrapu_mask w x m : 32 <= w -> word 32 m -> wrapu w x .& m = x .& m.
Proof.
  intros Hw Hm. apply word_bits in Hm as [M0 Hm]; [|done]. unfold wrapu.
  rewrite <- Z.land_ones by lia. apply Z.bits_inj'. intros i Hi. rewrite !Z.land_spec.
  destruct (decide (i < 32)) as [Hlt|Hge].
  - rewrite Z.testbit_ones_nonneg by lia. rewrite (proj2 (Z.ltb_lt i w)) by lia. by rewrite andb_true_r.
  - by rewrite Hm, !andb_false_r by lia.
Qed.

(** The width of a long does not matter. *)
Lemma temper_width w y : 32 <= w -> temper w y = temper 32 y.
Proof. intros Hw. unfold temper. by rewrite !wrapu_mask by done. Qed.

Lemma temper_ok w y : 32 <= w -> word 32 y -> word 32 (temper w y).
Proof.
  intros Hw Hy. rewrite temper_width by done. apply word_mod; [done|].
  change (wrapu 32 (temper 32 y) = temper 32 y).
  apply (linear_agree 32 (fun y => wrapu 32 (temper 32 y)) (temper 32)); try done.
  - by apply linear_wrapu, temper_linear.
  - by apply temper_linear.
Qed.

Lemma untemper_temper w y : 32 <= w -> word 32 y -> untemper (temper w y) = y.
Proof.
  intros Hw Hy. rewrite temper_width by done.
  apply (linear_agree 32 (fun y => untemper (temper 32 y)) (fun y => y)); try done.
  by apply linear_compose; [apply untemper_linear|apply temper_linear].
Qed.

Lemma seed_word_width w prev i : 32 <= w -> seed_word w prev i = seed_word 32 prev i.
Proof.
  intros Hw. unfold seed_word. rewrite !wrapu_mask by done. unfold MASK32.
  change 0xffffffff with (Z.ones 32). rewrite !Z.land_ones by done. unfold wrapu.
  set (x := 1812433253 * _). rewrite <- (Zplus_mod_idemp_l (x mod 2 ^ w)).
  rewrite <- (Zmod_div_mod (2 ^ 32) (2 ^ w)); [done|done|apply Z.pow_pos_nonneg; lia|].
  exists (2 ^ (w - 32)). rewrite <- Z.pow_add_r by lia. f_equal. lia.
Qed.

(** *** The generator *)
Definition gen_ok (s : mt_state) : Prop := mt_ok (mt s) /\ (mti s <= N + 1)%nat.

Lemma fold_left_ext {A B} (f g : A -> B -> A) l a :
  (forall a b, f a b = g a b) -> fold_left f l a = fold_left g l a.
Proof. intros E. revert a. induction l as [|b l IH]; intros a; simpl; [done|]. by rewrite E. Qed.

Lemma init_width w s l : 32 <= w -> init_genrand w s l = init_genrand 32 s l.
Proof.
  intros Hw. unfold init_genrand.
  rewrite (fold_left_ext _ (fun l i => <[i := seed_word 32 (word_at l (i - 1)) i]> l)); [reflexivity|].
  intros l' i. by rewrite seed_word_width.
Qed.

(** All words are written, so the old contents of the array do not matter. *)
Lemma seed_fold_agree w (n k : nat) l l' :
  length l = length l' -> (1 <= k)%nat -> (k + n = length l)%nat -> take k l = take k l' ->
  fold_left (fun l i => <[i := seed_word w (word_at l (i - 1)) i]> l) (seq k n) l =
  fold_left (fun l i => <[i := seed_word w (word_at l (i - 1)) i]> l) (seq k n) l'.
Proof.
  revert k l l'. induction n as [|n IH]; intros k l l' El Hk Hl Ht; simpl.
  - rewrite <- (take_ge l k), <- (take_ge l' k) by lia. done.
  - assert (word_at l (k - 1) = word_at l' (k - 1)) as ->.
    { unfold word_at. rewrite !list_lookup_total_alt.
      rewrite <- (lookup_take_lt l k), <- (lookup_take_lt l' k) by lia. by rewrite Ht. }
    set (x := seed_word _ _ _). apply IH; rewrite ?length_insert; try lia.
    rewrite !(take_S_r _ _ x), !take_insert_ge by (done || (apply list_lookup_insert_eq; lia)). by rewrite Ht.
Qed.

Lemma init_genrand_forgets w s l l' :
  length l = N -> length l' = N -> init_genrand w s l = init_genrand w s l'.
Proof.
  intros E E'. unfold init_genrand.
  rewrite (seed_fold_agree w (N - 1) 1 (<[O := s .& MASK32]> l) (<[O := s .& MASK32]> l'));
    rewrite ?length_insert, ?E, ?E'; [reflexivity|reflexivity|lia|reflexivity|].
  destruct l as [|a l], l' as [|a' l']; reflexivity || discriminate.
Qed.

Lemma next_i_ok i l : mt_ok l -> mt_ok (next_i i l).2.
Proof. intros Hl. unfold next_i. destruct (_ <=? _)%nat; [by apply mt_ok_insert; [|apply word_at_ok]|done]. Qed.

(** Both loops stay between 1 and N - 1, so mt[i] and mt[i-1] exist. *)
Lemma next_i_range i l : (1 <= i < N)%nat -> (1 <= (next_i i l).1 < N)%nat.
Proof. intros Hi. unfold next_i. destruct (Nat.leb_spec N (i + 1)); [unfold N; simpl; lia|simpl; lia]. Qed.

Lemma key_loop_ok w k key i j l :
  mt_ok l -> (1 <= i < N)%nat -> mt_ok (key_loop w k key i j l).2 /\ (1 <= (key_loop w k key i j l).1 < N)%nat.
Proof.
  revert i j l. induction k as [|k IH]; intros i j l Hl Hi; [by split|]. cbn [key_loop].
  set (l1 := <[i := _]> l). assert (mt_ok l1) as H1 by (apply mt_ok_insert; [done|apply mask32_ok]).
  pose proof (next_i_ok i l1 H1). pose proof (next_i_range i l1 Hi). destruct (next_i i l1). by apply IH.
Qed.

Lemma stir_loop_ok w k i l :
  mt_ok l -> (1 <= i < N)%nat -> mt_ok (stir_loop w k i l).2 /\ (1 <= (stir_loop w k i l).1 < N)%nat.
Proof.
  revert i l. induction k as [|k IH]; intros i l Hl Hi; [by split|]. cbn [stir_loop].
  set (l1 := <[i := _]> l). assert (mt_ok l1) as H1 by (apply mt_ok_insert; [done|apply mask32_ok]).
  pose proof (next_i_ok i l1 H1). pose proof (next_i_range i l1 Hi). destruct (next_i i l1). by apply IH.
Qed.

Lemma init_by_array_ok w key l :
  mt_ok l -> let s := init_by_array w key l in
  gen_ok s /\ mti s = N /\ word_at (mt s) 0 = 0x80000000.
Proof.
  intros Hl. pose proof (init_ok w 19650218 l Hl) as H0. unfold init_by_array.
  assert (1 <= 1 < N)%nat as H1 by (unfold N; lia).
  destruct (key_loop_ok w (Nat.max N (length key)) key 1 0 _ H0 H1) as [Hk Hi].
  destruct (key_loop w _ key 1 0 _) as [i l1]. simpl in Hk, Hi.
  destruct (stir_loop_ok w (N - 1) i l1 Hk Hi) as [Hs _]. destruct (stir_loop w (N - 1) i l1) as [i2 l2].
  simpl in Hs. assert (mt_ok (<[O := 0x80000000]> l2)) as Hf by (by apply mt_ok_insert).
  split; [split; [exact Hf|cbn [mti init_genrand]; unfold N; lia]|]. split; [reflexivity|].
  cbn [mt]. unfold word_at. apply list_lookup_total_insert_eq. destruct Hs as [-> _]. unfold N. lia.
Qed.

(** *** Widths in init_by_array *)
Lemma mod_wider w x : 32 <= w -> (x mod 2 ^ w) mod 2 ^ 32 = x mod 2 ^ 32.
Proof.
  intros Hw. rewrite <- (Zmod_div_mod (2 ^ 32) (2 ^ w)); [done|done|apply Z.pow_pos_nonneg; lia|].
  exists (2 ^ (w - 32)). rewrite <- Z.pow_add_r by lia. f_equal. lia.
Qed.

Lemma mask32_mod x : x .& MASK32 = x mod 2 ^ 32.
Proof. unfold MASK32. change 0xffffffff with (Z.ones 32). by rewrite Z.land_ones. Qed.

Lemma mod_lxor x y : (x .^ y) mod 2 ^ 32 = (x mod 2 ^ 32) .^ (y mod 2 ^ 32).
Proof. rewrite <- !Z.land_ones by done. apply Z.bits_inj'. intros i _. rewrite !Z.lxor_spec, !Z.land_spec, Z.lxor_spec.
  by destruct (Z.testbit x i), (Z.testbit y i), (Z.testbit (Z.ones 32) i). Qed.

Lemma mix_mod w mult prev cur : 32 <= w -> mix w mult prev cur mod 2 ^ 32 = mix 32 mult prev cur mod 2 ^ 32.
Proof. intros Hw. unfold mix, wrapu. rewrite !mod_lxor, mod_wider by done. by rewrite Zmod_mod. Qed.

Lemma key_word_width w m prev cur x j : 32 <= w ->
  wrapu w (wrapu w (mix w m prev cur + x) + j) .& MASK32 =
  wrapu 32 (wrapu 32 (mix 32 m prev cur + x) + j) .& MASK32.
Proof.
  intros Hw. rewrite !mask32_mod. unfold wrapu. rewrite !mod_wider by lia.
  rewrite <- (Zplus_mod_idemp_l (_ mod 2 ^ w)), mod_wider by done.
  rewrite <- (Zplus_mod_idemp_l (mix w m prev cur)), mix_mod by done.
  by rewrite !Zplus_mod_idemp_l, <- !Z.add_assoc, Zplus_mod_idemp_l.
Qed.

Lemma stir_word_width w m prev cur j : 32 <= w ->
  wrapu w (mix w m prev cur - j) .& MASK32 = wrapu 32 (mix 32 m prev cur - j) .& MASK32.
Proof.
  intros Hw. rewrite !mask32_mod. unfold wrapu. rewrite !mod_wider by lia.
  rewrite <- (Zminus_mod_idemp_l (mix w m prev cur)), mix_mod by done. by rewrite Zminus_mod_idemp_l.
Qed.

Lemma key_loop_width w k key i j l : 32 <= w -> key_loop w k key i j l = key_loop 32 k key i j l.
Proof.
  intros Hw. revert i j l. induction k as [|k IH]; intros i j l; [done|]. cbn [key_loop].
  rewrite key_word_width by done. destruct (next_i _ _). apply IH.
Qed.

Lemma stir_loop_width w k i l : 32 <= w -> stir_loop w k i l = stir_loop 32 k i l.
Proof.
  intros Hw. revert i l. induction k as [|k IH]; intros i l; [done|]. cbn [stir_loop].
  rewrite stir_word_width by done. destruct (next_i _ _). apply IH.
Qed.

Lemma init_by_array_width w key l : 32 <= w -> init_by_array w key l = init_by_array 32 key l.
Proof.
  intros Hw. unfold init_by_array. rewrite init_width, key_loop_width by done.
  destruct (key_loop 32 _ key 1 0 _) as [i l1]. by rewrite stir_loop_width.
Qed.

Lemma genrand_int32_ok w s :
  32 <= w -> gen_ok s ->
  let '(s1, y) := genrand_int32 w s in word 32 y /\ gen_ok s1 /\ (1 <= mti s1 <= N)%nat.
Proof.
  intros Hw [Hok Hi]. unfold genrand_int32. set (s0 := if (N <=? mti s)%nat then _ else s).
  assert (mt_ok (mt s0) /\ (mti s0 < N)%nat) as [H0 H1].
  { unfold s0. destruct (Nat.leb_spec N (mti s)); [|by split]. split; [|unfold N; simpl; lia].
    cbn [mt]. apply twist_ok. destruct (_ =? _)%nat; [by apply init_ok|done]. }
  split; [by apply temper_ok, word_at_ok|]. split; [split; cbn [mt mti]; [done|lia]|cbn [mti]; lia].
Qed.

Lemma shiftr_word y k : word 32 y -> 0 <= k <= 32 -> 0 <= Z.shiftr y k < 2 ^ (32 - k).
Proof.
  intros [Y0 Y1] Hk. rewrite Z.shiftr_div_pow2 by lia. assert (0 < 2 ^ k) by (apply Z.pow_pos_nonneg; lia).
  split; [by apply Z.div_pos|]. apply Z.div_lt_upper_bound; [done|]. rewrite <- Z.pow_add_r by lia.
  by replace (k + (32 - k)) with 32 by lia.
Qed.

(** Rounding does not pass a power of two. *)
Lemma round_div_range n m b : 0 < m -> 0 <= n <= b * m -> 0 <= round_div n m <= b.
Proof.
  intros Hm Hn. unfold round_div. pose proof (Z.div_mod n m ltac:(lia)). pose proof (Z.mod_pos_bound n m Hm).
  assert (0 <= n / m) by (apply Z.div_pos; lia).
  assert (n / m <= b) by nia. assert (0 < n mod m -> n / m + 1 <= b) by nia.
  zcase; [lia|]. zcase; [lia|]. destruct (Z.even (n / m)); lia.
Qed.

Lemma round53_range n d : 0 <= n <= 2 ^ d -> 0 <= d ->
  let '(n', d') := round53 n d in 0 <= n' <= 2 ^ d'.
Proof.
  intros Hn Hd. unfold round53. zcase; [done|].
  assert (Z.log2 n <= d) by (rewrite <- (Z.log2_pow2 d) by done; apply Z.log2_le_mono; lia).
  apply round_div_range; [apply Z.pow_pos_nonneg; lia|]. rewrite <- Z.pow_add_r by lia.
  by replace (d - (Z.log2 n - 52) + (Z.log2 n - 52)) with d by lia.
Qed.

(** [round_div] is rounding to the nearest, ties to even. *)
Definition rounds (q n m : Z) : Prop :=
  2 * Z.abs (q * m - n) <= m /\ (2 * Z.abs (q * m - n) = m -> Z.even q = true).

Lemma round_div_rounds n m : 0 < m -> rounds (round_div n m) n m.
Proof.
  intros Hm. unfold rounds, round_div. pose proof (Z.div_mod n m). pose proof (Z.mod_pos_bound n m).
  assert (Z.even (n / m + 1) = negb (Z.even (n / m))) as E by (rewrite Z.even_add; by destruct (Z.even (n / m))).
  zcase; [split; intros; nia|]. zcase; [split; intros; nia|].
  destruct (Z.even (n / m)) eqn:Ev; (split; [nia|]); intros _; [done|]. by rewrite E.
Qed.

(** genrand_real1 computes a correctly rounded product: [n1] / 2^[d1] is the
    multiple of 2^-[d1] nearest to y * inv_max / 2^84, in 53 bits, and inv_max
    the integer nearest to 2^84 / (2^32 - 1). *)
Lemma genrand_real1_rounds w s :
  let '(_, y) := genrand_int32 w s in
  let '(_, (n1, d1)) := genrand_real1 w s in
  d1 <= 84 /\ rounds n1 (y * inv_max) (2 ^ (84 - d1)) /\
  (d1 < 84 -> 0 <= y -> 2 ^ 52 <= n1 <= 2 ^ 53) /\ (d1 = 84 -> n1 < 2 ^ 53) /\ rounds inv_max (2 ^ 84) 4294967295.
Proof.
  unfold genrand_real1. destruct (genrand_int32 w s) as [s1 y]. unfold round53. set (n := y * inv_max).
  assert (rounds inv_max (2 ^ 84) 4294967295) as Hi by by apply round_div_rounds.
  zcase.
  - split; [lia|]. split; [|split; [lia|split; [|done]]].
    + rewrite Z.sub_diag. split; [lia|]. intros E. lia.
    + intros _. destruct (decide (0 < n)); [|lia]. apply Z.log2_lt_pow2; lia.
  - replace (84 - (84 - (Z.log2 n - 52))) with (Z.log2 n - 52) by lia.
    set (k := Z.log2 n - 52) in *. assert (0 < 2 ^ k) as Hk by (apply Z.pow_pos_nonneg; lia).
    split; [lia|]. split; [by apply round_div_rounds|]. split; [|split; [lia|done]]. intros _ _.
    assert (0 < n) as Hn by (destruct (decide (0 < n)); [done|]; pose proof (Z.log2_nonpos n); lia).
    destruct (Z.log2_spec n Hn) as [Hlo Hhi].
    replace (Z.log2 n) with (52 + k) in Hlo by lia. replace (Z.succ (Z.log2 n)) with (53 + k) in Hhi by lia.
    rewrite Z.pow_add_r in Hlo, Hhi by lia.
    destruct (round_div_rounds n (2 ^ k) Hk) as [Hr _]. nia.
Qed.

(** C40: every number genrand_int32 returns is a 32-bit word and genrand_int31's
    are 31-bit words, also where unsigned long is wider; genrand_real1 lies in
    [0, 1], genrand_real2 and genrand_res53 in [0, 1), genrand_real3 in (0, 1); the array keeps its 624
    32-bit words, and the index stays within it. *)
Theorem genrand_ranges w s :
  32 <= w -> gen_ok s ->
  let '(s1, y) := genrand_int32 w s in
  let '(s2, z) := genrand_int31 w s in
  let '(_, (n1, d1)) := genrand_real1 w s in
  let '(_, (n2, d2)) := genrand_real2 w s in
  let '(_, (n3, d3)) := genrand_real3 w s in
  let '(_, (n, d)) := genrand_res53 w s in
  word 32 y /\ word 31 z /\ 0 <= n1 <= 2 ^ d1 /\ 0 <= n2 < 2 ^ d2 /\ 0 < n3 < 2 ^ d3 /\ 0 <= n < 2 ^ d /\
  gen_ok s1 /\ s2 = s1 /\ (1 <= mti s1 <= N)%nat.
Proof.
  intros Hw Hok. pose proof (genrand_int32_ok w s Hw Hok) as H1.
  unfold genrand_int31, genrand_real1, genrand_real2, genrand_real3, genrand_res53.
  destruct (genrand_int32 w s) as [s1 y]. destruct H1 as (Hy&Hok1&Hi).
  pose proof (genrand_int32_ok w s1 Hw Hok1) as H2. destruct (genrand_int32 w s1) as [s2 y2].
  pose proof (round53_range (y * inv_max) 84) as HR. destruct (round53 _ _) as [n1 d1].
  destruct H2 as (Hy2&_&_). split; [done|].
  pose proof (shiftr_word y 1 Hy ltac:(lia)). pose proof (shiftr_word y 5 Hy ltac:(lia)).
  pose proof (shiftr_word y2 6 Hy2 ltac:(lia)). destruct Hy as [Y0 Y1]. unfold word.
  change (2 ^ 33) with (2 * 2 ^ 32). change (2 ^ 53) with (2 ^ 27 * 67108864).
  change (32 - 1) with 31 in *. change (32 - 5) with 27 in *. change (2 ^ (32 - 6)) with 67108864 in *.
  split; [done|]. split; [apply HR; [|done]; change inv_max with 4503599628419072;
    change (2 ^ 84) with (4294967296 * 4503599627370496); lia|].
  split; [done|]. split; [lia|]. split; [nia|]. done.
Qed.

(** The tempering loses nothing: the state word can be computed back from
    each number that is returned. *)
Theorem temper_invertible w y : 32 <= w -> word 32 y -> untemper (temper w y) = y.
Proof. apply untemper_temper. Qed.

(** The generator and both seedings compute the same on machines whose
    unsigned long is wider than 32 bits, and seeding by an array leaves a
    well-formed state whose first word is not zero. *)
Theorem genrand_width w s seed key l :
  32 <= w ->
  genrand_int32 w s = genrand_int32 32 s /\ init_genrand w seed l = init_genrand 32 seed l /\
  init_by_array w key l = init_by_array 32 key l /\
  (mt_ok l -> gen_ok (init_by_array w key l) /\ word_at (mt (init_by_array w key l)) 0 = 0x80000000).
Proof.
  intros Hw. split; [|split; [by apply init_width|split; [by apply init_by_array_width|
    intros Hl; destruct (init_by_array_ok w key l Hl) as (?&_&?); done]]]. unfold genrand_int32.
  rewrite (init_width w) by done. by rewrite temper_width.
Qed.

(** Without rdrand, random_gen does not generate: it seeds the twister at
    every call, so its result is a function of the (uninitialised) seed alone,
    and two calls with the same one return the same number. *)
Theorem random_gen_repeats w ecx rd seed s s' :
  ecx .& 0x40000000 = 0 -> length (mt s) = N -> length (mt s') = N ->
  random_gen w ecx rd seed s = random_gen w ecx rd seed s'.
Proof.
  intros E Hs Hs'. unfold random_gen. rewrite E, Z.eqb_refl. cbn [negb].
  by rewrite (init_genrand_forgets w seed (mt s) (mt s')).
Qed.

Lemma mt_static_ok : gen_ok mt_static.
Proof. split; [|done]. split; [done|]. by apply Forall_replicate. Qed.

Lemma genrand_ranges_witness :
  let '(s1, y) := genrand_int32 64 mt_static in
  let '(s2, z) := genrand_int31 64 mt_static in
  let '(_, (n1, d1)) := genrand_real1 64 mt_static in
  let '(_, (n2, d2)) := genrand_real2 64 mt_static in
  let '(_, (n3, d3)) := genrand_real3 64 mt_static in
  let '(_, (n, d)) := genrand_res53 64 mt_static in
  word 32 y /\ word 31 z /\ 0 <= n1 <= 2 ^ d1 /\ 0 <= n2 < 2 ^ d2 /\ 0 < n3 < 2 ^ d3 /\ 0 <= n < 2 ^ d /\
  gen_ok s1 /\ s2 = s1 /\ (1 <= mti s1 <= N)%nat.
Proof. exact (genrand_ranges 64 mt_static ltac:(done) mt_static_ok). Defined.

Lemma temper_invertible_witness : untemper (temper 64 123456789) = 123456789.
Proof. apply temper_invertible; by vm_compute. Defined.

Lemma genrand_width_witness : genrand_int32 64 mt_static = genrand_int32 32 mt_static.
Proof. exact (proj1 (genrand_width 64 mt_static 0 [] [] ltac:(done))). Defined.

Lemma random_gen_repeats_witness :
  random_gen 64 0 7 42 mt_static = random_gen 64 0 7 42 (init_genrand 64 1 (mt mt_static)).
Proof. apply random_gen_repeats; by vm_compute. Defined.

(** The first output after the default seeding is the reference one. *)
Example first_output : snd (genrand_int32 32 mt_static) = 3499211612.
Proof. by vm_compute. Qed.

(** So is the first one after seeding with the array of mt19937ar.out. *)
Example first_output_by_array :
  snd (genrand_int32 32 (init_by_array 32 [0x123; 0x234; 0x345; 0x456] (mt mt_static))) = 1067595299.
Proof. by vm_compute. Qed.

(** The rounded product is that of the Standard Library's binary64 multiplication,
    at the ends of the range and in between; both ends of [0, 1] occur. *)
Definition double (x : Z) : spec_float := binary_normalize 53 1024 x 0 false.

Definition same_double (x : spec_float) (y : Z * Z) : bool :=
  match x with
  | S754_zero _ => y.1 =? 0
  | S754_finite false m e => (0 <=? - e) && (0 <=? y.2) && (Z.pos m * 2 ^ y.2 =? y.1 * 2 ^ (- e))
  | _ => false
  end.

Example real1_is_binary64 :
  forallb (fun y =>
    same_double (SFmul 53 1024 (double y) (SFdiv 53 1024 (double 1) (double 4294967295))) (round53 (y * inv_max) 84))
    [0; 1; 2; 3; 1048577; 123456789; 2147483647; 2147483648; 3499211612; 4294967294; 4294967295] = true /\
  round53 (0 * inv_max) 84 = (0, 84) /\ round53 (4294967295 * inv_max) 84 = (2 ^ 53, 53).
Proof. by vm_compute. Qed.
