(* ===== verification/Mt19937Seq.v ===== *)
(** What assignments/a1/mt19937ar.c computes: the Mersenne twister is defined by a
    linear recurrence of order N on 32-bit words. genrand_int32 renews the array in
    place, N words at a time, in three loops; the words it answers are those of the
    recurrence, tempered. *)
From S2P Require Import Prelude Bits Mt19937.

(** ** The recurrence *)

(** A window of N consecutive words of the sequence, and the next one. *)
Definition next_window (l : list Z) : list Z :=
  tail l ++ [twist_word (word_at l 0) (word_at l 1) (word_at l M)].

Fixpoint window (k : nat) (l : list Z) : list Z :=
  match k with O => l | S k => next_window (window k l) end.

(** The sequence that starts with the words of [l]. *)
Definition mt_word (l : list Z) (j : nat) : Z := word_at (window j l) 0.

(** [n] calls of genrand_int32. *)
Fixpoint draws (w : Z) (n : nat) (s : mt_state) : mt_state * list Z :=
  match n with
  | O => (s, [])
  | S n =>
      let '(s, y) := genrand_int32 w s in
      let '(s, ys) := draws w n s in
      (s, y :: ys)
  end.

Lemma MN : (1 < M < N)%nat.
Proof. unfold M, N. lia. Qed.

#[local] Opaque N M.

Section sequence.
Variable l : list Z.
Hypothesis Hl : length l = N.
Implicit Types (i j k : nat).

Lemma window_length k : length (window k l) = N.
Proof.
  pose proof MN. induction k as [|k IH]; simpl; [done|]. unfold next_window.
  rewrite length_app, length_tl, IH. simpl. lia.
Qed.

Lemma window_add j k : window (j + k) l = window j (window k l).
Proof. induction j as [|j IH]; simpl; [done|]. by rewrite IH. Qed.

Lemma next_window_at (v : list Z) i : (S i < length v)%nat -> word_at (next_window v) i = word_at v (S i).
Proof.
  intros Hi. destruct v as [|x v]; [simpl in Hi; lia|]. simpl in Hi. unfold next_window, word_at. simpl tail.
  by rewrite lookup_total_app_l by lia.
Qed.

Lemma window_at i k : (i < N)%nat -> word_at (window k l) i = mt_word l (k + i).
Proof.
  unfold mt_word. revert k. induction i as [|i IH]; intros k Hi; [by rewrite Nat.add_0_r|].
  rewrite <- next_window_at by by rewrite window_length.
  change (next_window (window k l)) with (window (S k) l). rewrite IH by lia. do 2 f_equal. lia.
Qed.

Lemma mt_word_start i : (i < N)%nat -> mt_word l i = word_at l i.
Proof. intros Hi. symmetry. exact (window_at i 0 Hi). Qed.

Lemma mt_word_rec j :
  mt_word l (j + N) = twist_word (mt_word l j) (mt_word l (j + 1)) (mt_word l (j + M)).
Proof.
  pose proof MN. replace (j + N)%nat with (S j + (N - 1))%nat by lia. rewrite <- window_at by lia.
  simpl window. unfold next_window, word_at at 1. rewrite lookup_total_app_r; rewrite length_tl, window_length; [|lia].
  rewrite Nat.sub_diag. simpl. rewrite !window_at by lia. by rewrite Nat.add_0_r.
Qed.
End sequence.

Lemma mt_word_window l j k : mt_word (window k l) j = mt_word l (j + k).
Proof. unfold mt_word. by rewrite window_add. Qed.

(** ** The renewal in place *)

(** The first [k] words of [v] are already those of the next window. *)
Definition renewed (l : list Z) (k : nat) (v : list Z) : Prop :=
  length v = N /\ forall i, (i < N)%nat -> word_at v i = mt_word l (if (i <? k)%nat then i + N else i).

Section renewal.
Variable l : list Z.
Hypothesis Hl : length l = N.

Lemma renewed_old k v i : renewed l k v -> (k <= i < N)%nat -> word_at v i = mt_word l i.
Proof. intros [_ H] Hi. rewrite H by lia. by rewrite (proj2 (Nat.ltb_ge i k)) by lia. Qed.

Lemma renewed_new k v i : renewed l k v -> (i < k)%nat -> (i < N)%nat -> word_at v i = mt_word l (i + N).
Proof. intros [_ H] Hi Hn. rewrite H by done. by rewrite (proj2 (Nat.ltb_lt i k)). Qed.

(** One word more, if the other two are read where the sequence has them. *)
Lemma renewed_step k v a b :
  renewed l k v -> (k < N)%nat -> word_at v a = mt_word l (k + 1) -> word_at v b = mt_word l (k + M) ->
  renewed l (S k) (<[k := twist_word (word_at v k) (word_at v a) (word_at v b)]> v).
Proof.
  intros R Hk Ea Eb. rewrite (renewed_old k v k), Ea, Eb, <- mt_word_rec by (done || lia).
  destruct R as [Hv R]. split; [by rewrite length_insert|]. intros i Hi. unfold word_at.
  destruct (decide (i = k)) as [->|Hne].
  - rewrite list_lookup_total_insert_eq by lia. by rewrite (proj2 (Nat.ltb_lt k (S k))) by lia.
  - rewrite list_lookup_total_insert_ne by done. fold (word_at v i). rewrite R by done.
    destruct (Nat.ltb_spec i k), (Nat.ltb_spec i (S k)); (done || lia).
Qed.

(** A loop over kk = k, ..., k + n - 1. *)
Lemma renewed_loop (a b : nat -> nat) n k v :
  renewed l k v -> (k + n <= N)%nat ->
  (forall kk v, (k <= kk < k + n)%nat -> renewed l kk v ->
     word_at v (a kk) = mt_word l (kk + 1) /\ word_at v (b kk) = mt_word l (kk + M)) ->
  renewed l (k + n) (fold_left (fun v kk =>
    <[kk := twist_word (word_at v kk) (word_at v (a kk)) (word_at v (b kk))]> v) (seq k n) v).
Proof.
  revert k v. induction n as [|n IH]; intros k v R Hn Hab; simpl; [by rewrite Nat.add_0_r|].
  rewrite <- Nat.add_succ_comm. destruct (Hab k v) as [Ha Hb]; [lia|done|]. apply IH; [|lia|].
  - by apply renewed_step; [|lia|..].
  - intros kk v' Hkk. apply Hab. lia.
Qed.

Lemma renewed_0 : renewed l 0 l.
Proof. split; [done|]. intros i Hi. simpl. by rewrite mt_word_start. Qed.

Lemma twist_window : twist l = window N l.
Proof.
  pose proof MN. unfold twist. set (l1 := fold_left _ (seq 0 (N - M)) l). set (l2 := fold_left _ (seq (N - M) _) l1).
  assert (renewed l (N - M) l1) as R1.
  { apply (renewed_loop (fun kk => kk + 1)%nat (fun kk => kk + M)%nat (N - M) 0 l renewed_0); [lia|].
    intros kk v Hkk R. by split; apply (renewed_old kk); try lia. }
  assert (renewed l (N - 1) l2) as R2.
  { replace (N - 1)%nat with (N - M + (M - 1))%nat by lia.
    apply (renewed_loop (fun kk => kk + 1)%nat (fun kk => kk + M - N)%nat (M - 1) (N - M) l1 R1); [lia|].
    intros kk v Hkk R. split; [apply (renewed_old kk); [done|lia]|].
    rewrite (renewed_new kk) by (done || lia). f_equal. lia. }
  assert (renewed l N (<[(N - 1)%nat := twist_word (word_at l2 (N - 1)) (word_at l2 0) (word_at l2 (M - 1))]> l2)) as R3.
  { replace N with (S (N - 1)) at 1 by lia. apply renewed_step; [done|lia|..];
      rewrite (renewed_new (N - 1)) by (done || lia); f_equal; lia. }
  destruct R3 as [L3 R3]. apply (list_eq_same_length _ _ N); [by rewrite window_length|done|].
  intros i x y Hi Ex Ey. apply list_lookup_total_correct in Ex as <-, Ey as <-.
  fold (word_at (window N l) i). rewrite (window_at l Hl) by done. unfold word_at in R3. rewrite R3 by done.
  rewrite (proj2 (Nat.ltb_lt i N)) by done. f_equal. lia.
Qed.
End renewal.

(** ** The generator *)

(** The state a call works on: the default seed if there was none. *)
Definition seeded (w : Z) (s : mt_state) : mt_state :=
  if (mti s =? N + 1)%nat then init_genrand w 5489 (mt s) else s.

Lemma init_genrand_length w x l : length l = N -> length (mt (init_genrand w x l)) = N.
Proof.
  intros Hl. unfold init_genrand. cbn [mt].
  assert (forall js v, length v = N -> length (fold_left (fun l i => <[i := seed_word w (word_at l (i - 1)) i]> l) js v) = N) as H.
  { induction js as [|j js IH]; intros v Hv; simpl; [done|]. apply IH. by rewrite length_insert. }
  apply H. by rewrite length_insert.
Qed.

(** One call moves on by one word; the array stays a window of the sequence. *)
Lemma genrand_step w s l b :
  length l = N -> mt s = window b l -> (mti s <= N)%nat ->
  exists b', genrand_int32 w s = (mk_mt (window b' l) (b + mti s + 1 - b'), temper w (mt_word l (b + mti s))) /\
    (b' <= b + mti s < b' + N)%nat.
Proof.
  intros Hl Es Hi. pose proof MN. unfold genrand_int32. destruct (Nat.leb_spec N (mti s)) as [Hn|Hn].
  - rewrite (proj2 (Nat.eqb_neq (mti s) (N + 1))) by lia. cbn [mt mti].
    rewrite Es, twist_window by by apply window_length. rewrite <- window_add.
    exists (N + b)%nat. split; [|lia]. f_equal; [f_equal; lia|].
    rewrite window_at by (done || lia). do 2 f_equal. lia.
  - exists b. split; [|lia]. rewrite Es, window_at by done. f_equal. f_equal. lia.
Qed.

Lemma draws_window w n s l b :
  length l = N -> mt s = window b l -> (mti s <= N)%nat ->
  (draws w n s).2 = (fun k => temper w (mt_word l (b + mti s + k))) <$> seq 0 n.
Proof.
  intros Hl. revert s b. induction n as [|n IH]; intros s b Es Hi; [done|].
  destruct (genrand_step w s l b Hl Es Hi) as (b'&E&Hb). cbn [draws seq fmap list_fmap]. rewrite E.
  specialize (IH (mk_mt (window b' l) (b + mti s + 1 - b')) b' eq_refl ltac:(simpl; lia)).
  destruct (draws w n _) as [s' ys]. simpl in IH |- *. rewrite Nat.add_0_r, IH. f_equal.
  rewrite <- fmap_S_seq, <- list_fmap_compose. apply list_fmap_ext. intros _ k _. simpl. do 2 f_equal. lia.
Qed.

Lemma draws_seeded w n s : draws w (S n) s = draws w (S n) (seeded w s).
Proof.
  unfold seeded. destruct (Nat.eqb_spec (mti s) (N + 1)) as [E|]; [|done].
  assert (genrand_int32 w s = genrand_int32 w (init_genrand w 5489 (mt s))) as Eg; [|cbn [draws]; by rewrite Eg].
  unfold genrand_int32. rewrite E, Nat.eqb_refl. change (mti (init_genrand w 5489 (mt s))) with N.
  rewrite (proj2 (Nat.leb_le N (N + 1))), (proj2 (Nat.leb_le N N)), (proj2 (Nat.eqb_neq N (N + 1))) by lia. done.
Qed.

(** C39: the numbers genrand_int32 answers are the tempered words of the recurrence
    of the Mersenne twister, from the word the index stands at on: the N words of
    the array come first, and every later one is the twist of the words N, N - 1
    and N - M places before it. An array that was never seeded counts as seeded
    with 5489. So renewing the array in place, N words at a time, loses nothing. *)
Theorem genrand_is_the_recurrence w s n :
  length (mt s) = N -> (mti s <= N + 1)%nat ->
  let s0 := seeded w s in
  let x := mt_word (mt s0) in
  (draws w n s).2 = (fun k => temper w (x (mti s0 + k)%nat)) <$> seq 0 n /\
  (forall j, (j < N)%nat -> x j = word_at (mt s0) j) /\
  (forall j, x (j + N)%nat = twist_word (x j) (x (j + 1)%nat) (x (j + M)%nat)).
Proof.
  intros Hl Hi s0 x.
  assert (length (mt s0) = N /\ (mti s0 <= N)%nat) as [Hl0 Hi0].
  { unfold s0, seeded. destruct (Nat.eqb_spec (mti s) (N + 1)); [|by split; [|lia]].
    split; [by apply init_genrand_length|done]. }
  split; [|split].
  - destruct n as [|n]; [done|]. rewrite draws_seeded. by apply (draws_window w (S n) s0 (mt s0) 0).
  - intros j. by apply mt_word_start.
  - by apply mt_word_rec.
Qed.

(** ** Instances *)
#[local] Transparent N M.

(** The first numbers of the reference implementation, with its default seed and
    with the key of its test program. *)
Lemma genrand_is_the_recurrence_witness :
  (draws 32 2 mt_static).2 = [3499211612; 581869302] /\
  (fun k => temper 32 (mt_word (mt (init_genrand 32 5489 (mt mt_static))) (624 + k))) <$> seq 0 2 =
    [3499211612; 581869302].
Proof.
  destruct (genrand_is_the_recurrence 32 mt_static 2) as (E&_); [by vm_compute|by apply Nat.leb_le; vm_compute|].
  assert ((draws 32 2 mt_static).2 = [3499211612; 581869302]) as V by by vm_compute.
  split; [exact V|]. rewrite V in E. symmetry. exact E.
Defined.

Example reference_output :
  (draws 64 5 (init_by_array 64 [0x123; 0x234; 0x345; 0x456] (mt mt_static))).2 =
    [1067595299; 955945823; 477289528; 4107218783; 4228976476].
Proof. by vm_compute. Qed.
